(** * The learning-path generation engine, embedded in Rocq

    A shallow embedding of the generation pipeline of the repository:
    the domain entities ([domain/entities]), the graph builder, the
    topological sorter, the milestone grouper, the override manager and
    the path generator ([application/services]).

    Conventions of the embedding.
    - A Python [float] that the code only compares and truncates
      ([complexity_score]) is the rational number it denotes ([Q]); NaN
      and the infinities are outside the type.
    - A Python [dict] is an association list in insertion order; a Python
      [set] is a duplicate-free list, and every loop over a set goes
      through an iteration-order function of the run ([Runtime]).
    - [uuid4()] is a field of the run too: its k-th call returns
      [uuid4 rt k].
    - A method that mutates its object and may raise returns the outcome
      together with the object as the exception leaves it. *)

From Stdlib Require Import List ZArith NArith QArith Bool String Ascii Lia
  Permutation Arith.
Import ListNotations.

Local Open Scope string_scope.
Local Open Scope list_scope.

(** ** Python built-ins used by the code *)

(** [str.lower()] on the ASCII letters (the phase and skill names the code
    compares against are ASCII). *)
Definition lower_ascii (c : ascii) : ascii :=
  let n := nat_of_ascii c in
  if andb (65 <=? n)%nat (n <=? 90)%nat then ascii_of_nat (n + 32) else c.

Fixpoint lower (s : string) : string :=
  match s with
  | EmptyString => EmptyString
  | String c s' => String (lower_ascii c) (lower s')
  end.

(** The characters [str.strip()] removes, among the ASCII ones. *)
Definition is_space (c : ascii) : bool :=
  let n := nat_of_ascii c in
  orb (andb (9 <=? n)%nat (n <=? 13)%nat)
      (orb (andb (28 <=? n)%nat (n <=? 31)%nat) (n =? 32)%nat).

Fixpoint all_space (s : string) : bool :=
  match s with
  | EmptyString => true
  | String c s' => andb (is_space c) (all_space s')
  end.

(** [not s or not s.strip()] *)
Definition blank (s : string) : bool := all_space s.

(** [int(x)] of a float: truncation toward zero. *)
Definition py_int (x : Q) : Z := Z.quot (Qnum x) (Zpos (Qden x)).

Definition Qltb (x y : Q) : bool := negb (Qle_bool y x).

Section Sorting.
Context {A K : Type} (ltb : K -> K -> bool) (key : A -> K).

(** [x] goes in front of the first element that is not smaller than it:
    an element equal to [x] stays behind [x], which came first. *)
Fixpoint insert_by (x : A) (l : list A) : list A :=
  match l with
  | [] => [x]
  | y :: l' => if ltb (key y) (key x) then y :: insert_by x l'
               else x :: y :: l'
  end.

(** [sorted(l, key=key)] and [l.sort(key=key)]: the stable sort. *)
Fixpoint py_sorted (l : list A) : list A :=
  match l with
  | [] => []
  | x :: l' => insert_by x (py_sorted l')
  end.
End Sorting.

Section Dict.
Context {K V : Type} (eqb : K -> K -> bool).

(** [d.get(k)] *)
Fixpoint dict_get (k : K) (d : list (K * V)) : option V :=
  match d with
  | [] => None
  | (k', v) :: d' => if eqb k k' then Some v else dict_get k d'
  end.

(** [d[k] = v]: a present key keeps its place, a new one goes last. *)
Fixpoint dict_set (k : K) (v : V) (d : list (K * V)) : list (K * V) :=
  match d with
  | [] => [(k, v)]
  | (k', v') :: d' =>
      if eqb k k' then (k', v) :: d' else (k', v') :: dict_set k v d'
  end.

Definition dict_values (d : list (K * V)) : list V := map snd d.
Definition dict_keys (d : list (K * V)) : list K := map fst d.

(** [{key(x): val(x) for x in l}] *)
Definition dict_of (l : list (K * V)) : list (K * V) :=
  fold_left (fun d kv => dict_set (fst kv) (snd kv) d) l [].
End Dict.

Section SetOps.
Context {A : Type} (eqb : A -> A -> bool).

Definition mem (x : A) (s : list A) : bool := existsb (eqb x) s.

(** [s.add(x)]: an element equal to [x] that is already there stays. *)
Definition set_add (x : A) (s : list A) : list A :=
  if mem x s then s else s ++ [x].

(** [s.discard(x)] *)
Definition set_discard (x : A) (s : list A) : list A :=
  filter (fun y => negb (eqb x y)) s.
End SetOps.

(** ** Domain entities *)

Definition UUID := N.

Inductive SkillType :=
| FRONTEND | BACKEND | DATA_SCIENCE | INFRASTRUCTURE
| MOBILE | DEVOPS | MACHINE_LEARNING | SECURITY.

Inductive SkillLevel := BASIC | INTERMEDIATE | ADVANCED | EXPERT.

Record Skill := mkSkill { skill_type : SkillType; skill_level : SkillLevel }.

Definition SkillType_eqb (a b : SkillType) : bool :=
  match a, b with
  | FRONTEND, FRONTEND | BACKEND, BACKEND | DATA_SCIENCE, DATA_SCIENCE
  | INFRASTRUCTURE, INFRASTRUCTURE | MOBILE, MOBILE | DEVOPS, DEVOPS
  | MACHINE_LEARNING, MACHINE_LEARNING | SECURITY, SECURITY => true
  | _, _ => false
  end.

(** [SkillType.value] and [SkillLevel.value] *)
Definition SkillType_value (t : SkillType) : string :=
  match t with
  | FRONTEND => "frontend" | BACKEND => "backend"
  | DATA_SCIENCE => "data_science" | INFRASTRUCTURE => "infrastructure"
  | MOBILE => "mobile" | DEVOPS => "devops"
  | MACHINE_LEARNING => "machine_learning" | SECURITY => "security"
  end.

Definition SkillLevel_value (l : SkillLevel) : string :=
  match l with
  | BASIC => "basic" | INTERMEDIATE => "intermediate"
  | ADVANCED => "advanced" | EXPERT => "expert"
  end.

(** [str(t)] of an enum member, the key the heuristic regrouping sorts the
    skill groups by. *)
Definition SkillType_str (t : SkillType) : string :=
  match t with
  | FRONTEND => "SkillType.FRONTEND" | BACKEND => "SkillType.BACKEND"
  | DATA_SCIENCE => "SkillType.DATA_SCIENCE"
  | INFRASTRUCTURE => "SkillType.INFRASTRUCTURE"
  | MOBILE => "SkillType.MOBILE" | DEVOPS => "SkillType.DEVOPS"
  | MACHINE_LEARNING => "SkillType.MACHINE_LEARNING"
  | SECURITY => "SkillType.SECURITY"
  end.

(** [SkillType.get_compatible_types] *)
Definition get_compatible_types (t : SkillType) : list SkillType :=
  match t with
  | FRONTEND => [BACKEND; MOBILE]
  | BACKEND => [FRONTEND; DATA_SCIENCE; DEVOPS; SECURITY]
  | DATA_SCIENCE => [BACKEND; MACHINE_LEARNING]
  | INFRASTRUCTURE => [DEVOPS; BACKEND; SECURITY]
  | MOBILE => [FRONTEND; BACKEND]
  | DEVOPS => [INFRASTRUCTURE; BACKEND; SECURITY]
  | MACHINE_LEARNING => [DATA_SCIENCE; BACKEND]
  | SECURITY => [BACKEND; INFRASTRUCTURE; DEVOPS]
  end.

(** A topic: equality and hash by [name]. *)
Record Topic := mkTopic {
  t_name : string;
  parent_topics : list string
}.

Record Repository := mkRepository {
  r_name : string;
  r_path : string;
  repository_id : UUID;
  topics : list Topic;
  primary_skill : option Skill;
  complexity_score : Q;
  learning_hours_estimate : Z
}.

(** [Repository.__eq__]: two repositories are equal when their paths are. *)
Definition Repository_eqb (a b : Repository) : bool :=
  String.eqb (r_path a) (r_path b).

Inductive DependencyType := PREREQUISITE | RECOMMENDED | RELATED | ALTERNATIVE.
Inductive DependencyStrength := WEAK | MODERATE | STRONG | CRITICAL.

Record DependencyRelation := mkDependencyRelation {
  source_repository_id : UUID;
  target_repository_id : UUID;
  dependency_type : DependencyType;
  strength : DependencyStrength;
  relation_id : UUID;
  created_by : string
}.

(** [DependencyRelation.__eq__] (and [__hash__]): source and target only. *)
Definition DependencyRelation_eqb (a b : DependencyRelation) : bool :=
  andb (N.eqb (source_repository_id a) (source_repository_id b))
       (N.eqb (target_repository_id a) (target_repository_id b)).

Definition is_blocking_dependency (d : DependencyRelation) : bool :=
  match dependency_type d, strength d with
  | PREREQUISITE, STRONG | PREREQUISITE, CRITICAL => true
  | _, _ => false
  end.

Definition is_user_override (d : DependencyRelation) : bool :=
  String.eqb (created_by d) "user".

Inductive NodeStatus :=
| NOT_STARTED | AVAILABLE | IN_PROGRESS | COMPLETED | BLOCKED | SKIPPED.

Record LearningNode := mkLearningNode {
  repository : Repository;
  node_id : UUID;
  prerequisite_nodes : list UUID;
  dependent_nodes : list UUID;
  estimated_hours : Z;
  status : NodeStatus
}.

Inductive PathStatus := DRAFT | ACTIVE | PATH_COMPLETED | ARCHIVED.

Record LearningPath := mkLearningPath {
  lp_name : string;
  lp_description : string;
  learner_id : string;
  path_id : UUID;
  nodes : list LearningNode;
  dependencies : list DependencyRelation;
  lp_status : PathStatus;
  total_estimated_hours : Z;
  total_repositories : Z;
  completion_percentage : Q;
  allow_parallel_learning : bool;
  max_parallel_nodes : Z
}.

(** The exceptions of [domain/exceptions] and the built-in ones the
    pipeline can meet. *)
Inductive Exc :=
| ValidationError (field : string)
| BusinessRuleViolation (message : string)
| CircularDependencyError (cycle : list UUID)
| InvalidLearningSequenceError (affected_nodes : list UUID)
| KeyError (key : UUID)
| AttributeError
| ValueError
| ImportError (name : string).

Inductive Result (A : Type) :=
| Ok (a : A)
| Raise (e : Exc).
Arguments Ok {A} a.
Arguments Raise {A} e.

(** ** The run: what differs between two executions on equal inputs *)

Record Runtime := mkRuntime {
  (** the value of the k-th call of [uuid4()] *)
  uuid4 : nat -> UUID;
  (** the order in which a [for] loop meets the elements of a set *)
  iter_ids : list UUID -> list UUID;
  iter_topics : list Topic -> list Topic;
  iter_deps : list DependencyRelation -> list DependencyRelation
}.

(** ** Repository: natural learning priority *)

Definition skill_order (l : SkillLevel) : Z :=
  match l with
  | BASIC => 1 | INTERMEDIATE => 3 | ADVANCED => 5 | EXPERT => 7
  end.

Definition Zsum (l : list Z) : Z := fold_left Z.add l 0%Z.

(** [sum] of floats, from the integer [0]. *)
Definition Qsum (l : list Q) : Q := fold_left Qplus l 0%Q.

(** [Repository.get_recommended_learning_order] *)
Definition get_recommended_learning_order (rt : Runtime) (r : Repository) : Z :=
  let order := 0%Z in
  let order :=
    match primary_skill r with
    | Some s => (order + skill_order (skill_level s))%Z
    | None => order
    end in
  let order := (order + py_int (complexity_score r))%Z in
  let prerequisite_count :=
    Zsum (map (fun t => Z.of_nat (List.length (parent_topics t)))
              (iter_topics rt (topics r))) in
  (order + prerequisite_count)%Z.

(** ** LearningNode *)

(** [LearningNode(repository=repo)]: [node_id] is the run's next uuid4
    (its index is [k]); [__post_init__] takes the hours of the repository
    and validates them. *)
Definition LearningNode_new (rt : Runtime) (k : nat) (repo : Repository)
  : Result LearningNode :=
  let hours := learning_hours_estimate repo in
  if (hours <? 0)%Z then Raise (ValidationError "estimated_hours")
  else Ok {| repository := repo;
             node_id := uuid4 rt k;
             prerequisite_nodes := [];
             dependent_nodes := [];
             estimated_hours := hours;
             status := NOT_STARTED |}.

Definition with_prerequisites (n : LearningNode) (ps : list UUID) : LearningNode :=
  {| repository := repository n;
     node_id := node_id n;
     prerequisite_nodes := ps;
     dependent_nodes := dependent_nodes n;
     estimated_hours := estimated_hours n;
     status := status n |}.

Definition with_status (n : LearningNode) (s : NodeStatus) : LearningNode :=
  {| repository := repository n;
     node_id := node_id n;
     prerequisite_nodes := prerequisite_nodes n;
     dependent_nodes := dependent_nodes n;
     estimated_hours := estimated_hours n;
     status := s |}.

(** [LearningNode._update_status_based_on_prerequisites] *)
Definition _update_status_based_on_prerequisites (n : LearningNode) : LearningNode :=
  match status n with
  | COMPLETED | IN_PROGRESS | SKIPPED => n
  | _ => match prerequisite_nodes n with
         | [] => with_status n AVAILABLE
         | _ :: _ => with_status n BLOCKED
         end
  end.

(** [LearningNode.add_prerequisite] *)
Definition add_prerequisite (prerequisite_node_id : UUID) (n : LearningNode)
  : Result LearningNode :=
  if N.eqb prerequisite_node_id (node_id n)
  then Raise (BusinessRuleViolation "Node cannot be its own prerequisite")
  else if mem N.eqb prerequisite_node_id (dependent_nodes n)
  then Raise (BusinessRuleViolation
                "Cannot add prerequisite - would create circular dependency")
  else Ok (_update_status_based_on_prerequisites
             (with_prerequisites n
                (set_add N.eqb prerequisite_node_id (prerequisite_nodes n)))).

(** ** LearningPath *)

Definition with_nodes (p : LearningPath) (ns : list LearningNode) : LearningPath :=
  {| lp_name := lp_name p; lp_description := lp_description p;
     learner_id := learner_id p; path_id := path_id p;
     nodes := ns; dependencies := dependencies p;
     lp_status := lp_status p;
     total_estimated_hours := total_estimated_hours p;
     total_repositories := total_repositories p;
     completion_percentage := completion_percentage p;
     allow_parallel_learning := allow_parallel_learning p;
     max_parallel_nodes := max_parallel_nodes p |}.

Definition with_dependencies (p : LearningPath) (ds : list DependencyRelation)
  : LearningPath :=
  {| lp_name := lp_name p; lp_description := lp_description p;
     learner_id := learner_id p; path_id := path_id p;
     nodes := nodes p; dependencies := ds;
     lp_status := lp_status p;
     total_estimated_hours := total_estimated_hours p;
     total_repositories := total_repositories p;
     completion_percentage := completion_percentage p;
     allow_parallel_learning := allow_parallel_learning p;
     max_parallel_nodes := max_parallel_nodes p |}.

Definition is_completed (n : LearningNode) : bool :=
  match status n with COMPLETED => true | _ => false end.

Definition is_in_progress (n : LearningNode) : bool :=
  match status n with IN_PROGRESS => true | _ => false end.

(** [LearningPath._recalculate_metrics].  The percentage is a float in the
    code; it is [0.0] whenever no node is completed, which is the case of
    every path the generator builds. *)
Definition _recalculate_metrics (p : LearningPath) : LearningPath :=
  let total := Z.of_nat (List.length (nodes p)) in
  let completed_count := Z.of_nat (List.length (filter is_completed (nodes p))) in
  {| lp_name := lp_name p; lp_description := lp_description p;
     learner_id := learner_id p; path_id := path_id p;
     nodes := nodes p; dependencies := dependencies p;
     lp_status := lp_status p;
     total_estimated_hours := Zsum (map estimated_hours (nodes p));
     total_repositories := total;
     completion_percentage :=
       (if (0 <? total)%Z
        then (inject_Z completed_count / inject_Z total) * 100
        else 0)%Q;
     allow_parallel_learning := allow_parallel_learning p;
     max_parallel_nodes := max_parallel_nodes p |}.

(** [LearningPath(name=..., ...)] with [__post_init__]: [path_id] is the
    run's next uuid4. *)
Definition LearningPath_new (rt : Runtime) (k : nat)
  (name description learner : string) (allow_parallel : bool) (max_parallel : Z)
  : Result LearningPath :=
  if blank name then Raise (ValidationError "name")
  else if blank learner then Raise (ValidationError "learner_id")
  else if (max_parallel <? 1)%Z then Raise (ValidationError "max_parallel_nodes")
  else Ok (_recalculate_metrics
             {| lp_name := name; lp_description := description;
                learner_id := learner; path_id := uuid4 rt k;
                nodes := []; dependencies := [];
                lp_status := DRAFT;
                total_estimated_hours := 0; total_repositories := 0;
                completion_percentage := 0;
                allow_parallel_learning := allow_parallel;
                max_parallel_nodes := max_parallel |}).

(** [LearningPath._get_node_by_id] *)
Definition _get_node_by_id (nid : UUID) (ns : list LearningNode)
  : option LearningNode :=
  find (fun n => N.eqb (node_id n) nid) ns.

(** The node object [_get_node_by_id] returned is mutated in place: the
    first node of the list with that id is replaced. *)
Fixpoint replace_node (nid : UUID) (n' : LearningNode) (ns : list LearningNode)
  : list LearningNode :=
  match ns with
  | [] => []
  | n :: ns' => if N.eqb (node_id n) nid then n' :: ns'
                else n :: replace_node nid n' ns'
  end.

(** [LearningPath.add_repository(repository)] (no prerequisites given).
    The result comes with the path as the call leaves it and the number of
    uuid4 calls made so far. *)
Definition add_repository (rt : Runtime) (k : nat) (repo : Repository)
  (p : LearningPath) : Result LearningNode * LearningPath * nat :=
  if existsb (fun n => Repository_eqb (repository n) repo) (nodes p)
  then (Raise (BusinessRuleViolation "Repository already in learning path"), p, k)
  else
    match LearningNode_new rt k repo with
    | Raise e => (Raise e, p, S k)
    | Ok node =>
        (Ok node, _recalculate_metrics (with_nodes p (nodes p ++ [node])), S k)
    end.

(** *** Kahn's algorithm: [LearningPath._topological_sort] *)

(** One round of the inner loop that fills the two dictionaries:
    [adjacency[prereq_id].append(node.node_id); in_degree[node.node_id] += 1]. *)
Definition graph_step (nid : UUID)
  (acc : Result (list (UUID * Z) * list (UUID * list UUID))) (prereq_id : UUID)
  : Result (list (UUID * Z) * list (UUID * list UUID)) :=
  match acc with
  | Raise e => Raise e
  | Ok (in_degree, adjacency) =>
      match dict_get N.eqb prereq_id adjacency with
      | None => Raise (KeyError prereq_id)
      | Some succs =>
          let adjacency := dict_set N.eqb prereq_id (succs ++ [nid]) adjacency in
          match dict_get N.eqb nid in_degree with
          | None => Raise (KeyError nid)
          | Some d => Ok (dict_set N.eqb nid (d + 1)%Z in_degree, adjacency)
          end
      end
  end.

Definition build_graph (rt : Runtime) (ns : list LearningNode)
  : Result (list (UUID * Z) * list (UUID * list UUID)) :=
  let in_degree := dict_of N.eqb (map (fun n => (node_id n, 0%Z)) ns) in
  let adjacency := dict_of N.eqb (map (fun n => (node_id n, @nil UUID)) ns) in
  fold_left
    (fun acc node =>
       fold_left (graph_step (node_id node))
                 (iter_ids rt (prerequisite_nodes node)) acc)
    ns (Ok (in_degree, adjacency)).

(** The key of [queue.sort]:
    [self._get_node_by_id(nid).repository.get_recommended_learning_order()]. *)
Definition sort_key (rt : Runtime) (ns : list LearningNode) (nid : UUID) : Result Z :=
  match _get_node_by_id nid ns with
  | Some n => Ok (get_recommended_learning_order rt (repository n))
  | None => Raise AttributeError
  end.

Fixpoint keyed (rt : Runtime) (ns : list LearningNode) (queue : list UUID)
  : Result (list (Z * UUID)) :=
  match queue with
  | [] => Ok []
  | nid :: queue' =>
      match sort_key rt ns nid with
      | Raise e => Raise e
      | Ok k => match keyed rt ns queue' with
                | Raise e => Raise e
                | Ok kq => Ok ((k, nid) :: kq)
                end
      end
  end.

(** [queue.sort(key=...)]: the keys are computed first, then the stable sort. *)
Definition sort_queue (rt : Runtime) (ns : list LearningNode) (queue : list UUID)
  : Result (list UUID) :=
  match keyed rt ns queue with
  | Raise e => Raise e
  | Ok kq => Ok (map snd (py_sorted Z.ltb fst kq))
  end.

(** [in_degree[neighbor_id] -= 1; if in_degree[neighbor_id] == 0: queue.append(neighbor_id)] *)
Definition relax (acc : Result (list (UUID * Z) * list UUID)) (neighbor_id : UUID)
  : Result (list (UUID * Z) * list UUID) :=
  match acc with
  | Raise e => Raise e
  | Ok (in_degree, queue) =>
      match dict_get N.eqb neighbor_id in_degree with
      | None => Raise (KeyError neighbor_id)
      | Some d =>
          let in_degree := dict_set N.eqb neighbor_id (d - 1)%Z in_degree in
          if (d - 1 =? 0)%Z then Ok (in_degree, queue ++ [neighbor_id])
          else Ok (in_degree, queue)
      end
  end.

(** [while queue: ...].  [fuel] bounds the number of rounds; [None] is the
    loop cut short, which [kahn_total] below excludes for the fuel
    [_topological_sort] gives it. *)
Fixpoint kahn (rt : Runtime) (ns : list LearningNode)
  (adjacency : list (UUID * list UUID)) (fuel : nat)
  (in_degree : list (UUID * Z)) (queue sorted_ids : list UUID)
  : option (Result (list UUID)) :=
  match queue with
  | [] => Some (Ok sorted_ids)
  | _ :: _ =>
      match fuel with
      | O => None
      | S fuel' =>
          match sort_queue rt ns queue with
          | Raise e => Some (Raise e)
          | Ok [] => Some (Ok sorted_ids)
          | Ok (current_id :: queue') =>
              match dict_get N.eqb current_id adjacency with
              | None => Some (Raise (KeyError current_id))
              | Some succs =>
                  match fold_left relax succs (Ok (in_degree, queue')) with
                  | Raise e => Some (Raise e)
                  | Ok (in_degree', queue'') =>
                      kahn rt ns adjacency fuel' in_degree' queue''
                           (sorted_ids ++ [current_id])
                  end
              end
          end
      end
  end.

(** *** [LearningPath._find_cycle] *)

(** [path.index(x)] *)
Fixpoint index_of (x : UUID) (l : list UUID) : nat :=
  match l with
  | [] => O
  | y :: l' => if N.eqb y x then O else S (index_of x l')
  end.

(** The search state: [visited] and [rec_stack]. *)
Definition DfsState : Type := (list UUID * list UUID)%type.

(** The nested function [dfs(node_id, path)]; [path] is the caller's copy.
    The fuel bounds the depth of the recursion. *)
Fixpoint dfs (rt : Runtime) (ns : list LearningNode) (fuel : nat)
  (nid : UUID) (path : list UUID) (st : DfsState)
  : option (list UUID) * DfsState :=
  match fuel with
  | O => (None, st)
  | S fuel' =>
      let visited := set_add N.eqb nid (fst st) in
      let rec_stack := set_add N.eqb nid (snd st) in
      let path := path ++ [nid] in
      let leave (s : DfsState) : option (list UUID) * DfsState :=
        (None, (fst s, set_discard N.eqb nid (snd s))) in
      match _get_node_by_id nid ns with
      | None => leave (visited, rec_stack)
      | Some node =>
          (fix each (prereqs : list UUID) (s : DfsState)
             : option (list UUID) * DfsState :=
             match prereqs with
             | [] => leave s
             | prereq_id :: prereqs' =>
                 if negb (mem N.eqb prereq_id (fst s)) then
                   match dfs rt ns fuel' prereq_id path s with
                   | (Some cycle, s') => (Some cycle, s')
                   | (None, s') => each prereqs' s'
                   end
                 else if mem N.eqb prereq_id (snd s) then
                   (Some (skipn (index_of prereq_id path) path ++ [prereq_id]), s)
                 else each prereqs' s
             end)
            (iter_ids rt (prerequisite_nodes node)) (visited, rec_stack)
      end
  end.

(** The outer loop of [_find_cycle]: [for node in self.nodes]. *)
Fixpoint find_cycle_from (rt : Runtime) (ns : list LearningNode) (fuel : nat)
  (todo : list LearningNode) (st : DfsState) : list UUID :=
  match todo with
  | [] => []
  | node :: todo' =>
      if negb (mem N.eqb (node_id node) (fst st)) then
        match dfs rt ns fuel (node_id node) [] st with
        | (Some cycle, _) => cycle
        | (None, st') => find_cycle_from rt ns fuel todo' st'
        end
      else find_cycle_from rt ns fuel todo' st
  end.

(** The number of ids a search can meet bounds its depth: a larger bound
    gives the same cycle ([find_cycle_bound_suffices] below). *)
Definition dfs_fuel (ns : list LearningNode) : nat :=
  S (List.length ns + List.length (flat_map prerequisite_nodes ns)).

Definition _find_cycle (rt : Runtime) (p : LearningPath) : list UUID :=
  find_cycle_from rt (nodes p) (dfs_fuel (nodes p)) (nodes p) ([], []).

(** [[node_map[node_id] for node_id in sorted_ids]] *)
Fixpoint lookup_all (node_map : list (UUID * LearningNode)) (ids : list UUID)
  : Result (list LearningNode) :=
  match ids with
  | [] => Ok []
  | nid :: ids' =>
      match dict_get N.eqb nid node_map with
      | None => Raise (KeyError nid)
      | Some n => match lookup_all node_map ids' with
                  | Raise e => Raise e
                  | Ok l => Ok (n :: l)
                  end
      end
  end.

(** What stands for a loop of the embedding that was cut short by its
    fuel; no run reaches it. *)
Definition cut_short : Exc := ValueError.

(** [LearningPath._topological_sort] *)
Definition _topological_sort (rt : Runtime) (p : LearningPath)
  : Result (list LearningNode) :=
  let ns := nodes p in
  match build_graph rt ns with
  | Raise e => Raise e
  | Ok (in_degree, adjacency) =>
      let queue := map fst (filter (fun kv => (snd kv =? 0)%Z) in_degree) in
      match kahn rt ns adjacency (List.length in_degree) in_degree queue [] with
      | None => Raise cut_short
      | Some (Raise e) => Raise e
      | Some (Ok sorted_ids) =>
          if negb (List.length sorted_ids =? List.length ns)%nat
          then Raise (CircularDependencyError (_find_cycle rt p))
          else
            let node_map := dict_of N.eqb (map (fun n => (node_id n, n)) ns) in
            lookup_all node_map sorted_ids
      end
  end.

(** *** [LearningPath._apply_learning_heuristics] *)

Definition skill_key_eqb (a b : option SkillType) : bool :=
  match a, b with
  | None, None => true
  | Some x, Some y => SkillType_eqb x y
  | _, _ => false
  end.

(** The key of a node in [skill_groups]. *)
Definition skill_key (n : LearningNode) : option SkillType :=
  match primary_skill (repository n) with
  | Some s => Some (skill_type s)
  | None => None
  end.

(** [str(x) if x else ""] *)
Definition skill_key_str (k : option SkillType) : string :=
  match k with
  | Some t => SkillType_str t
  | None => ""
  end.

Definition add_to_group (groups : list (option SkillType * list LearningNode))
  (node : LearningNode) : list (option SkillType * list LearningNode) :=
  let k := skill_key node in
  match dict_get skill_key_eqb k groups with
  | None => dict_set skill_key_eqb k [node] groups
  | Some g => dict_set skill_key_eqb k (g ++ [node]) groups
  end.

Definition node_complexity (n : LearningNode) : Q := complexity_score (repository n).

Definition _apply_learning_heuristics (sorted_nodes : list LearningNode)
  : list LearningNode :=
  let skill_groups := fold_left add_to_group sorted_nodes [] in
  let skill_groups :=
    map (fun kg => (fst kg, py_sorted Qltb node_complexity (snd kg))) skill_groups in
  flat_map
    (fun k => match dict_get skill_key_eqb k skill_groups with
              | Some g => g
              | None => []
              end)
    (py_sorted String.ltb skill_key_str (dict_keys skill_groups)).

(** [LearningPath.optimize_learning_sequence] *)
Definition optimize_learning_sequence (rt : Runtime) (p : LearningPath)
  : Result unit * LearningPath :=
  match _topological_sort rt p with
  | Raise e => (Raise e, p)
  | Ok sorted_nodes =>
      (Ok tt, with_nodes p (_apply_learning_heuristics sorted_nodes))
  end.

(** *** [LearningPath.add_dependency] *)

(** [DependencyRelation(...)] with [__post_init__]: [relation_id] is the
    run's next uuid4, the confidence keeps its default. *)
Definition DependencyRelation_new (rt : Runtime) (k : nat) (source target : UUID)
  (ty : DependencyType) (st : DependencyStrength) (by_whom : string)
  : Result DependencyRelation :=
  if N.eqb source target
  then Raise (BusinessRuleViolation "Repository cannot depend on itself")
  else Ok {| source_repository_id := source; target_repository_id := target;
             dependency_type := ty; strength := st;
             relation_id := uuid4 rt k; created_by := by_whom |}.

Definition add_dependency (rt : Runtime) (k : nat)
  (source_node_id target_node_id : UUID)
  (ty : DependencyType) (st : DependencyStrength) (by_whom : string)
  (p : LearningPath) : Result DependencyRelation * LearningPath * nat :=
  match _get_node_by_id source_node_id (nodes p),
        _get_node_by_id target_node_id (nodes p) with
  | Some source_node, Some target_node =>
      match DependencyRelation_new rt k
              (repository_id (repository source_node))
              (repository_id (repository target_node)) ty st by_whom with
      | Raise e => (Raise e, p, S k)
      | Ok relation =>
          (* self.dependencies.add(relation) *)
          let p1 := with_dependencies p
                      (set_add DependencyRelation_eqb relation (dependencies p)) in
          (* target_node.add_prerequisite(source_node_id) *)
          let linked :=
            if is_blocking_dependency relation then
              match add_prerequisite source_node_id target_node with
              | Raise e => Raise e
              | Ok target' =>
                  Ok (with_nodes p1 (replace_node target_node_id target' (nodes p1)))
              end
            else Ok p1 in
          match linked with
          | Raise e => (Raise e, p1, S k)
          | Ok p2 =>
              (* self._validate_no_cycles() *)
              match _topological_sort rt p2 with
              | Raise e => (Raise e, p2, S k)
              | Ok _ => (Ok relation, p2, S k)
              end
          end
      end
  | _, _ => (Raise (ValidationError "node_id"), p, k)
  end.

(** ** Topological sorter service *)

Module TopologicalSorterService.

(** The edges [_resolve_cycles] collects in [removable]. *)
Definition removable (dep : DependencyRelation) : bool :=
  orb (match strength dep with WEAK => true | _ => false end)
      (match dependency_type dep with
       | RELATED | ALTERNATIVE => true
       | _ => false
       end).

(** [learning_path._get_node_by_id(next((n.node_id for n in nodes
    if n.repository.repository_id == dep.source_repository_id), None))] *)
Definition source_node_of (dep : DependencyRelation) (ns : list LearningNode)
  : option LearningNode :=
  match find (fun n => N.eqb (repository_id (repository n))
                             (source_repository_id dep)) ns with
  | Some n => _get_node_by_id (node_id n) ns
  | None => None
  end.

(** The body of [for dep in removable]. *)
Definition remove_edge (p : LearningPath) (dep : DependencyRelation) : LearningPath :=
  let p := with_dependencies p
             (set_discard DependencyRelation_eqb dep (dependencies p)) in
  let clean (node : LearningNode) : LearningNode :=
    if N.eqb (repository_id (repository node)) (target_repository_id dep) then
      match source_node_of dep (nodes p) with
      | Some source_node =>
          with_prerequisites node
            (set_discard N.eqb (node_id source_node) (prerequisite_nodes node))
      | None => node
      end
    else node in
  with_nodes p (map clean (nodes p)).

(** [TopologicalSorterService._resolve_cycles] *)
Definition _resolve_cycles (rt : Runtime) (p : LearningPath) : LearningPath :=
  let removable_set := filter removable (iter_deps rt (dependencies p)) in
  fold_left remove_edge (iter_deps rt removable_set) p.

(** [TopologicalSorterService.sort] *)
Definition sort (rt : Runtime) (p : LearningPath)
  : Result (list LearningNode) * LearningPath :=
  match optimize_learning_sequence rt p with
  | (Ok _, p') => (Ok (nodes p'), p')
  | (Raise (CircularDependencyError _), p') =>
      let p'' := _resolve_cycles rt p' in
      match optimize_learning_sequence rt p'' with
      | (Ok _, p3) => (Ok (nodes p3), p3)
      | (Raise (CircularDependencyError cycle), p3) =>
          (Raise (InvalidLearningSequenceError cycle), p3)
      | (Raise e, p3) => (Raise e, p3)
      end
  | (Raise e, p') => (Raise e, p')
  end.

End TopologicalSorterService.

(** ** Milestone groups (application/dto/milestone_group.py) *)

Inductive MilestonePhase :=
| FOUNDATIONS | CORE_SKILLS | ADVANCED_SYSTEMS | SPECIALIZED_TOPICS.

Definition MilestonePhase_eqb (a b : MilestonePhase) : bool :=
  match a, b with
  | FOUNDATIONS, FOUNDATIONS | CORE_SKILLS, CORE_SKILLS
  | ADVANCED_SYSTEMS, ADVANCED_SYSTEMS
  | SPECIALIZED_TOPICS, SPECIALIZED_TOPICS => true
  | _, _ => false
  end.

Definition MilestonePhase_value (p : MilestonePhase) : string :=
  match p with
  | FOUNDATIONS => "foundations"
  | CORE_SKILLS => "core_skills"
  | ADVANCED_SYSTEMS => "advanced_systems"
  | SPECIALIZED_TOPICS => "specialized_topics"
  end.

(** [NodeItem]; [forced_milestone] is the attribute [_forced_milestone]
    the override manager sets on an item ([None] when it is absent). *)
Record NodeItem := mkNodeItem {
  ni_node_id : UUID;
  ni_repository_id : UUID;
  repository_name : string;
  order_index : Z;
  ni_estimated_hours : Z;
  ni_complexity_score : Q;
  ni_skill_type : string;
  ni_skill_level : string;
  prerequisites : list UUID;
  is_overridden : bool;
  override_reason : string;
  forced_milestone : option MilestonePhase
}.

Record MilestoneGroup := mkMilestoneGroup {
  phase : MilestonePhase;
  mg_nodes : list NodeItem
}.

(** ** Milestone grouper service *)

Module MilestoneGrouperService.

Definition _MILESTONE_ORDER : list MilestonePhase :=
  [FOUNDATIONS; CORE_SKILLS; ADVANCED_SYSTEMS; SPECIALIZED_TOPICS].

(** [MilestoneGrouperService._assign_phase] *)
Definition _assign_phase (node : LearningNode) : MilestonePhase :=
  let skill := primary_skill (repository node) in
  let complexity := complexity_score (repository node) in
  match skill with
  | Some s =>
      match skill_level s with
      | BASIC => FOUNDATIONS
      | INTERMEDIATE => CORE_SKILLS
      | ADVANCED => ADVANCED_SYSTEMS
      | EXPERT => SPECIALIZED_TOPICS
      end
  | None =>
      if Qltb complexity 3 then FOUNDATIONS
      else if Qltb complexity 5 then CORE_SKILLS
      else if Qltb complexity 7 then ADVANCED_SYSTEMS
      else SPECIALIZED_TOPICS
  end.

(** [MilestoneGrouperService._node_to_item]; [list(node.prerequisite_nodes)]
    meets the set in the order of the run. *)
Definition _node_to_item (rt : Runtime) (node : LearningNode) (index : Z) : NodeItem :=
  let skill := primary_skill (repository node) in
  {| ni_node_id := node_id node;
     ni_repository_id := repository_id (repository node);
     repository_name := r_name (repository node);
     order_index := index;
     ni_estimated_hours := estimated_hours node;
     ni_complexity_score := complexity_score (repository node);
     ni_skill_type := match skill with
                      | Some s => SkillType_value (skill_type s)
                      | None => "unknown"
                      end;
     ni_skill_level := match skill with
                       | Some s => SkillLevel_value (skill_level s)
                       | None => "basic"
                       end;
     prerequisites := iter_ids rt (prerequisite_nodes node);
     is_overridden := false;
     override_reason := "";
     forced_milestone := None |}.

(** [buckets[phase].append(item)]; every phase is a key of [buckets]. *)
Definition bucket_append (ph : MilestonePhase) (item : NodeItem)
  (buckets : list (MilestonePhase * list NodeItem))
  : list (MilestonePhase * list NodeItem) :=
  match dict_get MilestonePhase_eqb ph buckets with
  | Some items => dict_set MilestonePhase_eqb ph (items ++ [item]) buckets
  | None => buckets
  end.

(** [for order_index, node in enumerate(sorted_nodes)] from index [i]. *)
Fixpoint fill_buckets (rt : Runtime) (i : Z) (sorted_nodes : list LearningNode)
  (buckets : list (MilestonePhase * list NodeItem))
  : list (MilestonePhase * list NodeItem) :=
  match sorted_nodes with
  | [] => buckets
  | node :: rest =>
      fill_buckets rt (i + 1)%Z rest
        (bucket_append (_assign_phase node) (_node_to_item rt node i) buckets)
  end.

(** The output loop: the non-empty buckets in the order of [order]. *)
Definition collect (order : list MilestonePhase)
  (buckets : list (MilestonePhase * list NodeItem)) : list MilestoneGroup :=
  flat_map
    (fun ph => match dict_get MilestonePhase_eqb ph buckets with
               | Some (x :: items) => [ {| phase := ph; mg_nodes := x :: items |} ]
               | _ => []
               end)
    order.

(** [MilestoneGrouperService.group] *)
Definition group (rt : Runtime) (sorted_nodes : list LearningNode)
  : list MilestoneGroup :=
  let buckets :=
    dict_of MilestonePhase_eqb (map (fun p => (p, @nil NodeItem)) _MILESTONE_ORDER) in
  collect _MILESTONE_ORDER (fill_buckets rt 0 sorted_nodes buckets).

End MilestoneGrouperService.

(** ** Override manager service *)

Module OverrideManagerService.

Inductive OverrideType := REORDER | SKIP | MILESTONE | NOTE.

Record OverrideInstruction := mkOverrideInstruction {
  ov_repository_id : UUID;
  override_type : OverrideType;
  target_order : option Z;
  target_milestone : option string;
  reason : string
}.

(** The records the service writes to its logger. *)
Inductive LogRecord :=
| TargetNotFound (repo : UUID)        (* warning *)
| SkippingRepository (name : string)  (* info *)
| UnknownMilestone (value : string).  (* warning *)

Definition is_warning (r : LogRecord) : bool :=
  match r with
  | TargetNotFound _ | UnknownMilestone _ => true
  | SkippingRepository _ => false
  end.

(** [MilestonePhase(value)] *)
Definition MilestonePhase_of_value (v : string) : option MilestonePhase :=
  if String.eqb v "foundations" then Some FOUNDATIONS
  else if String.eqb v "core_skills" then Some CORE_SKILLS
  else if String.eqb v "advanced_systems" then Some ADVANCED_SYSTEMS
  else if String.eqb v "specialized_topics" then Some SPECIALIZED_TOPICS
  else None.

(** [OverrideManagerService._parse_milestone], with what it logs. *)
Definition _parse_milestone (value : option string)
  : option MilestonePhase * list LogRecord :=
  match value with
  | None => (None, [])
  | Some "" => (None, [])
  | Some v =>
      match MilestonePhase_of_value (lower v) with
      | Some ph => (Some ph, [])
      | None => (None, [UnknownMilestone v])
      end
  end.

(** [OverrideManagerService._find_original_phase] *)
Definition _find_original_phase (milestones : list MilestoneGroup) (repo_id : UUID)
  : option MilestonePhase :=
  match find (fun g => existsb (fun n => N.eqb (ni_repository_id n) repo_id)
                               (mg_nodes g)) milestones with
  | Some g => Some (phase g)
  | None => None
  end.

(** [x or default] on strings *)
Definition or_default (x default : string) : string :=
  match x with
  | "" => default
  | _ => x
  end.

(** The item the MILESTONE branch builds, with [_forced_milestone] set. *)
Definition moved (node : NodeItem) (override : OverrideInstruction)
  (target : MilestonePhase) : NodeItem :=
  {| ni_node_id := ni_node_id node;
     ni_repository_id := ni_repository_id node;
     repository_name := repository_name node;
     order_index := order_index node;
     ni_estimated_hours := ni_estimated_hours node;
     ni_complexity_score := ni_complexity_score node;
     ni_skill_type := ni_skill_type node;
     ni_skill_level := ni_skill_level node;
     prerequisites := prerequisites node;
     is_overridden := true;
     override_reason :=
       or_default (reason override)
                  (String.append "Moved to " (MilestonePhase_value target));
     forced_milestone := Some target |}.

(** The item the REORDER branch builds: a new object, without the
    attribute [_forced_milestone]. *)
Definition reordered (node : NodeItem) (override : OverrideInstruction) : NodeItem :=
  {| ni_node_id := ni_node_id node;
     ni_repository_id := ni_repository_id node;
     repository_name := repository_name node;
     order_index := match target_order override with
                    | Some t => t
                    | None => order_index node
                    end;
     ni_estimated_hours := ni_estimated_hours node;
     ni_complexity_score := ni_complexity_score node;
     ni_skill_type := ni_skill_type node;
     ni_skill_level := ni_skill_level node;
     prerequisites := prerequisites node;
     is_overridden := true;
     override_reason := or_default (reason override) "Manual reorder";
     forced_milestone := None |}.

(** The state of the loop over the overrides: [repo_node_map], [skip_ids]
    and the records logged so far. *)
Definition LoopState : Type :=
  (list (UUID * NodeItem) * list UUID * list LogRecord)%type.

(** The body of [for override in overrides]. *)
Definition apply_one (st : LoopState) (override : OverrideInstruction) : LoopState :=
  let '(repo_node_map, skip_ids, log) := st in
  let rid := ov_repository_id override in
  match dict_get N.eqb rid repo_node_map with
  | None => (repo_node_map, skip_ids, log ++ [TargetNotFound rid])
  | Some node =>
      match override_type override with
      | SKIP =>
          (repo_node_map, set_add N.eqb rid skip_ids,
           log ++ [SkippingRepository (repository_name node)])
      | MILESTONE =>
          match _parse_milestone (target_milestone override) with
          | (Some target, logged) =>
              (dict_set N.eqb rid (moved node override target) repo_node_map,
               skip_ids, log ++ logged)
          | (None, logged) => (repo_node_map, skip_ids, log ++ logged)
          end
      | REORDER =>
          (dict_set N.eqb rid (reordered node override) repo_node_map,
           skip_ids, log)
      | NOTE => st
      end
  end.

(** [result_buckets[ph].append(node)]; every phase is a key. *)
Definition bucket_append (ph : MilestonePhase) (item : NodeItem)
  (buckets : list (MilestonePhase * list NodeItem))
  : list (MilestonePhase * list NodeItem) :=
  match dict_get MilestonePhase_eqb ph buckets with
  | Some items => dict_set MilestonePhase_eqb ph (items ++ [item]) buckets
  | None => buckets
  end.

(** [result_buckets.setdefault(ph, [])] *)
Definition setdefault (buckets : list (MilestonePhase * list NodeItem))
  (ph : MilestonePhase) : list (MilestonePhase * list NodeItem) :=
  match dict_get MilestonePhase_eqb ph buckets with
  | Some _ => buckets
  | None => dict_set MilestonePhase_eqb ph [] buckets
  end.

(** The body of [for node in repo_node_map.values()]. *)
Definition rebucket_one (milestones : list MilestoneGroup) (skip_ids : list UUID)
  (buckets : list (MilestonePhase * list NodeItem)) (node : NodeItem)
  : list (MilestonePhase * list NodeItem) :=
  if mem N.eqb (ni_repository_id node) skip_ids then buckets
  else
    match forced_milestone node with
    | Some forced => bucket_append forced node buckets
    | None =>
        match _find_original_phase milestones (ni_repository_id node) with
        | Some original_phase => bucket_append original_phase node buckets
        | None => buckets
        end
    end.

Definition rebucket (milestones : list MilestoneGroup)
  (repo_node_map : list (UUID * NodeItem)) (skip_ids : list UUID)
  : list (MilestonePhase * list NodeItem) :=
  let result_buckets :=
    dict_of MilestonePhase_eqb
            (map (fun g => (phase g, @nil NodeItem)) milestones) in
  let result_buckets :=
    fold_left setdefault
              [FOUNDATIONS; CORE_SKILLS; ADVANCED_SYSTEMS; SPECIALIZED_TOPICS]
              result_buckets in
  fold_left (rebucket_one milestones skip_ids) (dict_values repo_node_map)
            result_buckets.

(** The last loop: each bucket sorted by [order_index], the empty ones left out. *)
Definition output_groups (order : list MilestonePhase)
  (buckets : list (MilestonePhase * list NodeItem)) : list MilestoneGroup :=
  flat_map
    (fun ph =>
       let items :=
         py_sorted Z.ltb order_index
           match dict_get MilestonePhase_eqb ph buckets with
           | Some l => l
           | None => []
           end in
       match items with
       | [] => []
       | _ :: _ => [ {| phase := ph; mg_nodes := items |} ]
       end)
    order.

(** [from application.dto.milestone_group import _MILESTONE_ORDER as ORDER].
    That module defines [MilestonePhase], [_MILESTONE_DESCRIPTIONS],
    [NodeItem] and [MilestoneGroup]; the list [_MILESTONE_ORDER] is defined
    in the grouper's module, so the statement raises. *)
Definition import_MILESTONE_ORDER : Result (list MilestonePhase) :=
  Raise (ImportError "_MILESTONE_ORDER").

(** The body of [apply], the outcome of its import statement a parameter.
    It returns the result and the records logged. *)
Definition apply_with (imported : Result (list MilestonePhase))
  (milestones : list MilestoneGroup) (overrides : list OverrideInstruction)
  : Result (list MilestoneGroup) * list LogRecord :=
  match overrides with
  | [] => (Ok milestones, [])
  | _ :: _ =>
      let flat_nodes := flat_map mg_nodes milestones in
      let repo_node_map :=
        dict_of N.eqb (map (fun n => (ni_repository_id n, n)) flat_nodes) in
      let '(repo_node_map, skip_ids, log) :=
        fold_left apply_one overrides (repo_node_map, [], []) in
      let result_buckets := rebucket milestones repo_node_map skip_ids in
      match imported with
      | Raise e => (Raise e, log)
      | Ok ORDER => (Ok (output_groups ORDER result_buckets), log)
      end
  end.

(** [OverrideManagerService.apply] *)
Definition apply (milestones : list MilestoneGroup)
  (overrides : list OverrideInstruction)
  : Result (list MilestoneGroup) * list LogRecord :=
  apply_with import_MILESTONE_ORDER milestones overrides.

End OverrideManagerService.

(** ** Graph builder service *)

Module GraphBuilderService.

Definition _SIMPLE_THRESHOLD : Q := 3.
Definition _COMPLEX_THRESHOLD : Q := 6.

Definition _SKILL_LEVEL_ORDER (l : SkillLevel) : Z :=
  match l with
  | BASIC => 0 | INTERMEDIATE => 1 | ADVANCED => 2 | EXPERT => 3
  end.

(** [topic.parent_topics.intersection(source_topic_names)] is non-empty *)
Definition names_a_parent (source_topic_names : list string) (topic : Topic) : bool :=
  existsb (fun p => mem String.eqb p source_topic_names) (parent_topics topic).

(** [GraphBuilderService._infer_dependency] *)
Definition _infer_dependency (rt : Runtime) (source target : Repository)
  : option (DependencyType * DependencyStrength) :=
  let source_topic_names := map t_name (iter_topics rt (topics source)) in
  if existsb (names_a_parent source_topic_names) (iter_topics rt (topics target))
  then Some (PREREQUISITE, STRONG)
  else
    let rule2 :=
      match primary_skill source, primary_skill target with
      | Some s, Some t =>
          andb (SkillType_eqb (skill_type s) (skill_type t))
               (_SKILL_LEVEL_ORDER (skill_level s) <? _SKILL_LEVEL_ORDER (skill_level t))%Z
      | _, _ => false
      end in
    if rule2 then Some (PREREQUISITE, MODERATE)
    else
      let rule3 :=
        match primary_skill source, primary_skill target with
        | Some s, Some t =>
            let compatible := get_compatible_types (skill_type t) in
            andb (mem SkillType_eqb (skill_type s) compatible)
                 (Qltb (complexity_score source) (complexity_score target))
        | _, _ => false
        end in
      if rule3 then Some (RECOMMENDED, WEAK)
      else if andb (Qltb (complexity_score source) _SIMPLE_THRESHOLD)
                   (Qltb _COMPLEX_THRESHOLD (complexity_score target))
      then Some (RECOMMENDED, WEAK)
      else None.

Definition DependencyPair : Type :=
  (Repository * Repository * DependencyType * DependencyStrength)%type.

(** The inner loop of [_detect_dependencies]: [for target in repositories[i+1:]]. *)
Fixpoint detect_from (rt : Runtime) (source : Repository) (rest : list Repository)
  : list DependencyPair :=
  match rest with
  | [] => []
  | target :: rest' =>
      match _infer_dependency rt source target with
      | Some (ty, st) => (source, target, ty, st) :: detect_from rt source rest'
      | None => detect_from rt source rest'
      end
  end.

(** [GraphBuilderService._detect_dependencies] *)
Fixpoint _detect_dependencies (rt : Runtime) (repositories : list Repository)
  : list DependencyPair :=
  match repositories with
  | [] => []
  | source :: rest => detect_from rt source rest ++ _detect_dependencies rt rest
  end.

(** The state of the two loops of [build]: the path, [node_map] and the
    number of uuid4 calls made. *)
Definition add_repo_step (rt : Runtime)
  (st : LearningPath * list (UUID * UUID) * nat) (repo : Repository)
  : LearningPath * list (UUID * UUID) * nat :=
  let '(path, node_map, k) := st in
  match add_repository rt k repo path with
  | (Ok node, path', k') =>
      (path', dict_set N.eqb (repository_id repo) (node_id node) node_map, k')
  | (Raise _, path', k') => (path', node_map, k')
  end.

Definition add_dep_step (rt : Runtime) (node_map : list (UUID * UUID))
  (st : LearningPath * nat) (pair : DependencyPair) : LearningPath * nat :=
  let '(path, k) := st in
  let '(source_repo, target_repo, dep_type, dep_strength) := pair in
  match dict_get N.eqb (repository_id source_repo) node_map,
        dict_get N.eqb (repository_id target_repo) node_map with
  | Some source_node_id, Some target_node_id =>
      (* try: path.add_dependency(...) except Exception: (logged) *)
      match add_dependency rt k source_node_id target_node_id
                           dep_type dep_strength "system" path with
      | (_, path', k') => (path', k')
      end
  | _, _ => (path, k)
  end.

(** [GraphBuilderService.build]; [k] is the number of uuid4 calls the run
    has made before. *)
Definition build (rt : Runtime) (k : nat) (learner name : string)
  (repositories : list Repository) (description : string)
  (allow_parallel : bool) (max_parallel : Z) (exclude_ids : list UUID)
  : Result LearningPath :=
  let filtered :=
    filter (fun r => negb (mem N.eqb (repository_id r) exclude_ids)) repositories in
  let filtered := py_sorted Z.ltb (get_recommended_learning_order rt) filtered in
  match LearningPath_new rt k name description learner allow_parallel max_parallel with
  | Raise e => Raise e
  | Ok path =>
      let '(path, node_map, k1) :=
        fold_left (add_repo_step rt) filtered (path, [], S k) in
      let dependency_pairs := _detect_dependencies rt filtered in
      let '(path, _) :=
        fold_left (add_dep_step rt node_map) dependency_pairs (path, k1) in
      Ok path
  end.

End GraphBuilderService.

(** ** Path generator service *)

Record GenerateLearningPathRequest := mkRequest {
  rq_learner_id : string;
  rq_name : string;
  rq_description : string;
  target_skill_types : list string;
  target_skill_level : option string;
  max_repositories : option Z;
  rq_allow_parallel_learning : bool;
  rq_max_parallel_nodes : Z;
  exclude_repository_ids : list string
}.

(** The diagnostics [generate] appends to [warnings]. *)
Inductive Warning :=
| FilteredTo (count : nat) (skill_types : list string)
| CappedTo (limit : Z)
| NoRepositoriesAvailable.

(** [LearningPath.get_learning_statistics] with the keys [generate] adds.
    Left out: [generation_time_ms] (the clock). *)
Record Statistics := mkStatistics {
  st_total_repositories : Z;
  st_completed_repositories : Z;
  st_in_progress_repositories : Z;
  st_completion_percentage : Q;
  st_total_estimated_hours : Z;
  st_completed_hours : Z;
  st_remaining_hours : Z;
  st_average_complexity : Q;
  st_repositories_considered : Z;
  st_repositories_included : Z
}.

(** [LearningPathResponse], the timestamps left out. *)
Record LearningPathResponse := mkResponse {
  rs_path_id : UUID;
  rs_learner_id : string;
  rs_name : string;
  rs_status : string;
  milestones : list MilestoneGroup;
  rs_total_repositories : Z;
  rs_total_estimated_hours : Z;
  rs_completion_percentage : Q;
  version : Z;
  rs_description : string;
  warnings : list Warning;
  generation_stats : Statistics
}.

Definition PathStatus_value (s : PathStatus) : string :=
  match s with
  | DRAFT => "draft" | ACTIVE => "active"
  | PATH_COMPLETED => "completed" | ARCHIVED => "archived"
  end.

Module PathGeneratorService.

Section Generate.
(** [uuid.UUID(s)] of the standard library: [None] when it raises
    [ValueError]. *)
Variable UUID_of_str : string -> option UUID.

(** [PathGeneratorService._filter_by_skill] *)
Definition _filter_by_skill (repositories : list Repository)
  (target_skill_types : list string) : list Repository :=
  match target_skill_types with
  | [] => repositories
  | _ :: _ =>
      let target_set := map lower target_skill_types in
      filter (fun r => match primary_skill r with
                       | None => true
                       | Some s => mem String.eqb (SkillType_value (skill_type s))
                                       target_set
                       end)
             repositories
  end.

(** [l[:m]] *)
Definition slice_to (m : Z) (l : list Repository) : list Repository :=
  if (m <? 0)%Z then firstn (Z.to_nat (Z.of_nat (List.length l) + m)) l
  else firstn (Z.to_nat m) l.

(** [[UUID(rid) for rid in ids if rid]] *)
Fixpoint parse_ids (ids : list string) : Result (list UUID) :=
  match ids with
  | [] => Ok []
  | "" :: ids' => parse_ids ids'
  | rid :: ids' =>
      match UUID_of_str rid with
      | None => Raise ValueError
      | Some u => match parse_ids ids' with
                  | Raise e => Raise e
                  | Ok us => Ok (u :: us)
                  end
      end
  end.

Definition get_learning_statistics (p : LearningPath) (considered : nat) : Statistics :=
  let total_hours := Zsum (map estimated_hours (nodes p)) in
  let completed_hours := Zsum (map estimated_hours (filter is_completed (nodes p))) in
  {| st_total_repositories := Z.of_nat (List.length (nodes p));
     st_completed_repositories := Z.of_nat (List.length (filter is_completed (nodes p)));
     st_in_progress_repositories :=
       Z.of_nat (List.length (filter is_in_progress (nodes p)));
     st_completion_percentage := completion_percentage p;
     st_total_estimated_hours := total_hours;
     st_completed_hours := completed_hours;
     st_remaining_hours := (total_hours - completed_hours)%Z;
     st_average_complexity :=
       (if (0 <? List.length (nodes p))%nat
        then Qsum (map (fun n => complexity_score (repository n)) (nodes p))
             / inject_Z (Z.of_nat (List.length (nodes p)))
        else 0)%Q;
     st_repositories_considered := Z.of_nat considered;
     st_repositories_included := Z.of_nat (List.length (nodes p)) |}.

(** [PathGeneratorService.generate], the override manager's import a
    parameter as in [apply_with].  The second component holds the records
    [OverrideManagerService.apply] writes to its logger and nothing else:
    the calls to [logger] of the builder, the sorter, the grouper and
    [generate] itself are not part of the model. *)
Definition generate_with (imported : Result (list MilestonePhase))
  (rt : Runtime) (request : GenerateLearningPathRequest)
  (repositories : list Repository)
  (pending_overrides : option (list OverrideManagerService.OverrideInstruction))
  : Result LearningPathResponse * list OverrideManagerService.LogRecord :=
  let warnings : list Warning := [] in
  (* 1. filter by target skill types *)
  let filtered_repos := _filter_by_skill repositories (target_skill_types request) in
  let warnings :=
    if (List.length filtered_repos <? List.length repositories)%nat
    then warnings ++ [FilteredTo (List.length filtered_repos) (target_skill_types request)]
    else warnings in
  (* 2. max_repositories cap *)
  let capped :=
    match max_repositories request with
    | Some m => andb (negb (m =? 0)%Z) (m <? Z.of_nat (List.length filtered_repos))%Z
    | None => false
    end in
  let filtered_repos :=
    match max_repositories request with
    | Some m => if capped then slice_to m filtered_repos else filtered_repos
    | None => filtered_repos
    end in
  let warnings :=
    match max_repositories request with
    | Some m => if capped then warnings ++ [CappedTo m] else warnings
    | None => warnings
    end in
  (* 3. build the dependency graph *)
  match parse_ids (exclude_repository_ids request) with
  | Raise e => (Raise e, [])
  | Ok exclude_uuids =>
      match GraphBuilderService.build rt 0 (rq_learner_id request) (rq_name request)
              filtered_repos (rq_description request)
              (rq_allow_parallel_learning request) (rq_max_parallel_nodes request)
              exclude_uuids with
      | Raise e => (Raise e, [])
      | Ok learning_path =>
          let warnings :=
            match nodes learning_path with
            | [] => warnings ++ [NoRepositoriesAvailable]
            | _ :: _ => warnings
            end in
          (* 4. topological sort *)
          match TopologicalSorterService.sort rt learning_path with
          | (Raise e, _) => (Raise e, [])
          | (Ok sorted_nodes, learning_path) =>
              (* 5. group into milestones *)
              let grouped := MilestoneGrouperService.group rt sorted_nodes in
              (* 6. pending overrides *)
              let applied :=
                match pending_overrides with
                | Some (o :: os) =>
                    OverrideManagerService.apply_with imported grouped (o :: os)
                | _ => (Ok grouped, [])
                end in
              match applied with
              | (Raise e, log) => (Raise e, log)
              | (Ok final, log) =>
                  (* 7. the response *)
                  (Ok {| rs_path_id := path_id learning_path;
                         rs_learner_id := learner_id learning_path;
                         rs_name := lp_name learning_path;
                         rs_status := PathStatus_value (lp_status learning_path);
                         milestones := final;
                         rs_total_repositories := total_repositories learning_path;
                         rs_total_estimated_hours :=
                           total_estimated_hours learning_path;
                         rs_completion_percentage :=
                           completion_percentage learning_path;
                         version := 1;
                         rs_description := rq_description request;
                         warnings := warnings;
                         generation_stats :=
                           get_learning_statistics learning_path
                             (List.length repositories) |},
                   log)
              end
          end
      end
  end.

(** [PathGeneratorService.generate] *)
Definition generate :=
  generate_with OverrideManagerService.import_MILESTONE_ORDER.

End Generate.

End PathGeneratorService.

(** * Vocabulary of the statements *)

(** What a run is assumed to provide: [uuid4] never repeats a value, and a
    loop over a set meets each of its elements once. *)
Record runtime_ok (rt : Runtime) : Prop := mk_runtime_ok {
  uuid4_fresh : forall i j, uuid4 rt i = uuid4 rt j -> i = j;
  iter_ids_perm : forall l, Permutation l (iter_ids rt l);
  iter_topics_perm : forall l, Permutation l (iter_topics rt l);
  iter_deps_perm : forall l, Permutation l (iter_deps rt l)
}.

(** ** Dependency inference *)

(** [SkillLevel.__lt__]: [order.index(self) < order.index(other)]. *)
Definition SkillLevel_index (l : SkillLevel) : nat :=
  match l with
  | BASIC => 0 | INTERMEDIATE => 1 | ADVANCED => 2 | EXPERT => 3
  end.

(** Rule 1: a topic of [B] names a topic of [A] as a parent. *)
Definition topic_prerequisite (A B : Repository) : Prop :=
  exists tb ta, In tb (topics B) /\ In ta (topics A)
                /\ In (t_name ta) (parent_topics tb).

(** Rule 2: the same primary skill type, the level of [A] strictly lower. *)
Definition same_type_progression (A B : Repository) : Prop :=
  exists sa sb, primary_skill A = Some sa /\ primary_skill B = Some sb
                /\ skill_type sa = skill_type sb
                /\ (SkillLevel_index (skill_level sa)
                    < SkillLevel_index (skill_level sb))%nat.

(** Rule 3: the skill type of [A] in the compatibility set of [B]'s, and
    [A] less complex. *)
Definition compatible_progression (A B : Repository) : Prop :=
  exists sa sb, primary_skill A = Some sa /\ primary_skill B = Some sb
                /\ In (skill_type sa) (get_compatible_types (skill_type sb))
                /\ (complexity_score A < complexity_score B)%Q.

(** Rule 4: the complexity gap. *)
Definition complexity_gap (A B : Repository) : Prop :=
  (complexity_score A < 3)%Q /\ (6 < complexity_score B)%Q.

(** The pairs of a list, the first component before the second one. *)
Fixpoint ordered_pairs {A : Type} (l : list A) : list (A * A) :=
  match l with
  | [] => []
  | a :: l' => map (pair a) l' ++ ordered_pairs l'
  end.

(** The edges inference gives for one pair: one or none. *)
Definition edges_of (rt : Runtime) (ab : Repository * Repository)
  : list GraphBuilderService.DependencyPair :=
  match GraphBuilderService._infer_dependency rt (fst ab) (snd ab) with
  | Some (ty, st) => [(fst ab, snd ab, ty, st)]
  | None => []
  end.

(** ** Milestones *)

Definition phase_of_level (l : SkillLevel) : MilestonePhase :=
  match l with
  | BASIC => FOUNDATIONS
  | INTERMEDIATE => CORE_SKILLS
  | ADVANCED => ADVANCED_SYSTEMS
  | EXPERT => SPECIALIZED_TOPICS
  end.

Definition phase_rank (ph : MilestonePhase) : nat :=
  match ph with
  | FOUNDATIONS => 0 | CORE_SKILLS => 1
  | ADVANCED_SYSTEMS => 2 | SPECIALIZED_TOPICS => 3
  end.

(** The input of the grouper as its loop meets it: each node with its
    phase and the item made of it, the index counted from [i]. *)
Fixpoint items_from (rt : Runtime) (i : Z) (sorted_nodes : list LearningNode)
  : list (MilestonePhase * NodeItem) :=
  match sorted_nodes with
  | [] => []
  | n :: rest =>
      (MilestoneGrouperService._assign_phase n,
       MilestoneGrouperService._node_to_item rt n i) :: items_from rt (i + 1) rest
  end.

(** The items of one phase, in the order of the input. *)
Definition phase_items (ph : MilestonePhase) (l : list (MilestonePhase * NodeItem))
  : list NodeItem :=
  map snd (filter (fun x => MilestonePhase_eqb (fst x) ph) l).

Definition group_of (ph : MilestonePhase) (items : list NodeItem)
  : list MilestoneGroup :=
  match items with
  | [] => []
  | _ :: _ => [ {| phase := ph; mg_nodes := items |} ]
  end.

(** The grouper's buckets: the four phases, each once, in the fixed order. *)
Definition four_buckets (b : list (MilestonePhase * list NodeItem)) : Prop :=
  map fst b = MilestoneGrouperService._MILESTONE_ORDER.

(** The phases of a list never step back. *)
Fixpoint phase_ordered (l : list MilestonePhase) : bool :=
  match l with
  | [] => true
  | a :: l' =>
      andb (match l' with
            | [] => true
            | b :: _ => (phase_rank a <=? phase_rank b)%nat
            end)
           (phase_ordered l')
  end.

(** ** Overrides *)

Section OverrideVocabulary.
Import OverrideManagerService.

(** A list of indices never steps down. *)
Fixpoint nondecreasing (l : list Z) : bool :=
  match l with
  | [] => true
  | a :: l' =>
      andb (match l' with [] => true | b :: _ => (a <=? b)%Z end) (nondecreasing l')
  end.

(** The item is the one of repository [r]. *)
Definition has_id (r : UUID) (n : NodeItem) : bool := N.eqb (ni_repository_id n) r.

(** The repository ids of the items of a phase list, in order. *)
Definition item_ids (ms : list MilestoneGroup) : list UUID :=
  map ni_repository_id (flat_map mg_nodes ms).

(** [result_buckets.get(ph, [])] *)
Definition bucket (ph : MilestonePhase) (b : list (MilestonePhase * list NodeItem))
  : list NodeItem :=
  match dict_get MilestonePhase_eqb ph b with
  | Some l => l
  | None => []
  end.

(** The bucket the re-bucketing loop puts an item into, if any. *)
Definition destination (ms : list MilestoneGroup) (skip_ids : list UUID)
  (n : NodeItem) : option MilestonePhase :=
  if mem N.eqb (ni_repository_id n) skip_ids then None
  else match forced_milestone n with
       | Some forced => Some forced
       | None => _find_original_phase ms (ni_repository_id n)
       end.

(** The item goes to the bucket of [ph]. *)
Definition sent_to (ms : list MilestoneGroup) (skip_ids : list UUID)
  (ph : MilestonePhase) (n : NodeItem) : bool :=
  match destination ms skip_ids n with
  | Some q => MilestonePhase_eqb q ph
  | None => false
  end.

(** The state the loop over the overrides ends in. *)
Definition loop_result (ms : list MilestoneGroup) (ovs : list OverrideInstruction)
  : LoopState :=
  fold_left apply_one ovs
    (dict_of N.eqb (map (fun n => (ni_repository_id n, n)) (flat_map mg_nodes ms)),
     [], []).

(** Every phase is a key of the buckets. *)
Definition all_present (b : list (MilestonePhase * list NodeItem)) : Prop :=
  forall ph, dict_get MilestonePhase_eqb ph b <> None.

(** The ids of a list are pairwise distinct. *)
Fixpoint distinct (l : list UUID) : bool :=
  match l with
  | [] => true
  | x :: l' => andb (negb (mem N.eqb x l')) (distinct l')
  end.

(** In a list with distinct ids, replacing the item of id [r]. *)
Definition swap (r : UUID) (n' : NodeItem) (x : NodeItem) : NodeItem :=
  if has_id r x then n' else x.

(** [l] is [order] with some of its phases left out. *)
Fixpoint subseq (l order : list MilestonePhase) : bool :=
  match l, order with
  | [], _ => true
  | _ :: _, [] => false
  | a :: l', b :: order' =>
      if MilestonePhase_eqb a b then subseq l' order' else subseq l order'
  end.

(** A group has items, and their indices never step down. *)
Definition group_ok (g : MilestoneGroup) : bool :=
  andb (match mg_nodes g with [] => false | _ :: _ => true end)
       (nondecreasing (map order_index (mg_nodes g))).

(** The item has no attribute [_forced_milestone]. *)
Definition not_forced (n : NodeItem) : bool :=
  match forced_milestone n with
  | None => true
  | Some _ => false
  end.

(** A phase list as the grouper makes it. *)
Definition grouper_shaped (ms : list MilestoneGroup) : bool :=
  andb (subseq (map phase ms) MilestoneGrouperService._MILESTONE_ORDER)
    (andb (forallb group_ok ms)
       (andb (distinct (item_ids ms))
             (forallb not_forced (flat_map mg_nodes ms)))).

(** The items of the groups of one phase. *)
Definition nodes_of_phase (ph : MilestonePhase) (ms : list MilestoneGroup)
  : list NodeItem :=
  flat_map (fun g => if MilestonePhase_eqb (phase g) ph then mg_nodes g else []) ms.

End OverrideVocabulary.

(** ** Kahn's loop *)

(** The entries of [in_degree] that are still positive: with the length of
    the queue, what bounds the rounds left. *)
Definition positive_entries (d : list (UUID * Z)) : nat :=
  List.length (filter (fun kv => (0 <? snd kv)%Z) d).

(** One for a positive degree. *)
Definition weight (v : Z) : nat := if (0 <? v)%Z then 1 else 0.

(** ** The cycle search *)

(** The ids a cycle search can meet: those of the nodes and those their
    prerequisite sets hold. *)
Definition search_ids (ns : list LearningNode) : list UUID :=
  map node_id ns ++ flat_map prerequisite_nodes ns.

(** How many of them are not in [visited]. *)
Definition unvisited (ns : list LearningNode) (visited : list UUID) : nat :=
  List.length (filter (fun x => negb (mem N.eqb x visited)) (search_ids ns)).

(** ** Two runs of the pipeline *)

(** The run with the same identifiers whose loops meet every set in the
    order of insertion. *)
Definition plain (rt : Runtime) : Runtime :=
  {| uuid4 := uuid4 rt;
     iter_ids := fun l => l;
     iter_topics := fun l => l;
     iter_deps := fun l => l |}.

(** The run whose k-th identifier is [k]. *)
Definition counting : Runtime :=
  {| uuid4 := N.of_nat;
     iter_ids := fun l => l;
     iter_topics := fun l => l;
     iter_deps := fun l => l |}.

(** The class of an exception: its payload of generated identifiers
    blanked. *)
Definition exc_kind (e : Exc) : Exc :=
  match e with
  | CircularDependencyError _ => CircularDependencyError []
  | InvalidLearningSequenceError _ => InvalidLearningSequenceError []
  | KeyError _ => KeyError 0%N
  | _ => e
  end.

(** The same value, or exceptions of the same class. *)
Definition same_outcome {A : Type} (r1 r2 : Result A) : Prop :=
  match r1, r2 with
  | Ok a, Ok b => a = b
  | Raise e1, Raise e2 => exc_kind e1 = exc_kind e2
  | _, _ => False
  end.

Definition res_map {A B : Type} (h : A -> B) (r : Result A) : Result B :=
  match r with
  | Ok a => Ok (h a)
  | Raise e => Raise e
  end.

(** The outcome of the second run is the outcome of the first under [h]. *)
Definition sim {A : Type} (h : A -> A) (r1 r2 : Result A) : Prop :=
  match r1, r2 with
  | Ok a, Ok b => b = h a
  | Raise e1, Raise e2 => exc_kind e1 = exc_kind e2
  | _, _ => False
  end.

Definition sim_opt {A : Type} (h : A -> A) (o1 o2 : option (Result A)) : Prop :=
  match o1, o2 with
  | None, None => True
  | Some r1, Some r2 => sim h r1 r2
  | _, _ => False
  end.

(** A dictionary with its values under [h]. *)
Definition map_values {K V W : Type} (h : V -> W) (d : list (K * V))
  : list (K * W) :=
  map (fun kv => (fst kv, h (snd kv))) d.

(** *** Renaming the generated identifiers *)

Section Rename.
Variable g : UUID -> UUID.

Definition rename_node (n : LearningNode) : LearningNode :=
  {| repository := repository n;
     node_id := g (node_id n);
     prerequisite_nodes := map g (prerequisite_nodes n);
     dependent_nodes := map g (dependent_nodes n);
     estimated_hours := estimated_hours n;
     status := status n |}.

Definition rename_relation (d : DependencyRelation) : DependencyRelation :=
  {| source_repository_id := source_repository_id d;
     target_repository_id := target_repository_id d;
     dependency_type := dependency_type d;
     strength := strength d;
     relation_id := g (relation_id d);
     created_by := created_by d |}.

Definition rename_path (p : LearningPath) : LearningPath :=
  {| lp_name := lp_name p; lp_description := lp_description p;
     learner_id := learner_id p; path_id := g (path_id p);
     nodes := map rename_node (nodes p);
     dependencies := map rename_relation (dependencies p);
     lp_status := lp_status p;
     total_estimated_hours := total_estimated_hours p;
     total_repositories := total_repositories p;
     completion_percentage := completion_percentage p;
     allow_parallel_learning := allow_parallel_learning p;
     max_parallel_nodes := max_parallel_nodes p |}.

(** A dictionary keyed by generated ids, its values renamed by [h]. *)
Definition rename_dict {V : Type} (h : V -> V) (d : list (UUID * V))
  : list (UUID * V) :=
  map (fun kv => (g (fst kv), h (snd kv))) d.

(** The two dictionaries of Kahn's algorithm. *)
Definition rename_graph (x : list (UUID * Z) * list (UUID * list UUID))
  : list (UUID * Z) * list (UUID * list UUID) :=
  (rename_dict (fun d => d) (fst x), rename_dict (map g) (snd x)).

(** [in_degree] and [queue] in the loop of Kahn's algorithm. *)
Definition rename_front (x : list (UUID * Z) * list UUID)
  : list (UUID * Z) * list UUID :=
  (rename_dict (fun d => d) (fst x), map g (snd x)).

(** The states of the two loops of [GraphBuilderService.build]. *)
Definition rename_build_state (st : LearningPath * list (UUID * UUID) * nat)
  : LearningPath * list (UUID * UUID) * nat :=
  (rename_path (fst (fst st)), map_values g (snd (fst st)), snd st).

Definition rename_link_state (st : LearningPath * nat) : LearningPath * nat :=
  (rename_path (fst st), snd st).
End Rename.

(** The skill groups of the heuristics, their nodes under [h]. *)
Definition map_groups (h : LearningNode -> LearningNode)
  (gs : list (option SkillType * list LearningNode))
  : list (option SkillType * list LearningNode) :=
  map (fun kg => (fst kg, map h (snd kg))) gs.

(** The node a removed edge is cleaned with: the id of its source node. *)
Definition source_id (dep : DependencyRelation) (ns : list LearningNode)
  : option UUID :=
  match TopologicalSorterService.source_node_of dep ns with
  | Some n => Some (node_id n)
  | None => None
  end.

(** What [remove_edge] does to a node, the source id found beforehand. *)
Definition clean_with (s : option UUID) (target : UUID) (node : LearningNode)
  : LearningNode :=
  if N.eqb (repository_id (repository node)) target then
    match s with
    | Some sid =>
        with_prerequisites node (set_discard N.eqb sid (prerequisite_nodes node))
    | None => node
    end
  else node.

(** *** What does not depend on the identifiers of a run *)

(** An item without its node id and its prerequisite ids: what the
    override manager reads of it. *)
Definition erase_item (x : NodeItem) : NodeItem :=
  {| ni_node_id := 0%N;
     ni_repository_id := ni_repository_id x;
     repository_name := repository_name x;
     order_index := order_index x;
     ni_estimated_hours := ni_estimated_hours x;
     ni_complexity_score := ni_complexity_score x;
     ni_skill_type := ni_skill_type x;
     ni_skill_level := ni_skill_level x;
     prerequisites := [];
     is_overridden := is_overridden x;
     override_reason := override_reason x;
     forced_milestone := forced_milestone x |}.

Definition erase_group (m : MilestoneGroup) : MilestoneGroup :=
  {| phase := phase m; mg_nodes := map erase_item (mg_nodes m) |}.

Definition erase_response (r : LearningPathResponse) : LearningPathResponse :=
  {| rs_path_id := 0%N;
     rs_learner_id := rs_learner_id r;
     rs_name := rs_name r;
     rs_status := rs_status r;
     milestones := map erase_group (milestones r);
     rs_total_repositories := rs_total_repositories r;
     rs_total_estimated_hours := rs_total_estimated_hours r;
     rs_completion_percentage := rs_completion_percentage r;
     version := version r;
     rs_description := rs_description r;
     warnings := warnings r;
     generation_stats := generation_stats r |}.

(** The outcome of [generate] without the identifiers the run drew and
    the prerequisite lists: the response with them blanked, or the class
    of the exception, and the records logged. *)
Definition observable
  (out : Result LearningPathResponse * list OverrideManagerService.LogRecord)
  : Result LearningPathResponse * list OverrideManagerService.LogRecord :=
  (match fst out with
   | Ok r => Ok (erase_response r)
   | Raise e => Raise (exc_kind e)
   end, snd out).

(** A node and a path without the generated identifiers. *)
Definition erase_node (n : LearningNode) : LearningNode :=
  {| repository := repository n;
     node_id := 0%N;
     prerequisite_nodes := [];
     dependent_nodes := [];
     estimated_hours := estimated_hours n;
     status := status n |}.

Definition erase_path (p : LearningPath) : LearningPath :=
  {| lp_name := lp_name p; lp_description := lp_description p;
     learner_id := learner_id p; path_id := 0%N;
     nodes := map erase_node (nodes p);
     dependencies := [];
     lp_status := lp_status p;
     total_estimated_hours := total_estimated_hours p;
     total_repositories := total_repositories p;
     completion_percentage := completion_percentage p;
     allow_parallel_learning := allow_parallel_learning p;
     max_parallel_nodes := max_parallel_nodes p |}.

(** The state of the loop over the overrides, its items blanked. *)
Definition erase_state (st : OverrideManagerService.LoopState)
  : OverrideManagerService.LoopState :=
  (map_values erase_item (fst (fst st)), snd (fst st), snd st).

(** Steps 1 and 2 of [generate]: the repositories kept and the warnings. *)
Definition selection (request : GenerateLearningPathRequest)
  (repositories : list Repository) : list Repository * list Warning :=
  let warnings : list Warning := [] in
  let filtered_repos :=
    PathGeneratorService._filter_by_skill repositories (target_skill_types request) in
  let warnings :=
    if (List.length filtered_repos <? List.length repositories)%nat
    then warnings ++ [FilteredTo (List.length filtered_repos) (target_skill_types request)]
    else warnings in
  let capped :=
    match max_repositories request with
    | Some m => andb (negb (m =? 0)%Z) (m <? Z.of_nat (List.length filtered_repos))%Z
    | None => false
    end in
  let filtered_repos' :=
    match max_repositories request with
    | Some m => if capped then PathGeneratorService.slice_to m filtered_repos
                else filtered_repos
    | None => filtered_repos
    end in
  let warnings :=
    match max_repositories request with
    | Some m => if capped then warnings ++ [CappedTo m] else warnings
    | None => warnings
    end in
  (filtered_repos', warnings).

(** Steps 5 to 7 of [generate], from the outcome of the sort. *)
Definition respond (imported : Result (list MilestonePhase)) (rt : Runtime)
  (request : GenerateLearningPathRequest) (considered : nat)
  (warnings : list Warning)
  (pending_overrides : option (list OverrideManagerService.OverrideInstruction))
  (sorted : Result (list LearningNode) * LearningPath)
  : Result LearningPathResponse * list OverrideManagerService.LogRecord :=
  match sorted with
  | (Raise e, _) => (Raise e, [])
  | (Ok sorted_nodes, learning_path) =>
      let grouped := MilestoneGrouperService.group rt sorted_nodes in
      let applied :=
        match pending_overrides with
        | Some (o :: os) =>
            OverrideManagerService.apply_with imported grouped (o :: os)
        | _ => (Ok grouped, [])
        end in
      match applied with
      | (Raise e, log) => (Raise e, log)
      | (Ok final, log) =>
          (Ok {| rs_path_id := path_id learning_path;
                 rs_learner_id := learner_id learning_path;
                 rs_name := lp_name learning_path;
                 rs_status := PathStatus_value (lp_status learning_path);
                 milestones := final;
                 rs_total_repositories := total_repositories learning_path;
                 rs_total_estimated_hours := total_estimated_hours learning_path;
                 rs_completion_percentage := completion_percentage learning_path;
                 version := 1;
                 rs_description := rq_description request;
                 warnings := warnings;
                 generation_stats :=
                   PathGeneratorService.get_learning_statistics learning_path
                     considered |},
           log)
      end
  end.

(** Two outcomes of the sort that differ in generated identifiers only. *)
Definition same_sorted (s1 s2 : Result (list LearningNode) * LearningPath) : Prop :=
  match fst s1, fst s2 with
  | Ok l1, Ok l2 => map erase_node l1 = map erase_node l2
  | Raise e1, Raise e2 => exc_kind e1 = exc_kind e2
  | _, _ => False
  end
  /\ erase_path (snd s1) = erase_path (snd s2).

(** *** A run against the run that draws 0, 1, 2, ... *)

(** The identifier the run draws where [counting] draws [x]. *)
Definition drawn (rt : Runtime) (x : UUID) : UUID := uuid4 rt (N.to_nat x).

(** The item of the run [rt], from the item of [counting]: the generated
    identifiers replaced by those the run draws, the prerequisites in the
    order in which the run meets the set. *)
Definition item_in_run (rt : Runtime) (x : NodeItem) : NodeItem :=
  {| ni_node_id := drawn rt (ni_node_id x);
     ni_repository_id := ni_repository_id x;
     repository_name := repository_name x;
     order_index := order_index x;
     ni_estimated_hours := ni_estimated_hours x;
     ni_complexity_score := ni_complexity_score x;
     ni_skill_type := ni_skill_type x;
     ni_skill_level := ni_skill_level x;
     prerequisites := iter_ids rt (map (drawn rt) (prerequisites x));
     is_overridden := is_overridden x;
     override_reason := override_reason x;
     forced_milestone := forced_milestone x |}.

Definition group_in_run (rt : Runtime) (m : MilestoneGroup) : MilestoneGroup :=
  {| phase := phase m; mg_nodes := map (item_in_run rt) (mg_nodes m) |}.

(** The response of the run [rt], from the response of [counting]: every
    field is kept but the path id and, in the items, the node id and the
    prerequisites. *)
Definition response_in_run (rt : Runtime) (r : LearningPathResponse)
  : LearningPathResponse :=
  {| rs_path_id := drawn rt (rs_path_id r);
     rs_learner_id := rs_learner_id r;
     rs_name := rs_name r;
     rs_status := rs_status r;
     milestones := map (group_in_run rt) (milestones r);
     rs_total_repositories := rs_total_repositories r;
     rs_total_estimated_hours := rs_total_estimated_hours r;
     rs_completion_percentage := rs_completion_percentage r;
     version := version r;
     rs_description := rs_description r;
     warnings := warnings r;
     generation_stats := generation_stats r |}.

(** [out] is the outcome of the run [rt] when [out0] is the outcome of
    [counting]: the same records logged, and the response of [counting]
    with the identifiers of the run, or an exception of the same class. *)
Definition outcome_in_run (rt : Runtime)
  (out0 out : Result LearningPathResponse * list OverrideManagerService.LogRecord)
  : Prop :=
  snd out = snd out0
  /\ match fst out0, fst out with
     | Ok r0, Ok r => r = response_in_run rt r0
     | Raise e0, Raise e => exc_kind e = exc_kind e0
     | _, _ => False
     end.

(** ** Overrides: the nodes kept *)

(** Some override of the list asks to skip the repository [r]. *)
Definition skip_requested (ovs : list OverrideManagerService.OverrideInstruction)
  (r : UUID) : bool :=
  existsb (fun o => match OverrideManagerService.override_type o with
                    | OverrideManagerService.SKIP =>
                        N.eqb (OverrideManagerService.ov_repository_id o) r
                    | _ => false
                    end) ovs.

(** Every value of [repo_node_map] is stored under its repository id. *)
Definition keyed_by_id (m : list (UUID * NodeItem)) : Prop :=
  Forall (fun kv => ni_repository_id (snd kv) = fst kv) m.

(** The re-bucketing loop puts the item into some bucket. *)
Definition kept (ms : list MilestoneGroup) (skip_ids : list UUID) (n : NodeItem)
  : bool :=
  match destination ms skip_ids n with
  | Some _ => true
  | None => false
  end.
(** * More of the code *)

(** ** The DTOs of the application layer *)

(** [MilestoneGroup.repository_count] *)
Definition repository_count (g : MilestoneGroup) : Z :=
  Z.of_nat (List.length (mg_nodes g)).

(** [MilestoneGroup.estimated_hours] *)
Definition mg_estimated_hours (g : MilestoneGroup) : Z :=
  Zsum (map ni_estimated_hours (mg_nodes g)).

(** [GenerateLearningPathRequest.__post_init__]: the three checks, each
    raising [ValueError]. *)
Definition GenerateLearningPathRequest_post_init
  (request : GenerateLearningPathRequest) : Result unit :=
  if blank (rq_learner_id request) then Raise ValueError
  else if blank (rq_name request) then Raise ValueError
  else if (rq_max_parallel_nodes request <? 1)%Z then Raise ValueError
  else Ok tt.

(** ** More of the domain entities *)

Definition SkillLevel_eqb (a b : SkillLevel) : bool :=
  match a, b with
  | BASIC, BASIC | INTERMEDIATE, INTERMEDIATE | ADVANCED, ADVANCED
  | EXPERT, EXPERT => true
  | _, _ => false
  end.

(** [SkillLevel.__lt__]: [order.index(self) < order.index(other)]. *)
Definition SkillLevel_lt (a b : SkillLevel) : bool :=
  (SkillLevel_index a <? SkillLevel_index b)%nat.

(** [SkillLevel.__le__]: [self < other or self == other]. *)
Definition SkillLevel_le (a b : SkillLevel) : bool :=
  orb (SkillLevel_lt a b) (SkillLevel_eqb a b).

(** [Skill.can_be_prerequisite_for].  The class defines [__lt__] and
    [__le__] only: [self.skill_level >= SkillLevel.INTERMEDIATE] is
    answered by the reflected [SkillLevel.INTERMEDIATE <= self.skill_level]. *)
Definition Skill_can_be_prerequisite_for (self target_skill : Skill) : bool :=
  if SkillType_eqb (skill_type self) (skill_type target_skill)
  then SkillLevel_le (skill_level self) (skill_level target_skill)
  else
    let compatible_types := get_compatible_types (skill_type self) in
    if mem SkillType_eqb (skill_type target_skill) compatible_types
    then SkillLevel_le INTERMEDIATE (skill_level self)
    else false.

(** [Repository.can_be_prerequisite_for] (the argument is a repository,
    which is true as a condition). *)
Definition Repository_can_be_prerequisite_for (rt : Runtime)
  (self other_repository : Repository) : bool :=
  let by_skill :=
    match primary_skill self, primary_skill other_repository with
    | Some s, Some t => Skill_can_be_prerequisite_for s t
    | _, _ => false
    end in
  if by_skill then true
  else
    let our_topic_names := map t_name (iter_topics rt (topics self)) in
    if existsb
         (fun their_topic =>
            existsb (fun parent => mem String.eqb parent our_topic_names)
                    (parent_topics their_topic))
         (iter_topics rt (topics other_repository))
    then true
    else Qltb (complexity_score self) (complexity_score other_repository).

(** [LearningNode.add_dependent] *)
Definition add_dependent (dependent_node_id : UUID) (n : LearningNode)
  : Result LearningNode :=
  if N.eqb dependent_node_id (node_id n)
  then Raise (BusinessRuleViolation "Node cannot depend on itself")
  else if mem N.eqb dependent_node_id (prerequisite_nodes n)
  then Raise (BusinessRuleViolation
                "Cannot add dependent - would create circular dependency")
  else Ok {| repository := repository n;
             node_id := node_id n;
             prerequisite_nodes := prerequisite_nodes n;
             dependent_nodes := set_add N.eqb dependent_node_id (dependent_nodes n);
             estimated_hours := estimated_hours n;
             status := status n |}.

(** [LearningNode.can_start_learning] *)
Definition can_start_learning (completed_node_ids : list UUID) (n : LearningNode)
  : bool :=
  match status n with
  | COMPLETED | IN_PROGRESS => false
  | _ => forallb (fun q => mem N.eqb q completed_node_ids) (prerequisite_nodes n)
  end.

(** [{x for x in l}]: the set a comprehension builds. *)
Definition set_of (l : list UUID) : list UUID :=
  fold_left (fun s x => set_add N.eqb x s) l [].

(** [LearningPath._node_exists] *)
Definition _node_exists (nid : UUID) (ns : list LearningNode) : bool :=
  existsb (fun node => N.eqb (node_id node) nid) ns.

(** The loop of [add_repository] over the prerequisites given. *)
Definition link_prerequisite (ns : list LearningNode)
  (acc : Result LearningNode) (prereq_id : UUID) : Result LearningNode :=
  match acc with
  | Raise e => Raise e
  | Ok node =>
      if negb (_node_exists prereq_id ns)
      then Raise (ValidationError "prerequisites")
      else add_prerequisite prereq_id node
  end.

(** [LearningPath.add_repository(repository, prerequisites)]; the node is
    appended once every prerequisite is linked. *)
Definition add_repository_with (rt : Runtime) (k : nat) (repo : Repository)
  (prerequisites : option (list UUID)) (p : LearningPath)
  : Result LearningNode * LearningPath * nat :=
  if existsb (fun n => Repository_eqb (repository n) repo) (nodes p)
  then (Raise (BusinessRuleViolation
                 (String.append "Repository "
                    (String.append (r_name repo) " already in learning path"))),
        p, k)
  else
    match LearningNode_new rt k repo with
    | Raise e => (Raise e, p, S k)
    | Ok node =>
        let linked :=
          match prerequisites with
          | Some (q :: qs) => fold_left (link_prerequisite (nodes p)) (q :: qs) (Ok node)
          | _ => Ok node
          end in
        match linked with
        | Raise e => (Raise e, p, S k)
        | Ok node =>
            (Ok node, _recalculate_metrics (with_nodes p (nodes p ++ [node])), S k)
        end
    end.

(** [LearningPath.remove_repository]; the new set of dependencies is built
    from a loop over the old one. *)
Definition remove_repository (rt : Runtime) (nid : UUID) (p : LearningPath)
  : Result bool * LearningPath :=
  match _get_node_by_id nid (nodes p) with
  | None => (Ok false, p)
  | Some node =>
      let dependent_nodes :=
        filter (fun n => mem N.eqb nid (prerequisite_nodes n)) (nodes p) in
      match dependent_nodes with
      | _ :: _ =>
          let dependent_names := map (fun n => r_name (repository n)) dependent_nodes in
          (Raise (BusinessRuleViolation
                    (String.append "Cannot remove node - required by: "
                                   (String.concat ", " dependent_names))),
           p)
      | [] =>
          let p := with_nodes p (filter (fun n => negb (N.eqb (node_id n) nid))
                                        (nodes p)) in
          let rid := repository_id (repository node) in
          let p :=
            with_dependencies p
              (filter (fun dep =>
                         andb (negb (N.eqb (source_repository_id dep) rid))
                              (negb (N.eqb (target_repository_id dep) rid)))
                      (iter_deps rt (dependencies p))) in
          (Ok true, _recalculate_metrics p)
      end
  end.

(** [LearningPath.get_next_available_nodes] *)
Definition get_next_available_nodes (rt : Runtime) (p : LearningPath)
  : list LearningNode :=
  let completed_ids := set_of (map node_id (filter is_completed (nodes p))) in
  let in_progress_ids := set_of (map node_id (filter is_in_progress (nodes p))) in
  let limit_reached :=
    if negb (allow_parallel_learning p)
    then match in_progress_ids with [] => false | _ :: _ => true end
    else (max_parallel_nodes p <=? Z.of_nat (List.length in_progress_ids))%Z in
  if limit_reached then []
  else
    let available :=
      filter (fun node =>
                match status node with
                | NOT_STARTED => can_start_learning completed_ids node
                | _ => false
                end)
             (nodes p) in
    py_sorted Z.ltb (fun n => get_recommended_learning_order rt (repository n))
              available.

(** [LearningPath.get_skill_distribution] *)
Definition get_skill_distribution (p : LearningPath) : list (string * Z) :=
  fold_left
    (fun distribution node =>
       match primary_skill (repository node) with
       | Some s =>
           let skill_type := SkillType_value (skill_type s) in
           dict_set String.eqb skill_type
             (match dict_get String.eqb skill_type distribution with
              | Some c => c
              | None => 0
              end + 1)%Z
             distribution
       | None => distribution
       end)
    (nodes p) [].

(** ** Kahn's algorithm, read as a graph *)

(** The edges [_topological_sort] reads off the nodes, in the order of its
    two loops: [(prereq_id, node.node_id)]. *)
Definition graph_edges (rt : Runtime) (ns : list LearningNode) : list (UUID * UUID) :=
  flat_map (fun n => map (fun q => (q, node_id n)) (iter_ids rt (prerequisite_nodes n)))
           ns.

(** The number of edges into [k]. *)
Definition in_degree_of (es : list (UUID * UUID)) (k : UUID) : Z :=
  Z.of_nat (List.length (filter (fun e => N.eqb (snd e) k) es)).

(** The targets of the edges out of [k], in order. *)
Definition successors_of (es : list (UUID * UUID)) (k : UUID) : list UUID :=
  map snd (filter (fun e => N.eqb (fst e) k) es).

(** The number of edges into [k] whose source is not in [sorted_ids]. *)
Definition pending (es : list (UUID * UUID)) (sorted_ids : list UUID) (k : UUID) : Z :=
  Z.of_nat (List.length
              (filter (fun e => andb (N.eqb (snd e) k)
                                     (negb (mem N.eqb (fst e) sorted_ids))) es)).

(** The dictionary [d] has the keys [keys] and the value [f k] under [k]. *)
Definition represents {V : Type} (f : UUID -> V) (keys : list UUID)
  (d : list (UUID * V)) : Prop :=
  forall k, dict_get N.eqb k d = if mem N.eqb k keys then Some (f k) else None.

(** Every id of the list comes after the sources of its edges. *)
Inductive sources_first (es : list (UUID * UUID)) : list UUID -> Prop :=
| sources_first_nil : sources_first es []
| sources_first_snoc s k :
    sources_first es s -> (forall q, In (q, k) es -> In q s) ->
    sources_first es (s ++ [k]).

(** The number of times [k] occurs in [l]. *)
Definition occurrences (k : UUID) (l : list UUID) : nat :=
  List.length (filter (N.eqb k) l).

(** Every node of the list comes after the nodes its prerequisite ids
    name. *)
Definition prerequisites_first (l : list LearningNode) : Prop :=
  forall l1 n l2, l = l1 ++ n :: l2 ->
  forall q, In q (prerequisite_nodes n) -> In q (map node_id l1).

(** Every prerequisite id is the id of a node of the list. *)
Definition prerequisites_closed (ns : list LearningNode) : bool :=
  forallb (fun n => forallb (fun q => mem N.eqb q (map node_id ns))
                            (prerequisite_nodes n))
          ns.

(** What holds each time the loop of Kahn's algorithm tests its queue. *)
Record kahn_invariant (es : list (UUID * UUID)) (keys : list UUID)
  (d : list (UUID * Z)) (queue sorted_ids : list UUID) : Prop := {
  inv_degrees : represents (pending es sorted_ids) keys d;
  inv_distinct : NoDup (sorted_ids ++ queue);
  inv_released : forall k, In k (sorted_ids ++ queue)
                           <-> (mem N.eqb k keys = true /\ pending es sorted_ids k = 0%Z);
  inv_order : sources_first es sorted_ids
}.

(** ** What the sorter keeps of a node *)

(** A node without its set of prerequisites. *)
Definition node_core (n : LearningNode)
  : UUID * Repository * list UUID * Z * NodeStatus :=
  (node_id n, repository n, dependent_nodes n, estimated_hours n, status n).

(** [n'] is [n] with some of its prerequisites removed. *)
Definition shrinks (n n' : LearningNode) : Prop :=
  node_core n' = node_core n
  /\ incl (prerequisite_nodes n') (prerequisite_nodes n).

(** ** What the pipeline keeps of a path *)

(** Learning the node has not begun. *)
Definition not_begun (n : LearningNode) : bool :=
  match status n with
  | NOT_STARTED | AVAILABLE | BLOCKED => true
  | _ => false
  end.

(** What [add_dependency] leaves of a node: all but its prerequisites,
    and of its status whether learning has begun. *)
Definition node_frame (n : LearningNode)
  : UUID * Repository * list UUID * (Z * bool) :=
  (node_id n, repository n, dependent_nodes n, (estimated_hours n, not_begun n)).

(** The path without its nodes and dependencies; then with what
    [add_dependency] leaves of the nodes. *)
Definition path_head (p : LearningPath) :=
  (lp_name p, lp_description p, learner_id p, path_id p, lp_status p,
   (total_estimated_hours p, total_repositories p, completion_percentage p),
   (allow_parallel_learning p, max_parallel_nodes p)).

(** What names the path. *)
Definition path_identity (p : LearningPath) :=
  (lp_name p, lp_description p, learner_id p, path_id p, lp_status p,
   allow_parallel_learning p, max_parallel_nodes p).

Definition path_frame (p : LearningPath) :=
  (path_head p, map node_frame (nodes p)).

(** The metrics of the path are those of its nodes. *)
Definition metrics_current (p : LearningPath) : Prop :=
  total_repositories p = Z.of_nat (List.length (nodes p))
  /\ total_estimated_hours p = Zsum (map estimated_hours (nodes p)).

(** The nodes as the graph builder makes them: the hours of the
    repository, which are not negative, and no dependent. *)
Definition built_node (n : LearningNode) : Prop :=
  estimated_hours n = learning_hours_estimate (repository n)
  /\ (0 <= estimated_hours n)%Z
  /\ dependent_nodes n = [].

(** ** The loops of the graph builder *)

(** What holds after the first loop of [build] has met the repositories
    [l]: [p] is the path, [m] the dictionary [node_map] and [k] the number
    of uuid4 calls made, [k0] of them before the loop. *)
Record first_loop_inv (rt : Runtime) (k0 : nat) (l : list Repository)
  (p : LearningPath) (m : list (UUID * UUID)) (k : nat) : Prop := {
  fl_calls : (k0 <= k)%nat;
  fl_count : (List.length (nodes p) <= List.length l)%nat;
  fl_ids : forall n, In n (nodes p) ->
           exists j, (k0 <= j < k)%nat /\ node_id n = uuid4 rt j;
  fl_distinct : (forall i j, uuid4 rt i = uuid4 rt j -> i = j) ->
                NoDup (map node_id (nodes p));
  fl_nodes : forall n, In n (nodes p) ->
             built_node n /\ prerequisite_nodes n = [] /\ In (repository n) l;
  fl_status : forall n, In n (nodes p) -> status n = NOT_STARTED;
  fl_percentage : (completion_percentage p == 0)%Q;
  fl_paths : NoDup (map (fun n => r_path (repository n)) (nodes p));
  fl_metrics : metrics_current p;
  fl_map : forall rid nid, dict_get N.eqb rid m = Some nid ->
           exists i n, nth_error (nodes p) i = Some n /\ node_id n = nid
                       /\ repository_id (repository n) = rid;
  fl_keys : forall rid, In rid (map fst m) -> In rid (map repository_id l);
  fl_covers : forall r, In r l -> (0 <= learning_hours_estimate r)%Z ->
              exists n, In n (nodes p) /\ r_path (repository n) = r_path r
}.

(** The node ids [node_map] gives for a pair of repositories, the first
    before the second in the list, are in this order in the path. *)
Definition forward (m : list (UUID * UUID)) (ids : list UUID)
  (l : list Repository) : Prop :=
  forall s t, In (s, t) (ordered_pairs l) ->
  forall sid tid,
    dict_get N.eqb (repository_id s) m = Some sid ->
    dict_get N.eqb (repository_id t) m = Some tid ->
    exists i j, (i < j)%nat /\ nth_error ids i = Some sid
                /\ nth_error ids j = Some tid.

(** ** The repositories a request selects *)

(** The repository passes the skill filter of [generate]: no target skill
    type is given, or the repository has no primary skill, or the value of
    its skill type is one of the targets in lower case. *)
Definition matches_skills (target_skill_types : list string) (r : Repository)
  : Prop :=
  target_skill_types = []
  \/ primary_skill r = None
  \/ exists s, primary_skill r = Some s
               /\ In (SkillType_value (skill_type s))
                     (map lower target_skill_types).

(** ** Nodes and their links *)

(** A node names itself neither as a prerequisite nor as a dependent, and
    no node is both a prerequisite and a dependent of it. *)
Definition links_consistent (n : LearningNode) : Prop :=
  ~ In (node_id n) (prerequisite_nodes n)
  /\ ~ In (node_id n) (dependent_nodes n)
  /\ forall q, In q (prerequisite_nodes n) -> ~ In q (dependent_nodes n).

(** The path lets another node be started: without parallel learning no
    node is in progress, with it fewer than [max_parallel_nodes] are. *)
Definition learning_slot_free (p : LearningPath) : Prop :=
  if allow_parallel_learning p
  then (Z.of_nat (List.length (set_of (map node_id
                                         (filter is_in_progress (nodes p)))))
        < max_parallel_nodes p)%Z
  else filter is_in_progress (nodes p) = [].

(** The node holds a repository whose skill type has the value [v]. *)
Definition has_skill_value (v : string) (n : LearningNode) : bool :=
  match primary_skill (repository n) with
  | Some s => String.eqb (SkillType_value (skill_type s)) v
  | None => false
  end.

(** ** Checking an order *)

(** The prerequisites of each node of [l] are among [seen] and the ids of
    the nodes before it. *)
Fixpoint in_order_from (seen : list UUID) (l : list LearningNode) : bool :=
  match l with
  | [] => true
  | n :: l' =>
      andb (forallb (fun q => mem N.eqb q seen) (prerequisite_nodes n))
           (in_order_from (seen ++ [node_id n]) l')
  end.

(** ** Cycles of prerequisites *)

(** [y] is a prerequisite of the node [_get_node_by_id] finds for [x]. *)
Definition requires (ns : list LearningNode) (x y : UUID) : Prop :=
  exists node, _get_node_by_id x ns = Some node /\ In y (prerequisite_nodes node).

(** Each id of the list requires the next one. *)
Fixpoint chain (ns : list LearningNode) (c : list UUID) : Prop :=
  match c with
  | [] => True
  | x :: c' =>
      match c' with
      | [] => True
      | y :: _ => requires ns x y /\ chain ns c'
      end
  end.

(** A walk along prerequisites that ends on the id it starts from. *)
Definition is_cycle (ns : list LearningNode) (c : list UUID) : Prop :=
  exists x c', c = x :: c' ++ [x] /\ chain ns c.

(** The ids a cycle search has left, in the order it left them: they are
    the visited ids off the stack, each once, and what an id requires was
    left before it. *)
Record finished (ns : list LearningNode) (st : DfsState) (fin : list UUID)
  : Prop := {
  fin_ids : forall x, In x fin <-> In x (fst st) /\ ~ In x (snd st);
  fin_stack : forall x, In x (snd st) -> In x (fst st);
  fin_once : NoDup fin;
  fin_order : forall a x b, fin = a ++ x :: b ->
              forall y, requires ns x y -> In y a
}.

(** The nodes the ids of [fin] name, in the order of [fin]. *)
Definition nodes_in_order (ns : list LearningNode) (fin : list UUID)
  : list LearningNode :=
  flat_map (fun x => match _get_node_by_id x ns with
                     | Some n => [n]
                     | None => []
                     end) fin.

(** * Concrete inputs *)

(** A run whose uuid4 calls return 100, 101, ... and whose loops meet a
    set in the order of insertion. *)
Definition rt0 : Runtime :=
  {| uuid4 := fun k => N.of_nat (100 + k);
     iter_ids := fun l => l;
     iter_topics := fun l => l;
     iter_deps := fun l => l |}.

Definition repo (name : string) (id : UUID) (tp : list Topic)
  (sk : option Skill) (c : Q) : Repository :=
  {| r_name := name; r_path := String.append "/repos/" name;
     repository_id := id; topics := tp; primary_skill := sk;
     complexity_score := c; learning_hours_estimate := 10 |}.

Definition default_request : GenerateLearningPathRequest :=
  {| rq_learner_id := "learner-1"; rq_name := "My Path"; rq_description := "";
     target_skill_types := []; target_skill_level := None;
     max_repositories := None; rq_allow_parallel_learning := false;
     rq_max_parallel_nodes := 3; exclude_repository_ids := [] |}.

(** A JavaScript repository about HTML (front end, basic) and one about
    React (back end, basic) whose topic names [html] as a parent. *)
Definition repo_html : Repository :=
  repo "html-basics" 1%N [mkTopic "html" []] (Some (mkSkill FRONTEND BASIC)) 1.

Definition repo_react : Repository :=
  repo "react-api" 2%N [mkTopic "react" ["html"]] (Some (mkSkill BACKEND BASIC)) 1.

(** An advanced back-end repository and a basic front-end one, no topics. *)
Definition repo_advanced : Repository :=
  repo "service-mesh" 3%N [] (Some (mkSkill BACKEND ADVANCED)) 6.

Definition repo_basic : Repository :=
  repo "landing-page" 4%N [] (Some (mkSkill FRONTEND BASIC)) 1.

(** The path the graph builder makes of the last two, and the order the
    sorter gives its nodes. *)
Definition mixed_path : Result LearningPath :=
  GraphBuilderService.build rt0 0 "learner-1" "My Path"
    [repo_advanced; repo_basic] "" false 3 [].

Definition mixed_sorted_nodes : list LearningNode :=
  match mixed_path with
  | Ok p => match TopologicalSorterService.sort rt0 p with
            | (Ok l, _) => l
            | _ => []
            end
  | Raise _ => []
  end.

(** Four back-end repositories, one of each skill level (scenario S1 of
    the specification). *)
Definition s1_repos : list Repository :=
  [ repo "r1" 11%N [] (Some (mkSkill BACKEND BASIC)) 1;
    repo "r2" 12%N [] (Some (mkSkill BACKEND INTERMEDIATE)) 3.5;
    repo "r3" 13%N [] (Some (mkSkill BACKEND ADVANCED)) 6;
    repo "r4" 14%N [] (Some (mkSkill BACKEND EXPERT)) 8 ].

(** No exclusion id is given in the examples. *)
Definition no_uuid : string -> option UUID := fun _ => None.

(** The phase list generation gives for them without overrides. *)
Definition s1_milestones : list MilestoneGroup :=
  match PathGeneratorService.generate no_uuid rt0 default_request s1_repos None with
  | (Ok rs, _) => milestones rs
  | (Raise _, _) => []
  end.

(** The item of [r1] in that list. *)
Definition s1_item_r1 : NodeItem :=
  {| ni_node_id := 101%N; ni_repository_id := 11%N; repository_name := "r1";
     order_index := 0; ni_estimated_hours := 10; ni_complexity_score := 1;
     ni_skill_type := "backend"; ni_skill_level := "basic"; prerequisites := [];
     is_overridden := false; override_reason := ""; forced_milestone := None |}.

Definition force_r1_specialized : OverrideManagerService.OverrideInstruction :=
  {| OverrideManagerService.ov_repository_id := 11%N;
     OverrideManagerService.override_type := OverrideManagerService.MILESTONE;
     OverrideManagerService.target_order := None;
     OverrideManagerService.target_milestone := Some "specialized_topics";
     OverrideManagerService.reason := "" |}.

Definition skip_unknown : OverrideManagerService.OverrideInstruction :=
  {| OverrideManagerService.ov_repository_id := 99%N;
     OverrideManagerService.override_type := OverrideManagerService.SKIP;
     OverrideManagerService.target_order := None;
     OverrideManagerService.target_milestone := None;
     OverrideManagerService.reason := "" |}.

(** What the examples show of a path: its nodes (name, id, prerequisites)
    and its relations (source, target, type, strength, creator). *)
Definition node_summary (p : LearningPath) : list (string * UUID * list UUID) :=
  map (fun n => (r_name (repository n), node_id n, prerequisite_nodes n)) (nodes p).

Definition edge_summary (p : LearningPath)
  : list (UUID * UUID * DependencyType * DependencyStrength * string) :=
  map (fun d => (source_repository_id d, target_repository_id d,
                 dependency_type d, strength d, created_by d))
      (dependencies p).

(** Three repositories without skills or topics, in a path made with
    [add_repository]: the nodes get the ids 101, 102 and 103. *)
Definition repo_a : Repository := repo "a" 21%N [] None 2.
Definition repo_b : Repository := repo "b" 22%N [] None 2.
Definition repo_c : Repository := repo "c" 23%N [] None 2.

Definition empty_path : LearningPath :=
  match LearningPath_new rt0 0 "My Path" "" "learner-1" false 3 with
  | Ok p => p
  | Raise _ => mkLearningPath "" "" "" 0%N [] [] DRAFT 0 0 0 false 0
  end.

Definition abc_path : LearningPath :=
  let '(_, p1, k1) := add_repository rt0 1 repo_a empty_path in
  let '(_, p2, k2) := add_repository rt0 k1 repo_b p1 in
  let '(_, p3, _) := add_repository rt0 k2 repo_c p2 in
  p3.

(** The learner adds a weak recommendation a -> c, the system one b -> c,
    and the learner the strong prerequisite a -> b. *)
Definition abc_with_edges : LearningPath :=
  let '(_, p1, _) :=
    add_dependency rt0 4 101%N 103%N RECOMMENDED WEAK "user" abc_path in
  let '(_, p2, _) :=
    add_dependency rt0 5 102%N 103%N RECOMMENDED WEAK "system" p1 in
  let '(_, p3, _) :=
    add_dependency rt0 6 101%N 102%N PREREQUISITE STRONG "user" p2 in
  p3.

(** Then the learner asks for the strong prerequisite b -> a. *)
Definition closing_the_cycle : Result DependencyRelation * LearningPath * nat :=
  add_dependency rt0 7 102%N 101%N PREREQUISITE STRONG "user" abc_with_edges.

Definition cyclic_path : LearningPath := snd (fst closing_the_cycle).

(** Three repositories chained by their topics, the first and the last
    with the same repository id. *)
Definition dup_x : Repository := repo "x" 31%N [mkTopic "t1" []] None 1.
Definition dup_y : Repository := repo "y" 32%N [mkTopic "t2" ["t1"]] None 1.
Definition dup_z : Repository := repo "z" 31%N [mkTopic "t3" ["t2"]] None 1.

(** A second run: other identifiers, and every loop over a set meets it
    in the reverse order. *)
Definition rt_reversed : Runtime :=
  {| uuid4 := fun k => N.of_nat (200 + k);
     iter_ids := @rev UUID;
     iter_topics := @rev Topic;
     iter_deps := @rev DependencyRelation |}.

(** Two front-end basics and a site whose topic names both as parents. *)
Definition repo_css : Repository :=
  repo "css-basics" 5%N [mkTopic "css" []] (Some (mkSkill FRONTEND BASIC)) 1.

Definition repo_site : Repository :=
  repo "web-site" 6%N [mkTopic "site" ["html"; "css"]]
       (Some (mkSkill FRONTEND INTERMEDIATE)) 2.

Definition site_repos : list Repository := [repo_html; repo_css; repo_site].

(** The identifiers a response carries: its path id and, for each item in
    order, the name, the node id and the prerequisite ids. *)
Definition generated_ids
  (out : Result LearningPathResponse * list OverrideManagerService.LogRecord)
  : option (UUID * list (string * UUID * list UUID)) :=
  match fst out with
  | Ok r =>
      Some (rs_path_id r,
            flat_map (fun g => map (fun x => (repository_name x, ni_node_id x,
                                              prerequisites x))
                                   (mg_nodes g))
                     (milestones r))
  | Raise _ => None
  end.

(** The learner asks to skip [r2]. *)
Definition skip_r2 : OverrideManagerService.OverrideInstruction :=
  {| OverrideManagerService.ov_repository_id := 12%N;
     OverrideManagerService.override_type := OverrideManagerService.SKIP;
     OverrideManagerService.target_order := None;
     OverrideManagerService.target_milestone := None;
     OverrideManagerService.reason := "" |}.
(** ** More inputs *)

(** The three nodes of [abc_with_edges] as [_topological_sort] returns
    them. *)
Definition abc_sorted : list LearningNode :=
  match _topological_sort rt0 abc_with_edges with
  | Ok l => l
  | Raise _ => []
  end.

(** The path the sorter service leaves of [abc_with_edges]. *)
Definition abc_sorted_path : LearningPath :=
  snd (TopologicalSorterService.sort rt0 abc_with_edges).

(** The path the graph builder makes of the three repositories of the web
    site. *)
Definition site_path : LearningPath :=
  match GraphBuilderService.build rt0 0 "learner-1" "My Path" site_repos ""
                                  false 3 [] with
  | Ok p => p
  | Raise _ => empty_path
  end.

(** A request for two repositories at most. *)
Definition capped_request : GenerateLearningPathRequest :=
  {| rq_learner_id := "learner-1"; rq_name := "My Path"; rq_description := "";
     target_skill_types := []; target_skill_level := None;
     max_repositories := Some 2%Z; rq_allow_parallel_learning := false;
     rq_max_parallel_nodes := 3; exclude_repository_ids := [] |}.

(** A fourth repository, and [abc_with_edges] without its last node. *)
Definition repo_d : Repository := repo "d" 24%N [] None 2.

Definition ab_path : LearningPath :=
  snd (remove_repository rt0 103%N abc_with_edges).

(** The first node of [abc_path], which has no link. *)
Definition node_a : LearningNode :=
  match nodes abc_path with
  | n :: _ => n
  | [] => {| repository := repo_a; node_id := 101%N; prerequisite_nodes := [];
             dependent_nodes := []; estimated_hours := 10; status := NOT_STARTED |}
  end.

(** * Proofs *)

(** ** Comparisons and equality tests *)

Lemma Qltb_lt (x y : Q) : Qltb x y = true <-> (x < y)%Q.
Proof.
  unfold Qltb. rewrite negb_true_iff. split; intro H.
  - apply Qnot_le_lt. intro Hle. apply Qle_bool_iff in Hle. congruence.
  - destruct (Qle_bool y x) eqn:E; [|reflexivity].
    apply Qle_bool_iff in E. exfalso. exact (Qlt_not_le _ _ H E).
Qed.

Lemma Qltb_ge (x y : Q) : Qltb x y = false <-> (y <= x)%Q.
Proof. unfold Qltb. rewrite negb_false_iff. apply Qle_bool_iff. Qed.

Lemma SkillType_eqb_eq (a b : SkillType) : SkillType_eqb a b = true <-> a = b.
Proof. destruct a, b; simpl; split; intro H; congruence. Qed.

Lemma MilestonePhase_eqb_eq (a b : MilestonePhase) :
  MilestonePhase_eqb a b = true <-> a = b.
Proof. destruct a, b; simpl; split; intro H; congruence. Qed.

Lemma mem_In {A} (eqb : A -> A -> bool)
  (eqb_eq : forall x y, eqb x y = true <-> x = y) (x : A) (l : list A) :
  mem eqb x l = true <-> In x l.
Proof.
  unfold mem. rewrite existsb_exists. split.
  - intros [y [Hy E]]. apply eqb_eq in E. now subst.
  - intro H. exists x. split; [assumption | now apply eqb_eq].
Qed.

(** ** Milestone phase assignment *)

(** C5.  Phase assignment is skill-first: with a primary skill the phase is
    the one of the skill level, whatever the complexity; without one the
    complexity decides, with the thresholds 3, 5 and 7. *)
Theorem assign_phase_skill_first :
  (forall node s,
      primary_skill (repository node) = Some s ->
      MilestoneGrouperService._assign_phase node = phase_of_level (skill_level s))
  /\
  (forall node,
      primary_skill (repository node) = None ->
      let c := complexity_score (repository node) in
      ((c < 3)%Q -> MilestoneGrouperService._assign_phase node = FOUNDATIONS) /\
      ((3 <= c)%Q -> (c < 5)%Q ->
       MilestoneGrouperService._assign_phase node = CORE_SKILLS) /\
      ((5 <= c)%Q -> (c < 7)%Q ->
       MilestoneGrouperService._assign_phase node = ADVANCED_SYSTEMS) /\
      ((7 <= c)%Q ->
       MilestoneGrouperService._assign_phase node = SPECIALIZED_TOPICS)).
Proof.
  split.
  - intros node s Hs. unfold MilestoneGrouperService._assign_phase.
    rewrite Hs. destruct (skill_level s); reflexivity.
  - intros node Hs c. unfold MilestoneGrouperService._assign_phase.
    rewrite Hs. fold c.
    repeat split; intros;
      repeat match goal with
             | |- context [Qltb ?a ?b] =>
                 let E := fresh "E" in
                 destruct (Qltb a b) eqn:E;
                 [apply Qltb_lt in E | apply Qltb_ge in E]
             end;
      try reflexivity; exfalso;
      repeat match goal with
             | H1 : (?a < ?b)%Q, H2 : (?b <= ?a)%Q |- _ =>
                 exact (Qlt_not_le _ _ H1 H2)
             | H1 : (?a < 3)%Q, H2 : (5 <= ?a)%Q |- _ =>
                 apply (Qlt_not_le _ _ H1); eapply Qle_trans; [|exact H2]; discriminate
             | H1 : (?a < 3)%Q, H2 : (7 <= ?a)%Q |- _ =>
                 apply (Qlt_not_le _ _ H1); eapply Qle_trans; [|exact H2]; discriminate
             | H1 : (?a < 5)%Q, H2 : (7 <= ?a)%Q |- _ =>
                 apply (Qlt_not_le _ _ H1); eapply Qle_trans; [|exact H2]; discriminate
             end.
Qed.

(** ** Dependency inference *)

Section Inference.
Import GraphBuilderService.
Variable rt : Runtime.
Hypothesis topics_perm : forall l, Permutation l (iter_topics rt l).

Lemma rule1_iff (A B : Repository) :
  existsb (names_a_parent (map t_name (iter_topics rt (topics A))))
          (iter_topics rt (topics B)) = true
  <-> topic_prerequisite A B.
Proof.
  rewrite existsb_exists. unfold names_a_parent, topic_prerequisite. split.
  - intros [tb [Htb H]]. apply existsb_exists in H. destruct H as [p [Hp H]].
    apply (mem_In _ String.eqb_eq) in H. apply in_map_iff in H.
    destruct H as [ta [Hname Hta]]. exists tb, ta. repeat split.
    + eapply Permutation_in; [apply Permutation_sym, topics_perm | exact Htb].
    + eapply Permutation_in; [apply Permutation_sym, topics_perm | exact Hta].
    + now rewrite Hname.
  - intros [tb [ta [Htb [Hta Hp]]]]. exists tb. split.
    + eapply Permutation_in; [apply topics_perm | exact Htb].
    + apply existsb_exists. exists (t_name ta). split; [exact Hp|].
      apply (mem_In _ String.eqb_eq). apply in_map.
      eapply Permutation_in; [apply topics_perm | exact Hta].
Qed.

Lemma level_order_index (a b : SkillLevel) :
  (_SKILL_LEVEL_ORDER a <? _SKILL_LEVEL_ORDER b)%Z = true
  <-> (SkillLevel_index a < SkillLevel_index b)%nat.
Proof. destruct a, b; simpl; split; intro H; try lia; try discriminate. Qed.

Lemma detect_from_edges (a : Repository) (l : list Repository) :
  detect_from rt a l = flat_map (edges_of rt) (map (pair a) l).
Proof.
  induction l as [|b l IH]; simpl; [reflexivity|].
  unfold edges_of at 1. simpl.
  destruct (_infer_dependency rt a b) as [[ty st]|]; simpl; now rewrite IH.
Qed.

Lemma detect_dependencies_pairs (repos : list Repository) :
  _detect_dependencies rt repos = flat_map (edges_of rt) (ordered_pairs repos).
Proof.
  induction repos as [|a l IH]; simpl; [reflexivity|].
  now rewrite flat_map_app, detect_from_edges, IH.
Qed.

(** C4.  Inference meets every pair [(A, B)] with [A] before [B] in the
    pre-sorted list once and emits one edge for it or none; the rules are
    tried in the fixed order and the first that matches decides. *)
Theorem infer_first_matching_rule :
  (forall repos,
      _detect_dependencies rt repos = flat_map (edges_of rt) (ordered_pairs repos))
  /\
  (forall A B,
      (topic_prerequisite A B ->
       _infer_dependency rt A B = Some (PREREQUISITE, STRONG)) /\
      (~ topic_prerequisite A B -> same_type_progression A B ->
       _infer_dependency rt A B = Some (PREREQUISITE, MODERATE)) /\
      (~ topic_prerequisite A B -> ~ same_type_progression A B ->
       compatible_progression A B ->
       _infer_dependency rt A B = Some (RECOMMENDED, WEAK)) /\
      (~ topic_prerequisite A B -> ~ same_type_progression A B ->
       ~ compatible_progression A B -> complexity_gap A B ->
       _infer_dependency rt A B = Some (RECOMMENDED, WEAK)) /\
      (~ topic_prerequisite A B -> ~ same_type_progression A B ->
       ~ compatible_progression A B -> ~ complexity_gap A B ->
       _infer_dependency rt A B = None)).
Proof.
  split; [exact detect_dependencies_pairs|].
  intros A B. unfold _infer_dependency.
  pose proof (rule1_iff A B) as R1.
  destruct (existsb _ _) eqn:E1.
  { assert (topic_prerequisite A B) by now apply R1.
    repeat split; intros; try reflexivity; contradiction. }
  assert (N1 : ~ topic_prerequisite A B) by (intro H; apply R1 in H; discriminate).
  clear R1 E1.
  set (r2 := match primary_skill A, primary_skill B with
             | Some s, Some t => _ | _, _ => false end).
  assert (R2 : r2 = true <-> same_type_progression A B).
  { unfold r2, same_type_progression.
    destruct (primary_skill A) as [sa|], (primary_skill B) as [sb|];
      try (split; [discriminate | intros (x & y & H1 & H2 & _); discriminate]).
    rewrite andb_true_iff, SkillType_eqb_eq, level_order_index. split.
    - intros [H1 H2]. exists sa, sb. auto.
    - intros (x & y & H1 & H2 & H3 & H4).
      injection H1 as <-. injection H2 as <-. auto. }
  destruct r2.
  { assert (same_type_progression A B) by now apply R2.
    repeat split; intros; try reflexivity; contradiction. }
  assert (N2 : ~ same_type_progression A B) by (intro H; apply R2 in H; discriminate).
  clear R2.
  set (r3 := match primary_skill A, primary_skill B with
             | Some s, Some t => _ | _, _ => false end).
  assert (R3 : r3 = true <-> compatible_progression A B).
  { unfold r3, compatible_progression.
    destruct (primary_skill A) as [sa|], (primary_skill B) as [sb|];
      try (split; [discriminate | intros (x & y & H1 & H2 & _); discriminate]).
    rewrite andb_true_iff, (mem_In _ SkillType_eqb_eq), Qltb_lt. split.
    - intros [H1 H2]. exists sa, sb. auto.
    - intros (x & y & H1 & H2 & H3 & H4).
      injection H1 as <-. injection H2 as <-. auto. }
  destruct r3.
  { assert (compatible_progression A B) by now apply R3.
    repeat split; intros; try reflexivity; contradiction. }
  assert (N3 : ~ compatible_progression A B) by (intro H; apply R3 in H; discriminate).
  clear R3.
  assert (R4 : andb (Qltb (complexity_score A) _SIMPLE_THRESHOLD)
                    (Qltb _COMPLEX_THRESHOLD (complexity_score B)) = true
               <-> complexity_gap A B).
  { unfold complexity_gap. now rewrite andb_true_iff, !Qltb_lt. }
  destruct (andb _ _).
  { assert (complexity_gap A B) by now apply R4.
    repeat split; intros; try reflexivity; contradiction. }
  assert (N4 : ~ complexity_gap A B) by (intro H; apply R4 in H; discriminate).
  repeat split; intros; try reflexivity; contradiction.
Qed.

End Inference.

(** The pairs [ordered_pairs] lists are the pairs of positions [i < j]. *)
Lemma ordered_pairs_positions {A} (l : list A) (a b : A) :
  In (a, b) (ordered_pairs l)
  <-> exists i j, (i < j)%nat /\ nth_error l i = Some a /\ nth_error l j = Some b.
Proof.
  induction l as [|x l IH]; simpl.
  - split; [contradiction|]. intros (i & j & _ & H & _). now destruct i.
  - rewrite in_app_iff, in_map_iff, IH. split.
    + intros [(y & E & Hy) | (i & j & Hij & Hi & Hj)].
      * injection E as -> ->. apply In_nth_error in Hy. destruct Hy as [j Hj].
        exists 0%nat, (S j). repeat split; [lia | assumption].
      * exists (S i), (S j). repeat split; [lia | assumption | assumption].
    + intros (i & j & Hij & Hi & Hj). destruct j as [|j]; [lia|].
      destruct i as [|i]; simpl in Hi, Hj.
      * injection Hi as ->. left. exists b. split; [reflexivity|].
        eapply nth_error_In; eassumption.
      * right. exists i, j. repeat split; [lia | assumption | assumption].
Qed.

(** A run on which C4 applies: the HTML repository is a strong
    prerequisite of the React one by rule 1. *)
Lemma infer_first_matching_rule_witness :
  GraphBuilderService._infer_dependency rt0 repo_html repo_react
  = Some (PREREQUISITE, STRONG).
Proof.
  apply (proj2 (infer_first_matching_rule rt0 (fun l => Permutation_refl l))
               repo_html repo_react).
  exists (mkTopic "react" ["html"]), (mkTopic "html" []).
  simpl. auto.
Defined.

(** ** The milestone grouper *)

Section Grouper.
Import MilestoneGrouperService.

Lemma bucket_append_get b ph ph' item :
  four_buckets b ->
  four_buckets (bucket_append ph' item b) /\
  dict_get MilestonePhase_eqb ph (bucket_append ph' item b)
  = match dict_get MilestonePhase_eqb ph b with
    | Some l => Some (if MilestonePhase_eqb ph' ph then l ++ [item] else l)
    | None => None
    end.
Proof.
  unfold four_buckets, _MILESTONE_ORDER. intro H.
  destruct b as [|[k1 v1] [|[k2 v2] [|[k3 v3] [|[k4 v4] [|? ?]]]]]; try discriminate.
  simpl in H. injection H as -> -> -> ->.
  destruct ph, ph'; simpl; split; reflexivity.
Qed.

Lemma fill_buckets_get rt ph : forall ns i b,
  four_buckets b ->
  four_buckets (fill_buckets rt i ns b) /\
  dict_get MilestonePhase_eqb ph (fill_buckets rt i ns b)
  = match dict_get MilestonePhase_eqb ph b with
    | Some l => Some (l ++ phase_items ph (items_from rt i ns))
    | None => None
    end.
Proof.
  induction ns as [|n rest IH]; intros i b Hb; simpl.
  - split; [assumption|]. destruct (dict_get _ ph b); [|reflexivity].
    unfold phase_items. simpl. now rewrite app_nil_r.
  - destruct (bucket_append_get b ph (_assign_phase n) (_node_to_item rt n i) Hb)
      as [Hb' Hget].
    destruct (IH (i + 1)%Z _ Hb') as [Hb'' Hget'].
    split; [assumption|]. rewrite Hget', Hget.
    destruct (dict_get _ ph b) as [l|]; [|reflexivity].
    unfold phase_items. simpl.
    destruct (MilestonePhase_eqb (_assign_phase n) ph); simpl;
      [now rewrite <- app_assoc | reflexivity].
Qed.

Lemma collect_group_of order b :
  collect order b
  = flat_map (fun ph => group_of ph match dict_get MilestonePhase_eqb ph b with
                                   | Some l => l
                                   | None => []
                                   end) order.
Proof.
  unfold collect. apply flat_map_ext. intro ph.
  destruct (dict_get _ ph b) as [[|x l]|]; reflexivity.
Qed.

(** The output of [group]: for each phase of the fixed order that has
    items, one group with the items of that phase. *)
Lemma group_by_phase rt nodes :
  group rt nodes
  = flat_map (fun ph => group_of ph (phase_items ph (items_from rt 0 nodes)))
             _MILESTONE_ORDER.
Proof.
  unfold group. rewrite collect_group_of. apply flat_map_ext. intro ph.
  match goal with |- context [fill_buckets rt 0 nodes ?b] => set (b0 := b) end.
  assert (Hb : four_buckets b0) by reflexivity.
  destruct (fill_buckets_get rt ph nodes 0%Z b0 Hb) as [_ Hget].
  rewrite Hget. destruct ph; reflexivity.
Qed.

Lemma partition_by_phase (l : list (MilestonePhase * NodeItem)) :
  Permutation (map snd l)
    (phase_items FOUNDATIONS l ++ phase_items CORE_SKILLS l
     ++ phase_items ADVANCED_SYSTEMS l ++ phase_items SPECIALIZED_TOPICS l).
Proof.
  unfold phase_items. induction l as [|[ph x] l IH]; simpl; [constructor|].
  destruct ph; simpl.
  - now constructor.
  - apply Permutation_cons_app. exact IH.
  - rewrite app_assoc. apply Permutation_cons_app. now rewrite <- app_assoc.
  - rewrite !app_assoc. apply Permutation_cons_app. now rewrite <- !app_assoc.
Qed.

Lemma flat_map_group_of (f : MilestonePhase -> list NodeItem) order :
  flat_map mg_nodes (flat_map (fun ph => group_of ph (f ph)) order)
  = flat_map f order.
Proof.
  induction order as [|ph order IH]; simpl; [reflexivity|].
  rewrite flat_map_app, IH. destruct (f ph); simpl; [reflexivity|].
  now rewrite app_nil_r.
Qed.

Lemma phase_ordered_tail (p : MilestonePhase) (l : list MilestonePhase) :
  phase_ordered (p :: l) = true ->
  phase_ordered l = true /\ Forall (fun q => (phase_rank p <= phase_rank q)%nat) l.
Proof.
  revert p. induction l as [|q l IH]; intros p H.
  - split; [reflexivity | constructor].
  - change (andb (phase_rank p <=? phase_rank q)%nat (phase_ordered (q :: l)) = true) in H.
    apply andb_true_iff in H. destruct H as [Hpq Hl].
    apply Nat.leb_le in Hpq. split; [exact Hl|].
    destruct (IH q Hl) as [_ Hall]. constructor; [exact Hpq|].
    eapply Forall_impl; [|exact Hall]. simpl. intros. lia.
Qed.

Lemma phase_items_none (q : MilestonePhase) (l : list (MilestonePhase * NodeItem)) :
  Forall (fun p => (phase_rank q < phase_rank p)%nat) (map fst l) ->
  phase_items q l = [].
Proof.
  unfold phase_items. induction l as [|[p x] l IH]; intro H; [reflexivity|].
  inversion H as [|? ? Hp Hl]; subst. simpl in *.
  destruct (MilestonePhase_eqb p q) eqn:E.
  - apply MilestonePhase_eqb_eq in E. subst. lia.
  - now apply IH.
Qed.

(** On an input that is already ordered by phase the buckets, one after
    the other, are the input. *)
Lemma partition_of_ordered (l : list (MilestonePhase * NodeItem)) :
  phase_ordered (map fst l) = true ->
  phase_items FOUNDATIONS l ++ phase_items CORE_SKILLS l
  ++ phase_items ADVANCED_SYSTEMS l ++ phase_items SPECIALIZED_TOPICS l
  = map snd l.
Proof.
  induction l as [|[p x] l IH]; intro H; [reflexivity|].
  simpl in H. apply phase_ordered_tail in H. destruct H as [Hl Hall].
  specialize (IH Hl).
  assert (Hnone : forall q, (phase_rank q < phase_rank p)%nat -> phase_items q l = []).
  { intros q Hq. apply phase_items_none. eapply Forall_impl; [|exact Hall].
    simpl. intros. lia. }
  destruct p; unfold phase_items at 1 2 3 4; simpl;
    fold (phase_items FOUNDATIONS l); fold (phase_items CORE_SKILLS l);
    fold (phase_items ADVANCED_SYSTEMS l); fold (phase_items SPECIALIZED_TOPICS l).
  - now rewrite IH.
  - rewrite <- IH. rewrite (Hnone FOUNDATIONS) by (simpl; lia). reflexivity.
  - rewrite <- IH. rewrite (Hnone FOUNDATIONS), (Hnone CORE_SKILLS) by (simpl; lia).
    reflexivity.
  - rewrite <- IH.
    rewrite (Hnone FOUNDATIONS), (Hnone CORE_SKILLS), (Hnone ADVANCED_SYSTEMS)
      by (simpl; lia).
    reflexivity.
Qed.

(** C6, amended.  The grouper's output is the input stably partitioned by
    phase: the phase lists, one after the other in the fixed order, are a
    permutation of the input's items in which every phase keeps the
    relative order of the input (they are the input itself when that is
    already ordered by phase); the groups come in the fixed order and none
    is empty. *)
Theorem group_is_stable_partition (rt : Runtime) (nodes : list LearningNode) :
  let items := items_from rt 0 nodes in
  let out := group rt nodes in
  Permutation (flat_map mg_nodes out) (map snd items)
  /\ flat_map mg_nodes out
     = phase_items FOUNDATIONS items ++ phase_items CORE_SKILLS items
       ++ phase_items ADVANCED_SYSTEMS items ++ phase_items SPECIALIZED_TOPICS items
  /\ (phase_ordered (map fst items) = true -> flat_map mg_nodes out = map snd items)
  /\ (forall g, In g out ->
        mg_nodes g = phase_items (phase g) items /\ mg_nodes g <> [])
  /\ map phase out
     = filter (fun ph => match phase_items ph items with
                         | [] => false
                         | _ :: _ => true
                         end)
              _MILESTONE_ORDER.
Proof.
  intros items out. unfold out. rewrite group_by_phase. fold items.
  assert (Hcat : flat_map mg_nodes
                   (flat_map (fun ph => group_of ph (phase_items ph items))
                             _MILESTONE_ORDER)
                 = phase_items FOUNDATIONS items ++ phase_items CORE_SKILLS items
                   ++ phase_items ADVANCED_SYSTEMS items
                   ++ phase_items SPECIALIZED_TOPICS items).
  { rewrite flat_map_group_of. simpl. now rewrite app_nil_r. }
  split; [|split; [|split; [|split]]].
  - rewrite Hcat. apply Permutation_sym, partition_by_phase.
  - exact Hcat.
  - intro H. rewrite Hcat. now apply partition_of_ordered.
  - intros g Hg. apply in_flat_map in Hg. destruct Hg as [ph [_ Hg]].
    destruct (phase_items ph items) as [|x l] eqn:E; simpl in Hg; [contradiction|].
    destruct Hg as [<-|[]]. simpl. rewrite E. split; [reflexivity | discriminate].
  - simpl.
    destruct (phase_items FOUNDATIONS items), (phase_items CORE_SKILLS items),
      (phase_items ADVANCED_SYSTEMS items), (phase_items SPECIALIZED_TOPICS items);
      reflexivity.
Qed.

End Grouper.

(** C6 as stated fails: the sorter hands the grouper the advanced
    repository before the basic one, and the phase lists, one after the
    other, give the basic one first. *)
Lemma group_reorders_across_phases :
  map (fun n => r_name (repository n)) mixed_sorted_nodes
  = ["service-mesh"; "landing-page"]
  /\ map repository_name
         (flat_map mg_nodes (MilestoneGrouperService.group rt0 mixed_sorted_nodes))
     = ["landing-page"; "service-mesh"]
  /\ flat_map mg_nodes (MilestoneGrouperService.group rt0 mixed_sorted_nodes)
     <> map snd (items_from rt0 0 mixed_sorted_nodes).
Proof.
  split; [vm_compute; reflexivity|]. split; [vm_compute; reflexivity|].
  intro H. apply (f_equal (map repository_name)) in H.
  vm_compute in H. discriminate.
Qed.

(** ** The override manager *)

Section Overrides.
Import OverrideManagerService.

Section DictFacts.

Context {K V : Type} (eqb : K -> K -> bool).

Hypothesis eqb_eq : forall x y, eqb x y = true <-> x = y.

Lemma eqb_refl_of (x : K) : eqb x x = true.
Proof. now apply eqb_eq. Qed.

Lemma eqb_false_of (x y : K) : x <> y -> eqb x y = false.
Proof.
  intro H. destruct (eqb x y) eqn:E; [|reflexivity].
  apply eqb_eq in E. contradiction.
Qed.

Lemma dict_get_set (k k' : K) (v : V) (d : list (K * V)) :
  dict_get eqb k (dict_set eqb k' v d)
  = if eqb k k' then Some v else dict_get eqb k d.
Proof.
  induction d as [|[k0 v0] d IH]; simpl.
  - reflexivity.
  - destruct (eqb k' k0) eqn:E'; simpl.
    + apply eqb_eq in E'. subst k0. destruct (eqb k k'); reflexivity.
    + destruct (eqb k k0) eqn:E0; [|exact IH].
      apply eqb_eq in E0. subst k0.
      destruct (eqb k k') eqn:E; [|reflexivity].
      apply eqb_eq in E. subst. rewrite eqb_refl_of in E'. discriminate.
Qed.

Lemma dict_get_none (k : K) (d : list (K * V)) :
  dict_get eqb k d = None <-> ~ In k (map fst d).
Proof.
  induction d as [|[k0 v0] d IH]; simpl.
  - tauto.
  - destruct (eqb k k0) eqn:E.
    + apply eqb_eq in E. subst. split; [discriminate | intro H; exfalso; auto].
    + rewrite IH. split; [|tauto]. intros H [H'|H']; [|auto].
      subst. rewrite eqb_refl_of in E. discriminate.
Qed.

Lemma dict_get_in (k : K) (v : V) (d : list (K * V)) :
  NoDup (map fst d) -> In (k, v) d -> dict_get eqb k d = Some v.
Proof.
  induction d as [|[k0 v0] d IH]; simpl; intros Hnd Hin; [contradiction|].
  inversion Hnd as [|? ? Hk0 Hnd']; subst.
  destruct Hin as [E|Hin].
  - injection E as -> ->. now rewrite eqb_refl_of.
  - destruct (eqb k k0) eqn:E.
    + apply eqb_eq in E. subst. exfalso. apply Hk0.
      change k0 with (fst (k0, v)). now apply in_map.
    + now apply IH.
Qed.

Lemma dict_set_absent (k : K) (v : V) (d : list (K * V)) :
  ~ In k (map fst d) -> dict_set eqb k v d = d ++ [(k, v)].
Proof.
  induction d as [|[k0 v0] d IH]; simpl; intro H; [reflexivity|].
  destruct (eqb k k0) eqn:E.
  - apply eqb_eq in E. subst. exfalso. auto.
  - rewrite IH; [reflexivity | tauto].
Qed.

Lemma dict_of_acc (l acc : list (K * V)) :
  NoDup (map fst (acc ++ l)) ->
  fold_left (fun d kv => dict_set eqb (fst kv) (snd kv) d) l acc = acc ++ l.
Proof.
  revert acc. induction l as [|[k v] l IH]; intros acc Hnd; simpl.
  - now rewrite app_nil_r.
  - rewrite dict_set_absent.
    + rewrite IH; rewrite <- app_assoc; [reflexivity | exact Hnd].
    + rewrite map_app in Hnd. apply NoDup_remove_2 in Hnd.
      intro H. apply Hnd. apply in_or_app. now left.
Qed.

Lemma dict_of_distinct (l : list (K * V)) :
  NoDup (map fst l) -> dict_of eqb l = l.
Proof. intro H. unfold dict_of. now rewrite dict_of_acc. Qed.

Lemma dict_set_keys (k : K) (v : V) (d : list (K * V)) :
  In k (map fst d) -> map fst (dict_set eqb k v d) = map fst d.
Proof.
  induction d as [|[k0 v0] d IH]; simpl; intro H; [contradiction|].
  destruct (eqb k k0) eqn:E; simpl; [reflexivity|].
  f_equal. apply IH. destruct H as [H|H]; [|exact H].
  subst. rewrite eqb_refl_of in E. discriminate.
Qed.

End DictFacts.

Section SortFacts.

Context {A : Type} (key : A -> Z).

Lemma insert_by_perm (x : A) (l : list A) :
  Permutation (insert_by Z.ltb key x l) (x :: l).
Proof.
  induction l as [|y l IH]; simpl; [reflexivity|].
  destruct (key y <? key x)%Z; [|reflexivity].
  rewrite IH. apply perm_swap.
Qed.

Lemma py_sorted_perm (l : list A) : Permutation (py_sorted Z.ltb key l) l.
Proof.
  induction l as [|x l IH]; simpl; [constructor|].
  rewrite insert_by_perm. now constructor.
Qed.

Lemma insert_by_sorted (x : A) (l : list A) :
  nondecreasing (map key l) = true ->
  nondecreasing (map key (insert_by Z.ltb key x l)) = true.
Proof.
  induction l as [|y l IH]; intro H; [reflexivity|].
  simpl. destruct (key y <? key x)%Z eqn:E.
  - change (nondecreasing (key y :: map key l) = true) in H.
    simpl in H. apply andb_true_iff in H. destruct H as [Hh Ht].
    specialize (IH Ht).
    change (nondecreasing (key y :: map key (insert_by Z.ltb key x l)) = true).
    simpl. rewrite IH, andb_true_r.
    destruct l as [|z l]; simpl.
    + apply Z.leb_le. apply Z.ltb_lt in E. lia.
    + simpl in Hh. destruct (key z <? key x)%Z; simpl; [exact Hh|].
      apply Z.leb_le. apply Z.ltb_lt in E. lia.
  - change (nondecreasing (key x :: key y :: map key l) = true).
    change (nondecreasing (key y :: map key l) = true) in H.
    simpl. simpl in H. rewrite H, andb_true_r.
    apply Z.leb_le. apply Z.ltb_ge in E. lia.
Qed.

Lemma py_sorted_sorted (l : list A) :
  nondecreasing (map key (py_sorted Z.ltb key l)) = true.
Proof.
  induction l as [|x l IH]; [reflexivity|]. simpl. now apply insert_by_sorted.
Qed.

Lemma py_sorted_of_sorted (l : list A) :
  nondecreasing (map key l) = true -> py_sorted Z.ltb key l = l.
Proof.
  induction l as [|x l IH]; intro H; [reflexivity|].
  change (nondecreasing (key x :: map key l) = true) in H.
  simpl in H. apply andb_true_iff in H. destruct H as [Hh Ht].
  simpl. rewrite (IH Ht). destruct l as [|y l]; [reflexivity|].
  simpl in *. apply Z.leb_le in Hh.
  destruct (key y <? key x)%Z eqn:E; [|reflexivity].
  apply Z.ltb_lt in E. lia.
Qed.

End SortFacts.

Lemma bucket_set ph q l b :
  bucket ph (dict_set MilestonePhase_eqb q l b)
  = if MilestonePhase_eqb ph q then l else bucket ph b.
Proof.
  unfold bucket. rewrite (dict_get_set _ MilestonePhase_eqb_eq).
  now destruct (MilestonePhase_eqb ph q).
Qed.

Lemma setdefault_present b q ph :
  dict_get MilestonePhase_eqb ph b <> None \/ ph = q ->
  dict_get MilestonePhase_eqb ph (setdefault b q) <> None.
Proof.
  unfold setdefault. intro H.
  destruct (dict_get MilestonePhase_eqb q b) eqn:E.
  - destruct H as [H|H]; [exact H | subst; congruence].
  - rewrite (dict_get_set _ MilestonePhase_eqb_eq).
    destruct (MilestonePhase_eqb ph q) eqn:E'; [discriminate|].
    destruct H as [H|H]; [exact H|]. subst.
    rewrite (proj2 (MilestonePhase_eqb_eq q q) eq_refl) in E'. discriminate.
Qed.

Lemma setdefault_bucket b q ph :
  bucket ph b = [] -> bucket ph (setdefault b q) = [].
Proof.
  unfold setdefault. intro H.
  destruct (dict_get MilestonePhase_eqb q b); [exact H|].
  rewrite bucket_set. now destruct (MilestonePhase_eqb ph q).
Qed.

Lemma dict_of_no_items (l : list MilestoneGroup) ph :
  bucket ph (dict_of MilestonePhase_eqb (map (fun g => (phase g, @nil NodeItem)) l)) = [].
Proof.
  unfold dict_of.
  assert (H : forall acc, bucket ph acc = [] ->
            bucket ph (fold_left (fun d kv => dict_set MilestonePhase_eqb (fst kv) (snd kv) d)
                         (map (fun g => (phase g, @nil NodeItem)) l) acc) = []).
  { induction l as [|g l IH]; intros acc Hacc; simpl; [exact Hacc|].
    apply IH. rewrite bucket_set. now destruct (MilestonePhase_eqb ph (phase g)). }
  now apply H.
Qed.

Lemma initial_buckets ms :
  let b0 := fold_left setdefault
              [FOUNDATIONS; CORE_SKILLS; ADVANCED_SYSTEMS; SPECIALIZED_TOPICS]
              (dict_of MilestonePhase_eqb
                 (map (fun g => (phase g, @nil NodeItem)) ms)) in
  all_present b0 /\ forall ph, bucket ph b0 = [].
Proof.
  simpl. split.
  - intro ph. destruct ph.
    + do 3 (apply setdefault_present; left). apply setdefault_present. now right.
    + do 2 (apply setdefault_present; left). apply setdefault_present. now right.
    + apply setdefault_present; left. apply setdefault_present. now right.
    + apply setdefault_present. now right.
  - intro ph. do 4 apply setdefault_bucket. apply dict_of_no_items.
Qed.

Lemma bucket_append_spec q n b :
  all_present b ->
  all_present (bucket_append q n b) /\
  forall ph, bucket ph (bucket_append q n b)
             = if MilestonePhase_eqb q ph then bucket ph b ++ [n] else bucket ph b.
Proof.
  intro Hb. unfold bucket_append.
  destruct (dict_get MilestonePhase_eqb q b) as [items|] eqn:E; [|now destruct (Hb q)].
  split.
  - intro ph. rewrite (dict_get_set _ MilestonePhase_eqb_eq).
    destruct (MilestonePhase_eqb ph q); [discriminate | apply Hb].
  - intro ph. rewrite bucket_set.
    destruct (MilestonePhase_eqb ph q) eqn:E1.
    + apply MilestonePhase_eqb_eq in E1. subst.
      rewrite (proj2 (MilestonePhase_eqb_eq q q) eq_refl).
      unfold bucket. now rewrite E.
    + destruct (MilestonePhase_eqb q ph) eqn:E2; [|reflexivity].
      apply MilestonePhase_eqb_eq in E2. subst.
      rewrite (proj2 (MilestonePhase_eqb_eq ph ph) eq_refl) in E1. discriminate.
Qed.

Lemma rebucket_one_spec ms skip b n :
  rebucket_one ms skip b n
  = match destination ms skip n with
    | Some q => bucket_append q n b
    | None => b
    end.
Proof.
  unfold rebucket_one, destination.
  destruct (mem N.eqb (ni_repository_id n) skip); [reflexivity|].
  destruct (forced_milestone n); [reflexivity|].
  now destruct (_find_original_phase ms (ni_repository_id n)).
Qed.

Lemma rebucket_fold ms skip : forall values b,
  all_present b ->
  forall ph,
    bucket ph (fold_left (rebucket_one ms skip) values b)
    = bucket ph b ++ filter (sent_to ms skip ph) values.
Proof.
  induction values as [|n values IH]; intros b Hb ph; simpl.
  - now rewrite app_nil_r.
  - rewrite rebucket_one_spec. unfold sent_to at 1.
    destruct (destination ms skip n) as [q|].
    + destruct (bucket_append_spec q n b Hb) as [Hb' Hget].
      rewrite (IH _ Hb'), Hget.
      destruct (MilestonePhase_eqb q ph); [now rewrite <- app_assoc | reflexivity].
    + now apply IH.
Qed.

Lemma rebucket_spec ms m skip ph :
  bucket ph (rebucket ms m skip) = filter (sent_to ms skip ph) (dict_values m).
Proof.
  unfold rebucket. destruct (initial_buckets ms) as [Hp He].
  rewrite rebucket_fold by exact Hp. now rewrite He.
Qed.

(** What [apply] computes once its import is resolved. *)
Lemma apply_with_spec order ms o os :
  apply_with (Ok order) ms (o :: os)
  = let '(m, skip, log) := loop_result ms (o :: os) in
    (Ok (flat_map
           (fun ph => group_of ph
                        (py_sorted Z.ltb order_index
                           (filter (sent_to ms skip ph) (dict_values m))))
           order),
     log).
Proof.
  unfold apply_with, loop_result.
  destruct (fold_left apply_one (o :: os) _) as [[m skip] log].
  f_equal. f_equal. unfold output_groups. apply flat_map_ext. intro ph.
  fold (bucket ph (rebucket ms m skip)). rewrite rebucket_spec.
  now destruct (py_sorted Z.ltb order_index _).
Qed.

Lemma mem_false {A} (eqb : A -> A -> bool)
  (eqb_eq : forall x y, eqb x y = true <-> x = y) (x : A) (l : list A) :
  mem eqb x l = false <-> ~ In x l.
Proof.
  rewrite <- (mem_In eqb eqb_eq). destruct (mem eqb x l); split; congruence.
Qed.

Lemma distinct_NoDup (l : list UUID) : distinct l = true <-> NoDup l.
Proof.
  induction l as [|x l IH]; simpl.
  - split; [constructor | reflexivity].
  - rewrite andb_true_iff, negb_true_iff, (mem_false _ N.eqb_eq), IH. split.
    + intros [H1 H2]. now constructor.
    + intro H. inversion H. auto.
Qed.

Section OneOverride.

Variable ms : list MilestoneGroup.

Hypothesis ids_distinct : distinct (item_ids ms) = true.

Let flat := flat_map mg_nodes ms.

Lemma initial_map :
  dict_of N.eqb (map (fun n => (ni_repository_id n, n)) flat)
  = map (fun n => (ni_repository_id n, n)) flat.
Proof.
  apply (dict_of_distinct _ N.eqb_eq). rewrite map_map. simpl.
  now apply distinct_NoDup.
Qed.

Lemma initial_map_get (n : NodeItem) :
  In n flat ->
  dict_get N.eqb (ni_repository_id n) (map (fun n => (ni_repository_id n, n)) flat)
  = Some n.
Proof.
  intro H. apply (dict_get_in _ N.eqb_eq).
  - rewrite map_map. simpl. now apply distinct_NoDup.
  - apply in_map_iff. now exists n.
Qed.

Lemma initial_map_miss (r : UUID) :
  mem N.eqb r (item_ids ms) = false ->
  dict_get N.eqb r (map (fun n => (ni_repository_id n, n)) flat) = None.
Proof.
  intro H. apply (dict_get_none _ N.eqb_eq). rewrite map_map. simpl.
  now apply (mem_false _ N.eqb_eq).
Qed.

End OneOverride.

Lemma dict_set_swap (r : UUID) (n' : NodeItem) (l : list NodeItem) :
  NoDup (map ni_repository_id l) -> In r (map ni_repository_id l) ->
  dict_values (dict_set N.eqb r n' (map (fun x => (ni_repository_id x, x)) l))
  = map (swap r n') l.
Proof.
  unfold dict_values.
  induction l as [|x l IH]; simpl; intros Hnd Hin; [contradiction|].
  inversion Hnd as [|? ? Hx Hnd']; subst.
  unfold swap at 1, has_id. rewrite (N.eqb_sym r).
  destruct (N.eqb (ni_repository_id x) r) eqn:E; simpl.
  - apply N.eqb_eq in E. subst r. f_equal. rewrite map_map. simpl.
    apply map_ext_in. intros y Hy.
    unfold swap, has_id. destruct (N.eqb (ni_repository_id y) (ni_repository_id x)) eqn:E';
      [|reflexivity].
    apply N.eqb_eq in E'. exfalso. apply Hx. rewrite <- E'. now apply in_map.
  - f_equal. apply IH; [assumption|]. destruct Hin as [H|H]; [|exact H].
    subst. rewrite N.eqb_refl in E. discriminate.
Qed.

Lemma filter_none {A} (P : A -> bool) (l : list A) :
  (forall y, In y l -> P y = false) -> filter P l = [].
Proof.
  induction l as [|x l IH]; simpl; intro H; [reflexivity|].
  rewrite (H x) by now left. apply IH. intros y Hy. apply H. now right.
Qed.

Lemma filter_has_id_swap (n n' : NodeItem) (l : list NodeItem) :
  NoDup (map ni_repository_id l) -> In n l ->
  ni_repository_id n' = ni_repository_id n ->
  filter (has_id (ni_repository_id n)) (map (swap (ni_repository_id n) n') l) = [n'].
Proof.
  intros Hnd Hin Hid.
  assert (Hn' : has_id (ni_repository_id n) n' = true)
    by (unfold has_id; rewrite Hid; apply N.eqb_refl).
  induction l as [|x l IH]; simpl; [contradiction|].
  inversion Hnd as [|? ? Hx Hnd']; subst.
  destruct (has_id (ni_repository_id n) x) eqn:E.
  - replace (swap (ni_repository_id n) n' x) with n' by (unfold swap; now rewrite E).
    rewrite Hn'. f_equal. apply N.eqb_eq in E.
    apply filter_none. intros y Hy.
    apply in_map_iff in Hy. destruct Hy as [z [<- Hz]].
    unfold swap. destruct (has_id (ni_repository_id n) z) eqn:E'; [|exact E'].
    exfalso. apply Hx. apply N.eqb_eq in E'. rewrite E, <- E'. now apply in_map.
  - replace (swap (ni_repository_id n) n' x) with x by (unfold swap; now rewrite E).
    rewrite E. apply IH; [assumption|]. destruct Hin as [H|H]; [|exact H].
    subst. unfold has_id in E. rewrite N.eqb_refl in E. discriminate.
Qed.

Lemma filter_filter_comm {A} (P Q : A -> bool) (l : list A) :
  filter P (filter Q l) = filter Q (filter P l).
Proof.
  induction l as [|x l IH]; simpl; [reflexivity|].
  destruct (P x) eqn:EP, (Q x) eqn:EQ; simpl; rewrite ?EP, ?EQ, IH; reflexivity.
Qed.

Lemma filter_perm {A} (P : A -> bool) (l l' : list A) :
  Permutation l l' -> Permutation (filter P l) (filter P l').
Proof.
  induction 1; simpl.
  - constructor.
  - destruct (P x); [now constructor | assumption].
  - destruct (P x), (P y); try reflexivity. apply perm_swap.
  - etransitivity; eassumption.
Qed.

Lemma parse_milestone_log (v : option string) (ph : MilestonePhase) :
  fst (_parse_milestone v) = Some ph -> _parse_milestone v = (Some ph, []).
Proof.
  unfold _parse_milestone. destruct v as [[|c s]|]; simpl; try discriminate.
  destruct (MilestonePhase_of_value _); simpl; [|discriminate].
  now intros [= ->].
Qed.

Lemma phases_of_output (f : MilestonePhase -> list NodeItem) :
  NoDup (map phase
           (flat_map (fun ph => group_of ph (f ph))
                     MilestoneGrouperService._MILESTONE_ORDER)).
Proof.
  simpl.
  destruct (f FOUNDATIONS), (f CORE_SKILLS), (f ADVANCED_SYSTEMS),
    (f SPECIALIZED_TOPICS); simpl;
    repeat (constructor; [simpl; intuition discriminate|]); constructor.
Qed.

Lemma in_output (f : MilestonePhase -> list NodeItem) order g :
  In g (flat_map (fun ph => group_of ph (f ph)) order)
  <-> In (phase g) order /\ mg_nodes g = f (phase g) /\ f (phase g) <> [].
Proof.
  rewrite in_flat_map. split.
  - intros [ph [Hph Hg]]. destruct (f ph) as [|x l] eqn:E; simpl in Hg; [contradiction|].
    destruct Hg as [<-|[]]. simpl. rewrite E. repeat split; auto. discriminate.
  - intros (Hin & Hn & Hne). exists (phase g). split; [exact Hin|].
    destruct (f (phase g)) as [|x l] eqn:E; [contradiction|].
    left. destruct g. simpl in *. now subst.
Qed.

(** The body of [apply] past its import.  Were the phase order of the
    re-bucketing bound to the fixed four phases (as written the import
    raises), a force_phase override naming a known phase for a
    repository of a path with distinct repository ids leaves that
    repository's node in the named phase only, once, marked overridden
    with the supplied reason or "Moved to <phase>"; the phase's list is
    ordered by [order_index], so the node stands where its index puts it,
    which need not be the end. *)
Theorem forced_node_is_rebucketed
  (ms : list MilestoneGroup) (n : NodeItem) (ov : OverrideInstruction)
  (target : MilestonePhase) :
  distinct (item_ids ms) = true ->
  In n (flat_map mg_nodes ms) ->
  ov_repository_id ov = ni_repository_id n ->
  override_type ov = MILESTONE ->
  fst (_parse_milestone (target_milestone ov)) = Some target ->
  exists out,
    fst (apply_with (Ok MilestoneGrouperService._MILESTONE_ORDER) ms [ov]) = Ok out
    /\ let n' := moved n ov target in
       let r := ni_repository_id n in
       is_overridden n' = true
       /\ override_reason n'
          = or_default (reason ov)
                       (String.append "Moved to " (MilestonePhase_value target))
       /\ (exists g, In g out /\ phase g = target
                     /\ filter (has_id r) (mg_nodes g) = [n'])
       /\ (forall g, In g out -> phase g <> target ->
                     filter (has_id r) (mg_nodes g) = [])
       /\ (forall g, In g out ->
             mg_nodes g
             = py_sorted Z.ltb order_index
                 (filter (sent_to ms [] (phase g))
                         (map (swap r n') (flat_map mg_nodes ms))))
       /\ (forall g, In g out -> nondecreasing (map order_index (mg_nodes g)) = true)
       /\ NoDup (map phase out).
Proof.
  intros Hd Hin Hid Hty Hparse.
  apply parse_milestone_log in Hparse.
  pose proof (proj1 (distinct_NoDup _) Hd) as Hnd. unfold item_ids in Hnd.
  rewrite apply_with_spec. unfold loop_result.
  rewrite (initial_map ms Hd). simpl fold_left. unfold apply_one.
  rewrite Hid, (initial_map_get ms Hd n Hin), Hty, Hparse.
  rewrite dict_set_swap by (auto using in_map).
  set (n' := moved n ov target). set (r := ni_repository_id n).
  set (values := map (swap r n') (flat_map mg_nodes ms)).
  set (f := fun ph => py_sorted Z.ltb order_index (filter (sent_to ms [] ph) values)).
  eexists. split; [reflexivity|]. cbv zeta.
  change (flat_map _ MilestoneGrouperService._MILESTONE_ORDER)
    with (flat_map (fun ph => group_of ph (f ph)) MilestoneGrouperService._MILESTONE_ORDER).
  assert (Hone : filter (has_id r) values = [n']).
  { unfold values, r. now apply filter_has_id_swap. }
  assert (Hsent : forall ph, sent_to ms [] ph n' = MilestonePhase_eqb target ph).
  { intro ph. reflexivity. }
  assert (Hfilt : forall ph, Permutation (filter (has_id r) (f ph))
                               (if MilestonePhase_eqb target ph then [n'] else [])).
  { intro ph. unfold f.
    rewrite (filter_perm _ _ _ (py_sorted_perm order_index _)).
    rewrite filter_filter_comm, Hone. simpl. rewrite Hsent.
    now destruct (MilestonePhase_eqb target ph). }
  split; [reflexivity|]. split; [reflexivity|].
  split; [|split; [|split; [|split]]].
  - exists {| phase := target; mg_nodes := f target |}.
    specialize (Hfilt target).
    rewrite (proj2 (MilestonePhase_eqb_eq target target) eq_refl) in Hfilt.
    apply Permutation_sym, Permutation_length_1_inv in Hfilt.
    split; [|split; [reflexivity | exact Hfilt]].
    apply in_output. simpl. split; [destruct target; simpl; auto|].
    split; [reflexivity|]. intro E. rewrite E in Hfilt. discriminate.
  - intros g Hg Hne. apply in_output in Hg. destruct Hg as (_ & -> & _).
    specialize (Hfilt (phase g)).
    destruct (MilestonePhase_eqb target (phase g)) eqn:E.
    + apply MilestonePhase_eqb_eq in E. congruence.
    + now apply Permutation_sym, Permutation_nil in Hfilt.
  - intros g Hg. apply in_output in Hg. now destruct Hg as (_ & -> & _).
  - intros g Hg. apply in_output in Hg. destruct Hg as (_ & -> & _).
    apply py_sorted_sorted.
  - apply phases_of_output.
Qed.

Lemma subseq_incl l : forall order, subseq l order = true -> incl l order.
Proof.
  induction l as [|a l IH]; intros order H.
  - intros x [].
  - induction order as [|b order IHo]; simpl in H; [discriminate|].
    destruct (MilestonePhase_eqb a b) eqn:E.
    + apply MilestonePhase_eqb_eq in E. subst. intros x [<-|Hx]; [now left|].
      right. now apply (IH order).
    + intros x Hx. right. now apply IHo.
Qed.

Lemma nodes_of_phase_absent ph ms :
  ~ In ph (map phase ms) -> nodes_of_phase ph ms = [].
Proof.
  unfold nodes_of_phase. induction ms as [|g ms IH]; simpl; intro H; [reflexivity|].
  destruct (MilestonePhase_eqb (phase g) ph) eqn:E.
  - apply MilestonePhase_eqb_eq in E. exfalso. auto.
  - apply IH. tauto.
Qed.

Lemma flat_map_ext_in' {A B} (f g : A -> list B) (l : list A) :
  (forall x, In x l -> f x = g x) -> flat_map f l = flat_map g l.
Proof.
  induction l as [|x l IH]; simpl; intro H; [reflexivity|].
  rewrite (H x) by now left. f_equal. apply IH. intros y Hy. apply H. now right.
Qed.

Lemma rebuild_groups : forall order ms,
  NoDup order -> subseq (map phase ms) order = true ->
  forallb group_ok ms = true ->
  flat_map (fun ph => group_of ph (py_sorted Z.ltb order_index (nodes_of_phase ph ms)))
           order
  = ms.
Proof.
  induction order as [|b order IH]; intros ms Hnd Hsub Hok.
  - destruct ms; [reflexivity | discriminate].
  - inversion Hnd as [|? ? Hb Hnd']; subst.
    destruct ms as [|g ms].
    + clear. induction (b :: order) as [|p o IHo]; [reflexivity|]. simpl. exact IHo.
    + simpl in Hsub. simpl in Hok. apply andb_true_iff in Hok. destruct Hok as [Hg Hok].
      destruct (MilestonePhase_eqb (phase g) b) eqn:E.
      * apply MilestonePhase_eqb_eq in E. subst b.
        assert (Habs : ~ In (phase g) (map phase ms)).
        { intro H. apply Hb. now apply (subseq_incl _ _ Hsub). }
        simpl. unfold nodes_of_phase at 1. simpl.
        rewrite (proj2 (MilestonePhase_eqb_eq _ _) eq_refl).
        fold (nodes_of_phase (phase g) ms).
        rewrite (nodes_of_phase_absent _ _ Habs), app_nil_r.
        unfold group_ok in Hg. apply andb_true_iff in Hg. destruct Hg as [Hne Hsorted].
        rewrite (py_sorted_of_sorted _ _ Hsorted).
        destruct g as [ph [|x l]]; [discriminate|]. simpl. f_equal.
        etransitivity; [|exact (IH ms Hnd' Hsub Hok)].
        apply flat_map_ext_in'. intros q Hq. f_equal. f_equal.
        unfold nodes_of_phase. simpl.
        destruct (MilestonePhase_eqb ph q) eqn:E; [|reflexivity].
        apply MilestonePhase_eqb_eq in E. subst. contradiction.
      * assert (Habs : ~ In b (map phase (g :: ms))).
        { intro H. apply Hb. now apply (subseq_incl _ _ Hsub). }
        cbn [flat_map]. rewrite (nodes_of_phase_absent _ _ Habs).
        cbn [py_sorted group_of app].
        apply IH; [assumption | assumption |]. simpl. now rewrite Hg, Hok.
Qed.

Lemma NoDup_app_disjoint {A} (l1 l2 : list A) (a : A) :
  NoDup (l1 ++ l2) -> In a l1 -> In a l2 -> False.
Proof.
  induction l1 as [|x l1 IH]; simpl; intros Hnd H1 H2; [contradiction|].
  inversion Hnd as [|? ? Hx Hnd']; subst. destruct H1 as [->|H1].
  - apply Hx. apply in_or_app. now right.
  - now apply IH.
Qed.

Lemma find_original_phase_in : forall ms g x,
  NoDup (item_ids ms) -> In g ms -> In x (mg_nodes g) ->
  _find_original_phase ms (ni_repository_id x) = Some (phase g).
Proof.
  unfold _find_original_phase, item_ids.
  induction ms as [|g0 ms IH]; intros g x Hnd Hg Hx; [contradiction|].
  simpl in Hnd. rewrite map_app in Hnd. simpl.
  destruct (existsb _ (mg_nodes g0)) eqn:E.
  - destruct Hg as [->|Hg]; [reflexivity|]. exfalso.
    apply existsb_exists in E. destruct E as [y [Hy E]]. apply N.eqb_eq in E.
    apply (NoDup_app_disjoint _ _ (ni_repository_id x) Hnd).
    + rewrite <- E. now apply in_map.
    + apply in_map. apply in_flat_map. eauto.
  - destruct Hg as [->|Hg].
    + exfalso. assert (H : existsb (fun n => N.eqb (ni_repository_id n) (ni_repository_id x))
                          (mg_nodes g) = true).
      { apply existsb_exists. exists x. split; [exact Hx | apply N.eqb_refl]. }
      congruence.
    + apply (IH g x); [|assumption|assumption].
      now apply NoDup_app_remove_l in Hnd.
Qed.

Lemma filter_all {A} (P : A -> bool) (l : list A) :
  (forall y, In y l -> P y = true) -> filter P l = l.
Proof.
  induction l as [|x l IH]; simpl; intro H; [reflexivity|].
  rewrite (H x) by now left. f_equal. apply IH. intros y Hy. apply H. now right.
Qed.

Lemma filter_flat_map {A B} (P : B -> bool) (f : A -> list B) (l : list A) :
  filter P (flat_map f l) = flat_map (fun x => filter P (f x)) l.
Proof.
  induction l as [|x l IH]; simpl; [reflexivity|]. now rewrite filter_app, IH.
Qed.

Lemma sent_to_original ms ph :
  grouper_shaped ms = true ->
  filter (sent_to ms [] ph) (flat_map mg_nodes ms) = nodes_of_phase ph ms.
Proof.
  unfold grouper_shaped. rewrite !andb_true_iff. intros (_ & _ & Hd & Hnf).
  apply distinct_NoDup in Hd. rewrite forallb_forall in Hnf.
  rewrite filter_flat_map. unfold nodes_of_phase. apply flat_map_ext_in'.
  intros g Hg.
  assert (Hx : forall x, In x (mg_nodes g) ->
                         sent_to ms [] ph x = MilestonePhase_eqb (phase g) ph).
  { intros x Hx. unfold sent_to, destination. simpl.
    assert (Hf : not_forced x = true) by (apply Hnf, in_flat_map; eauto).
    unfold not_forced in Hf. destruct (forced_milestone x); [discriminate|].
    now rewrite (find_original_phase_in ms g x Hd Hg Hx). }
  destruct (MilestonePhase_eqb (phase g) ph).
  - now apply filter_all.
  - now apply filter_none.
Qed.

Lemma unknown_target_is_ignored ms ov :
  grouper_shaped ms = true ->
  mem N.eqb (ov_repository_id ov) (item_ids ms) = false ->
  apply_with (Ok MilestoneGrouperService._MILESTONE_ORDER) ms [ov]
  = (Ok ms, [TargetNotFound (ov_repository_id ov)]).
Proof.
  intros Hs Hmiss. pose proof Hs as Hs'. unfold grouper_shaped in Hs'.
  rewrite !andb_true_iff in Hs'. destruct Hs' as (Hsub & Hok & Hd & _).
  rewrite apply_with_spec. unfold loop_result.
  rewrite (initial_map ms Hd). simpl fold_left. unfold apply_one.
  rewrite (initial_map_miss ms _ Hmiss). cbv iota beta.
  unfold dict_values. rewrite map_map. simpl snd. rewrite map_id. simpl app.
  f_equal. f_equal.
  etransitivity;
    [|apply (rebuild_groups MilestoneGrouperService._MILESTONE_ORDER ms);
      [|exact Hsub|exact Hok]].
  - apply flat_map_ext. intro ph. now rewrite sent_to_original.
  - unfold MilestoneGrouperService._MILESTONE_ORDER.
    repeat (constructor; [simpl; intuition discriminate|]); constructor.
Qed.

Lemma warnings_ignore_overrides
  (imported : Result (list MilestonePhase)) (U : string -> option UUID)
  (rt : Runtime) (req : GenerateLearningPathRequest) (repos : list Repository)
  (ovs : option (list OverrideInstruction))
  (rs : LearningPathResponse) (log : list LogRecord) :
  PathGeneratorService.generate_with U imported rt req repos ovs = (Ok rs, log) ->
  exists rs0,
    PathGeneratorService.generate_with U imported rt req repos None = (Ok rs0, [])
    /\ warnings rs = warnings rs0.
Proof.
  unfold PathGeneratorService.generate_with.
  destruct (PathGeneratorService.parse_ids U _) as [ids|e]; [|discriminate].
  destruct (GraphBuilderService.build _ _ _ _ _ _ _ _ _) as [p|e]; [|discriminate].
  destruct (TopologicalSorterService.sort rt p) as [[sorted|e] p']; [|discriminate].
  intro H. eexists. split; [reflexivity|].
  destruct ovs as [[|o os]|]; cbv beta iota in H.
  - injection H as <- _. reflexivity.
  - destruct (apply_with imported _ (o :: os)) as [[final|e] lg]; [|discriminate].
    injection H as <- _. reflexivity.
  - injection H as <- _. reflexivity.
Qed.

Lemma items_from_ids rt : forall ns i,
  map ni_repository_id (map snd (items_from rt i ns))
  = map (fun n => repository_id (repository n)) ns.
Proof.
  induction ns as [|n ns IH]; intro i; simpl; [reflexivity|]. now rewrite IH.
Qed.

Lemma items_from_not_forced rt : forall ns i x,
  In x (map snd (items_from rt i ns)) -> not_forced x = true.
Proof.
  induction ns as [|n ns IH]; intros i x; simpl; [contradiction|].
  intros [<-|H]; [reflexivity | now apply (IH (i + 1)%Z)].
Qed.

Lemma phase_items_indices rt ph : forall ns i,
  Forall (fun x => (i <= order_index x)%Z) (phase_items ph (items_from rt i ns))
  /\ nondecreasing (map order_index (phase_items ph (items_from rt i ns))) = true.
Proof.
  unfold phase_items.
  induction ns as [|n ns IH]; intro i; simpl; [split; [constructor | reflexivity]|].
  destruct (IH (i + 1)%Z) as [Hall Hs].
  assert (Hall' : Forall (fun x => (i <= order_index x)%Z)
                    (map snd (filter (fun x => MilestonePhase_eqb (fst x) ph)
                                     (items_from rt (i + 1) ns)))).
  { eapply Forall_impl; [|exact Hall]. simpl. intros. lia. }
  destruct (MilestonePhase_eqb (MilestoneGrouperService._assign_phase n) ph); simpl;
    [|now split].
  split; [constructor; [simpl; lia | exact Hall']|].
  rewrite Hs, andb_true_r.
  destruct (map snd _) as [|y l]; simpl; [reflexivity|].
  inversion Hall; subst. apply Z.leb_le. simpl. lia.
Qed.

(** What the grouper makes of nodes with distinct repository ids has the
    shape [grouper_shaped] asks for. *)
Lemma group_is_grouper_shaped rt ns :
  distinct (map (fun n => repository_id (repository n)) ns) = true ->
  grouper_shaped (MilestoneGrouperService.group rt ns) = true.
Proof.
  intro Hd.
  destruct (group_is_stable_partition rt ns) as (Hperm & _ & _ & Hgroups & Hphases).
  cbv zeta in *.
  unfold grouper_shaped. rewrite !andb_true_iff. repeat split.
  - rewrite Hphases. simpl.
    destruct (phase_items FOUNDATIONS _), (phase_items CORE_SKILLS _),
      (phase_items ADVANCED_SYSTEMS _), (phase_items SPECIALIZED_TOPICS _);
      reflexivity.
  - apply forallb_forall. intros g Hg. destruct (Hgroups g Hg) as [E Hne].
    unfold group_ok. rewrite E.
    rewrite (proj2 (phase_items_indices rt (phase g) ns 0%Z)), andb_true_r.
    rewrite E in Hne. now destruct (phase_items _ _).
  - apply distinct_NoDup. unfold item_ids.
    eapply Permutation_NoDup.
    + apply Permutation_sym, Permutation_map, Hperm.
    + rewrite items_from_ids. now apply distinct_NoDup.
  - apply forallb_forall. intros x Hx.
    apply (items_from_not_forced rt ns 0%Z).
    eapply Permutation_in; [exact Hperm | exact Hx].
Qed.

(** The body of [apply] past its import.  Were the phase order of the
    re-bucketing bound to the fixed four phases (as written the import
    raises), an override list of one override whose repository
    id matches no node gives back the phase list it was given (a list as
    the grouper makes it of nodes with distinct repository ids) and writes
    one warning to the log; nothing is appended to the result's
    [warnings], which are those of the run without overrides. *)
Theorem unknown_override_changes_nothing :
  (forall ms ov,
      grouper_shaped ms = true ->
      mem N.eqb (ov_repository_id ov) (item_ids ms) = false ->
      apply_with (Ok MilestoneGrouperService._MILESTONE_ORDER) ms [ov]
      = (Ok ms, [TargetNotFound (ov_repository_id ov)]))
  /\ (forall rt ns,
         distinct (map (fun n => repository_id (repository n)) ns) = true ->
         grouper_shaped (MilestoneGrouperService.group rt ns) = true)
  /\ (forall imported U rt req repos ovs rs log,
         PathGeneratorService.generate_with U imported rt req repos ovs = (Ok rs, log) ->
         exists rs0,
           PathGeneratorService.generate_with U imported rt req repos None
           = (Ok rs0, [])
           /\ warnings rs = warnings rs0).
Proof.
  split; [exact unknown_target_is_ignored|].
  split; [exact group_is_grouper_shaped | exact warnings_ignore_overrides].
Qed.

(** C10: [apply] never returns a phase list for a non-empty override list;
    its import of [_MILESTONE_ORDER] raises first. *)
Theorem apply_raises_on_any_override :
  forall ms o os, fst (apply ms (o :: os)) = Raise (ImportError "_MILESTONE_ORDER").
Proof.
  intros ms o os. unfold apply, apply_with, import_MILESTONE_ORDER.
  now destruct (fold_left apply_one (o :: os) _) as [[m skip] log].
Qed.

End Overrides.

(** [r1] forced into the last phase, the phase order bound. *)
Lemma forced_node_is_rebucketed_witness :
  exists out,
    fst (OverrideManagerService.apply_with
           (Ok MilestoneGrouperService._MILESTONE_ORDER)
           s1_milestones [force_r1_specialized]) = Ok out
    /\ exists g, In g out /\ phase g = SPECIALIZED_TOPICS
                 /\ filter (has_id 11%N) (mg_nodes g)
                    = [OverrideManagerService.moved s1_item_r1 force_r1_specialized
                         SPECIALIZED_TOPICS].
Proof.
  destruct (forced_node_is_rebucketed s1_milestones s1_item_r1 force_r1_specialized
              SPECIALIZED_TOPICS) as (out & Hout & _ & _ & Hg & _).
  - vm_compute. reflexivity.
  - vm_compute. auto.
  - reflexivity.
  - reflexivity.
  - reflexivity.
  - exists out. split; [exact Hout | exact Hg].
Defined.

(** [apply] raises before it returns anything; and were the phase order
    bound, [r1] forced into the last phase would stand before [r4] there,
    where its [order_index] puts it. *)
Lemma forced_node_is_not_last :
  fst (OverrideManagerService.apply s1_milestones [force_r1_specialized])
  = Raise (ImportError "_MILESTONE_ORDER")
  /\ exists out,
       fst (OverrideManagerService.apply_with
              (Ok MilestoneGrouperService._MILESTONE_ORDER)
              s1_milestones [force_r1_specialized]) = Ok out
       /\ map (fun g => (phase g, map repository_name (mg_nodes g))) out
          = [ (CORE_SKILLS, ["r2"]); (ADVANCED_SYSTEMS, ["r3"]);
              (SPECIALIZED_TOPICS, ["r1"; "r4"]) ].
Proof.
  split; [vm_compute; reflexivity|].
  eexists. split; vm_compute; reflexivity.
Qed.

(** The override of an unknown repository, the phase order bound. *)
Lemma unknown_override_changes_nothing_witness :
  OverrideManagerService.apply_with
    (Ok MilestoneGrouperService._MILESTONE_ORDER) s1_milestones [skip_unknown]
  = (Ok s1_milestones, [OverrideManagerService.TargetNotFound 99%N]).
Proof.
  apply (proj1 unknown_override_changes_nothing s1_milestones skip_unknown);
    vm_compute; reflexivity.
Defined.

(** [generate] raises on the override of an unknown repository; and were
    the phase order bound, the miss would be in the log only, [warnings]
    left empty. *)
Lemma unknown_override_appends_no_warning :
  fst (PathGeneratorService.generate no_uuid rt0 default_request s1_repos
         (Some [skip_unknown]))
  = Raise (ImportError "_MILESTONE_ORDER")
  /\ exists rs,
       PathGeneratorService.generate_with no_uuid
         (Ok MilestoneGrouperService._MILESTONE_ORDER)
         rt0 default_request s1_repos (Some [skip_unknown])
       = (Ok rs, [OverrideManagerService.TargetNotFound 99%N])
       /\ warnings rs = []
       /\ milestones rs = s1_milestones.
Proof.
  split; [vm_compute; reflexivity|].
  eexists. split; [vm_compute; reflexivity|]. split; vm_compute; reflexivity.
Qed.

(** ** The defects the claims C1, C2 and C3 run into *)

(** C1 fails on the code: the graph builder gives the React repository the
    HTML one as a blocking prerequisite, Kahn's algorithm puts HTML first,
    and the regrouping by skill type then puts React (back end) before
    HTML (front end); that is the order [sort] leaves in the path. *)
Lemma regrouping_breaks_prerequisite_order :
  exists p p' sorted,
    GraphBuilderService.build rt0 0 "learner-1" "My Path"
      [repo_html; repo_react] "" false 3 [] = Ok p
    /\ edge_summary p = [(1%N, 2%N, PREREQUISITE, STRONG, "system")]
    /\ map is_blocking_dependency (dependencies p) = [true]
    /\ node_summary p
       = [("html-basics", 101%N, []); ("react-api", 102%N, [101%N])]
    /\ (exists kahn_order,
           _topological_sort rt0 p = Ok kahn_order
           /\ map (fun n => r_name (repository n)) kahn_order
              = ["html-basics"; "react-api"])
    /\ TopologicalSorterService.sort rt0 p = (Ok sorted, p')
    /\ sorted = nodes p'
    /\ map (fun n => r_name (repository n)) (nodes p')
       = ["react-api"; "html-basics"].
Proof.
  do 3 eexists. split; [vm_compute; reflexivity|].
  split; [vm_compute; reflexivity|]. split; [vm_compute; reflexivity|].
  split; [vm_compute; reflexivity|].
  split; [eexists; split; vm_compute; reflexivity|].
  split; [vm_compute; reflexivity|]. split; vm_compute; reflexivity.
Qed.

(** C2 fails on the code: the witness cycle is a <-> b, made of the
    learner's two strong prerequisites; recovery removes the learner's
    weak edge a -> c and the system's weak edge b -> c, neither of which
    is on the cycle, and the sort fails all the same. *)
Lemma recovery_removes_edges_off_the_cycle :
  edge_summary cyclic_path
  = [ (21%N, 23%N, RECOMMENDED, WEAK, "user");
      (22%N, 23%N, RECOMMENDED, WEAK, "system");
      (21%N, 22%N, PREREQUISITE, STRONG, "user");
      (22%N, 21%N, PREREQUISITE, STRONG, "user") ]
  /\ _find_cycle rt0 cyclic_path = [101%N; 102%N; 101%N]
  /\ edge_summary (TopologicalSorterService._resolve_cycles rt0 cyclic_path)
     = [ (21%N, 22%N, PREREQUISITE, STRONG, "user");
         (22%N, 21%N, PREREQUISITE, STRONG, "user") ]
  /\ (exists p',
         TopologicalSorterService.sort rt0 cyclic_path
         = (Raise (InvalidLearningSequenceError [101%N; 102%N; 101%N]), p')
         /\ edge_summary p'
            = [ (21%N, 22%N, PREREQUISITE, STRONG, "user");
                (22%N, 21%N, PREREQUISITE, STRONG, "user") ]).
Proof.
  split; [vm_compute; reflexivity|]. split; [vm_compute; reflexivity|].
  split; [vm_compute; reflexivity|].
  eexists. split; vm_compute; reflexivity.
Qed.

(** C3 fails on the code: [add_dependency] raises the circular-dependency
    error for b -> a and leaves the relation in the dependency set and b
    in the prerequisites of a.  In the pipeline the same residue makes
    [generate] raise for three repositories of which two share an id. *)
Lemma add_dependency_leaves_its_edge_on_error :
  edge_summary abc_with_edges
  = [ (21%N, 23%N, RECOMMENDED, WEAK, "user");
      (22%N, 23%N, RECOMMENDED, WEAK, "system");
      (21%N, 22%N, PREREQUISITE, STRONG, "user") ]
  /\ node_summary abc_with_edges
     = [("a", 101%N, []); ("b", 102%N, [101%N]); ("c", 103%N, [])]
  /\ fst (fst closing_the_cycle)
     = Raise (CircularDependencyError [101%N; 102%N; 101%N])
  /\ edge_summary cyclic_path
     = [ (21%N, 23%N, RECOMMENDED, WEAK, "user");
         (22%N, 23%N, RECOMMENDED, WEAK, "system");
         (21%N, 22%N, PREREQUISITE, STRONG, "user");
         (22%N, 21%N, PREREQUISITE, STRONG, "user") ]
  /\ node_summary cyclic_path
     = [("a", 101%N, [102%N]); ("b", 102%N, [101%N]); ("c", 103%N, [])]
  /\ (exists p,
         GraphBuilderService.build rt0 0 "learner-1" "My Path"
           [dup_x; dup_y; dup_z] "" false 3 [] = Ok p
         /\ edge_summary p
            = [ (31%N, 32%N, PREREQUISITE, STRONG, "system");
                (32%N, 31%N, PREREQUISITE, STRONG, "system") ]
         /\ fst (PathGeneratorService.generate no_uuid rt0 default_request
                   [dup_x; dup_y; dup_z] None)
            = Raise (InvalidLearningSequenceError [102%N; 103%N; 102%N])).
Proof.
  split; [vm_compute; reflexivity|]. split; [vm_compute; reflexivity|].
  split; [vm_compute; reflexivity|]. split; [vm_compute; reflexivity|].
  split; [vm_compute; reflexivity|].
  eexists. split; [vm_compute; reflexivity|]. split; vm_compute; reflexivity.
Qed.

(** ** Kahn's loop ends within its fuel *)

Lemma positive_entries_set (k : UUID) (v v' : Z) (d : list (UUID * Z)) :
  dict_get N.eqb k d = Some v ->
  (positive_entries (dict_set N.eqb k v' d) + weight v
   = positive_entries d + weight v')%nat.
Proof.
  unfold positive_entries, weight.
  induction d as [|[k0 v0] d IH]; simpl; [discriminate|].
  destruct (N.eqb k k0) eqn:E; simpl.
  - intros [= ->]. destruct (0 <? v)%Z, (0 <? v')%Z; simpl; lia.
  - intro H. specialize (IH H). destruct (0 <? v0)%Z; simpl; lia.
Qed.

Lemma relax_measure (succs : list UUID) :
  forall d q d' q',
    fold_left relax succs (Ok (d, q)) = Ok (d', q') ->
    (List.length q' + positive_entries d' <= List.length q + positive_entries d)%nat.
Proof.
  induction succs as [|nb succs IH]; intros d q d' q' H; simpl in H.
  - injection H as <- <-. lia.
  - destruct (dict_get N.eqb nb d) as [v|] eqn:E.
    + pose proof (positive_entries_set nb v (v - 1) d E) as Hm.
      destruct (v - 1 =? 0)%Z eqn:Ez.
      * apply IH in H. rewrite length_app in H. simpl in H.
        apply Z.eqb_eq in Ez. unfold weight in Hm.
        replace (0 <? v)%Z with true in Hm by (symmetry; apply Z.ltb_lt; lia).
        replace (0 <? v - 1)%Z with false in Hm by (symmetry; apply Z.ltb_ge; lia).
        lia.
      * apply IH in H. unfold weight in Hm. apply Z.eqb_neq in Ez.
        destruct (0 <? v)%Z eqn:E1, (0 <? v - 1)%Z eqn:E2;
          rewrite ?Z.ltb_lt, ?Z.ltb_ge in E1, E2; lia.
    + exfalso. clear -H. induction succs as [|x l IHl]; simpl in H; [discriminate|].
      now apply IHl.
Qed.

Lemma keyed_length rt ns : forall queue kq,
  keyed rt ns queue = Ok kq -> List.length kq = List.length queue.
Proof.
  induction queue as [|nid queue IH]; intros kq H; simpl in H.
  - now injection H as <-.
  - destruct (sort_key rt ns nid); [|discriminate].
    destruct (keyed rt ns queue) as [kq'|]; [|discriminate].
    injection H as <-. simpl. f_equal. now apply IH.
Qed.

Lemma sort_queue_length rt ns queue sorted :
  sort_queue rt ns queue = Ok sorted -> List.length sorted = List.length queue.
Proof.
  unfold sort_queue. destruct (keyed rt ns queue) as [kq|] eqn:E; [|discriminate].
  intros [= <-]. rewrite length_map.
  rewrite (Permutation_length (py_sorted_perm fst kq)).
  now apply (keyed_length rt ns).
Qed.

Lemma kahn_within_fuel rt ns adjacency : forall fuel d queue sorted_ids,
  (List.length queue + positive_entries d <= fuel)%nat ->
  kahn rt ns adjacency fuel d queue sorted_ids <> None.
Proof.
  induction fuel as [|fuel IH]; intros d queue sorted_ids Hm.
  - destruct queue; simpl in *; [discriminate | lia].
  - destruct queue as [|x queue]; [discriminate|].
    cbn [kahn].
    destruct (sort_queue rt ns (x :: queue)) as [[|current q']|] eqn:Es; try discriminate.
    apply sort_queue_length in Es. simpl in Es.
    destruct (dict_get N.eqb current adjacency) as [succs|]; [|discriminate].
    destruct (fold_left relax succs (Ok (d, q'))) as [[d' q'']|] eqn:Er; [|discriminate].
    apply relax_measure in Er. apply IH. simpl in Hm. lia.
Qed.

Lemma initial_measure (d : list (UUID * Z)) :
  (List.length (map fst (filter (fun kv => (snd kv =? 0)%Z) d)) + positive_entries d
   <= List.length d)%nat.
Proof.
  unfold positive_entries. rewrite length_map.
  induction d as [|[k v] d IH]; simpl; [lia|].
  destruct (v =? 0)%Z eqn:E1, (0 <? v)%Z eqn:E2; simpl; try lia.
Qed.

(** The loop of [_topological_sort] is never cut short. *)
Lemma kahn_total rt ns adjacency (d : list (UUID * Z)) :
  kahn rt ns adjacency (List.length d) d
       (map fst (filter (fun kv => (snd kv =? 0)%Z) d)) [] <> None.
Proof. apply kahn_within_fuel, initial_measure. Qed.

(** The [while queue] loop of [_topological_sort] ends: started on the
    dictionaries the function builds and given one round per node, the
    loop of the embedding returns, a list of ids or an exception. *)
Theorem kahn_terminates rt ns adjacency (d : list (UUID * Z)) :
  exists r,
    kahn rt ns adjacency (List.length d) d
         (map fst (filter (fun kv => (snd kv =? 0)%Z) d)) [] = Some r.
Proof.
  destruct (kahn rt ns adjacency (List.length d) d
                 (map fst (filter (fun kv => (snd kv =? 0)%Z) d)) []) as [r|] eqn:E.
  - now exists r.
  - exfalso. exact (kahn_total rt ns adjacency d E).
Qed.

(** ** The cycle search stays within its depth *)

Section CycleSearch.
Variable rt : Runtime.
Hypothesis ids_perm : forall l, Permutation l (iter_ids rt l).
Variable ns : list LearningNode.

Lemma mem_set_add_true (x y : UUID) (s : list UUID) :
  mem N.eqb x s = true -> mem N.eqb x (set_add N.eqb y s) = true.
Proof.
  intro H. unfold set_add. destruct (mem N.eqb y s); [exact H|].
  unfold mem in *. rewrite existsb_app, H. reflexivity.
Qed.

Lemma mem_set_add_self (y : UUID) (s : list UUID) :
  mem N.eqb y (set_add N.eqb y s) = true.
Proof.
  unfold set_add. destruct (mem N.eqb y s) eqn:E; [exact E|].
  unfold mem. rewrite existsb_app. simpl. now rewrite N.eqb_refl, orb_true_r.
Qed.

(** The search only adds to [visited]. *)
Lemma dfs_visited_grows : forall fuel nid path st x,
  mem N.eqb x (fst st) = true ->
  mem N.eqb x (fst (snd (dfs rt ns fuel nid path st))) = true.
Proof.
  induction fuel as [|fuel IH]; intros nid path st x Hx; [exact Hx|].
  cbn [dfs]. cbv zeta.
  destruct (_get_node_by_id nid ns) as [node|].
  - match goal with
    | |- context [@pair (list N) (list N) ?a ?b] =>
        set (s0 := @pair (list N) (list N) a b)
    end.
    assert (H0 : mem N.eqb x (fst s0) = true)
      by (subst s0; simpl; now apply mem_set_add_true).
    clearbody s0. revert s0 H0.
    induction (iter_ids rt (prerequisite_nodes node)) as [|q qs IHq];
      intros s Hs; [exact Hs|].
    lazy beta iota fix.
    match goal with
    | |- context [if negb ?b then _ else _] => destruct b
    end; cbn [negb].
    + match goal with
      | |- context [if ?b then _ else _] => destruct b
      end; [exact Hs | now apply IHq].
    + pose proof (IH q (path ++ [nid]) s x Hs) as Hd.
      destruct (dfs rt ns fuel q (path ++ [nid]) s) as [[c|] s'];
        [exact Hd | now apply IHq].
  - simpl. now apply mem_set_add_true.
Qed.

Lemma unvisited_le (v v' : list UUID) :
  (forall x, mem N.eqb x v = true -> mem N.eqb x v' = true) ->
  (unvisited ns v' <= unvisited ns v)%nat.
Proof.
  intro H. unfold unvisited.
  induction (search_ids ns) as [|y l IH]; simpl; [lia|].
  destruct (mem N.eqb y v) eqn:E.
  - rewrite (H y E). simpl. exact IH.
  - simpl. destruct (mem N.eqb y v'); simpl; lia.
Qed.

Lemma unvisited_lt (v : list UUID) (y : UUID) :
  In y (search_ids ns) -> mem N.eqb y v = false ->
  (unvisited ns (set_add N.eqb y v) < unvisited ns v)%nat.
Proof.
  unfold unvisited. intros Hy Hv.
  induction (search_ids ns) as [|z l IH]; [contradiction|].
  assert (Hle : (List.length (filter (fun x => negb (mem N.eqb x (set_add N.eqb y v))) l)
                 <= List.length (filter (fun x => negb (mem N.eqb x v)) l))%nat).
  { clear. induction l as [|w l IH]; simpl; [lia|].
    destruct (mem N.eqb w v) eqn:E.
    - rewrite (mem_set_add_true w y v E). simpl. exact IH.
    - simpl. destruct (mem N.eqb w (set_add N.eqb y v)); simpl; lia. }
  simpl. destruct Hy as [->|Hy].
  - rewrite mem_set_add_self, Hv. simpl. lia.
  - specialize (IH Hy).
    destruct (mem N.eqb z v) eqn:E.
    + rewrite (mem_set_add_true z y v E). simpl. exact IH.
    + simpl. destruct (mem N.eqb z (set_add N.eqb y v)); simpl; lia.
Qed.

Lemma get_node_in nid node :
  _get_node_by_id nid ns = Some node -> In node ns.
Proof. unfold _get_node_by_id. intro H. now apply find_some in H. Qed.

Lemma prerequisites_in_ids node q :
  In node ns -> In q (iter_ids rt (prerequisite_nodes node)) -> In q (search_ids ns).
Proof.
  intros Hn Hq. unfold search_ids. apply in_or_app. right.
  apply in_flat_map. exists node. split; [exact Hn|].
  exact (Permutation_in q (Permutation_sym (ids_perm _)) Hq).
Qed.

(** Beyond the number of ids not yet visited, the fuel makes no
    difference. *)
Lemma dfs_fuel_irrelevant : forall fuel1 fuel2 nid path st,
  In nid (search_ids ns) -> mem N.eqb nid (fst st) = false ->
  (unvisited ns (fst st) <= fuel1)%nat -> (unvisited ns (fst st) <= fuel2)%nat ->
  dfs rt ns fuel1 nid path st = dfs rt ns fuel2 nid path st.
Proof.
  induction fuel1 as [|f1 IH]; intros fuel2 nid path st Hin Hv H1 H2.
  - pose proof (unvisited_lt (fst st) nid Hin Hv). lia.
  - destruct fuel2 as [|f2];
      [pose proof (unvisited_lt (fst st) nid Hin Hv); lia|].
    cbn [dfs]. cbv zeta.
    destruct (_get_node_by_id nid ns) as [node|] eqn:Eg; [|reflexivity].
    pose proof (get_node_in _ _ Eg) as Hnode.
    pose proof (unvisited_lt (fst st) nid Hin Hv) as Hlt.
    match goal with
    | |- context [@pair (list N) (list N) ?a ?b] =>
        set (s0 := @pair (list N) (list N) a b)
    end.
    assert (Hs1 : (unvisited ns (fst s0) <= f1)%nat)
      by (subst s0; apply Nat.lt_succ_r;
          eapply Nat.lt_le_trans; [exact Hlt | exact H1]).
    assert (Hs2 : (unvisited ns (fst s0) <= f2)%nat)
      by (subst s0; apply Nat.lt_succ_r;
          eapply Nat.lt_le_trans; [exact Hlt | exact H2]).
    clearbody s0. revert s0 Hs1 Hs2.
    assert (Hqs : forall q, In q (iter_ids rt (prerequisite_nodes node)) ->
                            In q (search_ids ns))
      by (intros q Hq; now apply (prerequisites_in_ids node)).
    revert Hqs.
    induction (iter_ids rt (prerequisite_nodes node)) as [|q qs IHq];
      intros Hqs s Hs1 Hs2; [reflexivity|].
    lazy beta iota fix.
    match goal with
    | |- context [if negb ?b then _ else _] => destruct b eqn:Eq
    end; cbn [negb].
    + match goal with
      | |- context [if ?b then _ else _] => destruct b
      end; [reflexivity|].
      apply IHq; [intros; apply Hqs; now right | assumption | assumption].
    + rewrite (IH f2 q (path ++ [nid]) s (Hqs q (or_introl eq_refl)) Eq Hs1 Hs2).
      pose proof (dfs_visited_grows f2 q (path ++ [nid]) s) as Hg.
      destruct (dfs rt ns f2 q (path ++ [nid]) s) as [[c|] s']; [reflexivity|].
      simpl in Hg. pose proof (unvisited_le (fst s) (fst s') Hg) as Hle.
      apply IHq; [intros; apply Hqs; now right | |];
        (eapply Nat.le_trans; [exact Hle | assumption]).
Qed.

Lemma find_cycle_from_fuel fuel1 fuel2 : forall todo st,
  (forall n, In n todo -> In n ns) ->
  (unvisited ns (fst st) <= fuel1)%nat -> (unvisited ns (fst st) <= fuel2)%nat ->
  find_cycle_from rt ns fuel1 todo st = find_cycle_from rt ns fuel2 todo st.
Proof.
  induction todo as [|node todo IH]; intros st Hsub H1 H2; [reflexivity|].
  cbn [find_cycle_from].
  match goal with
  | |- context [if negb ?b then _ else _] => destruct b eqn:Ev
  end; cbn [negb].
  - apply IH; [intros; apply Hsub; now right | assumption | assumption].
  - assert (Hin : In (node_id node) (search_ids ns)).
    { unfold search_ids. apply in_or_app. left. apply in_map, Hsub. now left. }
    rewrite (dfs_fuel_irrelevant fuel1 fuel2 (node_id node) [] st Hin Ev H1 H2).
    pose proof (dfs_visited_grows fuel2 (node_id node) [] st) as Hg.
    destruct (dfs rt ns fuel2 (node_id node) [] st) as [[c|] s']; [reflexivity|].
    simpl in Hg. pose proof (unvisited_le (fst st) (fst s') Hg) as Hle.
    apply IH; [intros; apply Hsub; now right | |];
      (eapply Nat.le_trans; [exact Hle | assumption]).
Qed.
End CycleSearch.

(** The depth the embedding allows the recursion of [_find_cycle] is
    enough: with any larger bound the search returns the same cycle. *)
Theorem find_cycle_bound_suffices (rt : Runtime) (p : LearningPath) (fuel : nat) :
  (forall l, Permutation l (iter_ids rt l)) ->
  (dfs_fuel (nodes p) <= fuel)%nat ->
  find_cycle_from rt (nodes p) fuel (nodes p) ([], []) = _find_cycle rt p.
Proof.
  intros Hperm Hfuel. unfold _find_cycle.
  assert (Hu : (unvisited (nodes p) [] <= dfs_fuel (nodes p))%nat).
  { unfold unvisited, dfs_fuel, search_ids.
    rewrite filter_all by reflexivity. rewrite length_app, length_map. lia. }
  apply (find_cycle_from_fuel rt Hperm); simpl; [auto | lia | lia].
Qed.

Lemma find_cycle_bound_suffices_witness :
  find_cycle_from rt0 (nodes cyclic_path) 100 (nodes cyclic_path) ([], [])
  = _find_cycle rt0 cyclic_path.
Proof.
  apply find_cycle_bound_suffices.
  - intro l. apply Permutation_refl.
  - vm_compute. repeat constructor.
Defined.

(** ** Determinism of the pipeline *)

(** *** The order of the loops over sets does not show *)

Lemma same_outcome_refl {A} (r : Result A) : same_outcome r r.
Proof. destruct r; simpl; reflexivity. Qed.

Lemma same_outcome_sym {A} (r1 r2 : Result A) :
  same_outcome r1 r2 -> same_outcome r2 r1.
Proof. destruct r1, r2; simpl; auto. Qed.

Lemma same_outcome_trans {A} (r1 r2 r3 : Result A) :
  same_outcome r1 r2 -> same_outcome r2 r3 -> same_outcome r1 r3.
Proof. destruct r1, r2, r3; simpl; try tauto; congruence. Qed.

Section FoldPerm.
Context {A B : Type} (R : A -> A -> Prop) (f : A -> B -> A).
Hypothesis R_refl : forall a, R a a.
Hypothesis R_trans : forall a b c, R a b -> R b c -> R a c.
Hypothesis f_respects : forall a a' x, R a a' -> R (f a x) (f a' x).
Hypothesis f_comm : forall a x y, R (f (f a x) y) (f (f a y) x).

Lemma fold_left_respects (l : list B) : forall a a',
  R a a' -> R (fold_left f l a) (fold_left f l a').
Proof.
  induction l as [|x l IH]; simpl; intros a a' H; [exact H|].
  apply IH. now apply f_respects.
Qed.

Lemma fold_left_perm (l l' : list B) :
  Permutation l l' -> forall a, R (fold_left f l a) (fold_left f l' a).
Proof.
  induction 1; intro a; simpl.
  - apply R_refl.
  - apply IHPermutation.
  - apply fold_left_respects. apply f_comm.
  - eapply R_trans; [apply IHPermutation1 | apply IHPermutation2].
Qed.
End FoldPerm.

Lemma Zsum_perm (l l' : list Z) : Permutation l l' -> Zsum l = Zsum l'.
Proof.
  intro H. unfold Zsum.
  apply (fold_left_perm eq Z.add); try congruence; intros; lia.
Qed.

Section PlainRun.
Variable rt : Runtime.
Hypothesis rt_ok : runtime_ok rt.

Lemma priority_plain (r : Repository) :
  get_recommended_learning_order rt r = get_recommended_learning_order (plain rt) r.
Proof.
  unfold get_recommended_learning_order. simpl. f_equal.
  apply Zsum_perm, Permutation_map, Permutation_sym, (iter_topics_perm rt rt_ok).
Qed.

Lemma bool_of_same_prop (b1 b2 : bool) (P : Prop) :
  (b1 = true <-> P) -> (b2 = true <-> P) -> b1 = b2.
Proof. destruct b1, b2; intuition congruence. Qed.

Lemma infer_plain (a b : Repository) :
  GraphBuilderService._infer_dependency rt a b
  = GraphBuilderService._infer_dependency (plain rt) a b.
Proof.
  unfold GraphBuilderService._infer_dependency.
  rewrite (bool_of_same_prop _ _ _
             (rule1_iff rt (iter_topics_perm rt rt_ok) a b)
             (rule1_iff (plain rt) (fun l => Permutation_refl l) a b)).
  reflexivity.
Qed.

Lemma detect_from_plain (a : Repository) (l : list Repository) :
  GraphBuilderService.detect_from rt a l = GraphBuilderService.detect_from (plain rt) a l.
Proof.
  induction l as [|b l IH]; simpl; [reflexivity|]. now rewrite infer_plain, IH.
Qed.

Lemma detect_plain (l : list Repository) :
  GraphBuilderService._detect_dependencies rt l
  = GraphBuilderService._detect_dependencies (plain rt) l.
Proof.
  induction l as [|a l IH]; simpl; [reflexivity|]. now rewrite detect_from_plain, IH.
Qed.

End PlainRun.

Section DictComm.
Context {V : Type}.

Lemma dict_set_comm (k1 k2 : UUID) (v1 v2 : V) (d : list (UUID * V)) :
  k1 <> k2 ->
  dict_get N.eqb k1 d <> None -> dict_get N.eqb k2 d <> None ->
  dict_set N.eqb k1 v1 (dict_set N.eqb k2 v2 d)
  = dict_set N.eqb k2 v2 (dict_set N.eqb k1 v1 d).
Proof.
  intros Hne. induction d as [|[k0 v0] d IH]; simpl; intros H1 H2; [congruence|].
  destruct (N.eqb k1 k0) eqn:E1, (N.eqb k2 k0) eqn:E2; simpl;
    rewrite ?E1, ?E2; try reflexivity.
  - apply N.eqb_eq in E1, E2. congruence.
  - f_equal. now apply IH.
Qed.
End DictComm.

Lemma graph_step_raise nid e q : graph_step nid (Raise e) q = Raise e.
Proof. reflexivity. Qed.

Lemma graph_step_respects nid acc acc' q :
  same_outcome acc acc' ->
  same_outcome (graph_step nid acc q) (graph_step nid acc' q).
Proof.
  destruct acc as [[d a]|e], acc' as [[d' a']|e']; simpl; try tauto.
  - intros [= <- <-]. apply same_outcome_refl.
Qed.

Lemma graph_step_comm nid acc q1 q2 :
  same_outcome (graph_step nid (graph_step nid acc q1) q2)
               (graph_step nid (graph_step nid acc q2) q1).
Proof.
  destruct acc as [[d a]|e]; [|reflexivity].
  destruct (N.eqb q1 q2) eqn:Eq.
  { apply N.eqb_eq in Eq. subst. apply same_outcome_refl. }
  assert (Hne : q1 <> q2) by (intro H; subst; rewrite N.eqb_refl in Eq; discriminate).
  assert (Eq' : N.eqb q2 q1 = false) by (rewrite N.eqb_sym; exact Eq).
  unfold graph_step at 2 4.
  destruct (dict_get N.eqb q1 a) as [s1|] eqn:E1,
           (dict_get N.eqb q2 a) as [s2|] eqn:E2,
           (dict_get N.eqb nid d) as [v|] eqn:Ev;
    unfold graph_step;
    rewrite ?(dict_get_set _ N.eqb_eq), ?Eq, ?Eq', ?E1, ?E2, ?Ev, ?N.eqb_refl;
    try reflexivity.
  simpl. f_equal. apply dict_set_comm; congruence.
Qed.

Section PlainGraph.
Variable rt : Runtime.
Hypothesis rt_ok : runtime_ok rt.

Lemma build_graph_plain (ns : list LearningNode) :
  same_outcome (build_graph rt ns) (build_graph (plain rt) ns).
Proof.
  unfold build_graph. simpl.
  generalize (Ok (dict_of N.eqb (map (fun n => (node_id n, 0%Z)) ns),
                  dict_of N.eqb (map (fun n => (node_id n, @nil UUID)) ns))).
  generalize ns at 1 2.
  intro ns0. induction ns0 as [|node ns0 IH]; intro acc; simpl;
    [apply same_outcome_refl|].
  eapply same_outcome_trans; [|apply IH].
  apply (fold_left_respects same_outcome).
  - intros a a' x Ha. clear -Ha. revert a a' Ha.
    induction (iter_ids rt (prerequisite_nodes x)) as [|q l IHl]; intros a a' Ha;
      simpl; [exact Ha|].
    apply IHl. now apply graph_step_respects.
  - apply (fold_left_perm same_outcome).
    + apply same_outcome_refl.
    + apply same_outcome_trans.
    + intros. now apply graph_step_respects.
    + intros. apply graph_step_comm.
    + apply Permutation_sym, (iter_ids_perm rt rt_ok).
Qed.

Lemma sort_key_plain ns nid : sort_key rt ns nid = sort_key (plain rt) ns nid.
Proof.
  unfold sort_key. destruct (_get_node_by_id nid ns); [|reflexivity].
  now rewrite (priority_plain rt rt_ok).
Qed.

Lemma keyed_plain ns queue : keyed rt ns queue = keyed (plain rt) ns queue.
Proof.
  induction queue as [|nid queue IH]; simpl; [reflexivity|].
  now rewrite sort_key_plain, IH.
Qed.

Lemma kahn_plain ns adjacency : forall fuel d queue sorted_ids,
  kahn rt ns adjacency fuel d queue sorted_ids
  = kahn (plain rt) ns adjacency fuel d queue sorted_ids.
Proof.
  induction fuel as [|fuel IH]; intros d queue sorted_ids; [reflexivity|].
  destruct queue as [|x queue]; [reflexivity|].
  cbn [kahn]. unfold sort_queue. rewrite keyed_plain.
  destruct (keyed (plain rt) ns (x :: queue)) as [kq|]; [|reflexivity].
  destruct (map snd _) as [|current q']; [reflexivity|].
  destruct (dict_get N.eqb current adjacency) as [succs|]; [|reflexivity].
  destruct (fold_left relax succs _) as [[d' q'']|]; [|reflexivity].
  apply IH.
Qed.

Lemma topological_sort_plain (p : LearningPath) :
  same_outcome (_topological_sort rt p) (_topological_sort (plain rt) p).
Proof.
  unfold _topological_sort.
  pose proof (build_graph_plain (nodes p)) as Hg.
  destruct (build_graph rt (nodes p)) as [[d a]|e],
           (build_graph (plain rt) (nodes p)) as [[d' a']|e']; simpl in Hg;
    try contradiction; [|exact Hg].
  injection Hg as <- <-. rewrite kahn_plain.
  destruct (kahn (plain rt) _ _ _ _ _ _) as [[sorted|e]|]; try apply same_outcome_refl.
  destruct (negb _); [reflexivity | apply same_outcome_refl].
Qed.

End PlainGraph.

Lemma fold_left_ext {A B} (f g : A -> B -> A) (l : list B) :
  (forall a x, f a x = g a x) -> forall a, fold_left f l a = fold_left g l a.
Proof.
  intro H. induction l as [|x l IH]; intro a; simpl; [reflexivity|].
  now rewrite H, IH.
Qed.

Lemma py_sorted_ext {A K} (ltb : K -> K -> bool) (key key' : A -> K) (l : list A) :
  (forall x, key x = key' x) -> py_sorted ltb key l = py_sorted ltb key' l.
Proof.
  intro H. induction l as [|x l IH]; simpl; [reflexivity|]. rewrite IH.
  generalize (py_sorted ltb key' l). intro s.
  induction s as [|y s IHs]; simpl; [reflexivity|]. now rewrite !H, IHs.
Qed.

Section PlainPath.
Variable rt : Runtime.
Hypothesis rt_ok : runtime_ok rt.

Lemma add_dependency_plain k s t ty st who p :
  snd (fst (add_dependency rt k s t ty st who p))
  = snd (fst (add_dependency (plain rt) k s t ty st who p))
  /\ snd (add_dependency rt k s t ty st who p)
     = snd (add_dependency (plain rt) k s t ty st who p)
  /\ same_outcome (fst (fst (add_dependency rt k s t ty st who p)))
                  (fst (fst (add_dependency (plain rt) k s t ty st who p))).
Proof.
  unfold add_dependency.
  destruct (_get_node_by_id s (nodes p)) as [sn|]; [|simpl; auto].
  destruct (_get_node_by_id t (nodes p)) as [tn|]; [|simpl; auto].
  change (DependencyRelation_new (plain rt)) with (DependencyRelation_new rt).
  destruct (DependencyRelation_new rt k _ _ ty st who) as [rel|e]; [|simpl; auto].
  match goal with
  | |- context [match ?l with Ok p2 => _ | Raise e => _ end] =>
      destruct l as [p2|e]
  end; [|simpl; auto].
  pose proof (topological_sort_plain rt rt_ok p2) as Ht.
  destruct (_topological_sort rt p2), (_topological_sort (plain rt) p2);
    simpl in *; try contradiction; auto.
Qed.

Lemma add_dep_step_plain node_map st pair :
  GraphBuilderService.add_dep_step rt node_map st pair
  = GraphBuilderService.add_dep_step (plain rt) node_map st pair.
Proof.
  unfold GraphBuilderService.add_dep_step.
  destruct st as [path k]. destruct pair as [[[a b] ty] s].
  destruct (dict_get N.eqb (repository_id a) node_map) as [sid|]; [|reflexivity].
  destruct (dict_get N.eqb (repository_id b) node_map) as [tid|]; [|reflexivity].
  destruct (add_dependency_plain k sid tid ty s "system" path) as (H1 & H2 & _).
  destruct (add_dependency rt k sid tid ty s "system" path) as [[r1 p1] k1],
           (add_dependency (plain rt) k sid tid ty s "system" path) as [[r2 p2] k2].
  simpl in *. congruence.
Qed.

Lemma build_plain k learner name repos description par maxpar excl :
  GraphBuilderService.build rt k learner name repos description par maxpar excl
  = GraphBuilderService.build (plain rt) k learner name repos description par maxpar excl.
Proof.
  unfold GraphBuilderService.build.
  rewrite (py_sorted_ext _ _ _ _ (priority_plain rt rt_ok)).
  change (LearningPath_new (plain rt)) with (LearningPath_new rt).
  destruct (LearningPath_new rt k name description learner par maxpar) as [path|];
    [|reflexivity].
  change (GraphBuilderService.add_repo_step (plain rt))
    with (GraphBuilderService.add_repo_step rt).
  destruct (fold_left (GraphBuilderService.add_repo_step rt) _ _) as [[p1 nm] k1].
  rewrite (detect_plain rt rt_ok).
  rewrite (fold_left_ext _ _ _ (add_dep_step_plain nm)).
  reflexivity.
Qed.

End PlainPath.

Section Recovery.
Import TopologicalSorterService.

Lemma remove_edge_clean_with p dep :
  remove_edge p dep
  = with_nodes (with_dependencies p
                  (set_discard DependencyRelation_eqb dep (dependencies p)))
               (map (clean_with (source_id dep (nodes p)) (target_repository_id dep))
                    (nodes p)).
Proof.
  unfold remove_edge. simpl. f_equal. apply map_ext. intro n.
  unfold clean_with, source_id.
  destruct (N.eqb _ _); [|reflexivity].
  now destruct (source_node_of dep (nodes p)).
Qed.

Lemma find_map {A B} (P : B -> bool) (h : A -> B) (l : list A) :
  find P (map h l) = option_map h (find (fun x => P (h x)) l).
Proof.
  induction l as [|x l IH]; simpl; [reflexivity|].
  destruct (P (h x)); [reflexivity | exact IH].
Qed.

Lemma find_ext' {A} (P Q : A -> bool) (l : list A) :
  (forall x, P x = Q x) -> find P l = find Q l.
Proof.
  intro H. induction l as [|x l IH]; simpl; [reflexivity|]. now rewrite H, IH.
Qed.

Lemma source_id_map (h : LearningNode -> LearningNode) dep ns :
  (forall n, node_id (h n) = node_id n) ->
  (forall n, repository (h n) = repository n) ->
  source_id dep (map h ns) = source_id dep ns.
Proof.
  intros Hid Hrepo. unfold source_id, source_node_of, _get_node_by_id.
  rewrite find_map.
  rewrite (find_ext' (fun x => N.eqb (repository_id (repository (h x)))
                                    (source_repository_id dep))
                    (fun n => N.eqb (repository_id (repository n))
                                    (source_repository_id dep)))
    by (intro; now rewrite Hrepo).
  destruct (find _ ns) as [n|]; simpl; [|reflexivity].
  rewrite find_map, Hid.
  rewrite (find_ext' (fun x => N.eqb (node_id (h x)) (node_id n))
                    (fun x => N.eqb (node_id x) (node_id n)))
    by (intro; now rewrite Hid).
  destruct (find _ ns) as [m|]; simpl; [now rewrite Hid | reflexivity].
Qed.

Lemma clean_with_id s t n : node_id (clean_with s t n) = node_id n.
Proof. unfold clean_with. destruct (N.eqb _ _), s; reflexivity. Qed.

Lemma clean_with_repo s t n : repository (clean_with s t n) = repository n.
Proof. unfold clean_with. destruct (N.eqb _ _), s; reflexivity. Qed.

Lemma set_discard_comm {A} (eqb : A -> A -> bool) (x y : A) (l : list A) :
  set_discard eqb x (set_discard eqb y l) = set_discard eqb y (set_discard eqb x l).
Proof. unfold set_discard. apply filter_filter_comm. Qed.

Lemma clean_with_comm s1 t1 s2 t2 n :
  clean_with s2 t2 (clean_with s1 t1 n) = clean_with s1 t1 (clean_with s2 t2 n).
Proof.
  unfold clean_with.
  destruct (N.eqb (repository_id (repository n)) t1) eqn:E1,
           (N.eqb (repository_id (repository n)) t2) eqn:E2,
           s1 as [a|], s2 as [b|]; simpl; rewrite ?E1, ?E2; try reflexivity.
  unfold with_prerequisites. simpl. f_equal. apply set_discard_comm.
Qed.

Lemma remove_edge_comm p d1 d2 :
  remove_edge (remove_edge p d1) d2 = remove_edge (remove_edge p d2) d1.
Proof.
  rewrite !remove_edge_clean_with. simpl.
  rewrite !source_id_map by (intro; first [apply clean_with_id | apply clean_with_repo]).
  unfold with_nodes, with_dependencies. simpl.
  f_equal.
  - rewrite !map_map. apply map_ext. intro n. apply clean_with_comm.
  - apply set_discard_comm.
Qed.

Lemma resolve_cycles_plain rt p :
  runtime_ok rt -> _resolve_cycles rt p = _resolve_cycles (plain rt) p.
Proof.
  intro rt_ok. unfold _resolve_cycles. simpl.
  apply (fold_left_perm eq remove_edge); try congruence.
  - intros. apply remove_edge_comm.
  - etransitivity; [apply Permutation_sym, (iter_deps_perm rt rt_ok)|].
    apply filter_perm, Permutation_sym, (iter_deps_perm rt rt_ok).
Qed.

Lemma optimize_plain rt p :
  runtime_ok rt ->
  same_outcome (fst (optimize_learning_sequence rt p))
               (fst (optimize_learning_sequence (plain rt) p))
  /\ snd (optimize_learning_sequence rt p)
     = snd (optimize_learning_sequence (plain rt) p).
Proof.
  intro rt_ok. unfold optimize_learning_sequence.
  pose proof (topological_sort_plain rt rt_ok p) as Ht.
  destruct (_topological_sort rt p), (_topological_sort (plain rt) p);
    simpl in *; try contradiction; subst; auto.
Qed.

Lemma exc_kind_circular e e' :
  exc_kind e = exc_kind e' ->
  match e, e' with
  | CircularDependencyError _, CircularDependencyError _ => True
  | CircularDependencyError _, _ | _, CircularDependencyError _ => False
  | _, _ => True
  end.
Proof. destruct e, e'; simpl; intro H; try discriminate; exact I. Qed.

Lemma sort_plain rt p :
  runtime_ok rt ->
  same_outcome (fst (sort rt p)) (fst (sort (plain rt) p))
  /\ snd (sort rt p) = snd (sort (plain rt) p).
Proof.
  intro rt_ok. unfold sort.
  destruct (optimize_plain rt p rt_ok) as [Ho Hp].
  destruct (optimize_learning_sequence rt p) as [[u|e] p1],
           (optimize_learning_sequence (plain rt) p) as [[u'|e'] p1'];
    simpl in Ho, Hp; try contradiction; subst p1'.
  - simpl. auto.
  - pose proof (exc_kind_circular _ _ Ho) as Hc.
    destruct e, e'; try contradiction; simpl; auto.
    rewrite (resolve_cycles_plain rt p1 rt_ok).
    destruct (optimize_plain rt (_resolve_cycles (plain rt) p1) rt_ok) as [Ho2 Hp2].
    destruct (optimize_learning_sequence rt _) as [[u2|e2] p2],
             (optimize_learning_sequence (plain rt) _) as [[u2'|e2'] p2'];
      simpl in Ho2, Hp2; try contradiction; subst p2'.
    + simpl. auto.
    + pose proof (exc_kind_circular _ _ Ho2) as Hc2.
      destruct e2, e2'; try contradiction; simpl; auto.
Qed.
End Recovery.

(** *** Renaming the generated identifiers *)

Section DictValues.
Context {K V W : Type} (eqb : K -> K -> bool) (h : V -> W).

Lemma map_values_get k (d : list (K * V)) :
  dict_get eqb k (map_values h d) = option_map h (dict_get eqb k d).
Proof.
  induction d as [|[k0 v0] d IH]; simpl; [reflexivity|].
  destruct (eqb k k0); [reflexivity | exact IH].
Qed.

Lemma map_values_set k v (d : list (K * V)) :
  dict_set eqb k (h v) (map_values h d) = map_values h (dict_set eqb k v d).
Proof.
  induction d as [|[k0 v0] d IH]; simpl; [reflexivity|].
  destruct (eqb k k0); simpl; [reflexivity | now rewrite IH].
Qed.

Lemma map_values_of_acc (l : list (K * V)) : forall acc,
  fold_left (fun d kv => dict_set eqb (fst kv) (snd kv) d)
            (map_values h l) (map_values h acc)
  = map_values h (fold_left (fun d kv => dict_set eqb (fst kv) (snd kv) d) l acc).
Proof.
  induction l as [|[k v] l IH]; intro acc; simpl; [reflexivity|].
  rewrite map_values_set. apply IH.
Qed.

Lemma map_values_of (l : list (K * V)) : dict_of eqb (map_values h l) = map_values h (dict_of eqb l).
Proof. exact (map_values_of_acc l []). Qed.

Lemma map_values_values (d : list (K * V)) : dict_values (map_values h d) = map h (dict_values d).
Proof. unfold dict_values, map_values. now rewrite !map_map. Qed.
End DictValues.

Section RenameFacts.
Variable g : UUID -> UUID.
Hypothesis g_inj : forall x y, g x = g y -> x = y.

Lemma eqb_g (x y : UUID) : N.eqb (g x) (g y) = N.eqb x y.
Proof.
  destruct (N.eqb x y) eqn:E.
  - apply N.eqb_eq in E. subst. apply N.eqb_refl.
  - apply N.eqb_neq. intro H. apply g_inj in H. subst.
    rewrite N.eqb_refl in E. discriminate.
Qed.

Lemma mem_g (x : UUID) (l : list UUID) :
  mem N.eqb (g x) (map g l) = mem N.eqb x l.
Proof.
  unfold mem. induction l as [|y l IH]; simpl; [reflexivity|].
  now rewrite eqb_g, IH.
Qed.

Lemma set_add_g (x : UUID) (l : list UUID) :
  set_add N.eqb (g x) (map g l) = map g (set_add N.eqb x l).
Proof.
  unfold set_add. rewrite mem_g. destruct (mem N.eqb x l); [reflexivity|].
  now rewrite map_app.
Qed.

Lemma set_discard_g (x : UUID) (l : list UUID) :
  set_discard N.eqb (g x) (map g l) = map g (set_discard N.eqb x l).
Proof.
  unfold set_discard. induction l as [|y l IH]; simpl; [reflexivity|].
  rewrite eqb_g. destruct (N.eqb x y); simpl; now rewrite IH.
Qed.

Section Dicts.
Context {V : Type} (h : V -> V).

Lemma dict_get_g (k : UUID) (d : list (UUID * V)) :
  dict_get N.eqb (g k) (rename_dict g h d) = option_map h (dict_get N.eqb k d).
Proof.
  unfold rename_dict. induction d as [|[k0 v0] d IH]; simpl; [reflexivity|].
  rewrite eqb_g. destruct (N.eqb k k0); [reflexivity | exact IH].
Qed.

Lemma dict_set_g (k : UUID) (v : V) (d : list (UUID * V)) :
  dict_set N.eqb (g k) (h v) (rename_dict g h d)
  = rename_dict g h (dict_set N.eqb k v d).
Proof.
  unfold rename_dict. induction d as [|[k0 v0] d IH]; simpl; [reflexivity|].
  rewrite eqb_g. destruct (N.eqb k k0); simpl; [reflexivity | now rewrite IH].
Qed.

Lemma dict_of_acc_g (l acc : list (UUID * V)) :
  fold_left (fun d kv => dict_set N.eqb (fst kv) (snd kv) d)
            (rename_dict g h l) (rename_dict g h acc)
  = rename_dict g h
      (fold_left (fun d kv => dict_set N.eqb (fst kv) (snd kv) d) l acc).
Proof.
  revert acc. induction l as [|[k v] l IH]; intro acc; simpl; [reflexivity|].
  rewrite dict_set_g. apply IH.
Qed.

Lemma dict_of_g (l : list (UUID * V)) :
  dict_of N.eqb (rename_dict g h l) = rename_dict g h (dict_of N.eqb l).
Proof. exact (dict_of_acc_g l []). Qed.
End Dicts.

Lemma get_node_g (a : UUID) (ns : list LearningNode) :
  _get_node_by_id (g a) (map (rename_node g) ns)
  = option_map (rename_node g) (_get_node_by_id a ns).
Proof.
  unfold _get_node_by_id. rewrite find_map. simpl. f_equal.
  apply find_ext'. intro n. apply eqb_g.
Qed.

Lemma replace_node_g (a : UUID) (n' : LearningNode) (ns : list LearningNode) :
  replace_node (g a) (rename_node g n') (map (rename_node g) ns)
  = map (rename_node g) (replace_node a n' ns).
Proof.
  induction ns as [|n ns IH]; simpl; [reflexivity|].
  rewrite eqb_g. destruct (N.eqb (node_id n) a); simpl; [reflexivity | now rewrite IH].
Qed.

Lemma update_status_g (n : LearningNode) :
  _update_status_based_on_prerequisites (rename_node g n)
  = rename_node g (_update_status_based_on_prerequisites n).
Proof.
  unfold _update_status_based_on_prerequisites. simpl.
  destruct (status n); try reflexivity; destruct (prerequisite_nodes n); reflexivity.
Qed.

Lemma add_prerequisite_g (a : UUID) (n : LearningNode) :
  add_prerequisite (g a) (rename_node g n)
  = res_map (rename_node g) (add_prerequisite a n).
Proof.
  unfold add_prerequisite. simpl. rewrite eqb_g, mem_g.
  destruct (N.eqb a (node_id n)); [reflexivity|].
  destruct (mem N.eqb a (dependent_nodes n)); [reflexivity|].
  simpl. rewrite <- update_status_g. f_equal. f_equal.
  unfold with_prerequisites, rename_node. simpl. now rewrite set_add_g.
Qed.

Lemma recalculate_metrics_g (p : LearningPath) :
  _recalculate_metrics (rename_path g p) = rename_path g (_recalculate_metrics p).
Proof.
  unfold _recalculate_metrics, rename_path. simpl.
  rewrite !length_map, !map_map. simpl.
  assert (H : List.length (filter is_completed (map (rename_node g) (nodes p)))
              = List.length (filter is_completed (nodes p))).
  { induction (nodes p) as [|n ns IH]; simpl; [reflexivity|].
    replace (is_completed (rename_node g n)) with (is_completed n) by reflexivity.
    destruct (is_completed n); simpl; congruence. }
  rewrite H. reflexivity.
Qed.

Lemma py_sorted_map {A B K} (ltb : K -> K -> bool) (key : A -> K) (key' : B -> K)
  (h : A -> B) (l : list A) :
  (forall x, key' (h x) = key x) ->
  py_sorted ltb key' (map h l) = map h (py_sorted ltb key l).
Proof.
  intro H. induction l as [|x l IH]; simpl; [reflexivity|]. rewrite IH.
  generalize (py_sorted ltb key l). intro s.
  induction s as [|y s IHs]; simpl; [reflexivity|].
  rewrite !H. destruct (ltb (key y) (key x)); simpl; [now rewrite IHs | reflexivity].
Qed.

Lemma existsb_map' {A B} (P : B -> bool) (h : A -> B) (l : list A) :
  existsb P (map h l) = existsb (fun x => P (h x)) l.
Proof. induction l as [|x l IH]; simpl; [reflexivity | now rewrite IH]. Qed.

Lemma filter_map' {A B} (P : B -> bool) (h : A -> B) (l : list A) :
  filter P (map h l) = map h (filter (fun x => P (h x)) l).
Proof.
  induction l as [|x l IH]; simpl; [reflexivity|].
  destruct (P (h x)); simpl; now rewrite IH.
Qed.

(** Two runs whose identifiers correspond under [g]. *)
Section TwoRuns.
Variables rtA rtB : Runtime.
Hypothesis fresh : forall k, uuid4 rtB k = g (uuid4 rtA k).

Local Abbreviation rn := (rename_node g).
Local Abbreviation rr := (rename_relation g).
Local Abbreviation rp := (rename_path g).

Lemma LearningNode_new_g k repo :
  LearningNode_new (plain rtB) k repo = res_map rn (LearningNode_new (plain rtA) k repo).
Proof.
  unfold LearningNode_new. destruct (_ <? _)%Z; [reflexivity|].
  simpl. unfold rename_node. simpl. now rewrite fresh.
Qed.

Lemma add_repository_g k repo p :
  add_repository (plain rtB) k repo (rp p)
  = let '(r, p', k') := add_repository (plain rtA) k repo p in
    (res_map rn r, rp p', k').
Proof.
  unfold add_repository.
  replace (existsb _ (nodes (rp p)))
    with (existsb (fun n => Repository_eqb (repository n) repo) (nodes p))
    by (simpl; now rewrite existsb_map').
  destruct (existsb _ (nodes p)); [reflexivity|].
  rewrite LearningNode_new_g.
  destruct (LearningNode_new (plain rtA) k repo) as [node|e]; [|reflexivity].
  simpl res_map. cbv iota beta. f_equal. f_equal.
  rewrite <- recalculate_metrics_g. f_equal.
  unfold with_nodes, rename_path. simpl. now rewrite map_app.
Qed.

(** *** The graph of Kahn's algorithm *)

Lemma graph_step_g nid acc acc' q :
  sim (rename_graph g) acc acc' ->
  sim (rename_graph g) (graph_step nid acc q) (graph_step (g nid) acc' (g q)).
Proof.
  destruct acc as [[d a]|e], acc' as [[d' a']|e']; simpl; try contradiction.
  - intro H. injection H as -> ->. rewrite !dict_get_g.
    destruct (dict_get N.eqb q a) as [succs|]; simpl; [|reflexivity].
    destruct (dict_get N.eqb nid d) as [x|]; simpl; [|reflexivity].
    unfold rename_graph. simpl.
    rewrite <- (dict_set_g (fun d => d)), <- (dict_set_g (map g)).
    now rewrite map_app.
  - auto.
Qed.

Lemma graph_steps_g nid l : forall acc acc',
  sim (rename_graph g) acc acc' ->
  sim (rename_graph g) (fold_left (graph_step nid) l acc)
                   (fold_left (graph_step (g nid)) (map g l) acc').
Proof.
  induction l as [|q l IH]; intros acc acc' H; simpl; [exact H|].
  apply IH. now apply graph_step_g.
Qed.

Lemma build_graph_g ns :
  sim (rename_graph g) (build_graph (plain rtA) ns) (build_graph (plain rtB) (map rn ns)).
Proof.
  unfold build_graph. simpl.
  assert (H0 : sim (rename_graph g)
            (Ok (dict_of N.eqb (map (fun n => (node_id n, 0%Z)) ns),
                 dict_of N.eqb (map (fun n => (node_id n, @nil UUID)) ns)))
            (Ok (dict_of N.eqb (map (fun n => (node_id n, 0%Z)) (map rn ns)),
                 dict_of N.eqb (map (fun n => (node_id n, @nil UUID)) (map rn ns))))).
  { simpl. unfold rename_graph. simpl.
    rewrite <- !dict_of_g. unfold rename_dict. now rewrite !map_map. }
  revert H0. generalize (Ok (dict_of N.eqb (map (fun n => (node_id n, 0%Z)) ns),
                 dict_of N.eqb (map (fun n => (node_id n, @nil UUID)) ns))).
  generalize (Ok (dict_of N.eqb (map (fun n => (node_id n, 0%Z)) (map rn ns)),
                 dict_of N.eqb (map (fun n => (node_id n, @nil UUID)) (map rn ns)))).
  induction ns as [|n ns IH]; intros acc' acc H; simpl; [exact H|].
  apply IH. now apply graph_steps_g.
Qed.

Lemma priority_g r :
  get_recommended_learning_order (plain rtB) r
  = get_recommended_learning_order (plain rtA) r.
Proof. reflexivity. Qed.

Lemma sort_key_g ns nid :
  sort_key (plain rtB) (map rn ns) (g nid) = sort_key (plain rtA) ns nid.
Proof.
  unfold sort_key. rewrite get_node_g.
  destruct (_get_node_by_id nid ns); reflexivity.
Qed.

Lemma keyed_g ns queue :
  keyed (plain rtB) (map rn ns) (map g queue)
  = res_map (map (fun kv => (fst kv, g (snd kv)))) (keyed (plain rtA) ns queue).
Proof.
  induction queue as [|nid queue IH]; simpl; [reflexivity|].
  rewrite sort_key_g, IH.
  destruct (sort_key (plain rtA) ns nid); [|reflexivity].
  destruct (keyed (plain rtA) ns queue); reflexivity.
Qed.

Lemma sort_queue_g ns queue :
  sort_queue (plain rtB) (map rn ns) (map g queue)
  = res_map (map g) (sort_queue (plain rtA) ns queue).
Proof.
  unfold sort_queue. rewrite keyed_g.
  destruct (keyed (plain rtA) ns queue) as [kq|]; [|reflexivity].
  simpl. f_equal.
  rewrite (py_sorted_map Z.ltb fst fst) by reflexivity.
  rewrite !map_map. reflexivity.
Qed.

Lemma relax_g acc acc' q :
  sim (rename_front g) acc acc' ->
  sim (rename_front g) (relax acc q) (relax acc' (g q)).
Proof.
  destruct acc as [[d a]|e], acc' as [[d' a']|e']; simpl; try contradiction; [|auto].
  intro H. injection H as -> ->. rewrite dict_get_g.
  destruct (dict_get N.eqb q d) as [x|]; simpl; [|reflexivity].
  destruct (x - 1 =? 0)%Z; simpl; unfold rename_front; simpl;
    rewrite <- (dict_set_g (fun d => d)); [now rewrite map_app | reflexivity].
Qed.

Lemma relaxes_g l : forall acc acc',
  sim (rename_front g) acc acc' ->
  sim (rename_front g) (fold_left relax l acc) (fold_left relax (map g l) acc').
Proof.
  induction l as [|q l IH]; intros acc acc' H; simpl; [exact H|].
  apply IH. now apply relax_g.
Qed.

Lemma kahn_g ns a : forall fuel d queue sorted_ids,
  sim_opt (map g)
    (kahn (plain rtA) ns a fuel d queue sorted_ids)
    (kahn (plain rtB) (map rn ns) (rename_dict g (map g) a) fuel
          (rename_dict g (fun d => d) d) (map g queue) (map g sorted_ids)).
Proof.
  induction fuel as [|fuel IH]; intros d queue sorted_ids.
  - destruct queue; simpl; reflexivity.
  - destruct queue as [|x queue]; [simpl; reflexivity|].
    change (map g (x :: queue)) with (g x :: map g queue).
    cbn [kahn].
    change (g x :: map g queue) with (map g (x :: queue)).
    rewrite sort_queue_g.
    destruct (sort_queue (plain rtA) ns (x :: queue)) as [[|c q']|e];
      simpl res_map; cbv iota; try (simpl; reflexivity).
    cbn [map]. rewrite dict_get_g.
    destruct (dict_get N.eqb c a) as [succs|]; simpl option_map; cbv iota;
      [|simpl; reflexivity].
    pose proof (relaxes_g succs (Ok (d, q')) (Ok (rename_dict g (fun d => d) d, map g q'))
                  eq_refl) as Hr.
    destruct (fold_left relax succs (Ok (d, q'))) as [[d1 q1]|e1],
             (fold_left relax (map g succs) _) as [[d2 q2]|e2];
      simpl in Hr; try contradiction; [|exact Hr].
    injection Hr as -> ->.
    replace (map g sorted_ids ++ [g c]) with (map g (sorted_ids ++ [c]))
      by (now rewrite map_app).
    apply IH.
Qed.

Lemma lookup_all_g nm ids :
  lookup_all (rename_dict g rn nm) (map g ids)
  = match lookup_all nm ids with
    | Ok l => Ok (map rn l)
    | Raise (KeyError k) => Raise (KeyError (g k))
    | Raise e => Raise e
    end.
Proof.
  induction ids as [|i ids IH]; simpl; [reflexivity|].
  rewrite dict_get_g. destruct (dict_get N.eqb i nm) as [n|]; simpl; [|reflexivity].
  rewrite IH. destruct (lookup_all nm ids) as [l|e]; [reflexivity|].
  destruct e; reflexivity.
Qed.

Lemma topological_sort_g p :
  sim (map rn) (_topological_sort (plain rtA) p) (_topological_sort (plain rtB) (rp p)).
Proof.
  unfold _topological_sort.
  change (nodes (rp p)) with (map rn (nodes p)).
  pose proof (build_graph_g (nodes p)) as Hg.
  destruct (build_graph (plain rtA) (nodes p)) as [[d a]|e],
           (build_graph (plain rtB) (map rn (nodes p))) as [[d' a']|e'];
    simpl in Hg; try contradiction; [|exact Hg].
  injection Hg as -> ->.
  replace (map fst (filter _ (rename_dict g (fun d => d) d)))
    with (map g (map fst (filter (fun kv => (snd kv =? 0)%Z) d)))
    by (unfold rename_dict; rewrite filter_map', !map_map; reflexivity).
  replace (List.length (rename_dict g (fun d => d) d)) with (List.length d)
    by (unfold rename_dict; now rewrite length_map).
  pose proof (kahn_g (nodes p) a (List.length d) d
                (map fst (filter (fun kv => (snd kv =? 0)%Z) d)) []) as Hk.
  change (map g []) with (@nil UUID) in Hk.
  destruct (kahn (plain rtA) _ _ _ _ _ _) as [[s|e]|],
           (kahn (plain rtB) _ _ _ _ _ _) as [[s'|e']|];
    simpl in Hk; try contradiction; try exact Hk; [|reflexivity].
  subst s'. rewrite !length_map.
  destruct (negb _); [reflexivity|].
  replace (dict_of N.eqb (map (fun n => (node_id n, n)) (map rn (nodes p))))
    with (rename_dict g rn (dict_of N.eqb (map (fun n => (node_id n, n)) (nodes p))))
    by (rewrite <- dict_of_g; unfold rename_dict; now rewrite !map_map).
  rewrite lookup_all_g.
  destruct (lookup_all _ s) as [l|e]; [reflexivity|].
  destruct e; reflexivity.
Qed.

End TwoRuns.

(** *** The heuristics see the repositories only *)

Section Heuristics.
Variable h : LearningNode -> LearningNode.
Hypothesis h_repo : forall n, repository (h n) = repository n.

Lemma skill_key_h n : skill_key (h n) = skill_key n.
Proof. unfold skill_key. now rewrite h_repo. Qed.

Lemma groups_get k gs :
  dict_get skill_key_eqb k (map_groups h gs)
  = option_map (map h) (dict_get skill_key_eqb k gs).
Proof.
  induction gs as [|[k0 v0] gs IH]; simpl; [reflexivity|].
  destruct (skill_key_eqb k k0); [reflexivity | exact IH].
Qed.

Lemma groups_set k v gs :
  dict_set skill_key_eqb k (map h v) (map_groups h gs)
  = map_groups h (dict_set skill_key_eqb k v gs).
Proof.
  induction gs as [|[k0 v0] gs IH]; simpl; [reflexivity|].
  destruct (skill_key_eqb k k0); simpl; [reflexivity | now rewrite IH].
Qed.

Lemma add_to_group_h gs n :
  add_to_group (map_groups h gs) (h n) = map_groups h (add_to_group gs n).
Proof.
  unfold add_to_group. rewrite skill_key_h, groups_get.
  destruct (dict_get skill_key_eqb (skill_key n) gs) as [v|]; simpl.
  - rewrite <- groups_set. now rewrite map_app.
  - now rewrite <- groups_set.
Qed.

Lemma add_to_groups_h l : forall gs,
  fold_left add_to_group (map h l) (map_groups h gs)
  = map_groups h (fold_left add_to_group l gs).
Proof.
  induction l as [|n l IH]; intro gs; simpl; [reflexivity|].
  rewrite add_to_group_h. apply IH.
Qed.

Lemma sorted_groups_h gs :
  map (fun kg => (fst kg, py_sorted Qltb node_complexity (snd kg))) (map_groups h gs)
  = map_groups h (map (fun kg => (fst kg, py_sorted Qltb node_complexity (snd kg))) gs).
Proof.
  unfold map_groups. rewrite !map_map. apply map_ext. intros [k v]. simpl.
  f_equal. apply py_sorted_map. intro n. unfold node_complexity. now rewrite h_repo.
Qed.

Lemma apply_learning_heuristics_h l :
  _apply_learning_heuristics (map h l) = map h (_apply_learning_heuristics l).
Proof.
  unfold _apply_learning_heuristics. cbv zeta.
  pose proof (add_to_groups_h l []) as H0. simpl in H0. rewrite H0, sorted_groups_h.
  generalize (map (fun kg => (fst kg, py_sorted Qltb node_complexity (snd kg)))
                  (fold_left add_to_group l [])).
  intro gs'.
  replace (dict_keys (map_groups h gs')) with (dict_keys gs')
    by (unfold dict_keys, map_groups; now rewrite map_map).
  induction (py_sorted String.ltb skill_key_str (dict_keys gs')) as [|k ks IH];
    simpl; [reflexivity|].
  rewrite map_app, IH, groups_get.
  now destruct (dict_get skill_key_eqb k gs').
Qed.
End Heuristics.

Section TwoRuns2.
Variables rtA rtB : Runtime.
Hypothesis fresh : forall k, uuid4 rtB k = g (uuid4 rtA k).

Local Abbreviation rn := (rename_node g).
Local Abbreviation rr := (rename_relation g).
Local Abbreviation rp := (rename_path g).

Lemma optimize_g p :
  sim (fun u => u) (fst (optimize_learning_sequence (plain rtA) p))
                   (fst (optimize_learning_sequence (plain rtB) (rp p)))
  /\ snd (optimize_learning_sequence (plain rtB) (rp p))
     = rp (snd (optimize_learning_sequence (plain rtA) p)).
Proof.
  unfold optimize_learning_sequence.
  pose proof (topological_sort_g rtA rtB p) as Ht.
  destruct (_topological_sort (plain rtA) p) as [l|e],
           (_topological_sort (plain rtB) (rp p)) as [l'|e'];
    simpl in Ht; try contradiction; simpl.
  - subst l'. split; [reflexivity|].
    rewrite (apply_learning_heuristics_h rn) by reflexivity. reflexivity.
  - auto.
Qed.

Lemma relation_eqb_g a b :
  DependencyRelation_eqb (rr a) (rr b) = DependencyRelation_eqb a b.
Proof. reflexivity. Qed.

Lemma relations_add_g d ds :
  set_add DependencyRelation_eqb (rr d) (map rr ds)
  = map rr (set_add DependencyRelation_eqb d ds).
Proof.
  unfold set_add, mem. rewrite existsb_map'.
  destruct (existsb _ ds); [reflexivity | now rewrite map_app].
Qed.

Lemma relations_discard_g d ds :
  set_discard DependencyRelation_eqb (rr d) (map rr ds)
  = map rr (set_discard DependencyRelation_eqb d ds).
Proof. unfold set_discard. now rewrite filter_map'. Qed.

Lemma DependencyRelation_new_g k s t ty st who :
  DependencyRelation_new (plain rtB) k s t ty st who
  = res_map rr (DependencyRelation_new (plain rtA) k s t ty st who).
Proof.
  unfold DependencyRelation_new. destruct (N.eqb s t); [reflexivity|].
  simpl. unfold rename_relation. simpl. now rewrite fresh.
Qed.

Lemma add_dependency_g k s t ty st who p :
  sim rr (fst (fst (add_dependency (plain rtA) k s t ty st who p)))
         (fst (fst (add_dependency (plain rtB) k (g s) (g t) ty st who (rp p))))
  /\ snd (fst (add_dependency (plain rtB) k (g s) (g t) ty st who (rp p)))
     = rp (snd (fst (add_dependency (plain rtA) k s t ty st who p)))
  /\ snd (add_dependency (plain rtB) k (g s) (g t) ty st who (rp p))
     = snd (add_dependency (plain rtA) k s t ty st who p).
Proof.
  unfold add_dependency.
  change (nodes (rp p)) with (map rn (nodes p)).
  rewrite !get_node_g.
  destruct (_get_node_by_id s (nodes p)) as [sn|]; simpl option_map; cbv iota;
    [|simpl; auto].
  destruct (_get_node_by_id t (nodes p)) as [tn|]; simpl option_map; cbv iota;
    [|simpl; auto].
  change (repository (rn sn)) with (repository sn).
  change (repository (rn tn)) with (repository tn).
  rewrite DependencyRelation_new_g.
  destruct (DependencyRelation_new (plain rtA) k _ _ ty st who) as [rel|e];
    simpl res_map; cbv iota; [|simpl; auto].
  change (is_blocking_dependency (rr rel)) with (is_blocking_dependency rel).
  change (dependencies (rp p)) with (map rr (dependencies p)).
  rewrite relations_add_g.
  set (p1 := with_dependencies p (set_add DependencyRelation_eqb rel (dependencies p))).
  change (with_dependencies (rp p) (map rr (set_add DependencyRelation_eqb rel (dependencies p))))
    with (rp p1).
  assert (Hl : forall linkedA linkedB,
             sim rp linkedA linkedB ->
             sim rr (fst (fst (match linkedA with
                               | Raise e => (Raise e, p1, S k)
                               | Ok p2 => match _topological_sort (plain rtA) p2 with
                                          | Raise e => (Raise e, p2, S k)
                                          | Ok _ => (Ok rel, p2, S k)
                                          end
                               end)))
                    (fst (fst (match linkedB with
                               | Raise e => (Raise e, rp p1, S k)
                               | Ok p2 => match _topological_sort (plain rtB) p2 with
                                          | Raise e => (Raise e, p2, S k)
                                          | Ok _ => (Ok (rr rel), p2, S k)
                                          end
                               end)))
             /\ snd (fst (match linkedB with
                               | Raise e => (Raise e, rp p1, S k)
                               | Ok p2 => match _topological_sort (plain rtB) p2 with
                                          | Raise e => (Raise e, p2, S k)
                                          | Ok _ => (Ok (rr rel), p2, S k)
                                          end
                               end))
                = rp (snd (fst (match linkedA with
                               | Raise e => (Raise e, p1, S k)
                               | Ok p2 => match _topological_sort (plain rtA) p2 with
                                          | Raise e => (Raise e, p2, S k)
                                          | Ok _ => (Ok rel, p2, S k)
                                          end
                               end)))
             /\ snd (match linkedB with
                               | Raise e => (Raise e, rp p1, S k)
                               | Ok p2 => match _topological_sort (plain rtB) p2 with
                                          | Raise e => (Raise e, p2, S k)
                                          | Ok _ => (Ok (rr rel), p2, S k)
                                          end
                               end)
                = snd (match linkedA with
                               | Raise e => (Raise e, p1, S k)
                               | Ok p2 => match _topological_sort (plain rtA) p2 with
                                          | Raise e => (Raise e, p2, S k)
                                          | Ok _ => (Ok rel, p2, S k)
                                          end
                               end)).
  { intros [pa|ea] [pb|eb] H; simpl in H; try contradiction; [|simpl; auto].
    subst pb. pose proof (topological_sort_g rtA rtB pa) as Ht.
    destruct (_topological_sort (plain rtA) pa), (_topological_sort (plain rtB) (rp pa));
      simpl in Ht; try contradiction; simpl; auto. }
  apply Hl.
  destruct (is_blocking_dependency rel); [|reflexivity].
  rewrite add_prerequisite_g.
  destruct (add_prerequisite s tn) as [tn'|e]; simpl; [|reflexivity].
  unfold with_nodes, rename_path. simpl. f_equal. apply replace_node_g.
Qed.

(** *** Cycle recovery *)

Lemma source_id_g dep ns :
  source_id (rr dep) (map rn ns) = option_map g (source_id dep ns).
Proof.
  unfold source_id, TopologicalSorterService.source_node_of, _get_node_by_id.
  rewrite find_map. simpl.
  destruct (find _ ns) as [n|]; simpl; [|reflexivity].
  rewrite find_map. simpl.
  rewrite (find_ext' (fun x => N.eqb (g (node_id x)) (g (node_id n)))
                    (fun x => N.eqb (node_id x) (node_id n)))
    by (intro; apply eqb_g).
  destruct (find _ ns) as [m|]; reflexivity.
Qed.

Lemma clean_with_g s t n :
  clean_with (option_map g s) t (rn n) = rn (clean_with s t n).
Proof.
  unfold clean_with. simpl.
  destruct (N.eqb _ t); [|reflexivity].
  destruct s as [sid|]; simpl; [|reflexivity].
  unfold with_prerequisites, rename_node. simpl. now rewrite set_discard_g.
Qed.

Lemma remove_edge_g p dep :
  TopologicalSorterService.remove_edge (rp p) (rr dep)
  = rp (TopologicalSorterService.remove_edge p dep).
Proof.
  rewrite !remove_edge_clean_with.
  change (nodes (rp p)) with (map rn (nodes p)).
  change (dependencies (rp p)) with (map rr (dependencies p)).
  rewrite source_id_g, relations_discard_g.
  unfold with_nodes, with_dependencies, rename_path. simpl. f_equal.
  rewrite !map_map. apply map_ext. intro n. apply clean_with_g.
Qed.

Lemma remove_edges_g l : forall p,
  fold_left TopologicalSorterService.remove_edge (map rr l) (rp p)
  = rp (fold_left TopologicalSorterService.remove_edge l p).
Proof.
  induction l as [|d l IH]; intro p; simpl; [reflexivity|].
  rewrite remove_edge_g. apply IH.
Qed.

Lemma resolve_cycles_g p :
  TopologicalSorterService._resolve_cycles (plain rtB) (rp p)
  = rp (TopologicalSorterService._resolve_cycles (plain rtA) p).
Proof.
  unfold TopologicalSorterService._resolve_cycles. simpl.
  rewrite filter_map'. apply remove_edges_g.
Qed.

Lemma sort_g p :
  sim (map rn) (fst (TopologicalSorterService.sort (plain rtA) p))
               (fst (TopologicalSorterService.sort (plain rtB) (rp p)))
  /\ snd (TopologicalSorterService.sort (plain rtB) (rp p))
     = rp (snd (TopologicalSorterService.sort (plain rtA) p)).
Proof.
  unfold TopologicalSorterService.sort.
  destruct (optimize_g p) as [Ho Hp].
  destruct (optimize_learning_sequence (plain rtA) p) as [[u|e] p1],
           (optimize_learning_sequence (plain rtB) (rp p)) as [[u'|e'] p1'];
    simpl in Ho, Hp; try contradiction; subst p1'.
  - simpl. auto.
  - pose proof (exc_kind_circular _ _ Ho) as Hc.
    destruct e, e'; try contradiction; simpl; auto.
    rewrite resolve_cycles_g.
    destruct (optimize_g (TopologicalSorterService._resolve_cycles (plain rtA) p1))
      as [Ho2 Hp2].
    destruct (optimize_learning_sequence (plain rtA) _) as [[u2|e2] p2],
             (optimize_learning_sequence (plain rtB) _) as [[u2'|e2'] p2'];
      simpl in Ho2, Hp2; try contradiction; subst p2'.
    + simpl. auto.
    + pose proof (exc_kind_circular _ _ Ho2) as Hc2.
      destruct e2, e2'; try contradiction; simpl; auto.
Qed.

(** *** The graph builder *)

Lemma LearningPath_new_g k name d learner par maxpar :
  LearningPath_new (plain rtB) k name d learner par maxpar
  = res_map rp (LearningPath_new (plain rtA) k name d learner par maxpar).
Proof.
  unfold LearningPath_new.
  destruct (blank name); [reflexivity|].
  destruct (blank learner); [reflexivity|].
  destruct (maxpar <? 1)%Z; [reflexivity|].
  simpl res_map. f_equal. rewrite <- recalculate_metrics_g. f_equal.
  unfold rename_path. simpl. now rewrite fresh.
Qed.

Lemma add_repo_step_g st repo :
  GraphBuilderService.add_repo_step (plain rtB) (rename_build_state g st) repo
  = rename_build_state g (GraphBuilderService.add_repo_step (plain rtA) st repo).
Proof.
  destruct st as [[p nm] k]. unfold rename_build_state. simpl fst. simpl snd.
  unfold GraphBuilderService.add_repo_step.
  rewrite (add_repository_g rtA rtB fresh).
  destruct (add_repository (plain rtA) k repo p) as [[[node|e] p'] k']; simpl;
    [|reflexivity].
  now rewrite <- (map_values_set N.eqb g).
Qed.

Lemma add_repo_steps_g l : forall st,
  fold_left (GraphBuilderService.add_repo_step (plain rtB)) l (rename_build_state g st)
  = rename_build_state g (fold_left (GraphBuilderService.add_repo_step (plain rtA)) l st).
Proof.
  induction l as [|r l IH]; intro st; cbn [fold_left]; [reflexivity|].
  rewrite add_repo_step_g. apply IH.
Qed.

Lemma add_dep_step_g nm st pair :
  GraphBuilderService.add_dep_step (plain rtB) (map_values g nm)
                                   (rename_link_state g st) pair
  = rename_link_state g (GraphBuilderService.add_dep_step (plain rtA) nm st pair).
Proof.
  destruct st as [p k]. destruct pair as [[[a b] ty] s].
  unfold rename_link_state. simpl fst. simpl snd.
  unfold GraphBuilderService.add_dep_step.
  rewrite !(map_values_get N.eqb g).
  destruct (dict_get N.eqb (repository_id a) nm) as [sid|]; simpl option_map;
    cbv iota; [|reflexivity].
  destruct (dict_get N.eqb (repository_id b) nm) as [tid|]; simpl option_map;
    cbv iota; [|reflexivity].
  destruct (add_dependency_g k sid tid ty s "system" p) as (_ & H2 & H3).
  destruct (add_dependency (plain rtA) k sid tid ty s "system" p) as [[r1 p1] k1],
           (add_dependency (plain rtB) k (g sid) (g tid) ty s "system" (rp p))
             as [[r2 p2] k2].
  simpl in *. now subst.
Qed.

Lemma add_dep_steps_g nm l : forall st,
  fold_left (GraphBuilderService.add_dep_step (plain rtB) (map_values g nm)) l
            (rename_link_state g st)
  = rename_link_state g
      (fold_left (GraphBuilderService.add_dep_step (plain rtA) nm) l st).
Proof.
  induction l as [|r l IH]; intro st; cbn [fold_left]; [reflexivity|].
  rewrite add_dep_step_g. apply IH.
Qed.

Lemma infer_g a b :
  GraphBuilderService._infer_dependency (plain rtB) a b
  = GraphBuilderService._infer_dependency (plain rtA) a b.
Proof. reflexivity. Qed.

Lemma detect_from_g a l :
  GraphBuilderService.detect_from (plain rtB) a l
  = GraphBuilderService.detect_from (plain rtA) a l.
Proof.
  induction l as [|b l IH]; simpl; [reflexivity|]. now rewrite infer_g, IH.
Qed.

Lemma detect_g l :
  GraphBuilderService._detect_dependencies (plain rtB) l
  = GraphBuilderService._detect_dependencies (plain rtA) l.
Proof.
  induction l as [|a l IH]; simpl; [reflexivity|]. now rewrite detect_from_g, IH.
Qed.

Lemma build_g k learner name repos description par maxpar excl :
  GraphBuilderService.build (plain rtB) k learner name repos description par maxpar excl
  = res_map rp
      (GraphBuilderService.build (plain rtA) k learner name repos description
                                 par maxpar excl).
Proof.
  unfold GraphBuilderService.build.
  rewrite LearningPath_new_g.
  change (get_recommended_learning_order (plain rtB))
    with (get_recommended_learning_order (plain rtA)).
  destruct (LearningPath_new (plain rtA) k name description learner par maxpar)
    as [path|]; [|reflexivity].
  simpl res_map. cbv iota.
  change (rp path, @nil (UUID * UUID), S k) with (rename_build_state g (path, [], S k)).
  rewrite add_repo_steps_g.
  destruct (fold_left (GraphBuilderService.add_repo_step (plain rtA)) _ _)
    as [[p1 nm] k1].
  unfold rename_build_state. simpl fst. simpl snd. cbv iota beta.
  rewrite detect_g.
  change (rp p1, k1) with (rename_link_state g (p1, k1)).
  rewrite add_dep_steps_g.
  destruct (fold_left (GraphBuilderService.add_dep_step (plain rtA) nm) _ _)
    as [p2 k2].
  reflexivity.
Qed.

End TwoRuns2.
End RenameFacts.

(** *** The generated identifiers blanked *)

(** *** The grouper *)

Section Grouping.
Import MilestoneGrouperService.

Lemma assign_phase_erased n n' :
  erase_node n = erase_node n' -> _assign_phase n = _assign_phase n'.
Proof.
  intro H. unfold _assign_phase.
  replace (repository n') with (repository n); [reflexivity|].
  exact (f_equal repository H).
Qed.

Lemma node_to_item_erased rt rt' n n' i :
  erase_node n = erase_node n' ->
  erase_item (_node_to_item rt n i) = erase_item (_node_to_item rt' n' i).
Proof.
  intro H. unfold _node_to_item, erase_item. simpl.
  replace (repository n') with (repository n) by exact (f_equal repository H).
  replace (estimated_hours n') with (estimated_hours n)
    by exact (f_equal estimated_hours H).
  reflexivity.
Qed.

Lemma bucket_append_h (h : NodeItem -> NodeItem) ph x b :
  bucket_append ph (h x) (map_values (map h) b)
  = map_values (map h) (bucket_append ph x b).
Proof.
  unfold bucket_append. rewrite (map_values_get MilestonePhase_eqb (map h)).
  destruct (dict_get MilestonePhase_eqb ph b) as [items|]; simpl; [|reflexivity].
  rewrite <- (map_values_set MilestonePhase_eqb (map h)). now rewrite map_app.
Qed.

Lemma fill_buckets_erased rt rt' l : forall l' i b b',
  map erase_node l = map erase_node l' ->
  map_values (map erase_item) b = map_values (map erase_item) b' ->
  map_values (map erase_item) (fill_buckets rt i l b)
  = map_values (map erase_item) (fill_buckets rt' i l' b').
Proof.
  induction l as [|n l IH]; intros [|n' l'] i b b' Hl Hb; simpl in *;
    try discriminate; [exact Hb|].
  assert (Hn : erase_node n = erase_node n') by congruence.
  assert (Hl' : map erase_node l = map erase_node l') by congruence.
  apply IH; [exact Hl'|].
  rewrite <- !bucket_append_h.
  now rewrite Hb, (assign_phase_erased n n' Hn), (node_to_item_erased rt rt' n n' i Hn).
Qed.

Lemma collect_h (h : NodeItem -> NodeItem) order b :
  collect order (map_values (map h) b)
  = map (fun m => {| phase := phase m; mg_nodes := map h (mg_nodes m) |})
        (collect order b).
Proof.
  unfold collect. induction order as [|ph order IH]; simpl; [reflexivity|].
  rewrite map_app, IH. f_equal.
  rewrite (map_values_get MilestonePhase_eqb (map h)).
  destruct (dict_get MilestonePhase_eqb ph b) as [[|x items]|]; reflexivity.
Qed.

Lemma group_observable rt rt' l l' :
  map erase_node l = map erase_node l' ->
  map erase_group (group rt l) = map erase_group (group rt' l').
Proof.
  intro H. unfold group.
  change (map erase_group) with
    (map (fun m => {| phase := phase m; mg_nodes := map erase_item (mg_nodes m) |})).
  rewrite <- !collect_h. f_equal.
  now apply fill_buckets_erased.
Qed.
End Grouping.

(** *** The override manager *)

Section Overriding.
Import OverrideManagerService.

Lemma find_original_phase_erased ms rid :
  _find_original_phase (map erase_group ms) rid = _find_original_phase ms rid.
Proof.
  unfold _find_original_phase. rewrite find_map.
  rewrite (find_ext' _ (fun g => existsb (fun n => N.eqb (ni_repository_id n) rid)
                                         (mg_nodes g)))
    by (intro m; simpl; now rewrite existsb_map').
  now destruct (find _ ms).
Qed.

Lemma apply_one_erased st o :
  apply_one (erase_state st) o = erase_state (apply_one st o).
Proof.
  destruct st as [[m skip] log]. unfold erase_state. simpl fst. simpl snd.
  unfold apply_one. rewrite (map_values_get N.eqb erase_item).
  destruct (dict_get N.eqb (ov_repository_id o) m) as [node|]; simpl option_map;
    cbv iota; [|reflexivity].
  destruct (override_type o).
  - simpl. now rewrite <- (map_values_set N.eqb erase_item).
  - reflexivity.
  - destruct (_parse_milestone (target_milestone o)) as [[target|] logged]; simpl;
      [|reflexivity].
    now rewrite <- (map_values_set N.eqb erase_item).
  - reflexivity.
Qed.

Lemma apply_all_erased os : forall st,
  fold_left apply_one os (erase_state st) = erase_state (fold_left apply_one os st).
Proof.
  induction os as [|o os IH]; intro st; cbn [fold_left]; [reflexivity|].
  rewrite apply_one_erased. apply IH.
Qed.

Lemma override_bucket_append_erased ph x b :
  bucket_append ph (erase_item x) (map_values (map erase_item) b)
  = map_values (map erase_item) (bucket_append ph x b).
Proof.
  unfold bucket_append. rewrite (map_values_get MilestonePhase_eqb (map erase_item)).
  destruct (dict_get MilestonePhase_eqb ph b) as [items|]; simpl; [|reflexivity].
  rewrite <- (map_values_set MilestonePhase_eqb (map erase_item)). now rewrite map_app.
Qed.

Lemma setdefault_erased b ph :
  setdefault (map_values (map erase_item) b) ph
  = map_values (map erase_item) (setdefault b ph).
Proof.
  unfold setdefault. rewrite (map_values_get MilestonePhase_eqb (map erase_item)).
  destruct (dict_get MilestonePhase_eqb ph b); simpl; [reflexivity|].
  now rewrite <- (map_values_set MilestonePhase_eqb (map erase_item)).
Qed.

Lemma rebucket_one_erased ms skip b x :
  rebucket_one (map erase_group ms) skip (map_values (map erase_item) b) (erase_item x)
  = map_values (map erase_item) (rebucket_one ms skip b x).
Proof.
  unfold rebucket_one. simpl ni_repository_id. simpl forced_milestone.
  destruct (mem N.eqb (ni_repository_id x) skip); [reflexivity|].
  destruct (forced_milestone x) as [forced|].
  - apply override_bucket_append_erased.
  - rewrite find_original_phase_erased.
    destruct (_find_original_phase ms (ni_repository_id x)); [|reflexivity].
    apply override_bucket_append_erased.
Qed.

Lemma rebucket_erased ms m skip :
  rebucket (map erase_group ms) (map_values erase_item m) skip
  = map_values (map erase_item) (rebucket ms m skip).
Proof.
  unfold rebucket. rewrite map_values_values.
  assert (H0 : dict_of MilestonePhase_eqb
                 (map (fun g => (phase g, @nil NodeItem)) (map erase_group ms))
               = map_values (map erase_item)
                   (dict_of MilestonePhase_eqb
                      (map (fun g => (phase g, @nil NodeItem)) ms))).
  { rewrite <- map_values_of. unfold map_values. now rewrite !map_map. }
  rewrite H0. clear H0.
  generalize (dict_of MilestonePhase_eqb (map (fun g => (phase g, @nil NodeItem)) ms)).
  intro b0.
  assert (H1 : fold_left setdefault
                 [FOUNDATIONS; CORE_SKILLS; ADVANCED_SYSTEMS; SPECIALIZED_TOPICS]
                 (map_values (map erase_item) b0)
               = map_values (map erase_item)
                   (fold_left setdefault
                      [FOUNDATIONS; CORE_SKILLS; ADVANCED_SYSTEMS; SPECIALIZED_TOPICS]
                      b0)).
  { cbn [fold_left]. now rewrite !setdefault_erased. }
  rewrite H1. clear H1.
  generalize (fold_left setdefault
                [FOUNDATIONS; CORE_SKILLS; ADVANCED_SYSTEMS; SPECIALIZED_TOPICS] b0).
  induction (dict_values m) as [|x l IH]; intro b; cbn [fold_left map];
    [reflexivity|].
  rewrite rebucket_one_erased. apply IH.
Qed.

Lemma output_groups_erased order b :
  output_groups order (map_values (map erase_item) b)
  = map erase_group (output_groups order b).
Proof.
  unfold output_groups. induction order as [|ph order IH]; simpl; [reflexivity|].
  rewrite map_app, IH. f_equal.
  rewrite (map_values_get MilestonePhase_eqb (map erase_item)).
  assert (H : forall l, py_sorted Z.ltb order_index (map erase_item l)
                        = map erase_item (py_sorted Z.ltb order_index l)).
  { intro l. apply py_sorted_map. reflexivity. }
  destruct (dict_get MilestonePhase_eqb ph b) as [l|]; simpl option_map; cbv iota.
  - rewrite H. destruct (py_sorted Z.ltb order_index l); reflexivity.
  - reflexivity.
Qed.

Lemma apply_with_erased imported ms os :
  apply_with imported (map erase_group ms) os
  = (match fst (apply_with imported ms os) with
     | Ok l => Ok (map erase_group l)
     | Raise e => Raise e
     end, snd (apply_with imported ms os)).
Proof.
  unfold apply_with. destruct os as [|o os]; [reflexivity|].
  assert (H0 : dict_of N.eqb (map (fun n => (ni_repository_id n, n))
                                  (flat_map mg_nodes (map erase_group ms)))
               = map_values erase_item
                   (dict_of N.eqb (map (fun n => (ni_repository_id n, n))
                                       (flat_map mg_nodes ms)))).
  { rewrite <- map_values_of. f_equal. unfold map_values.
    rewrite map_map. simpl.
    induction ms as [|m ms IH]; simpl; [reflexivity|].
    rewrite !map_app, IH. f_equal. now rewrite !map_map. }
  rewrite H0. clear H0.
  set (m0 := dict_of N.eqb _).
  change (map_values erase_item m0, @nil UUID, @nil LogRecord)
    with (erase_state (m0, [], [])).
  rewrite apply_all_erased.
  destruct (fold_left apply_one (o :: os) (m0, [], [])) as [[m skip] log].
  unfold erase_state. simpl fst. simpl snd. cbv iota beta.
  rewrite rebucket_erased.
  destruct imported as [ORDER|e]; simpl; [|reflexivity].
  now rewrite output_groups_erased.
Qed.
End Overriding.

(** *** The generator *)

Section Generator.
Variable UUID_of_str : string -> option UUID.

Lemma generate_with_respond imported rt request repositories pending :
  PathGeneratorService.generate_with UUID_of_str imported rt request repositories pending
  = match PathGeneratorService.parse_ids UUID_of_str (exclude_repository_ids request) with
    | Raise e => (Raise e, [])
    | Ok exclude_uuids =>
        match GraphBuilderService.build rt 0 (rq_learner_id request) (rq_name request)
                (fst (selection request repositories)) (rq_description request)
                (rq_allow_parallel_learning request) (rq_max_parallel_nodes request)
                exclude_uuids with
        | Raise e => (Raise e, [])
        | Ok learning_path =>
            respond imported rt request (List.length repositories)
              match nodes learning_path with
              | [] => snd (selection request repositories) ++ [NoRepositoriesAvailable]
              | _ :: _ => snd (selection request repositories)
              end
              pending
              (TopologicalSorterService.sort rt learning_path)
        end
    end.
Proof.
  unfold PathGeneratorService.generate_with, respond, selection. cbv zeta.
  cbn [fst snd].
  destruct (PathGeneratorService.parse_ids _ _); [|reflexivity].
  destruct (GraphBuilderService.build _ _ _ _ _ _ _ _ _); [|reflexivity].
  destruct (TopologicalSorterService.sort rt a0) as [[l|e] p]; reflexivity.
Qed.

Lemma filter_erased (P : LearningNode -> bool) (ns : list LearningNode) :
  (forall n, P (erase_node n) = P n) ->
  map estimated_hours (filter P ns)
  = map estimated_hours (filter P (map erase_node ns)).
Proof.
  intro H. induction ns as [|n ns IH]; simpl; [reflexivity|].
  rewrite H. destruct (P n); simpl; now rewrite IH.
Qed.

Lemma statistics_erased p considered :
  PathGeneratorService.get_learning_statistics p considered
  = PathGeneratorService.get_learning_statistics (erase_path p) considered.
Proof.
  unfold PathGeneratorService.get_learning_statistics.
  change (nodes (erase_path p)) with (map erase_node (nodes p)).
  change (completion_percentage (erase_path p)) with (completion_percentage p).
  rewrite !length_map, map_map.
  change (map (fun x => estimated_hours (erase_node x)) (nodes p))
    with (map estimated_hours (nodes p)).
  rewrite (map_map erase_node (fun n => complexity_score (repository n))).
  change (map (fun x => complexity_score (repository (erase_node x))) (nodes p))
    with (map (fun n => complexity_score (repository n)) (nodes p)).
  rewrite <- (filter_erased is_completed) by reflexivity.
  assert (H : forall P, (forall n, P (erase_node n) = P n) ->
              List.length (filter P (map erase_node (nodes p)))
              = List.length (filter P (nodes p))).
  { intros P HP. rewrite <- (length_map estimated_hours (filter P (map _ _))).
    rewrite <- (filter_erased P) by exact HP. now rewrite length_map. }
  rewrite (H is_completed), (H is_in_progress) by reflexivity.
  reflexivity.
Qed.

Lemma respond_observable imported rt1 rt2 request considered ws pending s1 s2 :
  same_sorted s1 s2 ->
  observable (respond imported rt1 request considered ws pending s1)
  = observable (respond imported rt2 request considered ws pending s2).
Proof.
  destruct s1 as [[l1|e1] p1], s2 as [[l2|e2] p2]; intros [H1 H2]; simpl in H1, H2;
    try contradiction.
  - unfold respond.
    pose proof (group_observable rt1 rt2 l1 l2 H1) as Hg.
    set (G1 := MilestoneGrouperService.group rt1 l1) in *.
    set (G2 := MilestoneGrouperService.group rt2 l2) in *.
    assert (Ha : forall os,
              (match fst (OverrideManagerService.apply_with imported G1 os) with
               | Ok l => Ok (map erase_group l)
               | Raise e => Raise e
               end, snd (OverrideManagerService.apply_with imported G1 os))
              = (match fst (OverrideManagerService.apply_with imported G2 os) with
                 | Ok l => Ok (map erase_group l)
                 | Raise e => Raise e
                 end, snd (OverrideManagerService.apply_with imported G2 os))).
    { intro os. rewrite <- !apply_with_erased. now rewrite Hg. }
    assert (Hp : forall A1 A2 : Result (list MilestoneGroup)
                                * list OverrideManagerService.LogRecord,
              (match fst A1 with
               | Ok l => Ok (map erase_group l)
               | Raise e => Raise e
               end, snd A1)
              = (match fst A2 with
                 | Ok l => Ok (map erase_group l)
                 | Raise e => Raise e
                 end, snd A2) ->
              observable
                (match A1 with
                 | (Raise e, log) => (Raise e, log)
                 | (Ok final, log) =>
                     (Ok {| rs_path_id := path_id p1;
                            rs_learner_id := learner_id p1;
                            rs_name := lp_name p1;
                            rs_status := PathStatus_value (lp_status p1);
                            milestones := final;
                            rs_total_repositories := total_repositories p1;
                            rs_total_estimated_hours := total_estimated_hours p1;
                            rs_completion_percentage := completion_percentage p1;
                            version := 1;
                            rs_description := rq_description request;
                            warnings := ws;
                            generation_stats :=
                              PathGeneratorService.get_learning_statistics p1
                                considered |}, log)
                 end)
              = observable
                  (match A2 with
                   | (Raise e, log) => (Raise e, log)
                   | (Ok final, log) =>
                       (Ok {| rs_path_id := path_id p2;
                              rs_learner_id := learner_id p2;
                              rs_name := lp_name p2;
                              rs_status := PathStatus_value (lp_status p2);
                              milestones := final;
                              rs_total_repositories := total_repositories p2;
                              rs_total_estimated_hours := total_estimated_hours p2;
                              rs_completion_percentage := completion_percentage p2;
                              version := 1;
                              rs_description := rq_description request;
                              warnings := ws;
                              generation_stats :=
                                PathGeneratorService.get_learning_statistics p2
                                  considered |}, log)
                   end)).
    { intros [[f1|x1] log1] [[f2|x2] log2] H; simpl in H; try discriminate.
      - injection H as Hf Hlog. subst log2.
        unfold observable, erase_response. simpl.
        rewrite Hf, (statistics_erased p1), (statistics_erased p2), H2.
        replace (learner_id p2) with (learner_id p1)
          by exact (f_equal learner_id H2).
        replace (lp_name p2) with (lp_name p1) by exact (f_equal lp_name H2).
        replace (lp_status p2) with (lp_status p1) by exact (f_equal lp_status H2).
        replace (total_repositories p2) with (total_repositories p1)
          by exact (f_equal total_repositories H2).
        replace (total_estimated_hours p2) with (total_estimated_hours p1)
          by exact (f_equal total_estimated_hours H2).
        replace (completion_percentage p2) with (completion_percentage p1)
          by exact (f_equal completion_percentage H2).
        reflexivity.
      - injection H as He Hlog. now subst. }
    destruct pending as [[|o os]|]; cbv zeta.
    + apply (Hp (Ok G1, []) (Ok G2, [])). simpl. now rewrite Hg.
    + apply Hp, Ha.
    + apply (Hp (Ok G1, []) (Ok G2, [])). simpl. now rewrite Hg.
  - unfold respond, observable. simpl. now rewrite H1.
Qed.

(** Step 1: the order in which the loops meet the sets does not show. *)
Lemma generate_plain imported rt request repositories pending :
  runtime_ok rt ->
  observable (PathGeneratorService.generate_with UUID_of_str imported rt
                request repositories pending)
  = observable (PathGeneratorService.generate_with UUID_of_str imported (plain rt)
                  request repositories pending).
Proof.
  intro rt_ok. rewrite !generate_with_respond.
  destruct (PathGeneratorService.parse_ids _ _) as [ex|]; [|reflexivity].
  rewrite (build_plain rt rt_ok).
  destruct (GraphBuilderService.build (plain rt) _ _ _ _ _ _ _ _) as [lp|];
    [|reflexivity].
  apply respond_observable.
  destruct (sort_plain rt lp rt_ok) as [Hs Hp].
  split; [|now rewrite Hp].
  destruct (fst (TopologicalSorterService.sort rt lp)),
           (fst (TopologicalSorterService.sort (plain rt) lp));
    simpl in Hs; try contradiction; [now subst | exact Hs].
Qed.

(** Step 2: nor do the values [uuid4] returned. *)
Lemma generate_renamed (g : UUID -> UUID) rtA rtB imported request repositories pending :
  (forall x y, g x = g y -> x = y) ->
  (forall k, uuid4 rtB k = g (uuid4 rtA k)) ->
  observable (PathGeneratorService.generate_with UUID_of_str imported (plain rtA)
                request repositories pending)
  = observable (PathGeneratorService.generate_with UUID_of_str imported (plain rtB)
                  request repositories pending).
Proof.
  intros g_inj fresh. rewrite !generate_with_respond.
  destruct (PathGeneratorService.parse_ids _ _) as [ex|]; [|reflexivity].
  rewrite (build_g g g_inj rtA rtB fresh).
  destruct (GraphBuilderService.build (plain rtA) _ _ _ _ _ _ _ _) as [lp|];
    [|reflexivity].
  simpl res_map. cbv iota.
  replace (match nodes (rename_path g lp) with
           | [] => snd (selection request repositories) ++ [NoRepositoriesAvailable]
           | _ :: _ => snd (selection request repositories)
           end)
    with (match nodes lp with
          | [] => snd (selection request repositories) ++ [NoRepositoriesAvailable]
          | _ :: _ => snd (selection request repositories)
          end)
    by (simpl; now destruct (nodes lp)).
  apply respond_observable.
  destruct (sort_g g g_inj rtA rtB lp) as [Hs Hp].
  assert (He : forall l, map erase_node (map (rename_node g) l) = map erase_node l).
  { intro l. rewrite map_map. reflexivity. }
  split.
  - destruct (fst (TopologicalSorterService.sort (plain rtA) lp)),
             (fst (TopologicalSorterService.sort (plain rtB) (rename_path g lp)));
      simpl in Hs; try contradiction; [|exact Hs].
    subst. now rewrite He.
  - rewrite Hp. unfold erase_path, rename_path. simpl. now rewrite He.
Qed.
End Generator.

Lemma generate_counting U imported rt request repositories pending :
  runtime_ok rt ->
  observable (PathGeneratorService.generate_with U imported rt
                request repositories pending)
  = observable (PathGeneratorService.generate_with U imported (plain counting)
                  request repositories pending).
Proof.
  intro rt_ok. rewrite (generate_plain U imported rt _ _ _ rt_ok). symmetry.
  apply (generate_renamed U (fun x => uuid4 rt (N.to_nat x))).
  - intros x y H. apply (uuid4_fresh rt rt_ok) in H. now apply N2Nat.inj.
  - intro k. simpl. now rewrite Nat2N.id.
Qed.

Ltac run_ok :=
  split;
  [ intros i j H; apply Nat2N.inj in H; lia
  | intro; first [apply Permutation_refl | apply Permutation_rev] .. ].

(** C9 as stated fails: on the same repositories and the same request the
    two runs return different path ids and node ids, and they list the
    prerequisites of [web-site] in different orders. *)
Lemma two_runs_differ_in_generated_ids :
  runtime_ok rt0 /\ runtime_ok rt_reversed
  /\ generated_ids (PathGeneratorService.generate no_uuid rt0 default_request
                      site_repos None)
     = Some (100%N, [ ("html-basics", 101%N, []); ("css-basics", 102%N, []);
                      ("web-site", 103%N, [101%N; 102%N]) ])
  /\ generated_ids (PathGeneratorService.generate no_uuid rt_reversed
                      default_request site_repos None)
     = Some (200%N, [ ("html-basics", 201%N, []); ("css-basics", 202%N, []);
                      ("web-site", 203%N, [202%N; 201%N]) ]).
Proof.
  split; [run_ok|]. split; [run_ok|].
  split; vm_compute; reflexivity.
Qed.

(** ** The override applier keeps each node once *)

Section EachNodeOnce.
Import OverrideManagerService.

Lemma dict_get_some (k : UUID) (v : NodeItem) (m : list (UUID * NodeItem)) :
  dict_get N.eqb k m = Some v -> In (k, v) m.
Proof.
  induction m as [|[k0 v0] m IH]; simpl; [discriminate|].
  destruct (N.eqb k k0) eqn:E.
  - apply N.eqb_eq in E. intro H. left. congruence.
  - intro H. right. now apply IH.
Qed.

Lemma keyed_by_id_set (k : UUID) (v : NodeItem) (m : list (UUID * NodeItem)) :
  ni_repository_id v = k -> keyed_by_id m -> keyed_by_id (dict_set N.eqb k v m).
Proof.
  intros Hv. induction m as [|[k0 v0] m IH]; simpl; intro H.
  - constructor; [exact Hv | constructor].
  - apply Forall_cons_iff in H. destruct H as [H0 Hm].
    destruct (N.eqb k k0) eqn:E.
    + apply N.eqb_eq in E. constructor; [simpl; congruence | exact Hm].
    + constructor; [exact H0 | now apply IH].
Qed.

Lemma mem_set_add (r x : UUID) (s : list UUID) :
  mem N.eqb r (set_add N.eqb x s) = orb (mem N.eqb r s) (N.eqb x r).
Proof.
  unfold set_add. destruct (mem N.eqb x s) eqn:E.
  - destruct (N.eqb x r) eqn:Er; [|now rewrite orb_false_r].
    apply N.eqb_eq in Er. subst. now rewrite E.
  - unfold mem. rewrite existsb_app. simpl. rewrite orb_false_r.
    now rewrite (N.eqb_sym r x).
Qed.

Lemma apply_one_keeps st o :
  keyed_by_id (fst (fst st)) ->
  keyed_by_id (fst (fst (apply_one st o)))
  /\ map fst (fst (fst (apply_one st o))) = map fst (fst (fst st))
  /\ forall r, mem N.eqb r (snd (fst (apply_one st o)))
               = orb (mem N.eqb r (snd (fst st)))
                     (andb (mem N.eqb r (map fst (fst (fst st))))
                           (skip_requested [o] r)).
Proof.
  destruct st as [[m skip] log]. simpl fst. simpl snd. intro Hm.
  unfold apply_one, skip_requested. simpl existsb.
  destruct (dict_get N.eqb (ov_repository_id o) m) as [node|] eqn:Eg.
  - assert (Hin : In (ov_repository_id o, node) m) by now apply dict_get_some.
    assert (Hid : ni_repository_id node = ov_repository_id o).
    { unfold keyed_by_id in Hm. rewrite Forall_forall in Hm. exact (Hm _ Hin). }
    assert (Hk : In (ov_repository_id o) (map fst m)).
    { change (ov_repository_id o) with (fst (ov_repository_id o, node)).
      now apply in_map. }
    destruct (override_type o); simpl.
    + split; [now apply keyed_by_id_set|].
      split; [now apply (dict_set_keys N.eqb N.eqb_eq)|].
      intro r. now rewrite andb_false_r, orb_false_r.
    + split; [exact Hm|]. split; [reflexivity|].
      intro r. rewrite mem_set_add, orb_false_r. f_equal.
      destruct (N.eqb (ov_repository_id o) r) eqn:Er;
        [|now rewrite andb_false_r].
      apply N.eqb_eq in Er. subst r. rewrite andb_true_r. symmetry.
      now apply (mem_In N.eqb N.eqb_eq).
    + destruct (_parse_milestone (target_milestone o)) as [[target|] logged]; simpl.
      * split; [now apply keyed_by_id_set|].
        split; [now apply (dict_set_keys N.eqb N.eqb_eq)|].
        intro r. now rewrite andb_false_r, orb_false_r.
      * split; [exact Hm|]. split; [reflexivity|].
        intro r. now rewrite andb_false_r, orb_false_r.
    + split; [exact Hm|]. split; [reflexivity|].
      intro r. now rewrite andb_false_r, orb_false_r.
  - simpl. split; [exact Hm|]. split; [reflexivity|].
    intro r.
    destruct (mem N.eqb r (map fst m)) eqn:Er; [|now rewrite orb_false_r].
    rewrite andb_true_l, orb_false_r.
    replace (match override_type o with
             | SKIP => N.eqb (ov_repository_id o) r
             | _ => false
             end) with false; [now rewrite orb_false_r|].
    destruct (override_type o); try reflexivity.
    symmetry. apply N.eqb_neq. intro E. subst r.
    apply (mem_In N.eqb N.eqb_eq) in Er.
    now apply (dict_get_none N.eqb N.eqb_eq) in Eg.
Qed.

Lemma skip_requested_cons o ovs r :
  skip_requested (o :: ovs) r = orb (skip_requested [o] r) (skip_requested ovs r).
Proof. unfold skip_requested. simpl. now rewrite orb_false_r. Qed.

Lemma apply_all_keeps ovs : forall st,
  keyed_by_id (fst (fst st)) ->
  keyed_by_id (fst (fst (fold_left apply_one ovs st)))
  /\ map fst (fst (fst (fold_left apply_one ovs st))) = map fst (fst (fst st))
  /\ forall r, mem N.eqb r (snd (fst (fold_left apply_one ovs st)))
               = orb (mem N.eqb r (snd (fst st)))
                     (andb (mem N.eqb r (map fst (fst (fst st))))
                           (skip_requested ovs r)).
Proof.
  induction ovs as [|o ovs IH]; intros st Hst; cbn [fold_left].
  - split; [exact Hst|]. split; [reflexivity|].
    intro r. simpl. now rewrite andb_false_r, orb_false_r.
  - destruct (apply_one_keeps st o Hst) as (H1 & H2 & H3).
    destruct (IH (apply_one st o) H1) as (K1 & K2 & K3).
    split; [exact K1|]. split; [congruence|].
    intro r. rewrite K3, H3, H2, (skip_requested_cons o ovs r).
    now destruct (mem N.eqb r (snd (fst st))),
                 (mem N.eqb r (map fst (fst (fst st)))),
                 (skip_requested [o] r).
Qed.

Lemma partition_by_destination ms skip (l : list NodeItem) :
  Permutation
    (flat_map (fun ph => filter (sent_to ms skip ph) l)
              MilestoneGrouperService._MILESTONE_ORDER)
    (filter (kept ms skip) l).
Proof.
  unfold MilestoneGrouperService._MILESTONE_ORDER. cbn [flat_map].
  rewrite app_nil_r.
  induction l as [|n l IH]; [constructor|].
  cbn [filter].
  destruct (destination ms skip n) as [q|] eqn:Ed.
  - assert (Hs : forall ph, sent_to ms skip ph n = MilestonePhase_eqb q ph)
      by (intro ph; unfold sent_to; now rewrite Ed).
    assert (Hk : kept ms skip n = true) by (unfold kept; now rewrite Ed).
    rewrite !Hs, Hk. destruct q; cbn [MilestonePhase_eqb].
    + cbn [app]. now apply perm_skip.
    + apply Permutation_sym, Permutation_cons_app, Permutation_sym, IH.
    + rewrite app_assoc.
      apply Permutation_sym, Permutation_cons_app, Permutation_sym.
      rewrite <- app_assoc. exact IH.
    + rewrite !app_assoc.
      apply Permutation_sym, Permutation_cons_app, Permutation_sym.
      rewrite <- !app_assoc. exact IH.
  - assert (Hs : forall ph, sent_to ms skip ph n = false)
      by (intro ph; unfold sent_to; now rewrite Ed).
    assert (Hk : kept ms skip n = false) by (unfold kept; now rewrite Ed).
    rewrite !Hs, Hk. exact IH.
Qed.

Lemma find_original_phase_some ms r :
  NoDup (item_ids ms) -> In r (item_ids ms) ->
  exists ph, _find_original_phase ms r = Some ph.
Proof.
  intros Hnd Hin. unfold item_ids in Hin.
  apply in_map_iff in Hin. destruct Hin as (x & <- & Hx).
  apply in_flat_map in Hx. destruct Hx as (g & Hg & Hx).
  exists (phase g). now apply find_original_phase_in.
Qed.

Lemma kept_unless_skipped ms skip n :
  NoDup (item_ids ms) -> In (ni_repository_id n) (item_ids ms) ->
  kept ms skip n = negb (mem N.eqb (ni_repository_id n) skip).
Proof.
  intros Hnd Hin. unfold kept, destination.
  destruct (mem N.eqb (ni_repository_id n) skip); [reflexivity|].
  destruct (forced_milestone n); [reflexivity|].
  destruct (find_original_phase_some ms _ Hnd Hin) as [ph ->]. reflexivity.
Qed.

Lemma keyed_by_id_values m :
  keyed_by_id m -> map ni_repository_id (dict_values m) = map fst m.
Proof.
  unfold dict_values. rewrite map_map. intro H.
  induction H as [|kv m Hkv Hm IH]; simpl; [reflexivity | now rewrite Hkv, IH].
Qed.

Lemma filter_ext_in' {A} (P Q : A -> bool) (l : list A) :
  (forall x, In x l -> P x = Q x) -> filter P l = filter Q l.
Proof.
  induction l as [|x l IH]; simpl; intro H; [reflexivity|].
  rewrite (H x) by now left. rewrite IH; [reflexivity|].
  intros y Hy. apply H. now right.
Qed.

(** The body of [apply] past its import.  Were the import of the phase
    order resolved (as written it raises), the override applier would
    keep each node whose skip no override asks for exactly once, under
    its repository id, and drops the others: the repository ids of its
    output are those of its input without the skipped ones, and none
    occurs twice. *)
Theorem overrides_keep_each_node_once
  (ms : list MilestoneGroup) (ovs : list OverrideInstruction) :
  distinct (item_ids ms) = true ->
  exists out log,
    apply_with (Ok MilestoneGrouperService._MILESTONE_ORDER) ms ovs = (Ok out, log)
    /\ Permutation (item_ids out)
                   (filter (fun r => negb (skip_requested ovs r)) (item_ids ms))
    /\ NoDup (item_ids out).
Proof.
  intro Hd. assert (Hnd : NoDup (item_ids ms)) by now apply distinct_NoDup.
  assert (Hfin : forall out,
             Permutation (item_ids out)
               (filter (fun r => negb (skip_requested ovs r)) (item_ids ms)) ->
             NoDup (item_ids out)).
  { intros out Hp. apply (Permutation_NoDup (Permutation_sym Hp)).
    now apply NoDup_filter. }
  destruct ovs as [|o os].
  - exists ms, []. split; [reflexivity|].
    assert (Hp : Permutation (item_ids ms)
                   (filter (fun r => negb (skip_requested [] r)) (item_ids ms))).
    { rewrite filter_all; [apply Permutation_refl | reflexivity]. }
    split; [exact Hp | now apply Hfin].
  - rewrite apply_with_spec. unfold loop_result.
    rewrite (initial_map ms Hd).
    set (m0 := map (fun n => (ni_repository_id n, n)) (flat_map mg_nodes ms)).
    assert (H0 : keyed_by_id m0).
    { unfold keyed_by_id, m0. apply Forall_forall. intros kv Hkv.
      apply in_map_iff in Hkv. destruct Hkv as (n & <- & _). reflexivity. }
    assert (Hk0 : map fst m0 = item_ids ms).
    { unfold m0, item_ids. now rewrite map_map. }
    match goal with
    | |- context [fold_left apply_one (o :: os) ?s] =>
        destruct (apply_all_keeps (o :: os) s H0) as (K1 & K2 & K3);
        destruct (fold_left apply_one (o :: os) s) as [[m skip] log]
    end.
    simpl fst in *. simpl snd in *. rewrite Hk0 in K2, K3.
    eexists. exists log. split; [reflexivity|].
    assert (Hp : Permutation
                   (item_ids
                      (flat_map
                         (fun ph => group_of ph
                            (py_sorted Z.ltb order_index
                               (filter (sent_to ms skip ph) (dict_values m))))
                         MilestoneGrouperService._MILESTONE_ORDER))
                   (filter (fun r => negb (skip_requested (o :: os) r)) (item_ids ms))).
    { unfold item_ids at 1.
      rewrite (flat_map_group_of
                 (fun ph => py_sorted Z.ltb order_index
                              (filter (sent_to ms skip ph) (dict_values m)))).
      apply Permutation_trans
        with (map ni_repository_id (filter (kept ms skip) (dict_values m))).
      - apply Permutation_map.
        apply Permutation_trans
          with (flat_map (fun ph => filter (sent_to ms skip ph) (dict_values m))
                         MilestoneGrouperService._MILESTONE_ORDER);
          [|apply partition_by_destination].
        unfold MilestoneGrouperService._MILESTONE_ORDER. cbn [flat_map].
        repeat apply Permutation_app; try apply py_sorted_perm. constructor.
      - rewrite (filter_ext_in' (kept ms skip)
                   (fun n => negb (mem N.eqb (ni_repository_id n) skip))).
        + rewrite <- (@filter_map' NodeItem UUID
                        (fun r => negb (mem N.eqb r skip)) ni_repository_id
                        (dict_values m)).
          rewrite (keyed_by_id_values m K1), K2.
          rewrite (filter_ext_in' (fun r => negb (mem N.eqb r skip))
                     (fun r => negb (skip_requested (o :: os) r)));
            [apply Permutation_refl|].
          intros r Hr. rewrite K3. simpl mem at 1.
          apply (mem_In N.eqb N.eqb_eq) in Hr. now rewrite Hr.
        + intros n Hn. apply kept_unless_skipped; [exact Hnd|].
          rewrite <- K2, <- (keyed_by_id_values m K1). now apply in_map. }
    split; [exact Hp | now apply Hfin].
Qed.

(** The theorem at work: [r1] forced into the last phase and [r2] skipped. *)
Lemma overrides_keep_each_node_once_witness :
  exists out log,
    apply_with (Ok MilestoneGrouperService._MILESTONE_ORDER) s1_milestones
               [force_r1_specialized; skip_r2] = (Ok out, log)
    /\ Permutation (item_ids out)
         (filter (fun r => negb (skip_requested [force_r1_specialized; skip_r2] r))
                 (item_ids s1_milestones))
    /\ NoDup (item_ids out).
Proof.
  apply (overrides_keep_each_node_once s1_milestones [force_r1_specialized; skip_r2]).
  vm_compute. reflexivity.
Defined.
End EachNodeOnce.
(** ** Kahn's algorithm is sound and complete *)

(** [UUID] is [N]: the proofs below read every term with the name
    unfolded, and rewrite with a lemma read the same way. *)
Ltac norm := unfold UUID in *.
Tactic Notation "rwn" constr(H) :=
  let H' := fresh in pose proof H as H'; unfold UUID in H'; rewrite H'; clear H'.

Section Represents.
Context {V : Type}.

Lemma represents_ext (f g : UUID -> V) keys d :
  (forall k, f k = g k) -> represents f keys d -> represents g keys d.
Proof. intros H R k. rewrite (R k), (H k). reflexivity. Qed.

Lemma represents_set (f : UUID -> V) keys d x v :
  mem N.eqb x keys = true -> represents f keys d ->
  represents (fun k => if N.eqb k x then v else f k) keys (dict_set N.eqb x v d).
Proof.
  intros Hx R k. rewrite (dict_get_set N.eqb N.eqb_eq), (R k).
  destruct (N.eqb k x) eqn:E; [|reflexivity].
  apply N.eqb_eq in E. subst. now rewrite Hx.
Qed.

Lemma dict_set_keys_mem x (v : V) d k :
  mem N.eqb k (map fst (dict_set N.eqb x v d))
  = orb (N.eqb k x) (mem N.eqb k (map fst d)).
Proof.
  unfold mem. induction d as [|[k0 v0] d IH]; simpl.
  - reflexivity.
  - destruct (N.eqb x k0) eqn:E; simpl.
    + apply N.eqb_eq in E. subst.
      destruct (N.eqb k k0); reflexivity.
    + rewrite IH. destruct (N.eqb k k0), (N.eqb k x); reflexivity.
Qed.

Lemma represents_dict_of_acc (v : V) (l : list UUID) : forall keys d,
  represents (fun _ => v) keys d ->
  represents (fun _ => v) (keys ++ l)
    (fold_left (fun d kv => dict_set N.eqb (fst kv) (snd kv) d)
               (map (fun k => (k, v)) l) d).
Proof.
  induction l as [|x l IH]; intros keys d R; simpl.
  - now rewrite app_nil_r.
  - replace (keys ++ x :: l) with ((keys ++ [x]) ++ l)
      by (rewrite <- app_assoc; reflexivity).
    apply IH. intro k. rewrite (dict_get_set N.eqb N.eqb_eq), (R k).
    unfold mem. rewrite existsb_app. simpl. rewrite orb_false_r.
    destruct (N.eqb k x); [now rewrite orb_true_r | now rewrite orb_false_r].
Qed.

Lemma represents_dict_of (v : V) (ns : list LearningNode) :
  represents (fun _ => v) (map node_id ns)
             (dict_of N.eqb (map (fun n => (node_id n, v)) ns)).
Proof.
  unfold dict_of.
  replace (map (fun n => (node_id n, v)) ns)
    with (map (fun k => (k, v)) (map node_id ns)) by now rewrite map_map.
  apply (represents_dict_of_acc v (map node_id ns) []).
  intro k. reflexivity.
Qed.
End Represents.

(** ** Building the graph *)

Lemma NoDup_app_snoc {A} (l : list A) (x : A) :
  NoDup l -> ~ In x l -> NoDup (l ++ [x]).
Proof.
  intros Hl Hx. apply (Permutation_NoDup (l := x :: l)).
  - apply Permutation_cons_append.
  - now constructor.
Qed.

Lemma fold_left_flat_map {A B C} (f : A -> B -> A) (g : C -> list B) (l : list C) :
  forall a, fold_left f (flat_map g l) a
            = fold_left (fun a x => fold_left f (g x) a) l a.
Proof.
  induction l as [|x l IH]; intro a; simpl; [reflexivity|].
  now rewrite fold_left_app, IH.
Qed.

Lemma fold_left_map' {A B C} (f : A -> B -> A) (g : C -> B) (l : list C) :
  forall a, fold_left f (map g l) a = fold_left (fun a x => f a (g x)) l a.
Proof. induction l as [|x l IH]; intro a; simpl; [reflexivity | apply IH]. Qed.

Lemma build_graph_edges rt ns :
  build_graph rt ns
  = fold_left (fun acc e => graph_step (snd e) acc (fst e)) (graph_edges rt ns)
      (Ok (dict_of N.eqb (map (fun n => (node_id n, 0%Z)) ns),
           dict_of N.eqb (map (fun n => (node_id n, @nil UUID)) ns))).
Proof.
  unfold build_graph, graph_edges. rewrite fold_left_flat_map.
  apply fold_left_ext. intros acc n. now rewrite fold_left_map'.
Qed.

Lemma in_degree_of_snoc es e k :
  in_degree_of (es ++ [e]) k
  = (in_degree_of es k + if N.eqb (snd e) k then 1 else 0)%Z.
Proof.
  unfold in_degree_of. rewrite filter_app, length_app, Nat2Z.inj_add.
  cbn [filter]. unfold UUID in *.
  destruct (N.eqb (snd e) k); simpl List.length; lia.
Qed.

Lemma successors_of_snoc es e k :
  successors_of (es ++ [e]) k
  = successors_of es k ++ if N.eqb (fst e) k then [snd e] else [].
Proof.
  unfold successors_of. rewrite filter_app, map_app. cbn [filter].
  unfold UUID in *. now destruct (N.eqb (fst e) k).
Qed.

Section BuildGraph.
Variable keys : list UUID.

Lemma graph_step_spec (fd : UUID -> Z) (fa : UUID -> list UUID) d a n q :
  represents fd keys d -> represents fa keys a -> mem N.eqb n keys = true ->
  graph_step n (Ok (d, a)) q
  = if mem N.eqb q keys
    then Ok (dict_set N.eqb n (fd n + 1)%Z d, dict_set N.eqb q (fa q ++ [n]) a)
    else Raise (KeyError q).
Proof.
  intros Rd Ra Hn. unfold graph_step. rewrite (Ra q).
  destruct (mem N.eqb q keys); [|reflexivity]. now rewrite (Rd n), Hn.
Qed.

(** The loop that fills the two dictionaries: it ends well exactly when
    every source of an edge is a key, and then the dictionaries hold the
    in-degrees and the successor lists. *)
Lemma build_fold es : forall es0 d a,
  represents (in_degree_of es0) keys d ->
  represents (successors_of es0) keys a ->
  (forall e, In e es -> mem N.eqb (snd e) keys = true) ->
  match fold_left (fun acc e => graph_step (snd e) acc (fst e)) es (Ok (d, a)) with
  | Ok (d', a') =>
      represents (in_degree_of (es0 ++ es)) keys d'
      /\ represents (successors_of (es0 ++ es)) keys a'
      /\ (forall e, In e es -> mem N.eqb (fst e) keys = true)
      /\ map fst d' = map fst d
  | Raise x =>
      exists e, In e es /\ mem N.eqb (fst e) keys = false /\ x = KeyError (fst e)
  end.
Proof.
  induction es as [|e es IH]; intros es0 d a Rd Ra Ht.
  - simpl. rewrite app_nil_r. repeat split; auto.
  - cbn [fold_left].
    assert (Hn : mem N.eqb (snd e) keys = true) by (apply Ht; now left).
    norm. rwn (graph_step_spec _ _ d a (snd e) (fst e) Rd Ra Hn).
    destruct (mem N.eqb (fst e) keys) eqn:Hq.
    + assert (Hkey : ~ ~ In (snd e) (map fst d)).
      { intro H. apply (dict_get_none N.eqb N.eqb_eq) in H.
        rewrite (Rd (snd e)), Hn in H. discriminate. }
      specialize (IH (es0 ++ [e])
                     (dict_set N.eqb (snd e) (in_degree_of es0 (snd e) + 1)%Z d)
                     (dict_set N.eqb (fst e) (successors_of es0 (fst e) ++ [snd e]) a)).
      replace ((es0 ++ [e]) ++ es) with (es0 ++ e :: es) in IH
        by (rewrite <- app_assoc; reflexivity).
      match type of IH with ?A -> ?B -> ?C -> _ =>
        assert (HA : A); [|assert (HB : B); [|assert (HC : C)]] end.
      * eapply represents_ext; [|apply (represents_set _ _ _ _ _ Hn Rd)].
        intro k. rwn (in_degree_of_snoc es0 e k). rewrite (N.eqb_sym (snd e) k).
        destruct (N.eqb k (snd e)) eqn:E; [|lia].
        apply N.eqb_eq in E. now subst.
      * eapply represents_ext; [|apply (represents_set _ _ _ _ _ Hq Ra)].
        intro k. rwn (successors_of_snoc es0 e k). rewrite (N.eqb_sym (fst e) k).
        destruct (N.eqb k (fst e)) eqn:E; [|now rewrite app_nil_r].
        apply N.eqb_eq in E. now subst.
      * intros x Hx. apply Ht. now right.
      * specialize (IH HA HB HC).
        destruct (fold_left _ es _) as [[d' a']|x].
        -- destruct IH as (H1 & H2 & H3 & H4). repeat split; auto.
           ++ intros x [<-|Hx]; auto.
           ++ rewrite H4. apply (dict_set_keys N.eqb N.eqb_eq).
              destruct (in_dec N.eq_dec (snd e) (map fst d)) as [Hi|Hi];
                [exact Hi | contradiction].
        -- destruct IH as (x0 & Hx0 & Hk & ->). exists x0. split; [now right | auto].
    + assert (Hr : forall l, fold_left (fun acc e0 => graph_step (snd e0) acc (fst e0)) l
                               (Raise (KeyError (fst e)))
                             = Raise (KeyError (fst e))).
      { induction l as [|y l IHl]; simpl; [reflexivity | exact IHl]. }
      rewrite Hr. exists e. split; [now left | auto].
Qed.
End BuildGraph.

Lemma dict_set_keys_NoDup {V} x (v : V) d :
  NoDup (map fst d) -> NoDup (map fst (dict_set N.eqb x v d)).
Proof.
  intro H. destruct (in_dec N.eq_dec x (map fst d)) as [Hi|Hi].
  - now rewrite (dict_set_keys N.eqb N.eqb_eq).
  - rewrite (dict_set_absent N.eqb N.eqb_eq) by exact Hi.
    rewrite map_app. simpl. apply NoDup_app_snoc; assumption.
Qed.

Lemma dict_of_keys_NoDup {V} (l : list (UUID * V)) :
  NoDup (map fst (dict_of N.eqb l)).
Proof.
  unfold dict_of.
  assert (H : forall acc, NoDup (map fst acc) ->
              NoDup (map fst (fold_left
                                (fun d kv => dict_set N.eqb (fst kv) (snd kv) d) l acc))).
  { induction l as [|x l IH]; intros acc Ha; simpl; [exact Ha|].
    apply IH. now apply dict_set_keys_NoDup. }
  apply H. constructor.
Qed.

(** What [build_graph] returns. *)
Lemma build_graph_spec rt ns :
  match build_graph rt ns with
  | Ok (d, a) =>
      represents (in_degree_of (graph_edges rt ns)) (map node_id ns) d
      /\ represents (successors_of (graph_edges rt ns)) (map node_id ns) a
      /\ (forall e, In e (graph_edges rt ns) ->
                    mem N.eqb (fst e) (map node_id ns) = true)
      /\ NoDup (map fst d)
  | Raise x =>
      exists e, In e (graph_edges rt ns)
                /\ mem N.eqb (fst e) (map node_id ns) = false /\ x = KeyError (fst e)
  end.
Proof.
  rewrite build_graph_edges.
  pose proof (build_fold (map node_id ns) (graph_edges rt ns) []
                (dict_of N.eqb (map (fun n => (node_id n, 0%Z)) ns))
                (dict_of N.eqb (map (fun n => (node_id n, @nil UUID)) ns))) as H.
  match type of H with ?A -> ?B -> ?C -> _ =>
    assert (HA : A); [|assert (HB : B); [|assert (HC : C)]] end;
    [| | |specialize (H HA HB HC);
          destruct (fold_left _ _ _) as [[d a]|x]; [|exact H];
          destruct H as (H1 & H2 & H3 & H4); repeat split; auto;
          rewrite H4; apply dict_of_keys_NoDup].
  - apply (represents_dict_of 0%Z).
  - apply (represents_dict_of (@nil UUID)).
  - intros e He. unfold graph_edges in He. apply in_flat_map in He.
    destruct He as (n & Hn & He). apply in_map_iff in He.
    destruct He as (q & <- & _). simpl.
    apply (mem_In N.eqb N.eqb_eq). now apply in_map.
Qed.

(** ** The loop of Kahn's algorithm *)

Lemma occurrences_cons k x l :
  occurrences k (x :: l) = ((if N.eqb k x then 1 else 0) + occurrences k l)%nat.
Proof. unfold occurrences. simpl. now destruct (N.eqb k x). Qed.

Lemma occurrences_in k l : (1 <= occurrences k l)%nat -> In k l.
Proof.
  unfold occurrences. induction l as [|x l IH]; simpl; [lia|].
  destruct (N.eqb k x) eqn:E.
  - apply N.eqb_eq in E. now left.
  - intro H. right. now apply IH.
Qed.

Section Relax.
Variable keys : list UUID.

(** The inner loop over the successors of the node taken off the queue:
    every degree goes down by the number of times its key occurs, and the
    keys whose degree reaches zero on the way join the queue, once each. *)
Lemma relax_fold (l : list UUID) : forall (f : UUID -> Z) d q,
  represents f keys d ->
  (forall x, In x l -> mem N.eqb x keys = true) ->
  exists d' newly,
    fold_left relax l (Ok (d, q)) = Ok (d', q ++ newly)
    /\ represents (fun k => (f k - Z.of_nat (occurrences k l))%Z) keys d'
    /\ NoDup newly
    /\ forall k, In k newly
                 <-> exists j, (1 <= j <= occurrences k l)%nat /\ f k = Z.of_nat j.
Proof.
  induction l as [|x l IH]; intros f d q R Hl.
  - exists d, []. simpl. rewrite app_nil_r. split; [reflexivity|].
    split; [|split; [constructor|]].
    + eapply represents_ext; [|exact R]. intro k. unfold occurrences. simpl. lia.
    + intro k. split; [intros [] | intros (j & Hj & _)].
      unfold occurrences in Hj. simpl in Hj. lia.
  - assert (Hx : mem N.eqb x keys = true) by (apply Hl; now left).
    cbn [fold_left].
    assert (Hstep : relax (Ok (d, q)) x
                    = if (f x - 1 =? 0)%Z
                      then Ok (dict_set N.eqb x (f x - 1)%Z d, q ++ [x])
                      else Ok (dict_set N.eqb x (f x - 1)%Z d, q))
      by (unfold relax; now rewrite (R x), Hx).
    norm. rewrite Hstep. clear Hstep.
    pose proof (represents_set f keys d x (f x - 1)%Z Hx R) as R1.
    assert (Hl' : forall y, In y l -> mem N.eqb y keys = true)
      by (intros y Hy; apply Hl; now right).
    destruct (f x - 1 =? 0)%Z eqn:E0.
    + destruct (IH _ _ (q ++ [x]) R1 Hl') as (d' & newly & Hf & Rd & Hnd & Hin).
      exists d', (x :: newly). rewrite Hf, <- app_assoc. split; [reflexivity|].
      apply Z.eqb_eq in E0.
      split; [|split].
      * eapply represents_ext; [|exact Rd]. intro k. cbv beta.
        rewrite occurrences_cons. destruct (N.eqb k x) eqn:E.
        -- apply N.eqb_eq in E. subst. lia.
        -- lia.
      * constructor; [|exact Hnd]. intro Hx'. apply Hin in Hx'.
        destruct Hx' as (j & Hj & Hfj). rewrite N.eqb_refl in Hfj. lia.
      * intro k. simpl. rewrite Hin, occurrences_cons. cbv beta.
        destruct (N.eqb k x) eqn:E.
        -- apply N.eqb_eq in E. subst k. split.
           ++ intros _. exists 1%nat. split; lia.
           ++ intros _. now left.
        -- split.
           ++ intros [->|(j & Hj & Hfj)]; [rewrite N.eqb_refl in E; discriminate|].
              exists j. split; [lia | exact Hfj].
           ++ intros (j & Hj & Hfj). right. exists j. split; [lia | exact Hfj].
    + destruct (IH _ _ q R1 Hl') as (d' & newly & Hf & Rd & Hnd & Hin).
      exists d', newly. split; [exact Hf|].
      apply Z.eqb_neq in E0.
      split; [|split; [exact Hnd|]].
      * eapply represents_ext; [|exact Rd]. intro k. cbv beta.
        rewrite occurrences_cons. destruct (N.eqb k x) eqn:E.
        -- apply N.eqb_eq in E. subst. lia.
        -- lia.
      * intro k. rewrite Hin, occurrences_cons. cbv beta.
        destruct (N.eqb k x) eqn:E.
        -- apply N.eqb_eq in E. subst k. split.
           ++ intros (j & Hj & Hfj). exists (S j). split; lia.
           ++ intros (j & Hj & Hfj). exists (j - 1)%nat. split; lia.
        -- split; intros (j & Hj & Hfj); exists j; (split; [lia | exact Hfj]).
Qed.
End Relax.

(** *** The degrees still pending *)

Lemma pending_nil es k : pending es [] k = in_degree_of es k.
Proof.
  unfold pending, in_degree_of. do 2 f_equal. apply filter_ext.
  intro e. simpl. now rewrite andb_true_r.
Qed.

Lemma mem_snoc (x c : UUID) (s : list UUID) :
  mem N.eqb x (s ++ [c]) = orb (mem N.eqb x s) (N.eqb x c).
Proof. unfold mem. rewrite existsb_app. simpl. now rewrite orb_false_r. Qed.

Lemma pending_snoc es s c k :
  mem N.eqb c s = false ->
  pending es (s ++ [c]) k
  = (pending es s k - Z.of_nat (occurrences k (successors_of es c)))%Z.
Proof.
  intro Hc. unfold pending, occurrences, successors_of.
  assert (H : (List.length
                 (filter (fun e : UUID * UUID =>
                            andb (N.eqb (snd e) k) (negb (mem N.eqb (fst e) (s ++ [c]))))
                         es)
               + List.length
                   (filter (N.eqb k)
                           (map snd (filter (fun e : UUID * UUID => N.eqb (fst e) c) es)))
               = List.length
                   (filter (fun e : UUID * UUID =>
                              andb (N.eqb (snd e) k) (negb (mem N.eqb (fst e) s)))
                           es))%nat).
  { induction es as [|e es IH]; [reflexivity|].
    cbn [filter map]. rewrite mem_snoc.
    destruct (N.eqb (fst e) c) eqn:Ec.
    - apply N.eqb_eq in Ec. rewrite Ec, Hc. cbn [map filter].
      rewrite orb_true_r, andb_false_r, andb_true_r, (N.eqb_sym k (snd e)).
      destruct (N.eqb (snd e) k); simpl List.length; lia.
    - rewrite orb_false_r.
      destruct (andb (N.eqb (snd e) k) (negb (mem N.eqb (fst e) s)));
        simpl List.length; lia. }
  norm. lia.
Qed.

Lemma pending_zero es s k :
  pending es s k = 0%Z -> forall q, In (q, k) es -> In q s.
Proof.
  unfold pending. intros H q Hq.
  destruct (mem N.eqb q s) eqn:E; [now apply (mem_In N.eqb N.eqb_eq)|].
  assert (Hin : In (q, k)
                   (filter (fun e : UUID * UUID =>
                              andb (N.eqb (snd e) k) (negb (mem N.eqb (fst e) s))) es)).
  { apply filter_In. split; [exact Hq|]. simpl. now rewrite N.eqb_refl, E. }
  norm. destruct (filter _ es); [contradiction | simpl in H; lia].
Qed.

Lemma pending_nonneg es s k : (0 <= pending es s k)%Z.
Proof. unfold pending. lia. Qed.

(** *** Sorting the queue *)

Lemma get_node_of_key ns k :
  mem N.eqb k (map node_id ns) = true ->
  exists n, _get_node_by_id k ns = Some n /\ In n ns /\ node_id n = k.
Proof.
  unfold _get_node_by_id. induction ns as [|n ns IH]; simpl; [discriminate|].
  rewrite (N.eqb_sym k). destruct (N.eqb (node_id n) k) eqn:E.
  - intros _. exists n. apply N.eqb_eq in E. auto.
  - simpl. intro H. destruct (IH H) as (m & H1 & H2 & H3). exists m. auto.
Qed.

Lemma keyed_ok rt ns queue :
  (forall k, In k queue -> mem N.eqb k (map node_id ns) = true) ->
  exists kq, keyed rt ns queue = Ok kq /\ map snd kq = queue.
Proof.
  induction queue as [|x queue IH]; intro H.
  - exists []. split; reflexivity.
  - destruct (get_node_of_key ns x (H x (or_introl eq_refl))) as (n & Hn & _).
    destruct IH as (kq & Hkq & Hs); [intros; apply H; now right|].
    simpl. unfold sort_key. rewrite Hn, Hkq.
    eexists. split; [reflexivity|]. simpl. now rewrite Hs.
Qed.

Lemma sort_queue_ok rt ns queue :
  (forall k, In k queue -> mem N.eqb k (map node_id ns) = true) ->
  exists q', sort_queue rt ns queue = Ok q' /\ Permutation queue q'.
Proof.
  intro H. destruct (keyed_ok rt ns queue H) as (kq & Hkq & Hs).
  unfold sort_queue. rewrite Hkq. eexists. split; [reflexivity|].
  rewrite <- Hs. apply Permutation_map, Permutation_sym, py_sorted_perm.
Qed.

(** *** One round after the other *)

Lemma sources_first_split es s :
  sources_first es s ->
  forall s1 k s2, s = s1 ++ k :: s2 -> forall q, In (q, k) es -> In q s1.
Proof.
  induction 1 as [|s k0 Hs IH Hk0]; intros s1 k s2 E q Hq.
  - destruct s1; discriminate.
  - destruct (list_eq_dec N.eq_dec s2 []) as [->|Hne].
    + apply app_inj_tail in E. destruct E as [<- <-]. now apply Hk0.
    + destruct (exists_last Hne) as (s2' & y & ->).
      rewrite app_comm_cons, app_assoc in E.
      apply app_inj_tail in E. destruct E as [E _].
      exact (IH s1 k s2' E q Hq).
Qed.

Section KahnRounds.
Variable rt : Runtime.
Variable ns : list LearningNode.
Variable es : list (UUID * UUID).
Variable a : list (UUID * list UUID).
Hypothesis a_ok : represents (successors_of es) (map node_id ns) a.
Hypothesis targets_ok : forall e, In e es -> mem N.eqb (snd e) (map node_id ns) = true.

Lemma successors_are_keys c x :
  In x (successors_of es c) -> mem N.eqb x (map node_id ns) = true.
Proof.
  unfold successors_of. intro H. apply in_map_iff in H.
  destruct H as (e & <- & He). apply filter_In in He. now apply targets_ok.
Qed.

Lemma kahn_round d c q' sorted :
  kahn_invariant es (map node_id ns) d (c :: q') sorted ->
  exists d' newly,
    fold_left relax (successors_of es c) (Ok (d, q')) = Ok (d', q' ++ newly)
    /\ kahn_invariant es (map node_id ns) d' (q' ++ newly) (sorted ++ [c]).
Proof.
  intros [Hd Hnd Hrel Hord].
  assert (Hc : In c (sorted ++ c :: q')) by (apply in_or_app; right; now left).
  assert (Hcs : mem N.eqb c sorted = false).
  { destruct (mem N.eqb c sorted) eqn:E; [|reflexivity].
    apply (mem_In N.eqb N.eqb_eq) in E. exfalso.
    exact (NoDup_app_disjoint sorted (c :: q') c Hnd E (or_introl eq_refl)). }
  destruct (relax_fold (map node_id ns) (successors_of es c) (pending es sorted) d q' Hd
              (successors_are_keys c)) as (d' & newly & Hf & Rd & Hnew & Hin).
  exists d', newly. split; [exact Hf|].
  assert (Hp : forall k, pending es (sorted ++ [c]) k
                         = (pending es sorted k
                            - Z.of_nat (occurrences k (successors_of es c)))%Z)
    by (intro k; now apply pending_snoc).
  assert (Hnewly : forall k, In k newly
                             <-> (1 <= pending es sorted k)%Z
                                 /\ pending es (sorted ++ [c]) k = 0%Z).
  { intro k. rewrite Hin, Hp. pose proof (pending_nonneg es (sorted ++ [c]) k) as H0.
    rewrite Hp in H0. split.
    - intros (j & Hj & Hfj). lia.
    - intros [H1 H2]. exists (occurrences k (successors_of es c)). lia. }
  constructor.
  - eapply represents_ext; [|exact Rd]. intro k. now rewrite Hp.
  - replace ((sorted ++ [c]) ++ q' ++ newly) with ((sorted ++ c :: q') ++ newly)
      by (rewrite <- !app_assoc; reflexivity).
    apply NoDup_app; [exact Hnd | exact Hnew|].
    intros k Hk Hk'. apply Hrel in Hk. apply Hnewly in Hk'. lia.
  - intro k.
    replace ((sorted ++ [c]) ++ q' ++ newly) with ((sorted ++ c :: q') ++ newly)
      by (rewrite <- !app_assoc; reflexivity).
    rewrite in_app_iff, Hrel, Hnewly.
    pose proof (pending_nonneg es sorted k) as H0.
    pose proof (pending_nonneg es (sorted ++ [c]) k) as H1.
    pose proof (Hp k) as H2. split.
    + intros [[Hk Hz]|[Hk Hz]]; [split; [exact Hk | lia]|].
      split; [|exact Hz].
      assert (Hi : In k newly) by (apply Hnewly; auto).
      apply Hin in Hi. destruct Hi as (j & Hj & _).
      apply successors_are_keys with c. apply occurrences_in. lia.
    + intros [Hk Hz].
      destruct (Z.eq_dec (pending es sorted k) 0) as [E|E]; [left; auto | right].
      split; [lia | exact Hz].
  - constructor; [exact Hord|]. apply pending_zero. now apply Hrel.
Qed.

(** The loop never raises on a state that satisfies the invariant, and
    the invariant holds of what it returns. *)
Lemma kahn_keeps_invariant : forall fuel d queue sorted,
  kahn_invariant es (map node_id ns) d queue sorted ->
  match kahn rt ns a fuel d queue sorted with
  | None => True
  | Some (Raise _) => False
  | Some (Ok r) => exists d', kahn_invariant es (map node_id ns) d' [] r
  end.
Proof.
  induction fuel as [|fuel IH]; intros d queue sorted Hinv.
  - destruct queue; simpl; [now exists d | exact I].
  - destruct queue as [|x queue]; [simpl; now exists d|].
    cbn [kahn].
    assert (Hq : forall k, In k (x :: queue) -> mem N.eqb k (map node_id ns) = true).
    { intros k Hk. apply (inv_released _ _ _ _ _ Hinv k). apply in_or_app. now right. }
    destruct (sort_queue_ok rt ns (x :: queue) Hq) as (q0 & Hs & Hperm).
    rewrite Hs. destruct q0 as [|c q'].
    + apply Permutation_sym, Permutation_nil in Hperm. discriminate.
    + assert (Hinv' : kahn_invariant es (map node_id ns) d (c :: q') sorted).
      { destruct Hinv as [H1 H2 H3 H4]. constructor; auto.
        - apply (Permutation_NoDup (l := sorted ++ x :: queue)); [|exact H2].
          now apply Permutation_app_head.
        - intro k. rewrite <- H3, !in_app_iff. split; intros [H|H]; auto; right.
          + exact (Permutation_in k (Permutation_sym Hperm) H).
          + exact (Permutation_in k Hperm H). }
      assert (Hc : mem N.eqb c (map node_id ns) = true).
      { apply (inv_released _ _ _ _ _ Hinv' c). apply in_or_app. right. now left. }
      rewrite (a_ok c), Hc.
      destruct (kahn_round d c q' sorted Hinv') as (d' & newly & Hf & Hnext).
      norm. rewrite Hf. apply IH. exact Hnext.
Qed.
End KahnRounds.

(** ** [_topological_sort] *)

Lemma dict_get_found {V} (k : UUID) (v : V) (d : list (UUID * V)) :
  dict_get N.eqb k d = Some v -> In (k, v) d.
Proof.
  induction d as [|[k0 v0] d IH]; simpl; [discriminate|].
  destruct (N.eqb k k0) eqn:E.
  - apply N.eqb_eq in E. intro H. left. congruence.
  - intro H. right. now apply IH.
Qed.

Lemma initial_invariant es keys (d : list (UUID * Z)) :
  represents (in_degree_of es) keys d -> NoDup (map fst d) ->
  kahn_invariant es keys d (map fst (filter (fun kv => (snd kv =? 0)%Z) d)) [].
Proof.
  intros Rd Hnd. constructor.
  - eapply represents_ext; [|exact Rd]. intro k. now rewrite pending_nil.
  - simpl. clear Rd. induction d as [|[k v] d IH]; simpl; [constructor|].
    inversion Hnd as [|? ? Hk Hnd']; subst.
    destruct (v =? 0)%Z; simpl; [|now apply IH].
    constructor; [|now apply IH].
    intro H. apply Hk. apply in_map_iff in H. destruct H as (kv & E & Hkv).
    apply filter_In in Hkv. apply in_map_iff. exists kv. tauto.
  - intro k. simpl. rewrite pending_nil. split.
    + intro H. apply in_map_iff in H. destruct H as ([k' v] & E & Hkv).
      simpl in E. subst k'. apply filter_In in Hkv. destruct Hkv as [Hkv Hv].
      simpl in Hv. apply Z.eqb_eq in Hv. subst v.
      pose proof (dict_get_in N.eqb N.eqb_eq k 0%Z d Hnd Hkv) as Hg.
      rewrite (Rd k) in Hg. destruct (mem N.eqb k keys); [|discriminate].
      split; [reflexivity | congruence].
    + intros [Hk Hz]. pose proof (Rd k) as Hg. rewrite Hk, Hz in Hg.
      apply dict_get_found in Hg. apply in_map_iff. exists (k, 0%Z).
      split; [reflexivity|]. apply filter_In. split; [exact Hg | reflexivity].
  - constructor.
Qed.

Lemma lookup_all_found (ns : list LearningNode) (r : list UUID) :
  NoDup (map node_id ns) ->
  (forall k, In k r -> In k (map node_id ns)) ->
  exists l, lookup_all (dict_of N.eqb (map (fun n => (node_id n, n)) ns)) r = Ok l
            /\ map node_id l = r /\ forall n, In n l -> In n ns.
Proof.
  intros Hnd. rewrite (dict_of_distinct N.eqb N.eqb_eq)
    by (rewrite map_map; exact Hnd).
  induction r as [|k r IH]; intro Hr.
  - exists []. simpl. split; [reflexivity|]. split; [reflexivity|]. intros n [].
  - destruct IH as (l & Hl & Hm & Hi); [intros; apply Hr; now right|].
    assert (Hk : In k (map node_id ns)) by (apply Hr; now left).
    apply in_map_iff in Hk. destruct Hk as (n & Hn & Hin).
    assert (Hg : dict_get N.eqb k (map (fun n => (node_id n, n)) ns) = Some n).
    { apply (dict_get_in N.eqb N.eqb_eq); [now rewrite map_map|].
      apply in_map_iff. exists n. split; [now rewrite Hn | exact Hin]. }
    exists (n :: l). cbn [lookup_all]. norm. rewrite Hg, Hl.
    split; [reflexivity|]. split; [simpl; congruence|].
    intros m [<-|Hm']; auto.
Qed.

Lemma graph_edges_in rt ns n q :
  (forall s, Permutation s (iter_ids rt s)) ->
  In n ns -> In q (prerequisite_nodes n) -> In (q, node_id n) (graph_edges rt ns).
Proof.
  intros Hperm Hn Hq. unfold graph_edges. apply in_flat_map. exists n.
  split; [exact Hn|]. apply in_map_iff. exists q. split; [reflexivity|].
  exact (Permutation_in q (Hperm _) Hq).
Qed.

(** What the loop of [_topological_sort] hands to the length test. *)
Lemma kahn_result rt ns d a :
  represents (in_degree_of (graph_edges rt ns)) (map node_id ns) d ->
  represents (successors_of (graph_edges rt ns)) (map node_id ns) a ->
  NoDup (map fst d) ->
  exists r d',
    kahn rt ns a (List.length d) d
         (map fst (filter (fun kv => (snd kv =? 0)%Z) d)) [] = Some (Ok r)
    /\ kahn_invariant (graph_edges rt ns) (map node_id ns) d' [] r.
Proof.
  intros Rd Ra Hnd.
  assert (Ht : forall e, In e (graph_edges rt ns) ->
                         mem N.eqb (snd e) (map node_id ns) = true).
  { intros e He. unfold graph_edges in He. apply in_flat_map in He.
    destruct He as (n & Hn & He). apply in_map_iff in He.
    destruct He as (q & <- & _). simpl.
    apply (mem_In N.eqb N.eqb_eq). now apply in_map. }
  pose proof (kahn_keeps_invariant rt ns (graph_edges rt ns) a Ra Ht (List.length d) d
                _ [] (initial_invariant _ _ d Rd Hnd)) as H.
  pose proof (kahn_total rt ns a d) as Hn.
  norm.
  match type of Hn with ?t <> None => destruct t as [[r|e]|] end;
    [|contradiction|now elim Hn].
  destruct H as [d' H]. now exists r, d'.
Qed.

Lemma sorted_ids_cover (ns : list LearningNode) es d (r : list UUID) :
  kahn_invariant es (map node_id ns) d [] r ->
  List.length r = List.length ns ->
  NoDup (map node_id ns) /\ Permutation r (map node_id ns).
Proof.
  intros [_ Hnd Hrel _] Hlen. rewrite app_nil_r in Hnd.
  assert (Hp : Permutation r (map node_id ns)).
  { apply NoDup_Permutation_bis; [exact Hnd | rewrite length_map; lia|].
    intros k Hk. apply (mem_In N.eqb N.eqb_eq).
    apply (Hrel k). now rewrite app_nil_r. }
  split; [exact (Permutation_NoDup Hp Hnd) | exact Hp].
Qed.

Lemma topological_sort_unfold rt p d a r :
  build_graph rt (nodes p) = Ok (d, a) ->
  kahn rt (nodes p) a (List.length d) d
       (map fst (filter (fun kv => (snd kv =? 0)%Z) d)) [] = Some (Ok r) ->
  _topological_sort rt p
  = if negb (List.length r =? List.length (nodes p))%nat
    then Raise (CircularDependencyError (_find_cycle rt p))
    else lookup_all (dict_of N.eqb (map (fun n => (node_id n, n)) (nodes p))) r.
Proof.
  intros Hb Hk. unfold _topological_sort. norm. rewrite Hb. norm. now rewrite Hk.
Qed.

Lemma sorted_nodes_facts (rt : Runtime) (p : LearningPath)
  (l : list LearningNode) :
  _topological_sort rt p = Ok l ->
  exists r d',
    kahn_invariant (graph_edges rt (nodes p)) (map node_id (nodes p)) d' [] r
    /\ List.length r = List.length (nodes p)
    /\ map node_id l = r
    /\ NoDup (map node_id (nodes p))
    /\ (forall n, In n l -> In n (nodes p)).
Proof.
  intros Hok.
  pose proof (build_graph_spec rt (nodes p)) as Hb.
  destruct (build_graph rt (nodes p)) as [[d a]|x] eqn:Eb;
    [|unfold _topological_sort in Hok; norm; rewrite Eb in Hok; discriminate].
  destruct Hb as (Rd & Ra & Hsrc & Hnd).
  destruct (kahn_result rt (nodes p) d a Rd Ra Hnd) as (r & d' & Hk & Hinv).
  rewrite (topological_sort_unfold rt p d a r Eb Hk) in Hok.
  destruct (Nat.eqb (List.length r) (List.length (nodes p))) eqn:El;
    [|discriminate].
  apply Nat.eqb_eq in El. cbn [negb] in Hok.
  destruct (sorted_ids_cover (nodes p) _ d' r Hinv El) as [Hids Hpr].
  destruct (lookup_all_found (nodes p) r Hids) as (l' & Hl & Hm & Hin).
  { intros k Hk'. exact (Permutation_in k Hpr Hk'). }
  norm. rewrite Hl in Hok. injection Hok as ->.
  exists r, d'. split; [exact Hinv|]. split; [exact El|]. split; [exact Hm|].
  split; [exact Hids|exact Hin].
Qed.

(** What [_topological_sort] returns is the nodes of the path, each once. *)
Lemma sorted_nodes_permutation (rt : Runtime) (p : LearningPath)
  (l : list LearningNode) :
  _topological_sort rt p = Ok l ->
  Permutation l (nodes p) /\ NoDup (map node_id l).
Proof.
  intro Hok.
  destruct (sorted_nodes_facts rt p l Hok) as (r & d' & Hinv & El & Hm & Hids & Hin).
  assert (Hndl : NoDup (map node_id l)).
  { destruct Hinv as [_ H _ _]. rewrite app_nil_r in H. norm. now rewrite Hm. }
  split; [|exact Hndl].
  apply NoDup_Permutation_bis.
  - exact (NoDup_map_inv node_id l Hndl).
  - rewrite <- El, <- Hm, length_map. lia.
  - intros n Hn. now apply Hin.
Qed.

(** In what [_topological_sort] returns, the prerequisites of a node come
    before it. *)
Lemma sorted_nodes_order (rt : Runtime) (p : LearningPath)
  (l : list LearningNode) :
  (forall s, Permutation s (iter_ids rt s)) ->
  _topological_sort rt p = Ok l -> prerequisites_first l.
Proof.
  intros Hperm Hok.
  destruct (sorted_nodes_facts rt p l Hok) as (r & d' & Hinv & El & Hm & Hids & Hin).
  intros l1 n l2 E q Hq.
  apply (sources_first_split (graph_edges rt (nodes p)) r (inv_order _ _ _ _ _ Hinv)
           (map node_id l1) (node_id n) (map node_id l2)).
  - rewrite <- Hm, E, map_app. reflexivity.
  - apply graph_edges_in; [exact Hperm | | exact Hq].
    apply Hin. rewrite E. apply in_or_app. right. now left.
Qed.

Lemma graph_edges_origin rt ns e :
  (forall s, Permutation s (iter_ids rt s)) ->
  In e (graph_edges rt ns) ->
  exists n, In n ns /\ node_id n = snd e /\ In (fst e) (prerequisite_nodes n).
Proof.
  intros Hperm He. unfold graph_edges in He. apply in_flat_map in He.
  destruct He as (n & Hn & He). apply in_map_iff in He.
  destruct He as (q & <- & Hq). exists n. simpl.
  split; [exact Hn|]. split; [reflexivity|].
  exact (Permutation_in q (Permutation_sym (Hperm _)) Hq).
Qed.

Lemma pending_none es s k :
  (forall q, In (q, k) es -> In q s) -> pending es s k = 0%Z.
Proof.
  intro H. unfold pending. rewrite filter_none; [reflexivity|].
  intros [q t] He. simpl. destruct (N.eqb t k) eqn:E; [|reflexivity].
  apply N.eqb_eq in E. subst t. simpl.
  assert (Hq : mem N.eqb q s = true) by (apply (mem_In N.eqb N.eqb_eq); auto).
  norm. now rewrite Hq.
Qed.

Lemma same_id_same_node (ns : list LearningNode) (n m : LearningNode) :
  NoDup (map node_id ns) -> In n ns -> In m ns -> node_id n = node_id m -> n = m.
Proof.
  induction ns as [|x ns IH]; simpl; intros Hnd Hn Hm E; [contradiction|].
  inversion Hnd as [|? ? Hx Hnd']; subst.
  destruct Hn as [->|Hn], Hm as [->|Hm]; auto.
  - exfalso. apply Hx. rewrite E. now apply in_map.
  - exfalso. apply Hx. rewrite <- E. now apply in_map.
Qed.

Lemma orderable_is_sorted (rt : Runtime) (p : LearningPath)
  (o : list LearningNode) :
  (forall s, Permutation s (iter_ids rt s)) ->
  NoDup (map node_id (nodes p)) ->
  Permutation o (nodes p) -> prerequisites_first o ->
  exists l, _topological_sort rt p = Ok l.
Proof.
  intros Hperm Hids Ho Hfirst.
  assert (Hsrc : forall e, In e (graph_edges rt (nodes p)) ->
                           In (fst e) (map node_id (nodes p))).
  { intros e He. destruct (graph_edges_origin rt _ e Hperm He) as (n & Hn & _ & Hq).
    assert (Hno : In n o) by exact (Permutation_in n (Permutation_sym Ho) Hn).
    apply in_split in Hno. destruct Hno as (l1 & l2 & E).
    pose proof (Hfirst l1 n l2 E _ Hq) as H.
    apply in_map_iff in H. destruct H as (m & <- & Hm). apply in_map.
    apply (Permutation_in m Ho). rewrite E. apply in_or_app. now left. }
  pose proof (build_graph_spec rt (nodes p)) as Hb.
  destruct (build_graph rt (nodes p)) as [[d a]|x] eqn:Eb.
  2:{ destruct Hb as (e & He & Hk & _). apply Hsrc in He.
      apply (mem_In N.eqb N.eqb_eq) in He. norm. congruence. }
  destruct Hb as (Rd & Ra & _ & Hnd).
  destruct (kahn_result rt (nodes p) d a Rd Ra Hnd) as (r & d' & Hk & Hinv).
  rewrite (topological_sort_unfold rt p d a r Eb Hk).
  assert (Hall : forall o1 o2, o = o1 ++ o2 -> forall n, In n o1 -> In (node_id n) r).
  { induction o1 as [|n o1 IH] using rev_ind; intros o2 E m Hm; [contradiction|].
    rewrite <- app_assoc in E. cbn [app] in E.
    apply in_app_or in Hm. destruct Hm as [Hm|[<-|[]]].
    - exact (IH (n :: o2) E m Hm).
    - assert (Hn : In n (nodes p)).
      { apply (Permutation_in n Ho). rewrite E. apply in_or_app. right. now left. }
      destruct Hinv as [_ _ Hrel _]. specialize (Hrel (node_id n)).
      rewrite app_nil_r in Hrel. apply Hrel. split.
      + apply (mem_In N.eqb N.eqb_eq). now apply in_map.
      + apply pending_none. intros q Hq.
        destruct (graph_edges_origin rt _ _ Hperm Hq) as (n' & Hn' & Hid & Hq').
        simpl in Hid, Hq'.
        assert (n' = n) by (apply (same_id_same_node (nodes p)); auto).
        subst n'. pose proof (Hfirst o1 n o2 E q Hq') as H.
        apply in_map_iff in H. destruct H as (m & <- & Hm).
        exact (IH (n :: o2) E m Hm). }
  assert (Hincl : incl (map node_id (nodes p)) r).
  { intros k Hk'. apply in_map_iff in Hk'. destruct Hk' as (n & <- & Hn).
    apply (Hall o [] (eq_sym (app_nil_r o))).
    exact (Permutation_in n (Permutation_sym Ho) Hn). }
  assert (Hr : NoDup r /\ incl r (map node_id (nodes p))).
  { destruct Hinv as [_ H Hrel _]. rewrite app_nil_r in H. split; [exact H|].
    intros k Hk'. apply (mem_In N.eqb N.eqb_eq). apply (Hrel k).
    now rewrite app_nil_r. }
  destruct Hr as [Hndr Hincl'].
  assert (Hlen : List.length r = List.length (nodes p)).
  { pose proof (NoDup_incl_length Hndr Hincl') as H1.
    pose proof (NoDup_incl_length Hids Hincl) as H2.
    rewrite length_map in H1, H2. lia. }
  rewrite Hlen, Nat.eqb_refl. cbn [negb].
  destruct (lookup_all_found (nodes p) r Hids) as (l & Hl & _); [exact Hincl'|].
  exists l. exact Hl.
Qed.

Lemma closed_sources rt ns e :
  (forall s, Permutation s (iter_ids rt s)) ->
  prerequisites_closed ns = true ->
  In e (graph_edges rt ns) -> mem N.eqb (fst e) (map node_id ns) = true.
Proof.
  intros Hperm Hc He.
  destruct (graph_edges_origin rt ns e Hperm He) as (n & Hn & _ & Hq).
  unfold prerequisites_closed in Hc. rewrite forallb_forall in Hc.
  specialize (Hc n Hn). rewrite forallb_forall in Hc. exact (Hc _ Hq).
Qed.

Lemma closed_sort_outcomes (rt : Runtime) (p : LearningPath) :
  (forall s, Permutation s (iter_ids rt s)) ->
  prerequisites_closed (nodes p) = true ->
  (exists l, _topological_sort rt p = Ok l)
  \/ _topological_sort rt p = Raise (CircularDependencyError (_find_cycle rt p)).
Proof.
  intros Hperm Hc.
  pose proof (build_graph_spec rt (nodes p)) as Hb.
  destruct (build_graph rt (nodes p)) as [[d a]|x] eqn:Eb.
  2:{ destruct Hb as (e & He & Hk & _).
      rewrite (closed_sources rt _ e Hperm Hc He) in Hk. discriminate. }
  destruct Hb as (Rd & Ra & _ & Hnd).
  destruct (kahn_result rt (nodes p) d a Rd Ra Hnd) as (r & d' & Hk & Hinv).
  rewrite (topological_sort_unfold rt p d a r Eb Hk).
  destruct (Nat.eqb (List.length r) (List.length (nodes p))) eqn:El;
    cbn [negb]; [left | now right].
  apply Nat.eqb_eq in El.
  destruct (sorted_ids_cover (nodes p) _ d' r Hinv El) as [Hids Hpr].
  destruct (lookup_all_found (nodes p) r Hids) as (l & Hl & _).
  { intros k Hk'. exact (Permutation_in k Hpr Hk'). }
  now exists l.
Qed.


Lemma in_order_from_spec (l : list LearningNode) : forall seen,
  in_order_from seen l = true ->
  forall l1 n l2, l = l1 ++ n :: l2 ->
  forall q, In q (prerequisite_nodes n) -> In q (seen ++ map node_id l1).
Proof.
  induction l as [|x l IH]; intros seen H l1 n l2 E q Hq.
  - destruct l1; discriminate.
  - simpl in H. apply andb_true_iff in H. destruct H as [H1 H2].
    destruct l1 as [|y l1]; simpl in E; injection E as -> ->.
    + rewrite app_nil_r. rewrite forallb_forall in H1.
      apply (mem_In N.eqb N.eqb_eq). auto.
    + specialize (IH _ H2 l1 n l2 eq_refl q Hq).
      rewrite <- app_assoc in IH. exact IH.
Qed.

Lemma in_order_check (l : list LearningNode) :
  in_order_from [] l = true -> prerequisites_first l.
Proof.
  intros H l1 n l2 E q Hq. exact (in_order_from_spec l [] H l1 n l2 E q Hq).
Qed.

(** ** The properties of [_topological_sort] *)

(** Kahn's algorithm is sound: what [_topological_sort] returns is the
    nodes of the path, each once, every node after the nodes its
    prerequisite ids name; and the node ids are then pairwise distinct. *)
Theorem topological_sort_sound (rt : Runtime) (p : LearningPath)
  (l : list LearningNode) :
  (forall s, Permutation s (iter_ids rt s)) ->
  _topological_sort rt p = Ok l ->
  Permutation l (nodes p)
  /\ NoDup (map node_id l)
  /\ prerequisites_first l.
Proof.
  intros Hperm Hok.
  destruct (sorted_nodes_permutation rt p l Hok) as [H1 H2].
  split; [exact H1|]. split; [exact H2|].
  exact (sorted_nodes_order rt p l Hperm Hok).
Qed.

(** The sort of the three nodes with their edges. *)
Lemma topological_sort_sound_witness :
  Permutation abc_sorted (nodes abc_with_edges)
  /\ NoDup (map node_id abc_sorted)
  /\ prerequisites_first abc_sorted.
Proof.
  apply (topological_sort_sound rt0 abc_with_edges abc_sorted).
  - intro s. apply Permutation_refl.
  - vm_compute. reflexivity.
Defined.

(** Kahn's algorithm is complete: when the node ids are pairwise distinct
    and the nodes can be put in an order in which every node comes after
    its prerequisites, [_topological_sort] returns. *)
Theorem topological_sort_complete (rt : Runtime) (p : LearningPath)
  (o : list LearningNode) :
  (forall s, Permutation s (iter_ids rt s)) ->
  NoDup (map node_id (nodes p)) ->
  Permutation o (nodes p) -> prerequisites_first o ->
  exists l, _topological_sort rt p = Ok l.
Proof. exact (orderable_is_sorted rt p o). Qed.

(** The three nodes with their edges are in an order as they stand. *)
Lemma topological_sort_complete_witness :
  exists l, _topological_sort rt0 abc_with_edges = Ok l.
Proof.
  apply (topological_sort_complete rt0 abc_with_edges (nodes abc_with_edges)).
  - intro s. apply Permutation_refl.
  - apply distinct_NoDup. vm_compute. reflexivity.
  - apply Permutation_refl.
  - apply in_order_check. vm_compute. reflexivity.
Defined.

(** On a path whose prerequisite ids all name nodes of the path,
    [_topological_sort] returns or raises the circular-dependency error;
    it raises no [KeyError] and no [AttributeError]. *)
Theorem topological_sort_raises_cycles_only (rt : Runtime) (p : LearningPath) :
  (forall s, Permutation s (iter_ids rt s)) ->
  prerequisites_closed (nodes p) = true ->
  (exists l, _topological_sort rt p = Ok l)
  \/ _topological_sort rt p = Raise (CircularDependencyError (_find_cycle rt p)).
Proof. exact (closed_sort_outcomes rt p). Qed.

(** The path with the cycle a, b is closed. *)
Lemma topological_sort_raises_cycles_only_witness :
  (exists l, _topological_sort rt0 cyclic_path = Ok l)
  \/ _topological_sort rt0 cyclic_path
     = Raise (CircularDependencyError (_find_cycle rt0 cyclic_path)).
Proof.
  apply (topological_sort_raises_cycles_only rt0 cyclic_path).
  - intro s. apply Permutation_refl.
  - vm_compute. reflexivity.
Defined.

(** ** The heuristic regrouping loses no node *)

Section SortAnyKey.
Context {A K : Type} (ltb : K -> K -> bool) (key : A -> K).

Lemma insert_by_permutation (x : A) (l : list A) :
  Permutation (insert_by ltb key x l) (x :: l).
Proof.
  induction l as [|y l IH]; simpl; [reflexivity|].
  destruct (ltb (key y) (key x)); [|reflexivity].
  rewrite IH. apply perm_swap.
Qed.

Lemma py_sorted_permutation (l : list A) : Permutation (py_sorted ltb key l) l.
Proof.
  induction l as [|x l IH]; simpl; [constructor|].
  rewrite insert_by_permutation. now constructor.
Qed.
End SortAnyKey.

Lemma skill_key_eqb_eq (a b : option SkillType) :
  skill_key_eqb a b = true <-> a = b.
Proof.
  destruct a as [a|], b as [b|]; simpl; try (split; [discriminate|discriminate]).
  - rewrite SkillType_eqb_eq. split; [now intros -> | now intros [= ->]].
  - tauto.
Qed.

Section Groups.
Context {K V : Type} (eqb : K -> K -> bool).
Hypothesis eqb_eq : forall x y, eqb x y = true <-> x = y.

Lemma dict_set_extends (k : K) (g : list V) (x : V) (d : list (K * list V)) :
  dict_get eqb k d = Some g ->
  Permutation (flat_map snd (dict_set eqb k (g ++ [x]) d)) (flat_map snd d ++ [x]).
Proof.
  induction d as [|[k0 v0] d IH]; simpl; [discriminate|].
  destruct (eqb k k0) eqn:E; intro H.
  - injection H as ->. simpl. rewrite <- !app_assoc.
    apply Permutation_app_head. apply Permutation_app_comm.
  - simpl. rewrite <- app_assoc. apply Permutation_app_head. now apply IH.
Qed.

Lemma lookup_each_key (d : list (K * list V)) :
  NoDup (map fst d) ->
  flat_map (fun k => match dict_get eqb k d with Some g => g | None => [] end)
           (map fst d)
  = flat_map snd d.
Proof.
  induction d as [|[k0 v0] d IH]; simpl; intro Hnd; [reflexivity|].
  inversion Hnd as [|? ? Hk Hnd']; subst.
  rewrite (proj2 (eqb_eq k0 k0) eq_refl). f_equal.
  rewrite <- (IH Hnd'). apply flat_map_ext_in'. intros k Hin.
  destruct (eqb k k0) eqn:E; [|reflexivity].
  apply eqb_eq in E. subst. contradiction.
Qed.
End Groups.

Lemma add_to_group_keeps (groups : list (option SkillType * list LearningNode))
  (n : LearningNode) :
  NoDup (map fst groups) ->
  NoDup (map fst (add_to_group groups n))
  /\ Permutation (flat_map snd (add_to_group groups n)) (flat_map snd groups ++ [n]).
Proof.
  intro Hnd. unfold add_to_group.
  destruct (dict_get skill_key_eqb (skill_key n) groups) as [g|] eqn:E.
  - split.
    + rewrite (dict_set_keys skill_key_eqb skill_key_eqb_eq); [exact Hnd|].
      destruct (in_dec (fun a b => match Bool.bool_dec (skill_key_eqb a b) true with
                                   | left H => left (proj1 (skill_key_eqb_eq a b) H)
                                   | right H => right (fun e => H (proj2 (skill_key_eqb_eq a b) e))
                                   end)
                       (skill_key n) (map fst groups)) as [H|H]; [exact H|].
      apply (dict_get_none skill_key_eqb skill_key_eqb_eq) in H. congruence.
    + now apply dict_set_extends.
  - apply (dict_get_none skill_key_eqb skill_key_eqb_eq) in E.
    rewrite (dict_set_absent skill_key_eqb skill_key_eqb_eq _ _ _ E).
    split.
    + rewrite map_app. simpl. apply NoDup_app_snoc; [exact Hnd | exact E].
    + rewrite flat_map_app. simpl. reflexivity.
Qed.

Lemma skill_groups_keep (l : list LearningNode)
  (groups : list (option SkillType * list LearningNode)) :
  NoDup (map fst groups) ->
  NoDup (map fst (fold_left add_to_group l groups))
  /\ Permutation (flat_map snd (fold_left add_to_group l groups))
                 (flat_map snd groups ++ l).
Proof.
  revert groups. induction l as [|n l IH]; intros groups Hnd; simpl.
  - rewrite app_nil_r. split; [exact Hnd | reflexivity].
  - destruct (add_to_group_keeps groups n Hnd) as [H1 H2].
    destruct (IH _ H1) as [H3 H4]. split; [exact H3|].
    rewrite H4, H2, <- app_assoc. reflexivity.
Qed.

Lemma sorted_groups_keep (gs : list (option SkillType * list LearningNode)) :
  map fst (map (fun kg => (fst kg, py_sorted Qltb node_complexity (snd kg))) gs)
  = map fst gs
  /\ Permutation
       (flat_map snd
          (map (fun kg => (fst kg, py_sorted Qltb node_complexity (snd kg))) gs))
       (flat_map snd gs).
Proof.
  induction gs as [|[k g] gs [IH1 IH2]]; simpl; [split; reflexivity|].
  split; [now rewrite IH1|].
  apply Permutation_app; [apply py_sorted_permutation | exact IH2].
Qed.

Lemma heuristics_permutation (l : list LearningNode) :
  Permutation (_apply_learning_heuristics l) l.
Proof.
  unfold _apply_learning_heuristics.
  destruct (skill_groups_keep l [] (NoDup_nil _)) as [Hnd Hp].
  set (gs := fold_left add_to_group l []) in *.
  destruct (sorted_groups_keep gs) as [Hk Hs].
  set (gs' := map (fun kg => (fst kg, py_sorted Qltb node_complexity (snd kg))) gs) in *.
  rewrite (Permutation_flat_map _ (py_sorted_permutation String.ltb skill_key_str
                                                        (dict_keys gs'))).
  unfold dict_keys. rewrite (lookup_each_key skill_key_eqb skill_key_eqb_eq).
  - rewrite Hs, Hp. reflexivity.
  - now rewrite Hk.
Qed.

(** The heuristic regrouping loses no node and repeats none: what
    [_apply_learning_heuristics] returns is its input in another order. *)
Theorem heuristics_keep_every_node (sorted_nodes : list LearningNode) :
  Permutation (_apply_learning_heuristics sorted_nodes) sorted_nodes.
Proof. exact (heuristics_permutation sorted_nodes). Qed.

(** ** The sorter service returns every node once *)

Lemma shrinks_refl n : shrinks n n.
Proof. split; [reflexivity | apply incl_refl]. Qed.

Lemma shrinks_trans a b c : shrinks a b -> shrinks b c -> shrinks a c.
Proof.
  intros [H1 H2] [H3 H4]. split; [congruence|].
  eapply incl_tran; eauto.
Qed.

Lemma Forall2_shrinks_refl ns : Forall2 shrinks ns ns.
Proof. induction ns; constructor; auto using shrinks_refl. Qed.

Lemma Forall2_shrinks_trans a b c :
  Forall2 shrinks a b -> Forall2 shrinks b c -> Forall2 shrinks a c.
Proof.
  intros H. revert c. induction H; intros c Hc; inversion Hc; subst; constructor.
  - eapply shrinks_trans; eauto.
  - auto.
Qed.

Lemma shrunk_cores a b :
  Forall2 shrinks a b -> map node_core b = map node_core a.
Proof. induction 1 as [|x y a b [H _] _ IH]; simpl; congruence. Qed.

Lemma cores_ids a b :
  map node_core b = map node_core a -> map node_id b = map node_id a.
Proof.
  intro H.
  assert (E : forall l, map node_id l = map (fun c => fst (fst (fst (fst c)))) (map node_core l)).
  { intro l. rewrite map_map. reflexivity. }
  rewrite (E a), (E b), H. reflexivity.
Qed.

Lemma shrunk_closed a b :
  Forall2 shrinks a b -> prerequisites_closed a = true -> prerequisites_closed b = true.
Proof.
  intros H Hc. pose proof (cores_ids _ _ (shrunk_cores _ _ H)) as Hid.
  unfold prerequisites_closed in *. rewrite Hid.
  rewrite forallb_forall in *. intros n' Hn'.
  assert (exists n, In n a /\ shrinks n n') as (n & Hn & _ & Hs).
  { clear Hc Hid. induction H as [|x y a b Hxy _ IH]; [contradiction|].
    destruct Hn' as [<-|Hn'].
    - exists x. split; [now left | exact Hxy].
    - destruct (IH Hn') as (n & Hn & Hs). exists n. split; [now right | exact Hs]. }
  specialize (Hc n Hn). rewrite forallb_forall in *.
  intros q Hq. apply Hc. now apply Hs.
Qed.

Section SorterService.
Import TopologicalSorterService.

Lemma remove_edge_shrinks p dep :
  Forall2 shrinks (nodes p) (nodes (remove_edge p dep)).
Proof.
  unfold remove_edge. cbn [nodes with_nodes with_dependencies].
  generalize (source_node_of dep (nodes p)). intro src.
  induction (nodes p) as [|n ns IH]; simpl; constructor; [|exact IH].
  destruct (N.eqb (repository_id (repository n)) (target_repository_id dep));
    [|apply shrinks_refl].
  destruct src as [s|]; [|apply shrinks_refl].
  split; [reflexivity|]. simpl. unfold set_discard. apply incl_filter.
Qed.

Lemma resolve_cycles_shrinks rt p :
  Forall2 shrinks (nodes p) (nodes (_resolve_cycles rt p)).
Proof.
  unfold _resolve_cycles.
  generalize (iter_deps rt (filter removable (iter_deps rt (dependencies p)))).
  intro l. revert p. induction l as [|d l IH]; intro p; simpl.
  - apply Forall2_shrinks_refl.
  - eapply Forall2_shrinks_trans; [apply remove_edge_shrinks | apply IH].
Qed.

Lemma optimize_outcome rt p :
  (exists l, _topological_sort rt p = Ok l
             /\ optimize_learning_sequence rt p
                = (Ok tt, with_nodes p (_apply_learning_heuristics l)))
  \/ (exists e, _topological_sort rt p = Raise e
                /\ optimize_learning_sequence rt p = (Raise e, p)).
Proof.
  unfold optimize_learning_sequence.
  destruct (_topological_sort rt p) as [l|e]; [left; now exists l | right; now exists e].
Qed.

Lemma optimized_nodes rt p p' :
  optimize_learning_sequence rt p = (Ok tt, p') ->
  Permutation (nodes p') (nodes p) /\ NoDup (map node_id (nodes p)).
Proof.
  intro H. destruct (optimize_outcome rt p) as [(l & Hl & E)|(e & _ & E)];
    rewrite E in H; [|discriminate].
  injection H as <-. cbn [nodes with_nodes].
  destruct (sorted_nodes_permutation rt p l Hl) as [Hp Hnd].
  split.
  - rewrite heuristics_permutation. exact Hp.
  - eapply Permutation_NoDup; [|exact Hnd]. now apply Permutation_map.
Qed.

Lemma sort_outcome rt p l p' :
  sort rt p = (Ok l, p') ->
  l = nodes p'
  /\ exists p0, Forall2 shrinks (nodes p) (nodes p0)
                /\ optimize_learning_sequence rt p0 = (Ok tt, p').
Proof.
  unfold sort.
  destruct (optimize_learning_sequence rt p) as [[[]|e] p1] eqn:E1.
  - intros [= <- <-]. split; [reflexivity|]. exists p.
    split; [apply Forall2_shrinks_refl | exact E1].
  - assert (p1 = p) as ->.
    { destruct (optimize_outcome rt p) as [(l0 & _ & E)|(e0 & _ & E)];
        rewrite E in E1; [discriminate | congruence]. }
    destruct e; try discriminate.
    destruct (optimize_learning_sequence rt (_resolve_cycles rt p))
      as [[[]|e] p3] eqn:E2.
    + intros [= <- <-]. split; [reflexivity|].
      exists (_resolve_cycles rt p). split; [apply resolve_cycles_shrinks | exact E2].
    + destruct e; discriminate.
Qed.

Lemma optimize_head rt p :
  path_head (snd (optimize_learning_sequence rt p)) = path_head p.
Proof.
  unfold optimize_learning_sequence.
  destruct (_topological_sort rt p); reflexivity.
Qed.

Lemma resolve_cycles_head rt p : path_head (_resolve_cycles rt p) = path_head p.
Proof.
  unfold _resolve_cycles.
  generalize (iter_deps rt (filter removable (iter_deps rt (dependencies p)))).
  intro l. revert p. induction l as [|d l IH]; intro p; simpl; [reflexivity|].
  rewrite IH. reflexivity.
Qed.

Lemma sort_head rt p : path_head (snd (sort rt p)) = path_head p.
Proof.
  unfold sort.
  pose proof (optimize_head rt p) as H1.
  destruct (optimize_learning_sequence rt p) as [[[]|e] p1]; simpl in H1;
    [exact H1|].
  destruct e; try exact H1.
  pose proof (optimize_head rt (_resolve_cycles rt p1)) as H2.
  destruct (optimize_learning_sequence rt (_resolve_cycles rt p1))
    as [[[]|e] p3]; simpl in H2.
  - simpl. now rewrite H2, resolve_cycles_head.
  - destruct e; simpl; now rewrite H2, resolve_cycles_head.
Qed.

Lemma sort_result (rt : Runtime) (p p' : LearningPath) (l : list LearningNode) :
  sort rt p = (Ok l, p') ->
  l = nodes p'
  /\ Permutation (map node_core l) (map node_core (nodes p))
  /\ NoDup (map node_id l)
  /\ path_head p' = path_head p.
Proof.
  intro H. pose proof (sort_head rt p) as Hh. rewrite H in Hh. simpl in Hh.
  destruct (sort_outcome rt p l p' H) as (-> & p0 & Hs & Ho).
  destruct (optimized_nodes rt p0 p' Ho) as [Hp Hnd].
  split; [reflexivity|]. split; [|split; [|exact Hh]].
  - rewrite <- (shrunk_cores _ _ Hs). now apply Permutation_map.
  - eapply Permutation_NoDup; [|exact Hnd].
    apply Permutation_sym. now apply Permutation_map.
Qed.

Lemma sort_nodes (rt : Runtime) (p p' : LearningPath) (l : list LearningNode) :
  sort rt p = (Ok l, p') ->
  l = nodes p'
  /\ (exists l0, Permutation l l0 /\ Forall2 shrinks (nodes p) l0)
  /\ NoDup (map node_id l)
  /\ ((exists s, _topological_sort rt p = Ok s) -> Permutation l (nodes p)).
Proof.
  intro H.
  destruct (sort_outcome rt p l p' H) as (El & p0 & Hs & Ho).
  destruct (optimized_nodes rt p0 p' Ho) as [Hp Hnd].
  split; [exact El|]. subst l. split; [|split].
  - exists (nodes p0). split; [exact Hp | exact Hs].
  - eapply Permutation_NoDup; [|exact Hnd].
    apply Permutation_sym. now apply Permutation_map.
  - intros [s Es]. revert H. unfold sort.
    destruct (optimize_outcome rt p) as [(l1 & Hl1 & E)|(e & He & E)];
      [|rewrite Es in He; discriminate].
    rewrite E. intros [= _ <-]. cbn [nodes with_nodes].
    rewrite heuristics_permutation.
    exact (proj1 (sorted_nodes_permutation rt p l1 Hl1)).
Qed.

(** What [sort] returns holds every node of the path once.  The list is
    the node list [sort] leaves in the path; put in the order of the given
    nodes it matches them one by one, each returned node having the id,
    repository, dependents, hours and status of the given one and a
    prerequisite set included in the given one's (the cycle recovery only
    removes prerequisites); the ids are pairwise distinct; and when the
    first [_topological_sort] succeeds, so that no recovery runs, the
    list holds the given nodes themselves, prerequisites included. *)
Theorem sort_returns_every_node_once (rt : Runtime) (p p' : LearningPath)
  (l : list LearningNode) :
  sort rt p = (Ok l, p') ->
  l = nodes p'
  /\ (exists l0, Permutation l l0 /\ Forall2 shrinks (nodes p) l0)
  /\ NoDup (map node_id l)
  /\ ((exists s, _topological_sort rt p = Ok s) -> Permutation l (nodes p)).
Proof. exact (sort_nodes rt p p' l). Qed.

(** The sort of the three nodes with their edges: the first
    [_topological_sort] succeeds. *)
Lemma sort_returns_every_node_once_witness :
  (exists l0, Permutation (nodes abc_sorted_path) l0
              /\ Forall2 shrinks (nodes abc_with_edges) l0)
  /\ NoDup (map node_id (nodes abc_sorted_path))
  /\ Permutation (nodes abc_sorted_path) (nodes abc_with_edges).
Proof.
  destruct (sort_returns_every_node_once rt0 abc_with_edges abc_sorted_path
              (nodes abc_sorted_path)) as (_ & H1 & H2 & H3);
    [vm_compute; reflexivity|].
  split; [exact H1|]. split; [exact H2|].
  apply H3. eexists. vm_compute. reflexivity.
Defined.

Lemma closed_sort_service_outcomes (rt : Runtime) (p : LearningPath) :
  (forall s, Permutation s (iter_ids rt s)) ->
  prerequisites_closed (nodes p) = true ->
  (exists l p', sort rt p = (Ok l, p'))
  \/ (exists cycle p', sort rt p = (Raise (InvalidLearningSequenceError cycle), p')).
Proof.
  intros Hperm Hc. unfold sort.
  destruct (optimize_outcome rt p) as [(l & _ & E)|(e & He & E)]; rewrite E.
  - left. eauto.
  - destruct (closed_sort_outcomes rt p Hperm Hc) as [(l & Hl)|Hr];
      [congruence|].
    rewrite Hr in He. injection He as <-.
    set (p1 := _resolve_cycles rt p).
    assert (Hc1 : prerequisites_closed (nodes p1) = true).
    { eapply shrunk_closed; [apply resolve_cycles_shrinks | exact Hc]. }
    destruct (optimize_outcome rt p1) as [(l & _ & E1)|(e & He & E1)]; rewrite E1.
    + left. eauto.
    + destruct (closed_sort_outcomes rt p1 Hperm Hc1) as [(l & Hl)|Hr1];
        [congruence|].
      rewrite Hr1 in He. injection He as <-. right. eauto.
Qed.

(** On a path whose prerequisite ids all name nodes of the path, [sort]
    returns or raises [InvalidLearningSequenceError]: no circular-dependency
    error, [KeyError] or [AttributeError] leaves it. *)
Theorem sort_raises_invalid_sequence_only (rt : Runtime) (p : LearningPath) :
  (forall s, Permutation s (iter_ids rt s)) ->
  prerequisites_closed (nodes p) = true ->
  (exists l p', sort rt p = (Ok l, p'))
  \/ (exists cycle p', sort rt p = (Raise (InvalidLearningSequenceError cycle), p')).
Proof. exact (closed_sort_service_outcomes rt p). Qed.

(** The path with the cycle a, b is closed. *)
Lemma sort_raises_invalid_sequence_only_witness :
  (exists l p', sort rt0 cyclic_path = (Ok l, p'))
  \/ (exists cycle p',
        sort rt0 cyclic_path = (Raise (InvalidLearningSequenceError cycle), p')).
Proof.
  apply (sort_raises_invalid_sequence_only rt0 cyclic_path).
  - intro s. apply Permutation_refl.
  - vm_compute. reflexivity.
Defined.

End SorterService.

(** ** What [add_dependency] keeps of the path *)

Lemma get_node_found nid ns n :
  _get_node_by_id nid ns = Some n -> In n ns /\ node_id n = nid.
Proof.
  unfold _get_node_by_id. intro H. apply find_some in H.
  destruct H as [H1 H2]. apply N.eqb_eq in H2. auto.
Qed.

Lemma update_status_frame n :
  node_frame (_update_status_based_on_prerequisites n) = node_frame n
  /\ prerequisite_nodes (_update_status_based_on_prerequisites n)
     = prerequisite_nodes n.
Proof.
  unfold _update_status_based_on_prerequisites, node_frame, not_begun.
  destruct n as [r i ps ds h s]. simpl. destruct s, ps; split; reflexivity.
Qed.

Lemma add_prerequisite_ok q n n' :
  add_prerequisite q n = Ok n' ->
  node_frame n' = node_frame n
  /\ prerequisite_nodes n' = set_add N.eqb q (prerequisite_nodes n)
  /\ q <> node_id n.
Proof.
  unfold add_prerequisite.
  destruct (N.eqb q (node_id n)) eqn:E1; [discriminate|].
  destruct (mem N.eqb q (dependent_nodes n)); [discriminate|].
  intros [= <-].
  destruct (update_status_frame
              (with_prerequisites n (set_add N.eqb q (prerequisite_nodes n))))
    as [H1 H2].
  rewrite H1, H2. split; [reflexivity|]. split; [reflexivity|].
  now apply N.eqb_neq.
Qed.

Lemma set_add_in {A} (eqb : A -> A -> bool) (x y : A) (s : list A) :
  In y (set_add eqb x s) -> y = x \/ In y s.
Proof.
  unfold set_add. destruct (mem eqb x s); [now right|].
  intro H. apply in_app_or in H. destruct H as [H|[H|[]]]; auto.
Qed.

Lemma replace_node_frame nid n' ns n :
  _get_node_by_id nid ns = Some n -> node_frame n' = node_frame n ->
  map node_frame (replace_node nid n' ns) = map node_frame ns.
Proof.
  unfold _get_node_by_id.
  induction ns as [|x ns IH]; simpl; [discriminate|].
  destruct (N.eqb (node_id x) nid); intros H E.
  - injection H as ->. simpl. now rewrite E.
  - simpl. f_equal. now apply IH.
Qed.

Lemma replace_node_in nid n' ns x :
  In x (replace_node nid n' ns) -> x = n' \/ In x ns.
Proof.
  induction ns as [|y ns IH]; simpl; [tauto|].
  destruct (N.eqb (node_id y) nid); simpl; intros [H|H]; auto.
  destruct (IH H); auto.
Qed.

Lemma frames_ids a b :
  map node_frame b = map node_frame a -> map node_id b = map node_id a.
Proof.
  intro H.
  assert (E : forall l, map node_id l
                        = map (fun c => fst (fst (fst c))) (map node_frame l)).
  { intro l. rewrite map_map. reflexivity. }
  rewrite (E a), (E b), H. reflexivity.
Qed.

Lemma closed_spec ns :
  prerequisites_closed ns = true
  <-> forall n q, In n ns -> In q (prerequisite_nodes n) -> In q (map node_id ns).
Proof.
  unfold prerequisites_closed. rewrite forallb_forall. split.
  - intros H n q Hn Hq. specialize (H n Hn). rewrite forallb_forall in H.
    apply (mem_In N.eqb N.eqb_eq). now apply H.
  - intros H n Hn. rewrite forallb_forall. intros q Hq.
    apply (mem_In N.eqb N.eqb_eq). eauto.
Qed.

(** The three ways [add_dependency] ends. *)
Lemma add_dependency_cases rt k sid tid ty st who p :
  let r := add_dependency rt k sid tid ty st who p in
  snd (fst r) = p
  \/ (exists rel, snd (fst r)
                  = with_dependencies p
                      (set_add DependencyRelation_eqb rel (dependencies p)))
  \/ (exists rel s t t',
        _get_node_by_id sid (nodes p) = Some s
        /\ _get_node_by_id tid (nodes p) = Some t
        /\ add_prerequisite sid t = Ok t'
        /\ snd (fst r)
           = with_nodes
               (with_dependencies p
                  (set_add DependencyRelation_eqb rel (dependencies p)))
               (replace_node tid t' (nodes p))).
Proof.
  cbv zeta. unfold add_dependency.
  destruct (_get_node_by_id sid (nodes p)) as [s|] eqn:Es; [|now left].
  destruct (_get_node_by_id tid (nodes p)) as [t|] eqn:Et; [|now left].
  destruct (DependencyRelation_new rt k _ _ ty st who) as [rel|e]; [|now left].
  destruct (is_blocking_dependency rel).
  - destruct (add_prerequisite sid t) as [t'|e] eqn:Ea.
    + right. right. exists rel, s, t, t'. cbn [nodes with_dependencies].
      split; [reflexivity|]. split; [reflexivity|]. split; [exact Ea|].
      match goal with
      | |- context [_topological_sort rt ?x] => destruct (_topological_sort rt x)
      end; reflexivity.
    + right. left. exists rel. reflexivity.
  - right. left. exists rel.
    match goal with
    | |- context [_topological_sort rt ?x] => destruct (_topological_sort rt x)
    end; reflexivity.
Qed.

Lemma add_dependency_frame rt k sid tid ty st who p :
  let p' := snd (fst (add_dependency rt k sid tid ty st who p)) in
  path_frame p' = path_frame p
  /\ (prerequisites_closed (nodes p) = true ->
      prerequisites_closed (nodes p') = true).
Proof.
  intro p'. subst p'.
  destruct (add_dependency_cases rt k sid tid ty st who p)
    as [E|[(rel & E)|(rel & s & t & t' & Hs & Ht & Ha & E)]]; rewrite E.
  - split; [reflexivity | auto].
  - split; [reflexivity | auto].
  - destruct (add_prerequisite_ok _ _ _ Ha) as (Hf & Hp & Hne).
    pose proof (replace_node_frame tid t' (nodes p) t Ht Hf) as Hfr.
    split.
    + unfold path_frame. cbn. now rewrite Hfr.
    + cbn [nodes with_nodes]. rewrite !closed_spec.
      rewrite (frames_ids _ _ Hfr). intros Hc n q Hn Hq.
      apply replace_node_in in Hn. destruct Hn as [->|Hn]; [|eauto].
      rewrite Hp in Hq. apply set_add_in in Hq. destruct Hq as [->|Hq].
      * destruct (get_node_found _ _ _ Hs) as [Hin <-]. now apply in_map.
      * destruct (get_node_found _ _ _ Ht) as [Hin _]. eauto.
Qed.

(** ** The first loop of [build] *)

Section Builder.
Import GraphBuilderService.

Lemma Zsum_from (l : list Z) (a : Z) : fold_left Z.add l a = (a + Zsum l)%Z.
Proof.
  unfold Zsum. revert a. induction l as [|x l IH]; intro a; simpl; [lia|].
  rewrite (IH (a + x)%Z), (IH x). lia.
Qed.

Lemma Zsum_app (a b : list Z) : Zsum (a ++ b) = (Zsum a + Zsum b)%Z.
Proof. unfold Zsum at 1. rewrite fold_left_app. fold (Zsum a). apply Zsum_from. Qed.

Lemma Zsum_cons (x : Z) (l : list Z) : Zsum (x :: l) = (x + Zsum l)%Z.
Proof. change (x :: l) with ([x] ++ l). rewrite Zsum_app. reflexivity. Qed.

Lemma recalculated_is_current p : metrics_current (_recalculate_metrics p).
Proof. split; reflexivity. Qed.

(** The ways one round of the first loop ends. *)
Lemma add_repo_step_cases rt p m k r :
  (add_repo_step rt (p, m, k) r = (p, m, k)
   /\ existsb (fun n => Repository_eqb (repository n) r) (nodes p) = true)
  \/ (add_repo_step rt (p, m, k) r = (p, m, S k)
      /\ (learning_hours_estimate r < 0)%Z)
  \/ (let n := {| repository := r; node_id := uuid4 rt k;
                  prerequisite_nodes := []; dependent_nodes := [];
                  estimated_hours := learning_hours_estimate r;
                  status := NOT_STARTED |} in
      add_repo_step rt (p, m, k) r
      = (_recalculate_metrics (with_nodes p (nodes p ++ [n])),
         dict_set N.eqb (repository_id r) (uuid4 rt k) m, S k)
      /\ (0 <= learning_hours_estimate r)%Z
      /\ existsb (fun n => Repository_eqb (repository n) r) (nodes p) = false).
Proof.
  unfold add_repo_step, add_repository, LearningNode_new.
  destruct (existsb _ (nodes p)) eqn:E; [left; now split|].
  destruct (learning_hours_estimate r <? 0)%Z eqn:Eh.
  - right. left. split; [reflexivity|]. now apply Z.ltb_lt.
  - right. right. cbv zeta. split; [reflexivity|]. split; [|reflexivity].
    now apply Z.ltb_ge.
Qed.

Lemma same_path_found (ns : list LearningNode) (r : Repository) :
  existsb (fun n => Repository_eqb (repository n) r) ns = true
  <-> In (r_path r) (map (fun n => r_path (repository n)) ns).
Proof.
  rewrite existsb_exists, in_map_iff. unfold Repository_eqb.
  split; intros (n & H1 & H2).
  - exists n. apply String.eqb_eq in H2. auto.
  - exists n. split; [exact H2|]. apply String.eqb_eq. auto.
Qed.

Lemma dict_set_keys_in {V} (k x : UUID) (v : V) (d : list (UUID * V)) :
  In x (map fst (dict_set N.eqb k v d)) -> x = k \/ In x (map fst d).
Proof.
  induction d as [|[k0 v0] d IH]; simpl.
  - intros [H|[]]; auto.
  - destruct (N.eqb k k0) eqn:E; simpl; intros [H|H]; auto.
    destruct (IH H); auto.
Qed.

Lemma first_loop_step rt k0 l p m k r :
  first_loop_inv rt k0 l p m k ->
  let '(p', m', k') := add_repo_step rt (p, m, k) r in
  first_loop_inv rt k0 (l ++ [r]) p' m' k'.
Proof.
  intros [H1 Hcnt H2 Hd H3 Hst Hpc H4 H5 H6 H7 H8].
  assert (Hn3 : forall n, In n (nodes p) ->
                built_node n /\ prerequisite_nodes n = [] /\ In (repository n) (l ++ [r])).
  { intros n Hn. destruct (H3 n Hn) as (A & B & C).
    repeat split; try apply A; [exact B | apply in_or_app; now left]. }
  assert (Hn7 : forall rid, In rid (map fst m) -> In rid (map repository_id (l ++ [r]))).
  { intros rid Hr. rewrite map_app. apply in_or_app. left. now apply H7. }
  destruct (add_repo_step_cases rt p m k r) as [[E Hx]|[[E Hx]|(E & Hh & Hx)]];
    rewrite E; clear E.
  - constructor; auto.
    { rewrite length_app. simpl. lia. }
    intros r' Hr' Hh. apply in_app_or in Hr'. destruct Hr' as [Hr'|[<-|[]]]; [auto|].
    apply same_path_found in Hx. apply in_map_iff in Hx.
    destruct Hx as (n & Hp & Hn). exists n. auto.
  - constructor; auto.
    + rewrite length_app. simpl. lia.
    + intros n Hn. destruct (H2 n Hn) as (j & Hj & Ej). exists j. split; [lia|exact Ej].
    + intros r' Hr' Hh. apply in_app_or in Hr'. destruct Hr' as [Hr'|[<-|[]]]; [auto|lia].
  - set (n := {| repository := r; node_id := uuid4 rt k; prerequisite_nodes := [];
                 dependent_nodes := []; estimated_hours := learning_hours_estimate r;
                 status := NOT_STARTED |}).
    constructor; cbn [nodes _recalculate_metrics with_nodes].
    + lia.
    + rewrite !length_app. simpl. lia.
    + intros x Hx'. apply in_app_or in Hx'. destruct Hx' as [Hx'|[<-|[]]].
      * destruct (H2 x Hx') as (j & Hj & Ej). exists j. split; [lia|exact Ej].
      * exists k. split; [lia|reflexivity].
    + intro Hfresh. rewrite map_app. simpl. apply NoDup_app_snoc; [now apply Hd|].
      intro Hin. apply in_map_iff in Hin. destruct Hin as (x & Ex & Hx').
      destruct (H2 x Hx') as (j & Hj & Ej). rewrite Ej in Ex.
      apply Hfresh in Ex. lia.
    + intros x Hx'. apply in_app_or in Hx'. destruct Hx' as [Hx'|[<-|[]]]; [auto|].
      split; [|split]; [repeat split; simpl; auto | reflexivity |].
      simpl. apply in_or_app. right. now left.
    + intros x Hx'. apply in_app_or in Hx'. destruct Hx' as [Hx'|[<-|[]]]; auto.
    + assert (Hnone : filter is_completed (nodes p ++ [n]) = []).
      { apply filter_none. intros x Hx'. apply in_app_or in Hx'.
        unfold is_completed. destruct Hx' as [Hx'|[<-|[]]]; [|reflexivity].
        now rewrite (Hst x Hx'). }
      cbn [completion_percentage _recalculate_metrics with_nodes nodes].
      rewrite Hnone. simpl List.length.
      destruct (0 <? _)%Z; [|reflexivity].
      unfold Qdiv. change (inject_Z (Z.of_nat 0)) with 0%Q.
      rewrite Qmult_0_l. apply Qmult_0_l.
    + rewrite map_app. simpl. apply NoDup_app_snoc; [exact H4|].
      intro Hin. apply same_path_found in Hin. congruence.
    + apply recalculated_is_current.
    + intros rid nid Hg.
      rewrite (dict_get_set N.eqb N.eqb_eq) in Hg.
      destruct (N.eqb rid (repository_id r)) eqn:Er.
      * injection Hg as <-. apply N.eqb_eq in Er. subst rid.
        exists (List.length (nodes p)), n.
        rewrite nth_error_app2, Nat.sub_diag by lia. auto.
      * destruct (H6 rid nid Hg) as (i & x & Hi & Hx1 & Hx2).
        exists i, x. rewrite nth_error_app1; [auto|].
        apply nth_error_Some. congruence.
    + intros rid Hr. rewrite map_app. apply in_or_app.
      apply dict_set_keys_in in Hr. destruct Hr as [->|Hr].
      * right. now left.
      * left. now apply H7.
    + intros r' Hr' Hh'. apply in_app_or in Hr'. destruct Hr' as [Hr'|[<-|[]]].
      * destruct (H8 r' Hr' Hh') as (x & Hx1 & Hx2). exists x.
        split; [apply in_or_app; now left | exact Hx2].
      * exists n. split; [apply in_or_app; right; now left | reflexivity].
Qed.

Lemma first_loop_all rt k0 l :
  forall l0 p m k,
    first_loop_inv rt k0 l0 p m k ->
    let '(p', m', k') := fold_left (add_repo_step rt) l (p, m, k) in
    first_loop_inv rt k0 (l0 ++ l) p' m' k'.
Proof.
  induction l as [|r l IH]; intros l0 p m k Hinv.
  - simpl. now rewrite app_nil_r.
  - cbn [fold_left].
    pose proof (first_loop_step rt k0 l0 p m k r Hinv) as Hs.
    destruct (add_repo_step rt (p, m, k) r) as [[p1 m1] k1].
    specialize (IH (l0 ++ [r]) p1 m1 k1 Hs).
    rewrite <- app_assoc in IH. exact IH.
Qed.

Lemma ordered_pairs_snoc {A} (l : list A) (r s t : A) :
  In (s, t) (ordered_pairs (l ++ [r])) ->
  (In (s, t) (ordered_pairs l) /\ In t l) \/ (In s l /\ t = r).
Proof.
  induction l as [|a l IH]; simpl; [contradiction|].
  rewrite !in_app_iff, !in_map_iff. intros [(y & E & Hy)|H].
  - injection E as -> ->. apply in_app_or in Hy. destruct Hy as [Hy|[->|[]]].
    + left. split; [left; exists t; auto | now right].
    + right. auto.
  - destruct (IH H) as [[H1 H2]|[H1 H2]]; [left | right]; auto.
Qed.

Lemma ordered_pairs_in {A} (l : list A) (s t : A) :
  In (s, t) (ordered_pairs l) -> In s l /\ In t l.
Proof.
  induction l as [|a l IH]; simpl; [contradiction|].
  rewrite in_app_iff, in_map_iff. intros [(y & E & Hy)|H].
  - injection E as -> ->. auto.
  - destruct (IH H). auto.
Qed.

Lemma forward_step rt k0 l p m k r :
  first_loop_inv rt k0 l p m k ->
  NoDup (map repository_id (l ++ [r])) ->
  forward m (map node_id (nodes p)) l ->
  let '(p', m', k') := add_repo_step rt (p, m, k) r in
  forward m' (map node_id (nodes p')) (l ++ [r]).
Proof.
  intros Hinv Hnd Hf.
  assert (Hr : ~ In (repository_id r) (map repository_id l)).
  { rewrite map_app in Hnd. simpl in Hnd. apply NoDup_remove_2 in Hnd.
    now rewrite app_nil_r in Hnd. }
  assert (Hnone : dict_get N.eqb (repository_id r) m = None).
  { apply (dict_get_none N.eqb N.eqb_eq). intro H. apply Hr.
    exact (fl_keys _ _ _ _ _ _ Hinv _ H). }
  destruct (add_repo_step_cases rt p m k r) as [[E Hx]|[[E Hx]|(E & Hh & Hx)]];
    rewrite E; clear E.
  - intros s t Hst sid tid Hs Ht.
    apply ordered_pairs_snoc in Hst. destruct Hst as [[Hst _]|[_ ->]]; [eauto|].
    norm. congruence.
  - intros s t Hst sid tid Hs Ht.
    apply ordered_pairs_snoc in Hst. destruct Hst as [[Hst _]|[_ ->]]; [eauto|].
    norm. congruence.
  - cbn [nodes _recalculate_metrics with_nodes]. rewrite map_app. simpl.
    intros s t Hst sid tid Hs Ht.
    rewrite (dict_get_set N.eqb N.eqb_eq) in Hs, Ht.
    assert (Hother : forall x, In x l ->
                     N.eqb (repository_id x) (repository_id r) = false).
    { intros x Hx'. apply N.eqb_neq. intro E. apply Hr. rewrite <- E.
      now apply in_map. }
    apply ordered_pairs_snoc in Hst. destruct Hst as [[Hst Htl]|[Hsl ->]].
    + destruct (ordered_pairs_in _ _ _ Hst) as [Hsl _].
      rewrite (Hother s Hsl) in Hs. rewrite (Hother t Htl) in Ht.
      destruct (Hf s t Hst sid tid Hs Ht) as (i & j & Hij & Hi & Hj).
      exists i, j. split; [exact Hij|].
      split; (rewrite nth_error_app1; [assumption|]; apply nth_error_Some; congruence).
    + rewrite (Hother s Hsl) in Hs. rewrite N.eqb_refl in Ht. injection Ht as <-.
      destruct (fl_map _ _ _ _ _ _ Hinv _ _ Hs) as (i & n & Hi & Hn & _).
      assert (Hlt : (i < List.length (nodes p))%nat)
        by (apply nth_error_Some; congruence).
      exists i, (List.length (map node_id (nodes p))). split.
      * now rewrite length_map.
      * split.
        -- rewrite nth_error_app1 by (now rewrite length_map).
           rewrite nth_error_map, Hi. simpl. now rewrite Hn.
        -- now rewrite nth_error_app2, Nat.sub_diag by lia.
Qed.

Lemma forward_all rt k0 l :
  forall l0 p m k,
    first_loop_inv rt k0 l0 p m k ->
    NoDup (map repository_id (l0 ++ l)) ->
    forward m (map node_id (nodes p)) l0 ->
    let '(p', m', k') := fold_left (add_repo_step rt) l (p, m, k) in
    forward m' (map node_id (nodes p')) (l0 ++ l).
Proof.
  induction l as [|r l IH]; intros l0 p m k Hinv Hnd Hf.
  - simpl. now rewrite app_nil_r.
  - cbn [fold_left].
    assert (Hnd1 : NoDup (map repository_id (l0 ++ [r]))).
    { replace (l0 ++ r :: l) with ((l0 ++ [r]) ++ l) in Hnd
        by (now rewrite <- app_assoc).
      rewrite map_app in Hnd. now apply NoDup_app_remove_r in Hnd. }
    pose proof (first_loop_step rt k0 l0 p m k r Hinv) as Hs.
    pose proof (forward_step rt k0 l0 p m k r Hinv Hnd1 Hf) as Hf1.
    destruct (add_repo_step rt (p, m, k) r) as [[p1 m1] k1].
    replace (l0 ++ r :: l) with ((l0 ++ [r]) ++ l) in *
      by (now rewrite <- app_assoc).
    exact (IH (l0 ++ [r]) p1 m1 k1 Hs Hnd Hf1).
Qed.

(** ** The second loop of [build] *)

Lemma prerequisites_first_index (l : list LearningNode) :
  prerequisites_first l
  <-> forall j n, nth_error l j = Some n ->
      forall q, In q (prerequisite_nodes n) ->
      exists i, (i < j)%nat /\ nth_error (map node_id l) i = Some q.
Proof.
  split.
  - intros H j n Hj q Hq. apply nth_error_split in Hj.
    destruct Hj as (l1 & l2 & E & Hlen). specialize (H l1 n l2 E q Hq).
    apply In_nth_error in H. destruct H as [i Hi].
    assert (Hlt : (i < List.length (map node_id l1))%nat)
      by (apply nth_error_Some; congruence).
    exists i. rewrite length_map in Hlt. split; [lia|].
    rewrite E, map_app, nth_error_app1; [exact Hi | now rewrite length_map].
  - intros H l1 n l2 E q Hq.
    assert (Hj : nth_error l (List.length l1) = Some n).
    { rewrite E, nth_error_app2, Nat.sub_diag by lia. reflexivity. }
    destruct (H _ n Hj q Hq) as (i & Hi & Hn).
    rewrite E, map_app, nth_error_app1 in Hn by (now rewrite length_map).
    eapply nth_error_In; eassumption.
Qed.

Lemma replace_node_nth nid n' ns t :
  _get_node_by_id nid ns = Some t ->
  exists j, nth_error ns j = Some t
            /\ forall i, nth_error (replace_node nid n' ns) i
                         = if (i =? j)%nat then Some n' else nth_error ns i.
Proof.
  unfold _get_node_by_id.
  induction ns as [|x ns IH]; simpl; [discriminate|].
  destruct (N.eqb (node_id x) nid); intro H.
  - injection H as ->. exists 0%nat. split; [reflexivity|].
    intros [|i]; reflexivity.
  - destruct (IH H) as (j & Hj & Hr). exists (S j). split; [exact Hj|].
    intros [|i]; simpl; [reflexivity | apply Hr].
Qed.

Lemma replace_keeps_order ns sid tid t t' :
  NoDup (map node_id ns) ->
  prerequisites_first ns ->
  _get_node_by_id tid ns = Some t ->
  node_frame t' = node_frame t ->
  prerequisite_nodes t' = set_add N.eqb sid (prerequisite_nodes t) ->
  (exists i j, (i < j)%nat /\ nth_error (map node_id ns) i = Some sid
               /\ nth_error (map node_id ns) j = Some tid) ->
  prerequisites_first (replace_node tid t' ns).
Proof.
  intros Hnd Hord Ht Hf Hp (i0 & j0 & Hij & Hi0 & Hj0).
  pose proof (replace_node_frame tid t' ns t Ht Hf) as Hfr.
  pose proof (frames_ids _ _ Hfr) as Hids.
  destruct (replace_node_nth tid t' ns t Ht) as (j & Hj & Hr).
  destruct (get_node_found _ _ _ Ht) as [_ Hid].
  assert (j = j0) as ->.
  { apply (proj1 (NoDup_nth_error (map node_id ns)) Hnd).
    - rewrite length_map. apply nth_error_Some. congruence.
    - rewrite Hj0, nth_error_map, Hj. simpl. now rewrite Hid. }
  rewrite prerequisites_first_index in *. rewrite Hids.
  intros j1 n Hn q Hq. rewrite Hr in Hn.
  destruct (Nat.eqb_spec j1 j0) as [->|Hne].
  - injection Hn as <-. rewrite Hp in Hq. apply set_add_in in Hq.
    destruct Hq as [->|Hq]; [exists i0; auto | eauto].
  - eauto.
Qed.

Lemma second_loop_step rt m p k pair :
  NoDup (map node_id (nodes p)) ->
  prerequisites_first (nodes p) ->
  (forall sid tid,
      dict_get N.eqb (repository_id (fst (fst (fst pair)))) m = Some sid ->
      dict_get N.eqb (repository_id (snd (fst (fst pair)))) m = Some tid ->
      exists i j, (i < j)%nat /\ nth_error (map node_id (nodes p)) i = Some sid
                  /\ nth_error (map node_id (nodes p)) j = Some tid) ->
  prerequisites_first (nodes (fst (add_dep_step rt m (p, k) pair))).
Proof.
  intros Hnd Hord Hfw. destruct pair as [[[s t] ty] st]. simpl in Hfw.
  unfold add_dep_step.
  destruct (dict_get N.eqb (repository_id s) m) as [sid|] eqn:Es; [|exact Hord].
  destruct (dict_get N.eqb (repository_id t) m) as [tid|] eqn:Et; [|exact Hord].
  pose proof (add_dependency_cases rt k sid tid ty st "system" p) as Hc.
  cbv zeta in Hc.
  destruct (add_dependency rt k sid tid ty st "system" p) as [[r p'] k'].
  simpl in *.
  destruct Hc as [->|[(rel & ->)|(rel & sn & tn & t' & Hs & Ht & Ha & ->)]];
    [exact Hord | exact Hord |].
  cbn [nodes with_nodes with_dependencies].
  destruct (add_prerequisite_ok _ _ _ Ha) as (Hf & Hp & _).
  eapply replace_keeps_order; eauto.
Qed.

Lemma second_loop_frame rt m p k pair :
  let p' := fst (add_dep_step rt m (p, k) pair) in
  path_frame p' = path_frame p
  /\ (prerequisites_closed (nodes p) = true ->
      prerequisites_closed (nodes p') = true).
Proof.
  destruct pair as [[[s t] ty] st]. unfold add_dep_step.
  destruct (dict_get N.eqb (repository_id s) m) as [sid|]; [|simpl; auto].
  destruct (dict_get N.eqb (repository_id t) m) as [tid|]; [|simpl; auto].
  pose proof (add_dependency_frame rt k sid tid ty st "system" p) as Hc.
  cbv zeta in Hc.
  destruct (add_dependency rt k sid tid ty st "system" p) as [[r p'] k'].
  exact Hc.
Qed.

Lemma second_loop_frames rt m pairs : forall p k,
  let p' := fst (fold_left (add_dep_step rt m) pairs (p, k)) in
  path_frame p' = path_frame p
  /\ (prerequisites_closed (nodes p) = true ->
      prerequisites_closed (nodes p') = true).
Proof.
  induction pairs as [|pair pairs IH]; intros p k; [simpl; auto|].
  cbn [fold_left]. pose proof (second_loop_frame rt m p k pair) as H1.
  destruct (add_dep_step rt m (p, k) pair) as [p1 k1]. simpl in H1.
  specialize (IH p1 k1). cbv zeta in *. destruct IH as [H2 H3], H1 as [H4 H5].
  split; [congruence | auto].
Qed.

Lemma path_frame_ids p p' :
  path_frame p' = path_frame p -> map node_id (nodes p') = map node_id (nodes p).
Proof. intro H. apply frames_ids. unfold path_frame in H. congruence. Qed.

Lemma second_loop_order rt m pairs : forall p k,
  NoDup (map node_id (nodes p)) ->
  prerequisites_first (nodes p) ->
  (forall pair, In pair pairs ->
     forall sid tid,
      dict_get N.eqb (repository_id (fst (fst (fst pair)))) m = Some sid ->
      dict_get N.eqb (repository_id (snd (fst (fst pair)))) m = Some tid ->
      exists i j, (i < j)%nat /\ nth_error (map node_id (nodes p)) i = Some sid
                  /\ nth_error (map node_id (nodes p)) j = Some tid) ->
  prerequisites_first (nodes (fst (fold_left (add_dep_step rt m) pairs (p, k)))).
Proof.
  induction pairs as [|pair pairs IH]; intros p k Hnd Hord Hfw; [exact Hord|].
  cbn [fold_left].
  pose proof (second_loop_step rt m p k pair Hnd Hord (Hfw pair (or_introl eq_refl)))
    as H1.
  destruct (second_loop_frame rt m p k pair) as [H2 _].
  destruct (add_dep_step rt m (p, k) pair) as [p1 k1]. simpl in H1, H2.
  apply path_frame_ids in H2.
  apply IH; [now rewrite H2 | exact H1 |].
  intros pr Hpr sid tid Hs Ht. rewrite H2. apply (Hfw pr); auto. now right.
Qed.

(** ** The path [build] returns *)

Lemma new_path_facts rt k name description learner ap mp p0 :
  LearningPath_new rt k name description learner ap mp = Ok p0 ->
  nodes p0 = []
  /\ path_identity p0 = (name, description, learner, uuid4 rt k, DRAFT, ap, mp)
  /\ metrics_current p0
  /\ completion_percentage p0 = 0%Q.
Proof.
  unfold LearningPath_new.
  destruct (blank name); [discriminate|].
  destruct (blank learner); [discriminate|].
  destruct (mp <? 1)%Z; [discriminate|].
  intros [= <-]. repeat split.
Qed.

Lemma first_loop_identity rt l : forall p m k,
  path_identity (fst (fst (fold_left (add_repo_step rt) l (p, m, k))))
  = path_identity p.
Proof.
  induction l as [|r l IH]; intros p m k; [reflexivity|].
  cbn [fold_left].
  destruct (add_repo_step_cases rt p m k r) as [[E _]|[[E _]|(E & _)]];
    rewrite E, IH; reflexivity.
Qed.

Lemma frames_of a b : map node_frame b = map node_frame a ->
  map repository b = map repository a
  /\ map estimated_hours b = map estimated_hours a
  /\ map not_begun b = map not_begun a.
Proof.
  intro H.
  assert (E1 : forall l, map repository l
                         = map (fun c => snd (fst (fst c))) (map node_frame l))
    by (intro l; rewrite map_map; reflexivity).
  assert (E2 : forall l, map estimated_hours l
                         = map (fun c => fst (snd c)) (map node_frame l))
    by (intro l; rewrite map_map; reflexivity).
  assert (E3 : forall l, map not_begun l
                         = map (fun c => snd (snd c)) (map node_frame l))
    by (intro l; rewrite map_map; reflexivity).
  rewrite (E1 a), (E1 b), (E2 a), (E2 b), (E3 a), (E3 b), H. auto.
Qed.

Lemma build_loops rt k learner name repositories description ap mp exclude p :
  build rt k learner name repositories description ap mp exclude = Ok p ->
  let filtered :=
    py_sorted Z.ltb (get_recommended_learning_order rt)
      (filter (fun r => negb (mem N.eqb (repository_id r) exclude)) repositories) in
  exists p0 p1 m k1 k2,
    LearningPath_new rt k name description learner ap mp = Ok p0
    /\ fold_left (add_repo_step rt) filtered (p0, [], S k) = (p1, m, k1)
    /\ fold_left (add_dep_step rt m) (_detect_dependencies rt filtered) (p1, k1)
       = (p, k2).
Proof.
  unfold build. cbv zeta.
  destruct (LearningPath_new rt k name description learner ap mp) as [p0|e];
    [|discriminate].
  match goal with
  | |- context [fold_left (add_repo_step rt) ?l ?s] =>
      destruct (fold_left (add_repo_step rt) l s) as [[p1 m] k1] eqn:E1
  end.
  match goal with
  | |- context [fold_left (add_dep_step rt m) ?l ?s] =>
      destruct (fold_left (add_dep_step rt m) l s) as [p2 k2] eqn:E2
  end.
  intros [= <-]. exists p0, p1, m, k1, k2. auto.
Qed.

Lemma first_loop_start rt k0 p0 :
  nodes p0 = [] -> metrics_current p0 -> completion_percentage p0 = 0%Q ->
  first_loop_inv rt k0 [] p0 [] k0.
Proof.
  intros Hn Hm Hc. constructor; rewrite ?Hn; simpl; try contradiction;
    try discriminate; auto.
  - constructor.
  - rewrite Hc. reflexivity.
  - constructor.
Qed.

Lemma build_facts rt k learner name repositories description ap mp exclude p :
  build rt k learner name repositories description ap mp exclude = Ok p ->
  let filtered :=
    py_sorted Z.ltb (get_recommended_learning_order rt)
      (filter (fun r => negb (mem N.eqb (repository_id r) exclude)) repositories) in
  exists p1 m k1,
    first_loop_inv rt (S k) filtered p1 m k1
    /\ path_frame p = path_frame p1
    /\ path_identity p1 = (name, description, learner, uuid4 rt k, DRAFT, ap, mp)
    /\ prerequisites_closed (nodes p) = true
    /\ ((forall i j, uuid4 rt i = uuid4 rt j -> i = j) ->
        NoDup (map repository_id filtered) ->
        prerequisites_first (nodes p)).
Proof.
  intros Hb filtered.
  destruct (build_loops _ _ _ _ _ _ _ _ _ _ Hb)
    as (p0 & p1 & m & k1 & k2 & Hnew & H1 & H2).
  fold filtered in H1, H2.
  destruct (new_path_facts _ _ _ _ _ _ _ _ Hnew) as (Hn & Hid & Hm & Hc).
  pose proof (first_loop_start rt (S k) p0 Hn Hm Hc) as H0.
  pose proof (first_loop_all rt (S k) filtered [] p0 [] (S k) H0) as Hinv.
  pose proof (first_loop_identity rt filtered p0 [] (S k)) as Hid1.
  rewrite H1 in Hinv, Hid1. simpl in Hinv, Hid1.
  pose proof (second_loop_frames rt m (_detect_dependencies rt filtered) p1 k1)
    as Hfr.
  cbv zeta in Hfr. rewrite H2 in Hfr. simpl in Hfr. destruct Hfr as [Hfr Hcl].
  assert (Hclosed1 : prerequisites_closed (nodes p1) = true).
  { apply closed_spec. intros n q Hn' Hq.
    destruct (fl_nodes _ _ _ _ _ _ Hinv n Hn') as (_ & E & _).
    rewrite E in Hq. contradiction. }
  exists p1, m, k1. split; [exact Hinv|]. split; [exact Hfr|].
  split; [congruence|]. split; [auto|].
  intros Hfresh Hnd.
  pose proof (second_loop_order rt m (_detect_dependencies rt filtered) p1 k1) as Ho.
  rewrite H2 in Ho. simpl in Ho. apply Ho.
  - exact (fl_distinct _ _ _ _ _ _ Hinv Hfresh).
  - intros l1 n l2 E q Hq.
    destruct (fl_nodes _ _ _ _ _ _ Hinv n) as (_ & E' & _).
    { rewrite E. apply in_or_app. right. now left. }
    rewrite E' in Hq. contradiction.
  - intros [[[s t] ty] st] Hpair sid tid Hs Ht. simpl in Hs, Ht.
    rewrite detect_dependencies_pairs in Hpair. apply in_flat_map in Hpair.
    destruct Hpair as ([s0 t0] & Hst & He). unfold edges_of in He. simpl in He.
    destruct (_infer_dependency rt s0 t0) as [[ty0 st0]|]; [|contradiction].
    destruct He as [[= -> -> -> ->]|[]].
    assert (Hfw : forward m (map node_id (nodes p1)) filtered).
    { pose proof (forward_all rt (S k) filtered [] p0 [] (S k) H0 Hnd) as Hf.
      rewrite H1 in Hf. apply Hf. intros ? ? []. }
    exact (Hfw s t Hst sid tid Hs Ht).
Qed.

Lemma NoDup_map_filter {A B} (f : A -> B) (g : A -> bool) (l : list A) :
  NoDup (map f l) -> NoDup (map f (filter g l)).
Proof.
  induction l as [|x l IH]; simpl; intro H; [constructor|].
  inversion H as [|? ? Hx Hl]; subst.
  destruct (g x); simpl; [|auto]. constructor; [|auto].
  intro Hin. apply Hx. apply in_map_iff in Hin. destruct Hin as (y & E & Hy).
  apply filter_In in Hy. rewrite <- E. apply in_map. tauto.
Qed.

Lemma frame_in (a b : list LearningNode) (n : LearningNode) :
  map node_frame b = map node_frame a -> In n b ->
  exists n0, In n0 a /\ node_frame n = node_frame n0.
Proof.
  intros H Hn. apply (in_map node_frame) in Hn. rewrite H in Hn.
  apply in_map_iff in Hn. destruct Hn as (n0 & E & Hn0). exists n0. auto.
Qed.

Lemma frame_metrics p p1 :
  path_frame p = path_frame p1 -> metrics_current p1 -> metrics_current p.
Proof.
  unfold metrics_current. intros H [H1 H2].
  assert (Hn : map node_frame (nodes p) = map node_frame (nodes p1))
    by (unfold path_frame in H; congruence).
  assert (Ht : total_repositories p = total_repositories p1)
    by (unfold path_frame, path_head in H; congruence).
  assert (Hh : total_estimated_hours p = total_estimated_hours p1)
    by (unfold path_frame, path_head in H; congruence).
  destruct (frames_of _ _ Hn) as (_ & Eh & _).
  rewrite Ht, Hh, Eh, H1, H2. split; [|reflexivity].
  rewrite <- (length_map node_frame (nodes p)), Hn, length_map. reflexivity.
Qed.

Lemma built_path_facts (rt : Runtime) (k : nat)
  (learner name description : string) (repositories : list Repository)
  (allow_parallel : bool) (max_parallel : Z) (exclude_ids : list UUID)
  (p : LearningPath) :
  (forall i j, uuid4 rt i = uuid4 rt j -> i = j) ->
  build rt k learner name repositories description allow_parallel max_parallel
        exclude_ids = Ok p ->
  NoDup (map node_id (nodes p))
  /\ prerequisites_closed (nodes p) = true
  /\ metrics_current p.
Proof.
  intros Hfresh Hb.
  destruct (build_facts _ _ _ _ _ _ _ _ _ _ Hb) as (p1 & m & k1 & Hinv & Hfr & _ & Hc & _).
  split; [|split; [exact Hc|]].
  - rewrite (path_frame_ids _ _ Hfr). exact (fl_distinct _ _ _ _ _ _ Hinv Hfresh).
  - exact (frame_metrics _ _ Hfr (fl_metrics _ _ _ _ _ _ Hinv)).
Qed.


(** The path [build] returns is well formed: the node ids are pairwise
    distinct, every prerequisite id names a node of the path, and the
    totals the path records are those of its nodes. *)
Theorem build_path_is_well_formed (rt : Runtime) (k : nat)
  (learner name description : string) (repositories : list Repository)
  (allow_parallel : bool) (max_parallel : Z) (exclude_ids : list UUID)
  (p : LearningPath) :
  (forall i j, uuid4 rt i = uuid4 rt j -> i = j) ->
  build rt k learner name repositories description allow_parallel max_parallel
        exclude_ids = Ok p ->
  NoDup (map node_id (nodes p))
  /\ prerequisites_closed (nodes p) = true
  /\ metrics_current p.
Proof.
  exact (built_path_facts rt k learner name description repositories
           allow_parallel max_parallel exclude_ids p).
Qed.

(** The path of the three repositories of the web site. *)
Lemma build_path_is_well_formed_witness :
  NoDup (map node_id (nodes site_path))
  /\ prerequisites_closed (nodes site_path) = true
  /\ metrics_current site_path.
Proof.
  apply (build_path_is_well_formed rt0 0 "learner-1" "My Path" "" site_repos
           false 3 [] site_path).
  - intros i j H. apply Nat2N.inj in H. lia.
  - vm_compute. reflexivity.
Defined.

Lemma built_nodes_facts (rt : Runtime) (k : nat)
  (learner name description : string) (repositories : list Repository)
  (allow_parallel : bool) (max_parallel : Z) (exclude_ids : list UUID)
  (p : LearningPath) :
  build rt k learner name repositories description allow_parallel max_parallel
        exclude_ids = Ok p ->
  (forall n, In n (nodes p) ->
     In (repository n) repositories
     /\ mem N.eqb (repository_id (repository n)) exclude_ids = false
     /\ estimated_hours n = learning_hours_estimate (repository n)
     /\ (0 <= estimated_hours n)%Z)
  /\ NoDup (map (fun n => r_path (repository n)) (nodes p))
  /\ (forall r, In r repositories ->
        mem N.eqb (repository_id r) exclude_ids = false ->
        (0 <= learning_hours_estimate r)%Z ->
        exists n, In n (nodes p) /\ r_path (repository n) = r_path r).
Proof.
  intro Hb.
  destruct (build_facts _ _ _ _ _ _ _ _ _ _ Hb) as (p1 & m & k1 & Hinv & Hfr & _).
  assert (Hn : map node_frame (nodes p) = map node_frame (nodes p1)).
  { unfold path_frame in Hfr. congruence. }
  destruct (frames_of _ _ Hn) as (Hrepo & _ & _).
  assert (Hsorted : forall r,
            In r (py_sorted Z.ltb (get_recommended_learning_order rt)
                    (filter (fun r => negb (mem N.eqb (repository_id r) exclude_ids))
                            repositories))
            <-> In r repositories
                /\ mem N.eqb (repository_id r) exclude_ids = false).
  { intro r. split; intro H.
    - apply (Permutation_in r (py_sorted_perm _ _)) in H. apply filter_In in H.
      destruct H as [H1 H2]. apply negb_true_iff in H2. auto.
    - apply (Permutation_in r (Permutation_sym (py_sorted_perm _ _))).
      apply filter_In. destruct H as [H1 H2]. rewrite H2. auto. }
  split; [|split].
  - intros n Hin. destruct (frame_in _ _ n Hn Hin) as (n0 & Hn0 & E).
    destruct (fl_nodes _ _ _ _ _ _ Hinv n0 Hn0) as ((Hh & Hpos & _) & _ & Hr).
    assert (Er : repository n = repository n0)
      by (unfold node_frame in E; congruence).
    assert (Eh : estimated_hours n = estimated_hours n0)
      by (unfold node_frame in E; congruence).
    rewrite Er, Eh.
    apply Hsorted in Hr. destruct Hr as [Hr1 Hr2]. auto.
  - replace (map (fun n => r_path (repository n)) (nodes p))
      with (map r_path (map repository (nodes p))) by (now rewrite map_map).
    rewrite Hrepo, map_map. exact (fl_paths _ _ _ _ _ _ Hinv).
  - intros r Hr Hex Hh.
    destruct (fl_covers _ _ _ _ _ _ Hinv r) as (n1 & Hn1 & Hp); [|exact Hh|].
    { apply Hsorted. auto. }
    apply (in_map node_frame) in Hn1. rewrite <- Hn in Hn1.
    apply in_map_iff in Hn1. destruct Hn1 as (n & E & Hin).
    exists n. split; [exact Hin|].
    assert (Er : repository n = repository n1)
      by (unfold node_frame in E; congruence).
    now rewrite Er.
Qed.


(** The nodes of the path [build] returns: each holds one of the given
    repositories that is not excluded, with the hours of the repository,
    which are not negative; no two nodes hold repositories of the same
    path; and every repository that is not excluded and whose hours are
    not negative has a node for its path. *)
Theorem build_includes_eligible_repositories (rt : Runtime) (k : nat)
  (learner name description : string) (repositories : list Repository)
  (allow_parallel : bool) (max_parallel : Z) (exclude_ids : list UUID)
  (p : LearningPath) :
  build rt k learner name repositories description allow_parallel max_parallel
        exclude_ids = Ok p ->
  (forall n, In n (nodes p) ->
     In (repository n) repositories
     /\ mem N.eqb (repository_id (repository n)) exclude_ids = false
     /\ estimated_hours n = learning_hours_estimate (repository n)
     /\ (0 <= estimated_hours n)%Z)
  /\ NoDup (map (fun n => r_path (repository n)) (nodes p))
  /\ (forall r, In r repositories ->
        mem N.eqb (repository_id r) exclude_ids = false ->
        (0 <= learning_hours_estimate r)%Z ->
        exists n, In n (nodes p) /\ r_path (repository n) = r_path r).
Proof.
  exact (built_nodes_facts rt k learner name description repositories
           allow_parallel max_parallel exclude_ids p).
Qed.

(** The path of the three repositories of the web site, the CSS one
    excluded. *)
Lemma build_includes_eligible_repositories_witness :
  exists p,
    build rt0 0 "learner-1" "My Path" site_repos "" false 3 [5%N] = Ok p
    /\ map (fun n => r_name (repository n)) (nodes p) = ["html-basics"; "web-site"]
    /\ NoDup (map (fun n => r_path (repository n)) (nodes p)).
Proof.
  eexists. split; [vm_compute; reflexivity|]. split; [vm_compute; reflexivity|].
  eapply (build_includes_eligible_repositories rt0 0 "learner-1" "My Path" ""
            site_repos false 3 [5%N]).
  vm_compute. reflexivity.
Defined.

Lemma built_path_order (rt : Runtime) (k : nat)
  (learner name description : string) (repositories : list Repository)
  (allow_parallel : bool) (max_parallel : Z) (exclude_ids : list UUID)
  (p : LearningPath) :
  (forall i j, uuid4 rt i = uuid4 rt j -> i = j) ->
  NoDup (map repository_id repositories) ->
  build rt k learner name repositories description allow_parallel max_parallel
        exclude_ids = Ok p ->
  NoDup (map node_id (nodes p)) /\ prerequisites_first (nodes p).
Proof.
  intros Hfresh Hnd Hb.
  destruct (build_facts _ _ _ _ _ _ _ _ _ _ Hb)
    as (p1 & m & k1 & Hinv & Hfr & _ & _ & Ho).
  split.
  - rewrite (path_frame_ids _ _ Hfr). exact (fl_distinct _ _ _ _ _ _ Hinv Hfresh).
  - apply Ho; [exact Hfresh|].
    eapply Permutation_NoDup.
    + apply Permutation_map. apply Permutation_sym. apply py_sorted_perm.
    + now apply NoDup_map_filter.
Qed.

(** Built from repositories with pairwise distinct ids, the path is in a
    learning order as it stands: every prerequisite of a node is an
    earlier node of the path; and [_topological_sort] returns on it. *)
Theorem build_path_is_in_learning_order (rt : Runtime) (k : nat)
  (learner name description : string) (repositories : list Repository)
  (allow_parallel : bool) (max_parallel : Z) (exclude_ids : list UUID)
  (p : LearningPath) :
  runtime_ok rt ->
  NoDup (map repository_id repositories) ->
  build rt k learner name repositories description allow_parallel max_parallel
        exclude_ids = Ok p ->
  prerequisites_first (nodes p)
  /\ exists l, _topological_sort rt p = Ok l.
Proof.
  intros Hrt Hnd Hb.
  destruct (built_path_order rt k learner name description repositories
              allow_parallel max_parallel exclude_ids p
              (uuid4_fresh rt Hrt) Hnd Hb) as [Hids Ho].
  split; [exact Ho|].
  exact (orderable_is_sorted rt p (nodes p) (iter_ids_perm rt Hrt) Hids
           (Permutation_refl _) Ho).
Qed.

(** The three repositories of the web site have distinct ids. *)
Lemma build_path_is_in_learning_order_witness :
  prerequisites_first (nodes site_path)
  /\ exists l, _topological_sort rt0 site_path = Ok l.
Proof.
  apply (build_path_is_in_learning_order rt0 0 "learner-1" "My Path" ""
           site_repos false 3 [] site_path).
  - run_ok.
  - apply distinct_NoDup. vm_compute. reflexivity.
  - vm_compute. reflexivity.
Defined.

End Builder.

(** ** The response of [generate] *)

Lemma group_items (rt : Runtime) (l : list LearningNode) :
  Permutation (flat_map mg_nodes (MilestoneGrouperService.group rt l))
              (map snd (items_from rt 0 l)).
Proof.
  rewrite group_by_phase, flat_map_group_of. simpl. rewrite app_nil_r.
  apply Permutation_sym, partition_by_phase.
Qed.

Lemma items_of_nodes {B} (f : NodeItem -> B) (g : LearningNode -> B) rt :
  (forall n i, f (MilestoneGrouperService._node_to_item rt n i) = g n) ->
  forall l i, map f (map snd (items_from rt i l)) = map g l.
Proof.
  intros H l. induction l as [|n l IH]; intro i; simpl; [reflexivity|].
  now rewrite H, IH.
Qed.

Lemma group_counts (gs : list MilestoneGroup) :
  Zsum (map repository_count gs) = Z.of_nat (List.length (flat_map mg_nodes gs)).
Proof.
  induction gs as [|g gs IH]; [reflexivity|].
  simpl. rewrite Zsum_cons, IH, length_app. unfold repository_count. lia.
Qed.

Lemma group_hours (gs : list MilestoneGroup) :
  Zsum (map mg_estimated_hours gs)
  = Zsum (map ni_estimated_hours (flat_map mg_nodes gs)).
Proof.
  induction gs as [|g gs IH]; [reflexivity|].
  simpl. rewrite Zsum_cons, IH, map_app, Zsum_app. reflexivity.
Qed.

Lemma cores_of a b :
  Permutation (map node_core a) (map node_core b) ->
  Permutation (map estimated_hours a) (map estimated_hours b)
  /\ Permutation (map status a) (map status b)
  /\ Permutation (map repository a) (map repository b)
  /\ List.length a = List.length b.
Proof.
  intro H.
  assert (E1 : forall l, map estimated_hours l
                         = map (fun c => snd (fst c)) (map node_core l))
    by (intro l; rewrite map_map; reflexivity).
  assert (E2 : forall l, map status l = map snd (map node_core l))
    by (intro l; rewrite map_map; reflexivity).
  assert (E3 : forall l, map repository l
                         = map (fun c => snd (fst (fst (fst c)))) (map node_core l))
    by (intro l; rewrite map_map; reflexivity).
  rewrite (E1 a), (E1 b), (E2 a), (E2 b), (E3 a), (E3 b).
  repeat split; try (now apply Permutation_map).
  apply Permutation_length in H. now rewrite !length_map in H.
Qed.

Lemma none_selected {A} (f : A -> bool) (l : list A) :
  (forall x, In x l -> f x = false) -> filter f l = [].
Proof. intro H. apply filter_none. exact H. Qed.

Lemma firstn_in {A} (n : nat) (l : list A) (x : A) :
  In x (firstn n l) -> In x l.
Proof.
  revert n. induction l as [|y l IH]; intros [|n]; simpl; try tauto.
  intros [H|H]; eauto.
Qed.

Lemma NoDup_map_firstn {A B} (f : A -> B) (n : nat) (l : list A) :
  NoDup (map f l) -> NoDup (map f (firstn n l)).
Proof.
  intro H. rewrite <- (firstn_skipn n l), map_app in H.
  now apply NoDup_app_remove_r in H.
Qed.

Lemma filter_by_skill_in (types : list string) (repos : list Repository)
  (r : Repository) :
  In r (PathGeneratorService._filter_by_skill repos types)
  <-> In r repos /\ matches_skills types r.
Proof.
  unfold PathGeneratorService._filter_by_skill, matches_skills.
  destruct types as [|t types]; [tauto|].
  rewrite filter_In. split; intros [H1 H2]; (split; [exact H1|]).
  - right. destruct (primary_skill r) as [s|]; [|now left].
    right. exists s. split; [reflexivity|].
    now apply (mem_In String.eqb String.eqb_eq).
  - destruct H2 as [H2|[H2|(s & H2 & H3)]]; [discriminate | now rewrite H2 |].
    rewrite H2. now apply (mem_In String.eqb String.eqb_eq).
Qed.

Lemma selected_in request repos r :
  In r (fst (selection request repos)) ->
  In r (PathGeneratorService._filter_by_skill repos (target_skill_types request)).
Proof.
  unfold selection. cbv zeta. cbn [fst].
  destruct (max_repositories request) as [m|]; [|auto].
  destruct (andb _ _); [|auto].
  unfold PathGeneratorService.slice_to.
  destruct (m <? 0)%Z; apply firstn_in.
Qed.

Lemma selected_NoDup {B} (f : Repository -> B) request repos :
  NoDup (map f repos) -> NoDup (map f (fst (selection request repos))).
Proof.
  intro H.
  assert (H1 : NoDup (map f (PathGeneratorService._filter_by_skill repos
                               (target_skill_types request)))).
  { unfold PathGeneratorService._filter_by_skill.
    destruct (target_skill_types request); [exact H|].
    now apply NoDup_map_filter. }
  unfold selection. cbv zeta. cbn [fst].
  destruct (max_repositories request) as [m|]; [|exact H1].
  destruct (andb _ _); [|exact H1].
  unfold PathGeneratorService.slice_to.
  destruct (m <? 0)%Z; now apply NoDup_map_firstn.
Qed.

Lemma selected_length request repos m :
  max_repositories request = Some m -> (0 < m)%Z ->
  (Z.of_nat (List.length (fst (selection request repos))) <= m)%Z.
Proof.
  intros Hm Hpos. unfold selection. cbv zeta. cbn [fst]. rewrite Hm.
  destruct (m =? 0)%Z eqn:E0; [apply Z.eqb_eq in E0; lia|]. cbn [negb andb].
  destruct (m <? Z.of_nat _)%Z eqn:E1.
  - unfold PathGeneratorService.slice_to.
    destruct (m <? 0)%Z eqn:E2; [apply Z.ltb_lt in E2; lia|].
    rewrite length_firstn. lia.
  - apply Z.ltb_ge in E1. exact E1.
Qed.

Section Generated.
Variable UUID_of_str : string -> option UUID.

Lemma parse_ids_raises ids e :
  PathGeneratorService.parse_ids UUID_of_str ids = Raise e -> e = ValueError.
Proof.
  induction ids as [|s ids IH]; simpl; [discriminate|].
  destruct s as [|c s]; [exact IH|].
  destruct (UUID_of_str (String c s)); [|now intros [= <-]].
  destruct (PathGeneratorService.parse_ids UUID_of_str ids); [discriminate|].
  intros [= <-]. now apply IH.
Qed.

Lemma build_raises rt k learner name repositories description ap mp exclude e :
  GraphBuilderService.build rt k learner name repositories description ap mp exclude
  = Raise e ->
  exists field, e = ValidationError field
                /\ (blank name = true \/ blank learner = true \/ (mp < 1)%Z).
Proof.
  unfold GraphBuilderService.build, LearningPath_new. cbv zeta.
  destruct (blank name) eqn:E1; [intros [= <-]; eauto|].
  destruct (blank learner) eqn:E2; [intros [= <-]; eauto|].
  destruct (mp <? 1)%Z eqn:E3; [intros [= <-]; apply Z.ltb_lt in E3; eauto 6|].
  match goal with
  | |- context [fold_left (GraphBuilderService.add_repo_step rt) ?l ?s] =>
      destruct (fold_left (GraphBuilderService.add_repo_step rt) l s) as [[p1 m] k1]
  end.
  match goal with
  | |- context [fold_left (GraphBuilderService.add_dep_step rt m) ?l ?s] =>
      destruct (fold_left (GraphBuilderService.add_dep_step rt m) l s) as [p2 k2]
  end.
  discriminate.
Qed.

Lemma invalid_request request :
  blank (rq_name request) = true \/ blank (rq_learner_id request) = true
  \/ (rq_max_parallel_nodes request < 1)%Z ->
  GenerateLearningPathRequest_post_init request = Raise ValueError.
Proof.
  unfold GenerateLearningPathRequest_post_init.
  intros [H|[H|H]].
  - rewrite H. now destruct (blank (rq_learner_id request)).
  - now rewrite H.
  - apply Z.ltb_lt in H. rewrite H.
    destruct (blank (rq_learner_id request)), (blank (rq_name request)); reflexivity.
Qed.

Lemma valid_request request :
  GenerateLearningPathRequest_post_init request = Ok tt ->
  blank (rq_name request) = false /\ blank (rq_learner_id request) = false
  /\ (rq_max_parallel_nodes request <? 1)%Z = false.
Proof.
  unfold GenerateLearningPathRequest_post_init.
  destruct (blank (rq_learner_id request)); [discriminate|].
  destruct (blank (rq_name request)); [discriminate|].
  destruct (rq_max_parallel_nodes request <? 1)%Z; [discriminate|]. auto.
Qed.

Lemma apply_with_raises imported ms o os e log :
  OverrideManagerService.apply_with imported ms (o :: os) = (Raise e, log) ->
  imported = Raise e.
Proof.
  unfold OverrideManagerService.apply_with.
  destruct (fold_left OverrideManagerService.apply_one (o :: os) _) as [[m skip] lg].
  destruct imported; [discriminate|]. now intros [= <- _].
Qed.

Lemma apply_with_import_fails ms o os :
  exists log,
    OverrideManagerService.apply_with OverrideManagerService.import_MILESTONE_ORDER
      ms (o :: os)
    = (Raise (ImportError "_MILESTONE_ORDER"), log).
Proof.
  unfold OverrideManagerService.apply_with.
  destruct (fold_left OverrideManagerService.apply_one (o :: os) _) as [[m skip] lg].
  now exists lg.
Qed.

(** The path and the sorted nodes behind a response. *)
Lemma generate_ok rt request repositories pending resp log :
  PathGeneratorService.generate UUID_of_str rt request repositories pending
  = (Ok resp, log) ->
  exists us p l p',
    PathGeneratorService.parse_ids UUID_of_str (exclude_repository_ids request) = Ok us
    /\ GraphBuilderService.build rt 0 (rq_learner_id request) (rq_name request)
         (fst (selection request repositories)) (rq_description request)
         (rq_allow_parallel_learning request) (rq_max_parallel_nodes request) us
       = Ok p
    /\ TopologicalSorterService.sort rt p = (Ok l, p')
    /\ log = []
    /\ milestones resp = MilestoneGrouperService.group rt l
    /\ (rs_path_id resp, rs_learner_id resp, rs_name resp, rs_status resp)
       = (path_id p', learner_id p', lp_name p', PathStatus_value (lp_status p'))
    /\ (rs_total_repositories resp, rs_total_estimated_hours resp,
        rs_completion_percentage resp)
       = (total_repositories p', total_estimated_hours p', completion_percentage p')
    /\ generation_stats resp
       = PathGeneratorService.get_learning_statistics p' (List.length repositories).
Proof.
  unfold PathGeneratorService.generate. rewrite generate_with_respond.
  destruct (PathGeneratorService.parse_ids _ _) as [us|e]; [|discriminate].
  destruct (GraphBuilderService.build _ _ _ _ _ _ _ _ _) as [p|e] eqn:Eb;
    [|discriminate].
  unfold respond.
  destruct (TopologicalSorterService.sort rt p) as [[l|e] p'] eqn:Es;
    [|discriminate].
  intro H. exists us, p, l, p'.
  split; [reflexivity|]. split; [first [reflexivity | exact Eb]|].
  split; [first [reflexivity | exact Es]|].
  destruct pending as [[|o os]|].
  - injection H as <- <-. repeat split.
  - destruct (apply_with_import_fails (MilestoneGrouperService.group rt l) o os)
      as [lg E].
    cbv zeta in H. rewrite E in H. discriminate.
  - injection H as <- <-. repeat split.
Qed.

Lemma built_not_begun rt k0 filtered p p1 m k1 :
  first_loop_inv rt k0 filtered p1 m k1 ->
  path_frame p = path_frame p1 ->
  forall n, In n (nodes p) -> not_begun n = true.
Proof.
  intros Hinv Hfr n Hn.
  assert (Hf : map node_frame (nodes p) = map node_frame (nodes p1))
    by (unfold path_frame in Hfr; congruence).
  destruct (frame_in _ _ n Hf Hn) as (n0 & Hn0 & E).
  assert (En : not_begun n = not_begun n0)
    by (unfold node_frame in E; congruence).
  rewrite En. unfold not_begun. now rewrite (fl_status _ _ _ _ _ _ Hinv n0 Hn0).
Qed.

Lemma core_in (a b : list LearningNode) (n : LearningNode) :
  Permutation (map node_core a) (map node_core b) -> In n a ->
  exists n0, In n0 b /\ node_core n = node_core n0.
Proof.
  intros H Hn. apply (in_map node_core) in Hn.
  apply (Permutation_in _ H) in Hn. apply in_map_iff in Hn.
  destruct Hn as (n0 & E & Hn0). exists n0. auto.
Qed.

Lemma identity_of_head p p' :
  path_head p' = path_head p -> path_identity p' = path_identity p.
Proof. unfold path_head, path_identity. congruence. Qed.

(** The path behind a response: what [build] made, what [sort] left. *)
Lemma generate_path rt request repositories pending resp log :
  PathGeneratorService.generate UUID_of_str rt request repositories pending
  = (Ok resp, log) ->
  exists us p1 m k1 p l p',
    PathGeneratorService.parse_ids UUID_of_str (exclude_repository_ids request) = Ok us
    /\ first_loop_inv rt 1
         (py_sorted Z.ltb (get_recommended_learning_order rt)
            (filter (fun r => negb (mem N.eqb (repository_id r) us))
                    (fst (selection request repositories))))
         p1 m k1
    /\ path_frame p = path_frame p1
    /\ path_identity p1
       = (rq_name request, rq_description request, rq_learner_id request,
          uuid4 rt 0, DRAFT, rq_allow_parallel_learning request,
          rq_max_parallel_nodes request)
    /\ l = nodes p'
    /\ Permutation (map node_core l) (map node_core (nodes p))
    /\ path_head p' = path_head p
    /\ milestones resp = MilestoneGrouperService.group rt l
    /\ (rs_path_id resp, rs_learner_id resp, rs_name resp, rs_status resp)
       = (path_id p', learner_id p', lp_name p', PathStatus_value (lp_status p'))
    /\ (rs_total_repositories resp, rs_total_estimated_hours resp,
        rs_completion_percentage resp)
       = (total_repositories p', total_estimated_hours p', completion_percentage p')
    /\ generation_stats resp
       = PathGeneratorService.get_learning_statistics p' (List.length repositories).
Proof.
  intro H. destruct (generate_ok _ _ _ _ _ _ H)
    as (us & p & l & p' & Hus & Hb & Hs & _ & Hm & H1 & H2 & H3).
  destruct (build_facts _ _ _ _ _ _ _ _ _ _ Hb)
    as (p1 & m & k1 & Hinv & Hfr & Hid & _).
  destruct (sort_result rt p p' l Hs) as (Hl & Hp & _ & Hh).
  exists us, p1, m, k1, p, l, p'.
  repeat match goal with |- _ /\ _ => split; [assumption|] end. assumption.
Qed.

(** The figures of a response agree: it names the learner and the path of
    the request, its status is [draft] and its id the first uuid4 of the
    run; its totals are those of its milestones and of its statistics;
    nothing is completed and nothing in progress. *)
Theorem response_is_consistent (rt : Runtime)
  (request : GenerateLearningPathRequest) (repositories : list Repository)
  (pending : option (list OverrideManagerService.OverrideInstruction))
  (resp : LearningPathResponse) (log : list OverrideManagerService.LogRecord) :
  PathGeneratorService.generate UUID_of_str rt request repositories pending
  = (Ok resp, log) ->
  (rs_path_id resp = uuid4 rt 0
   /\ rs_learner_id resp = rq_learner_id request
   /\ rs_name resp = rq_name request
   /\ rs_status resp = "draft")
  /\ (rs_total_repositories resp = Zsum (map repository_count (milestones resp))
      /\ rs_total_estimated_hours resp
         = Zsum (map mg_estimated_hours (milestones resp))
      /\ (rs_completion_percentage resp == 0)%Q)
  /\ (st_total_repositories (generation_stats resp) = rs_total_repositories resp
      /\ st_repositories_included (generation_stats resp)
         = rs_total_repositories resp
      /\ st_repositories_considered (generation_stats resp)
         = Z.of_nat (List.length repositories)
      /\ st_total_estimated_hours (generation_stats resp)
         = rs_total_estimated_hours resp
      /\ st_remaining_hours (generation_stats resp) = rs_total_estimated_hours resp
      /\ st_completed_repositories (generation_stats resp) = 0%Z
      /\ st_in_progress_repositories (generation_stats resp) = 0%Z).
Proof.
  intro H. destruct (generate_path _ _ _ _ _ _ H)
    as (us & p1 & m & k1 & p & l & p' & _ & Hinv & Hfr & Hid & Hl & Hp & Hh
        & Hm & H1 & H2 & H3).
  assert (Hidp : path_identity p' = path_identity p1).
  { rewrite (identity_of_head _ _ Hh). unfold path_frame in Hfr.
    apply identity_of_head. congruence. }
  rewrite Hid in Hidp. unfold path_identity in Hidp.
  destruct (frame_metrics _ _ Hfr (fl_metrics _ _ _ _ _ _ Hinv)) as [Mr Mh].
  assert (Ht : total_repositories p' = total_repositories p
               /\ total_estimated_hours p' = total_estimated_hours p
               /\ completion_percentage p' = completion_percentage p1).
  { unfold path_frame in Hfr. unfold path_head in *. repeat split; congruence. }
  destruct Ht as (Ht1 & Ht2 & Ht3).
  destruct (cores_of _ _ Hp) as (Ph & Ps & _ & Plen).
  assert (Hnb : forall n, In n l -> not_begun n = true).
  { intros n Hn. destruct (core_in _ _ n Hp Hn) as (n0 & Hn0 & E).
    pose proof (built_not_begun _ _ _ _ _ _ _ Hinv Hfr n0 Hn0) as Hb.
    unfold not_begun in *. replace (status n) with (status n0); [exact Hb|].
    unfold node_core in E. congruence. }
  assert (Hnc : filter is_completed l = []).
  { apply filter_none. intros n Hn. specialize (Hnb n Hn).
    unfold not_begun in Hnb. unfold is_completed. now destruct (status n). }
  assert (Hni : filter is_in_progress l = []).
  { apply filter_none. intros n Hn. specialize (Hnb n Hn).
    unfold not_begun in Hnb. unfold is_in_progress. now destruct (status n). }
  assert (Hcount : total_repositories p' = Z.of_nat (List.length l))
    by (rewrite Ht1, Mr, Plen; reflexivity).
  assert (Hhours : total_estimated_hours p' = Zsum (map estimated_hours l))
    by (rewrite Ht2, Mh; apply Zsum_perm, Permutation_sym, Ph).
  injection H1 as -> -> -> ->. injection H2 as -> -> ->.
  rewrite H3, Hm. unfold PathGeneratorService.get_learning_statistics.
  cbn [st_total_repositories st_repositories_included st_repositories_considered
       st_total_estimated_hours st_remaining_hours st_completed_repositories
       st_in_progress_repositories].
  rewrite <- Hl, Hnc, Hni.
  split; [|split].
  - repeat split; try congruence.
    replace (lp_status p') with DRAFT by congruence. reflexivity.
  - split; [|split].
    + rewrite group_counts, (Permutation_length (group_items rt l)), length_map.
      rewrite Hcount. f_equal. clear. generalize 0%Z.
      induction l as [|n l IH]; intro i; simpl; [reflexivity|].
      now rewrite <- IH.
    + rewrite group_hours, (Zsum_perm _ _ (Permutation_map _ (group_items rt l))).
      rewrite (items_of_nodes ni_estimated_hours estimated_hours rt);
        [exact Hhours | reflexivity].
    + rewrite Ht3. exact (fl_percentage _ _ _ _ _ _ Hinv).
  - rewrite Hcount, Hhours. repeat split; try reflexivity.
    change (Zsum (map estimated_hours [])) with 0%Z. lia.
Qed.

(** With a limit [max_repositories] above zero, a response holds no more
    repositories than the limit. *)
Theorem generate_respects_cap (rt : Runtime)
  (request : GenerateLearningPathRequest) (repositories : list Repository)
  (pending : option (list OverrideManagerService.OverrideInstruction))
  (resp : LearningPathResponse) (log : list OverrideManagerService.LogRecord)
  (limit : Z) :
  PathGeneratorService.generate UUID_of_str rt request repositories pending
  = (Ok resp, log) ->
  max_repositories request = Some limit -> (0 < limit)%Z ->
  (rs_total_repositories resp <= limit)%Z
  /\ (Z.of_nat (List.length (flat_map mg_nodes (milestones resp))) <= limit)%Z.
Proof.
  intros H Hm Hpos. destruct (generate_path _ _ _ _ _ _ H)
    as (us & p1 & m & k1 & p & l & p' & _ & Hinv & Hfr & _ & Hl & Hp & Hh
        & Hms & _ & H2 & _).
  destruct (frame_metrics _ _ Hfr (fl_metrics _ _ _ _ _ _ Hinv)) as [Mr _].
  assert (Ht : total_repositories p' = total_repositories p)
    by (unfold path_head in Hh; congruence).
  assert (Hlen : List.length (nodes p) = List.length (nodes p1)).
  { unfold path_frame in Hfr.
    rewrite <- (length_map node_frame (nodes p)), <- (length_map node_frame (nodes p1)).
    congruence. }
  pose proof (fl_count _ _ _ _ _ _ Hinv) as Hc.
  rewrite (Permutation_length (py_sorted_perm _ _)) in Hc.
  pose proof (filter_length_le
                (fun r => negb (mem N.eqb (repository_id r) us))
                (fst (selection request repositories))) as Hf.
  pose proof (selected_length request repositories limit Hm Hpos) as Hs.
  destruct (cores_of _ _ Hp) as (_ & _ & _ & Plen).
  injection H2 as -> _ _. rewrite Ht, Mr. split; [lia|].
  rewrite Hms, (Permutation_length (group_items rt l)), length_map.
  assert (Hi : forall i, List.length (items_from rt i l) = List.length l).
  { clear. induction l as [|n l IH]; intro i; simpl; [reflexivity|].
    now rewrite IH. }
  rewrite Hi. lia.
Qed.

(** Every item of a response stands for one of the given repositories:
    it carries the id, the name and the hours of a repository that passes
    the skill filter of the request and is not excluded by it. *)
Theorem generate_lists_selected_repositories (rt : Runtime)
  (request : GenerateLearningPathRequest) (repositories : list Repository)
  (pending : option (list OverrideManagerService.OverrideInstruction))
  (resp : LearningPathResponse) (log : list OverrideManagerService.LogRecord)
  (item : NodeItem) :
  PathGeneratorService.generate UUID_of_str rt request repositories pending
  = (Ok resp, log) ->
  In item (flat_map mg_nodes (milestones resp)) ->
  exists r,
    In r repositories
    /\ ni_repository_id item = repository_id r
    /\ repository_name item = r_name r
    /\ ni_estimated_hours item = learning_hours_estimate r
    /\ matches_skills (target_skill_types request) r
    /\ exists us,
         PathGeneratorService.parse_ids UUID_of_str (exclude_repository_ids request)
         = Ok us
         /\ ~ In (repository_id r) us.
Proof.
  intros H Hitem. destruct (generate_path _ _ _ _ _ _ H)
    as (us & p1 & m & k1 & p & l & p' & Hus & Hinv & Hfr & _ & Hl & Hp & _
        & Hms & _).
  rewrite Hms in Hitem. apply (Permutation_in _ (group_items rt l)) in Hitem.
  assert (Hn : exists n i, In n l
                           /\ item = MilestoneGrouperService._node_to_item rt n i).
  { revert Hitem. generalize 0%Z. clear.
    induction l as [|n l IH]; intros i Hi; simpl in Hi; [contradiction|].
    destruct Hi as [<-|Hi].
    - exists n, i. split; [now left | reflexivity].
    - destruct (IH _ Hi) as (n' & i' & Hn' & E). exists n', i'.
      split; [now right | exact E]. }
  destruct Hn as (n & i & Hn & ->).
  destruct (core_in _ _ n Hp Hn) as (n0 & Hn0 & E).
  assert (Hf : map node_frame (nodes p) = map node_frame (nodes p1))
    by (unfold path_frame in Hfr; congruence).
  destruct (frame_in _ _ n0 Hf Hn0) as (n1 & Hn1 & E1).
  destruct (fl_nodes _ _ _ _ _ _ Hinv n1 Hn1) as ((Hh & _ & _) & _ & Hr).
  assert (Er : repository n = repository n1)
    by (unfold node_core in E; unfold node_frame in E1; congruence).
  assert (Eh : estimated_hours n = estimated_hours n1)
    by (unfold node_core in E; unfold node_frame in E1; congruence).
  apply (Permutation_in _ (py_sorted_perm _ _)) in Hr. apply filter_In in Hr.
  destruct Hr as [Hsel Hex]. apply selected_in, filter_by_skill_in in Hsel.
  destruct Hsel as [Hin Hsk].
  exists (repository n). cbn [MilestoneGrouperService._node_to_item ni_repository_id
                              repository_name ni_estimated_hours].
  rewrite Er. repeat split; auto.
  - now rewrite Eh.
  - exists us. split; [exact Hus|]. intro Hmem.
    apply (mem_In N.eqb N.eqb_eq) in Hmem. norm. rewrite Hmem in Hex. discriminate.
Qed.

Lemma build_returns rt k learner name repositories description ap mp exclude :
  blank name = false -> blank learner = false -> (mp <? 1)%Z = false ->
  exists p,
    GraphBuilderService.build rt k learner name repositories description ap mp
      exclude = Ok p.
Proof.
  intros H1 H2 H3. unfold GraphBuilderService.build, LearningPath_new. cbv zeta.
  rewrite H1, H2, H3.
  match goal with
  | |- context [fold_left (GraphBuilderService.add_repo_step rt) ?l ?s] =>
      destruct (fold_left (GraphBuilderService.add_repo_step rt) l s) as [[p1 m] k1]
  end.
  match goal with
  | |- context [fold_left (GraphBuilderService.add_dep_step rt m) ?l ?s] =>
      destruct (fold_left (GraphBuilderService.add_dep_step rt m) l s) as [p2 k2]
  end.
  now exists p2.
Qed.

(** [generate] returns a response when nothing stands in its way: the run
    is as assumed, the request passes its own validation, every exclusion
    id parses, the repositories have pairwise distinct ids and no override
    is pending. *)
Theorem generate_succeeds (rt : Runtime)
  (request : GenerateLearningPathRequest) (repositories : list Repository)
  (exclude_uuids : list UUID) :
  runtime_ok rt ->
  GenerateLearningPathRequest_post_init request = Ok tt ->
  PathGeneratorService.parse_ids UUID_of_str (exclude_repository_ids request)
  = Ok exclude_uuids ->
  NoDup (map repository_id repositories) ->
  exists resp,
    fst (PathGeneratorService.generate UUID_of_str rt request repositories None)
    = Ok resp
    /\ fst (PathGeneratorService.generate UUID_of_str rt request repositories
              (Some []))
       = Ok resp.
Proof.
  intros Hrt Hreq Hus Hnd.
  destruct (valid_request _ Hreq) as (V1 & V2 & V3).
  destruct (build_returns rt 0 (rq_learner_id request) (rq_name request)
              (fst (selection request repositories)) (rq_description request)
              (rq_allow_parallel_learning request) (rq_max_parallel_nodes request)
              exclude_uuids V1 V2 V3) as [p Hb].
  destruct (built_path_order rt 0 _ _ _ _ _ _ _ p (uuid4_fresh rt Hrt)
              (selected_NoDup repository_id request repositories Hnd) Hb)
    as [Hids Ho].
  destruct (orderable_is_sorted rt p (nodes p) (iter_ids_perm rt Hrt) Hids
              (Permutation_refl _) Ho) as [l Hl].
  unfold PathGeneratorService.generate. rewrite !generate_with_respond.
  rewrite Hus, Hb. unfold respond, TopologicalSorterService.sort,
    optimize_learning_sequence. rewrite Hl. eexists. split; reflexivity.
Qed.

(** What [generate] raises: [ValueError] for an exclusion id that does not
    parse, [ValidationError] only for a request that fails its own
    validation, [InvalidLearningSequenceError] from the sorter, and the
    import error of the override manager when overrides are pending. *)
Theorem generate_raises_only (rt : Runtime)
  (request : GenerateLearningPathRequest) (repositories : list Repository)
  (pending : option (list OverrideManagerService.OverrideInstruction))
  (e : Exc) (log : list OverrideManagerService.LogRecord) :
  (forall s, Permutation s (iter_ids rt s)) ->
  PathGeneratorService.generate UUID_of_str rt request repositories pending
  = (Raise e, log) ->
  (e = ValueError
   /\ PathGeneratorService.parse_ids UUID_of_str (exclude_repository_ids request)
      = Raise ValueError)
  \/ (exists field, e = ValidationError field
                    /\ GenerateLearningPathRequest_post_init request
                       = Raise ValueError)
  \/ (exists cycle, e = InvalidLearningSequenceError cycle)
  \/ (e = ImportError "_MILESTONE_ORDER"
      /\ exists o os, pending = Some (o :: os)).
Proof.
  intros Hperm. unfold PathGeneratorService.generate.
  rewrite generate_with_respond.
  destruct (PathGeneratorService.parse_ids _ _) as [us|e0] eqn:Eus.
  2:{ intros [= <- _]. left. pose proof (parse_ids_raises _ _ Eus) as ->. auto. }
  destruct (GraphBuilderService.build _ _ _ _ _ _ _ _ _) as [p|e0] eqn:Eb.
  2:{ intros [= <- _]. right. left.
      destruct (build_raises _ _ _ _ _ _ _ _ _ _ Eb) as (f & -> & Hbad).
      exists f. split; [reflexivity|]. now apply invalid_request. }
  destruct (build_facts _ _ _ _ _ _ _ _ _ _ Eb) as (_ & _ & _ & _ & _ & _ & Hc & _).
  unfold respond.
  destruct (closed_sort_service_outcomes rt p Hperm Hc)
    as [(l & p' & Es)|(c & p' & Es)]; rewrite Es.
  - destruct pending as [[|o os]|]; try discriminate.
    destruct (apply_with_import_fails (MilestoneGrouperService.group rt l) o os)
      as [lg E].
    cbv zeta. rewrite E. intros [= <- _]. right. right. right. eauto.
  - intros [= <- _]. right. right. left. eauto.
Qed.

End Generated.

(** The response for the three repositories of the web site. *)
Lemma response_is_consistent_witness :
  exists resp,
    PathGeneratorService.generate no_uuid rt0 default_request site_repos None
    = (Ok resp, [])
    /\ rs_total_repositories resp = Zsum (map repository_count (milestones resp))
    /\ rs_total_estimated_hours resp
       = Zsum (map mg_estimated_hours (milestones resp))
    /\ (rs_completion_percentage resp == 0)%Q.
Proof.
  eexists. split; [vm_compute; reflexivity|].
  eapply (response_is_consistent no_uuid rt0 default_request site_repos None _ []).
  vm_compute. reflexivity.
Defined.

(** Three repositories, two allowed. *)
Lemma generate_respects_cap_witness :
  exists resp,
    PathGeneratorService.generate no_uuid rt0 capped_request site_repos None
    = (Ok resp, [])
    /\ (rs_total_repositories resp <= 2)%Z
    /\ (Z.of_nat (List.length (flat_map mg_nodes (milestones resp))) <= 2)%Z.
Proof.
  eexists. split; [vm_compute; reflexivity|].
  eapply (generate_respects_cap no_uuid rt0 capped_request site_repos None _ [] 2%Z).
  - vm_compute. reflexivity.
  - reflexivity.
  - reflexivity.
Defined.

(** The first item of the response for the web site. *)
Lemma generate_lists_selected_repositories_witness :
  exists resp item r,
    PathGeneratorService.generate no_uuid rt0 default_request site_repos None
    = (Ok resp, [])
    /\ In item (flat_map mg_nodes (milestones resp))
    /\ In r site_repos
    /\ ni_repository_id item = repository_id r
    /\ repository_name item = r_name r.
Proof.
  pose proof (generate_lists_selected_repositories no_uuid rt0 default_request
                site_repos None) as H.
  match type of H with
  | forall resp log item, ?g = _ -> _ =>
      let v := eval vm_compute in g in
      match v with
      | (Ok ?resp, ?log) =>
          match eval vm_compute in (flat_map mg_nodes (milestones resp)) with
          | ?item :: _ =>
              destruct (H resp log item) as (r & H1 & H2 & H3 & _);
              [ vm_compute; reflexivity
              | vm_compute; left; reflexivity
              | exists resp, item, r ]
          end
      end
  end.
  split; [vm_compute; reflexivity|]. split; [vm_compute; left; reflexivity|].
  split; [exact H1|]. split; [exact H2 | exact H3].
Defined.

(** The default request for the web site passes its validation. *)
Lemma generate_succeeds_witness :
  exists resp,
    fst (PathGeneratorService.generate no_uuid rt0 default_request site_repos None)
    = Ok resp
    /\ fst (PathGeneratorService.generate no_uuid rt0 default_request site_repos
              (Some []))
       = Ok resp.
Proof.
  apply (generate_succeeds no_uuid rt0 default_request site_repos []).
  - run_ok.
  - reflexivity.
  - reflexivity.
  - apply distinct_NoDup. vm_compute. reflexivity.
Defined.

(** A pending override makes [generate] raise the import error. *)
Lemma generate_raises_only_witness :
  PathGeneratorService.generate no_uuid rt0 default_request s1_repos
    (Some [force_r1_specialized])
  = (Raise (ImportError "_MILESTONE_ORDER"), [])
  /\ exists o os, Some [force_r1_specialized] = Some (o :: os).
Proof.
  split; [vm_compute; reflexivity|].
  destruct (generate_raises_only no_uuid rt0 default_request s1_repos
              (Some [force_r1_specialized]) (ImportError "_MILESTONE_ORDER") [])
    as [(H & _)|[(f & H & _)|[(c & H)|(_ & H)]]];
    [ intro s; apply Permutation_refl | vm_compute; reflexivity
    | discriminate | discriminate | discriminate | exact H ].
Defined.

(** ** Removing a repository *)

Lemma filter_split {A} (f : A -> bool) (l a b : list A) (x : A) :
  filter f l = a ++ x :: b ->
  exists l1 l2, l = l1 ++ x :: l2 /\ filter f l1 = a /\ filter f l2 = b.
Proof.
  revert a. induction l as [|y l IH]; intros a H; simpl in H.
  - destruct a; discriminate.
  - destruct (f y) eqn:E.
    + destruct a as [|a0 a]; simpl in H.
      * injection H as -> Hb. exists [], l. simpl. auto.
      * injection H as -> H. destruct (IH a H) as (l1 & l2 & -> & H1 & H2).
        exists (a0 :: l1), l2. simpl. rewrite E, H1. auto.
    + destruct (IH a H) as (l1 & l2 & -> & H1 & H2).
      exists (y :: l1), l2. simpl. rewrite E. auto.
Qed.

Lemma get_node_none nid ns :
  _get_node_by_id nid ns = None -> ~ In nid (map node_id ns).
Proof.
  unfold _get_node_by_id. intros H Hin. apply in_map_iff in Hin.
  destruct Hin as (n & E & Hn).
  apply (find_none _ _ H) in Hn. apply N.eqb_neq in Hn. contradiction.
Qed.

(** The three ways [remove_repository] ends. *)
Lemma remove_repository_cases rt nid p :
  (remove_repository rt nid p = (Ok false, p)
   /\ _get_node_by_id nid (nodes p) = None)
  \/ (exists node n ns message,
        _get_node_by_id nid (nodes p) = Some node
        /\ filter (fun n => mem N.eqb nid (prerequisite_nodes n)) (nodes p) = n :: ns
        /\ remove_repository rt nid p = (Raise (BusinessRuleViolation message), p))
  \/ (exists node,
        _get_node_by_id nid (nodes p) = Some node
        /\ filter (fun n => mem N.eqb nid (prerequisite_nodes n)) (nodes p) = []
        /\ remove_repository rt nid p
           = (Ok true,
              _recalculate_metrics
                (with_dependencies
                   (with_nodes p (filter (fun n => negb (N.eqb (node_id n) nid))
                                         (nodes p)))
                   (filter (fun dep =>
                              andb (negb (N.eqb (source_repository_id dep)
                                                (repository_id (repository node))))
                                   (negb (N.eqb (target_repository_id dep)
                                                (repository_id (repository node)))))
                           (iter_deps rt (dependencies p)))))).
Proof.
  unfold remove_repository.
  destruct (_get_node_by_id nid (nodes p)) as [node|]; [|left; auto].
  right.
  destruct (filter (fun n => mem N.eqb nid (prerequisite_nodes n)) (nodes p))
    as [|n ns] eqn:E.
  - right. exists node. auto.
  - left. exists node, n, ns. eexists. split; [reflexivity|]. split; reflexivity.
Qed.

(** How [remove_repository] ends: it returns [True] for a node that no
    node requires; it returns [False] for an id that names no node, and it
    raises for a node that another one requires, the path unchanged in
    both cases. *)
Theorem remove_repository_outcomes (rt : Runtime) (nid : UUID)
  (p p' : LearningPath) (r : Result bool) :
  remove_repository rt nid p = (r, p') ->
  (r = Ok true
   /\ In nid (map node_id (nodes p))
   /\ forall n, In n (nodes p) -> ~ In nid (prerequisite_nodes n))
  \/ (r = Ok false /\ p' = p /\ ~ In nid (map node_id (nodes p)))
  \/ ((exists message, r = Raise (BusinessRuleViolation message))
      /\ p' = p
      /\ exists n, In n (nodes p) /\ In nid (prerequisite_nodes n)).
Proof.
  intro H.
  destruct (remove_repository_cases rt nid p)
    as [[E Hn]|[(node & n & ns & msg & Hn & Hf & E)|(node & Hn & Hf & E)]];
    rewrite E in H; injection H as <- <-.
  - right. left. split; [reflexivity|]. split; [reflexivity|].
    now apply get_node_none.
  - right. right. split; [eauto|]. split; [reflexivity|].
    assert (Hin : In n (filter (fun n => mem N.eqb nid (prerequisite_nodes n))
                               (nodes p))) by (rewrite Hf; now left).
    apply filter_In in Hin. destruct Hin as [H1 H2].
    exists n. split; [exact H1|]. now apply (mem_In N.eqb N.eqb_eq).
  - left. split; [reflexivity|]. split.
    + destruct (get_node_found _ _ _ Hn) as [Hin <-]. now apply in_map.
    + intros n Hin Hq.
      assert (Hf' : In n (filter (fun n => mem N.eqb nid (prerequisite_nodes n))
                                 (nodes p))).
      { apply filter_In. split; [exact Hin|]. now apply (mem_In N.eqb N.eqb_eq). }
      rewrite Hf in Hf'. contradiction.
Qed.

(** The node of a is required by the node of b: the call raises, and the
    theorem names a node that requires it. *)
Lemma remove_repository_outcomes_witness :
  remove_repository rt0 101%N abc_with_edges
  = (Raise (BusinessRuleViolation "Cannot remove node - required by: b"),
     abc_with_edges)
  /\ exists n, In n (nodes abc_with_edges) /\ In 101%N (prerequisite_nodes n).
Proof.
  split; [vm_compute; reflexivity|].
  destruct (remove_repository_outcomes rt0 101%N abc_with_edges abc_with_edges
              (Raise (BusinessRuleViolation "Cannot remove node - required by: b")))
    as [(H & _)|[(H & _)|(_ & _ & H)]];
    [vm_compute; reflexivity | discriminate | discriminate | exact H].
Defined.

Lemma filter_keeps_order (nid : UUID) (ns : list LearningNode) :
  (forall n, In n ns -> ~ In nid (prerequisite_nodes n)) ->
  prerequisites_first ns ->
  prerequisites_first (filter (fun n => negb (N.eqb (node_id n) nid)) ns).
Proof.
  intros Hfree Ho l1 n l2 E q Hq.
  destruct (filter_split _ _ _ _ _ E) as (a & b & -> & <- & _).
  assert (Hn : In n (a ++ n :: b)) by (apply in_or_app; right; now left).
  specialize (Ho a n b eq_refl q Hq). apply in_map_iff in Ho.
  destruct Ho as (c & <- & Hc). apply in_map. apply filter_In.
  split; [exact Hc|]. apply negb_true_iff, N.eqb_neq. intro Ec.
  apply (Hfree n Hn). now rewrite <- Ec.
Qed.

Lemma filter_keeps_closed (nid : UUID) (ns : list LearningNode) :
  (forall n, In n ns -> ~ In nid (prerequisite_nodes n)) ->
  prerequisites_closed ns = true ->
  prerequisites_closed (filter (fun n => negb (N.eqb (node_id n) nid)) ns) = true.
Proof.
  intros Hfree Hc. rewrite closed_spec in *. intros n q Hn Hq.
  apply filter_In in Hn. destruct Hn as [Hn _].
  specialize (Hc n q Hn Hq). apply in_map_iff in Hc.
  destruct Hc as (c & <- & Hc). apply in_map. apply filter_In.
  split; [exact Hc|]. apply negb_true_iff, N.eqb_neq. intro Ec.
  apply (Hfree n Hn). now rewrite <- Ec.
Qed.

(** After [remove_repository] returned [True] the path is as well formed
    as before: the node is gone and no node required it, the totals are
    those of the nodes left, no dependency names the repository removed;
    prerequisite ids still name nodes, the node ids stay distinct and an
    order of the nodes that respects the prerequisites is kept. *)
Theorem remove_repository_keeps_path_well_formed (rt : Runtime) (nid : UUID)
  (p p' : LearningPath) :
  (forall l, Permutation l (iter_deps rt l)) ->
  remove_repository rt nid p = (Ok true, p') ->
  (nodes p' = filter (fun n => negb (N.eqb (node_id n) nid)) (nodes p)
   /\ ~ In nid (map node_id (nodes p'))
   /\ metrics_current p')
  /\ (exists node,
        _get_node_by_id nid (nodes p) = Some node
        /\ forall dep,
             In dep (dependencies p')
             <-> (In dep (dependencies p)
                  /\ source_repository_id dep <> repository_id (repository node)
                  /\ target_repository_id dep <> repository_id (repository node)))
  /\ (prerequisites_closed (nodes p) = true ->
      prerequisites_closed (nodes p') = true)
  /\ (NoDup (map node_id (nodes p)) -> NoDup (map node_id (nodes p')))
  /\ (prerequisites_first (nodes p) -> prerequisites_first (nodes p')).
Proof.
  intros Hperm H.
  destruct (remove_repository_cases rt nid p)
    as [[E Hn]|[(node & n & ns & msg & Hn & Hf & E)|(node & Hn & Hf & E)]];
    rewrite E in H; try discriminate.
  injection H as <-.
  assert (Hfree : forall n, In n (nodes p) -> ~ In nid (prerequisite_nodes n)).
  { intros n Hin Hq.
    assert (Hf' : In n (filter (fun n => mem N.eqb nid (prerequisite_nodes n))
                               (nodes p))).
    { apply filter_In. split; [exact Hin|]. now apply (mem_In N.eqb N.eqb_eq). }
    rewrite Hf in Hf'. contradiction. }
  cbn [nodes dependencies _recalculate_metrics with_dependencies with_nodes].
  split; [|split; [|split; [|split]]].
  - split; [reflexivity|]. split; [|apply recalculated_is_current].
    intro Hin. apply in_map_iff in Hin. destruct Hin as (n & En & Hin).
    apply filter_In in Hin. destruct Hin as [_ Hb].
    apply negb_true_iff, N.eqb_neq in Hb. contradiction.
  - exists node. split; [exact Hn|]. intro dep.
    rewrite filter_In, andb_true_iff, !negb_true_iff, !N.eqb_neq.
    split; intros [H1 H2]; (split; [|exact H2]).
    + exact (Permutation_in dep (Permutation_sym (Hperm _)) H1).
    + exact (Permutation_in dep (Hperm _) H1).
  - now apply filter_keeps_closed.
  - now apply NoDup_map_filter.
  - now apply filter_keeps_order.
Qed.

(** The node of c, which no node requires, is removed. *)
Lemma remove_repository_keeps_path_well_formed_witness :
  remove_repository rt0 103%N abc_with_edges = (Ok true, ab_path)
  /\ map node_id (nodes ab_path) = [101%N; 102%N]
  /\ ~ In 103%N (map node_id (nodes ab_path))
  /\ metrics_current ab_path.
Proof.
  split; [vm_compute; reflexivity|]. split; [vm_compute; reflexivity|].
  apply (remove_repository_keeps_path_well_formed rt0 103%N abc_with_edges ab_path).
  - intro l. apply Permutation_refl.
  - vm_compute. reflexivity.
Defined.

(** ** Adding a repository with prerequisites *)

(** Without prerequisites the general method adds the node the graph
    builder's call adds. *)
Lemma add_repository_with_none rt k repo p :
  existsb (fun n => Repository_eqb (repository n) repo) (nodes p) = false ->
  add_repository_with rt k repo None p = add_repository rt k repo p
  /\ add_repository_with rt k repo (Some []) p = add_repository rt k repo p.
Proof.
  intro H. unfold add_repository_with, add_repository. rewrite H.
  destruct (LearningNode_new rt k repo); split; reflexivity.
Qed.

Lemma set_add_member (x y : UUID) (s : list UUID) :
  In y (set_add N.eqb x s) <-> y = x \/ In y s.
Proof.
  split; [apply set_add_in|]. unfold set_add.
  destruct (mem N.eqb x s) eqn:E.
  - intros [->|H]; [now apply (mem_In N.eqb N.eqb_eq) | exact H].
  - intros [->|H]; apply in_or_app; [right; now left | now left].
Qed.

Lemma link_raise ns qs e :
  fold_left (link_prerequisite ns) qs (Raise e) = Raise e.
Proof. induction qs as [|q qs IH]; simpl; [reflexivity | exact IH]. Qed.

Lemma link_ok ns qs : forall n0 n,
  fold_left (link_prerequisite ns) qs (Ok n0) = Ok n ->
  node_frame n = node_frame n0
  /\ (forall q, In q (prerequisite_nodes n)
                <-> In q (prerequisite_nodes n0) \/ In q qs)
  /\ (forall q, In q qs -> In q (map node_id ns)).
Proof.
  induction qs as [|q qs IH]; intros n0 n H; simpl in H.
  - injection H as <-. split; [reflexivity|]. split; [|intros q []].
    intro q. simpl. tauto.
  - destruct (_node_exists q ns) eqn:Ex; simpl in H;
      [|rewrite link_raise in H; discriminate].
    destruct (add_prerequisite q n0) as [n1|e] eqn:Ea;
      [|rewrite link_raise in H; discriminate].
    destruct (add_prerequisite_ok _ _ _ Ea) as (Hf & Hp & _).
    destruct (IH n1 n H) as (Hf' & Hp' & Hin).
    split; [congruence|]. split.
    + intro x. rewrite Hp', Hp, set_add_member. simpl. intuition congruence.
    + intros x [<-|Hx]; [|auto].
      unfold _node_exists in Ex. apply existsb_exists in Ex.
      destruct Ex as (c & Hc & Ec). apply N.eqb_eq in Ec. subst. now apply in_map.
Qed.

Lemma snoc_keeps_order (ns : list LearningNode) (node : LearningNode) :
  (forall q, In q (prerequisite_nodes node) -> In q (map node_id ns)) ->
  prerequisites_first ns -> prerequisites_first (ns ++ [node]).
Proof.
  intros Hin Ho. rewrite prerequisites_first_index in *.
  intros j n Hj q Hq. rewrite map_app.
  destruct (Nat.lt_ge_cases j (List.length ns)) as [Hlt|Hge].
  - rewrite nth_error_app1 in Hj by exact Hlt.
    destruct (Ho j n Hj q Hq) as (i & Hi & Hn). exists i. split; [exact Hi|].
    rewrite nth_error_app1; [exact Hn|]. rewrite length_map. lia.
  - rewrite nth_error_app2 in Hj by exact Hge.
    destruct (j - List.length ns)%nat as [|d] eqn:Ed; simpl in Hj;
      [|destruct d; discriminate].
    injection Hj as <-. specialize (Hin q Hq). apply In_nth_error in Hin.
    destruct Hin as [i Hi].
    assert (Hlt : (i < List.length (map node_id ns))%nat)
      by (apply nth_error_Some; congruence).
    exists i. split; [rewrite length_map in Hlt; lia|].
    now rewrite nth_error_app1.
Qed.

Lemma linked_node (ns : list LearningNode) (prerequisites : option (list UUID))
  (n0 node : LearningNode) :
  prerequisite_nodes n0 = [] ->
  match prerequisites with
  | Some (q :: qs) => fold_left (link_prerequisite ns) (q :: qs) (Ok n0)
  | _ => Ok n0
  end = Ok node ->
  node_frame node = node_frame n0
  /\ (forall q, In q (prerequisite_nodes node)
                <-> exists l, prerequisites = Some l /\ In q l)
  /\ (forall q, In q (prerequisite_nodes node) -> In q (map node_id ns)).
Proof.
  intros H0 H. destruct prerequisites as [[|q qs]|].
  - injection H as <-. split; [reflexivity|]. rewrite H0. split; [|intros q []].
    intro q. simpl. split; [tauto|]. intros (l & [= <-] & []).
  - destruct (link_ok _ _ _ _ H) as (Hf & Hp & Hin). split; [exact Hf|].
    rewrite H0 in Hp. split.
    + intro x. rewrite Hp. simpl. split.
      * intros [[]|Hx]. exists (q :: qs). auto.
      * intros (l & [= <-] & Hx). now right.
    + intros x Hx. apply Hin. apply Hp in Hx. destruct Hx as [[]|Hx]. exact Hx.
  - injection H as <-. split; [reflexivity|]. rewrite H0. split; [|intros q []].
    intro q. simpl. split; [tauto|]. intros (l & [=] & _).
Qed.

(** A repository added with prerequisites goes last, after the nodes it
    requires: the new node has the next uuid4 of the run and the
    prerequisites given, each the id of a node of the path; the totals are
    recalculated; prerequisite ids still name nodes and an order of the
    nodes that respects the prerequisites is kept. *)
Theorem add_repository_keeps_order (rt : Runtime) (k k' : nat)
  (repo : Repository) (prerequisites : option (list UUID))
  (p p' : LearningPath) (node : LearningNode) :
  add_repository_with rt k repo prerequisites p = (Ok node, p', k') ->
  (nodes p' = nodes p ++ [node]
   /\ k' = S k
   /\ node_id node = uuid4 rt k
   /\ repository node = repo
   /\ metrics_current p')
  /\ (forall q, In q (prerequisite_nodes node)
                <-> exists l, prerequisites = Some l /\ In q l)
  /\ (forall q, In q (prerequisite_nodes node) -> In q (map node_id (nodes p)))
  /\ (prerequisites_closed (nodes p) = true ->
      prerequisites_closed (nodes p') = true)
  /\ (prerequisites_first (nodes p) -> prerequisites_first (nodes p')).
Proof.
  unfold add_repository_with.
  destruct (existsb _ (nodes p)); [discriminate|].
  unfold LearningNode_new.
  destruct (learning_hours_estimate repo <? 0)%Z; [discriminate|].
  set (n0 := {| repository := repo; node_id := uuid4 rt k;
                prerequisite_nodes := []; dependent_nodes := [];
                estimated_hours := learning_hours_estimate repo;
                status := NOT_STARTED |}).
  match goal with
  | |- context [match ?x with Ok _ => _ | Raise _ => _ end] =>
      destruct x as [n1|e] eqn:El; [|discriminate]
  end.
  intros [= -> <- <-].
  destruct (linked_node _ _ n0 node eq_refl El) as (Hf & Hp & Hin).
  cbn [nodes _recalculate_metrics with_nodes].
  split; [|split; [exact Hp|split; [exact Hin|split]]].
  - split; [reflexivity|]. split; [reflexivity|].
    split; [unfold node_frame in Hf; simpl in Hf; congruence|].
    split; [unfold node_frame in Hf; simpl in Hf; congruence|].
    apply recalculated_is_current.
  - rewrite !closed_spec. intros Hc n q Hn Hq. rewrite map_app.
    apply in_or_app. left. apply in_app_or in Hn.
    destruct Hn as [Hn|[<-|[]]]; eauto.
  - now apply snoc_keeps_order.
Qed.

(** A fourth repository that requires the nodes of a and b. *)
Lemma add_repository_keeps_order_witness :
  exists node p',
    add_repository_with rt0 7 repo_d (Some [101%N; 102%N]) abc_with_edges
    = (Ok node, p', 8%nat)
    /\ nodes p' = nodes abc_with_edges ++ [node]
    /\ prerequisite_nodes node = [101%N; 102%N]
    /\ prerequisites_first (nodes p').
Proof.
  eexists. eexists. split; [vm_compute; reflexivity|].
  split; [vm_compute; reflexivity|]. split; [vm_compute; reflexivity|].
  eapply (add_repository_keeps_order rt0 7 8 repo_d (Some [101%N; 102%N])
            abc_with_edges).
  - vm_compute. reflexivity.
  - apply in_order_check. vm_compute. reflexivity.
Defined.

(** ** The nodes a learner can start next *)

Lemma set_of_from (l s : list UUID) (x : UUID) :
  In x (fold_left (fun s x => set_add N.eqb x s) l s) <-> In x s \/ In x l.
Proof.
  revert s. induction l as [|y l IH]; intro s; simpl; [tauto|].
  rewrite IH, set_add_member. intuition congruence.
Qed.

Lemma set_of_in (l : list UUID) (x : UUID) : In x (set_of l) <-> In x l.
Proof. unfold set_of. rewrite set_of_from. simpl. tauto. Qed.

Lemma completed_ids_in (ns : list LearningNode) (q : UUID) :
  In q (set_of (map node_id (filter is_completed ns)))
  <-> exists c, In c ns /\ node_id c = q /\ status c = COMPLETED.
Proof.
  rewrite set_of_in, in_map_iff. split.
  - intros (c & E & Hc). apply filter_In in Hc. destruct Hc as [Hc Hs].
    exists c. split; [exact Hc|]. split; [exact E|].
    unfold is_completed in Hs. now destruct (status c).
  - intros (c & Hc & E & Hs). exists c. split; [exact E|].
    apply filter_In. split; [exact Hc|]. unfold is_completed. now rewrite Hs.
Qed.

Lemma limit_reached_spec (p : LearningPath) :
  (if negb (allow_parallel_learning p)
   then match set_of (map node_id (filter is_in_progress (nodes p))) with
        | [] => false
        | _ :: _ => true
        end
   else (max_parallel_nodes p
         <=? Z.of_nat (List.length
                         (set_of (map node_id (filter is_in_progress (nodes p))))))%Z)
  = false
  <-> learning_slot_free p.
Proof.
  unfold learning_slot_free. destruct (allow_parallel_learning p); simpl.
  - rewrite Z.leb_gt. tauto.
  - destruct (filter is_in_progress (nodes p)) as [|n l] eqn:E.
    + simpl. tauto.
    + split; [|discriminate].
      destruct (set_of (map node_id (n :: l))) as [|x s] eqn:Es; [|discriminate].
      assert (H : In (node_id n) (set_of (map node_id (n :: l))))
        by (apply set_of_in; now left).
      rewrite Es in H. contradiction.
Qed.

(** [get_next_available_nodes] returns a node exactly when the path lets
    another node be started, the node is one of the path that is not
    started, and each of its prerequisites is the id of a completed node;
    the nodes come in the order of their repositories' recommended
    learning order. *)
Theorem next_available_nodes_can_start (rt : Runtime) (p : LearningPath) :
  (forall n,
     In n (get_next_available_nodes rt p)
     <-> (learning_slot_free p
          /\ In n (nodes p)
          /\ status n = NOT_STARTED
          /\ forall q, In q (prerequisite_nodes n) ->
                       exists c, In c (nodes p) /\ node_id c = q
                                 /\ status c = COMPLETED))
  /\ nondecreasing
       (map (fun n => get_recommended_learning_order rt (repository n))
            (get_next_available_nodes rt p)) = true.
Proof.
  unfold get_next_available_nodes. cbv zeta.
  pose proof (limit_reached_spec p) as Hl.
  match type of Hl with
  | ?b = false <-> _ => destruct b eqn:Eb
  end.
  - split; [|reflexivity]. intro n. simpl. split; [contradiction|].
    intros (Hfree & _). apply Hl in Hfree. discriminate.
  - split; [|apply py_sorted_sorted]. intro n.
    assert (Hfree : learning_slot_free p) by (now apply Hl).
    split.
    + intro Hn. apply (Permutation_in n (py_sorted_perm _ _)) in Hn.
      apply filter_In in Hn. destruct Hn as [Hn Hs].
      destruct (status n) eqn:Est; try discriminate.
      unfold can_start_learning in Hs. rewrite Est in Hs.
      rewrite forallb_forall in Hs.
      split; [exact Hfree|]. split; [exact Hn|]. split; [reflexivity|].
      intros q Hq. apply completed_ids_in. apply (mem_In N.eqb N.eqb_eq). auto.
    + intros (_ & Hn & Est & Hq).
      apply (Permutation_in n (Permutation_sym (py_sorted_perm _ _))).
      apply filter_In. split; [exact Hn|]. rewrite Est.
      unfold can_start_learning. rewrite Est. apply forallb_forall.
      intros q Hq'. apply (mem_In N.eqb N.eqb_eq). apply completed_ids_in. auto.
Qed.

(** ** Inference against the rule of the domain *)

Lemma Qltb_trans (x y z : Q) :
  Qltb x y = true -> Qltb y z = true -> Qltb x z = true.
Proof.
  rewrite !Qltb_lt. apply Qlt_trans.
Qed.

Ltac by_complexity_gap :=
  match goal with
  | |- (if ?b then _ else _) = _ -> _ =>
      let E := fresh "E" in
      destruct b eqn:E; [|discriminate]; intros _;
      apply andb_true_iff in E; destruct E as [?H1 ?H2];
      eapply Qltb_trans; [eassumption|];
      eapply Qltb_trans; [|eassumption]; reflexivity
  end.

(** Every dependency the graph builder infers from [source] to [target]
    is one the domain allows: [source.can_be_prerequisite_for(target)] is
    true. *)
Theorem inferred_dependency_is_admissible (rt : Runtime)
  (source target : Repository) (ty : DependencyType) (st : DependencyStrength) :
  GraphBuilderService._infer_dependency rt source target = Some (ty, st) ->
  Repository_can_be_prerequisite_for rt source target = true.
Proof.
  unfold GraphBuilderService._infer_dependency, Repository_can_be_prerequisite_for,
    GraphBuilderService.names_a_parent.
  cbv zeta.
  destruct (match primary_skill source, primary_skill target with
            | Some s, Some t => Skill_can_be_prerequisite_for s t
            | _, _ => false
            end) eqn:Eskill; [reflexivity|].
  destruct (existsb _ (iter_topics rt (topics target))); [reflexivity|].
  destruct (primary_skill source) as [s|], (primary_skill target) as [t|].
  - unfold Skill_can_be_prerequisite_for in Eskill.
    destruct (SkillType_eqb (skill_type s) (skill_type t)) eqn:Et.
    + cbn [andb].
      destruct (GraphBuilderService._SKILL_LEVEL_ORDER (skill_level s)
                <? GraphBuilderService._SKILL_LEVEL_ORDER (skill_level t))%Z eqn:El.
      * exfalso. unfold SkillLevel_le in Eskill.
        destruct (skill_level s), (skill_level t); simpl in *; discriminate.
      * destruct (andb (mem SkillType_eqb (skill_type s)
                             (get_compatible_types (skill_type t))) _) eqn:E3.
        -- intros _. apply andb_true_iff in E3. tauto.
        -- by_complexity_gap.
    + cbn [andb].
      destruct (andb (mem SkillType_eqb (skill_type s)
                           (get_compatible_types (skill_type t))) _) eqn:E3.
      * intros _. apply andb_true_iff in E3. tauto.
      * by_complexity_gap.
  - by_complexity_gap.
  - by_complexity_gap.
  - by_complexity_gap.
Qed.

(** The HTML repository is inferred as a prerequisite of the React one. *)
Lemma inferred_dependency_is_admissible_witness :
  GraphBuilderService._infer_dependency rt0 repo_html repo_react
  = Some (PREREQUISITE, STRONG)
  /\ Repository_can_be_prerequisite_for rt0 repo_html repo_react = true.
Proof.
  split; [vm_compute; reflexivity|].
  apply (inferred_dependency_is_admissible rt0 repo_html repo_react
           PREREQUISITE STRONG).
  vm_compute. reflexivity.
Defined.

(** ** What the cycle recovery leaves *)

Section Recovery.
Import TopologicalSorterService.

Lemma remove_edge_dependencies p dep :
  dependencies (remove_edge p dep)
  = set_discard DependencyRelation_eqb dep (dependencies p).
Proof. reflexivity. Qed.

Lemma removed_edges (l : list DependencyRelation) : forall p d,
  In d (dependencies (fold_left remove_edge l p))
  <-> In d (dependencies p)
      /\ forall r, In r l -> DependencyRelation_eqb r d = false.
Proof.
  induction l as [|x l IH]; intros p d; simpl.
  - split; [intro H; split; [exact H | intros r []] | tauto].
  - rewrite IH, remove_edge_dependencies. unfold set_discard.
    rewrite filter_In, negb_true_iff. split.
    + intros [[H1 H2] H3]. split; [exact H1|]. intros r [<-|Hr]; auto.
    + intros [H1 H2]. split; [split|]; auto.
Qed.

Lemma DependencyRelation_eqb_refl d : DependencyRelation_eqb d d = true.
Proof. unfold DependencyRelation_eqb. now rewrite !N.eqb_refl. Qed.

(** After [_resolve_cycles] no dependency of the path is weak, related or
    alternative, and a dependency that is none of these stays unless a
    removed one joins the same two repositories; the nodes keep their id,
    repository, hours and status, and lose prerequisites only. *)
Theorem cycle_recovery_removes_weak_edges (rt : Runtime) (p : LearningPath) :
  (forall l, Permutation l (iter_deps rt l)) ->
  (forall d, In d (dependencies (_resolve_cycles rt p)) ->
             In d (dependencies p) /\ removable d = false)
  /\ (forall d, In d (dependencies p) ->
                (forall r, In r (dependencies p) -> removable r = true ->
                           DependencyRelation_eqb r d = false) ->
                In d (dependencies (_resolve_cycles rt p)))
  /\ Forall2 shrinks (nodes p) (nodes (_resolve_cycles rt p)).
Proof.
  intro Hperm.
  assert (Hrem : forall r,
            In r (iter_deps rt (filter removable (iter_deps rt (dependencies p))))
            <-> In r (dependencies p) /\ removable r = true).
  { intro r. rewrite <- filter_In. split; intro H.
    - apply (Permutation_in r (Permutation_sym (Hperm _))) in H.
      apply filter_In in H. apply filter_In. destruct H as [H1 H2].
      split; [|exact H2].
      exact (Permutation_in r (Permutation_sym (Hperm _)) H1).
    - apply (Permutation_in r (Hperm _)). apply filter_In in H.
      apply filter_In. destruct H as [H1 H2]. split; [|exact H2].
      exact (Permutation_in r (Hperm _) H1). }
  split; [|split; [|apply resolve_cycles_shrinks]].
  - intros d Hd. unfold _resolve_cycles in Hd. apply removed_edges in Hd.
    destruct Hd as [H1 H2]. split; [exact H1|].
    destruct (removable d) eqn:E; [|reflexivity].
    exfalso. specialize (H2 d (proj2 (Hrem d) (conj H1 E))).
    rewrite DependencyRelation_eqb_refl in H2. discriminate.
  - intros d Hd Hfree. unfold _resolve_cycles. apply removed_edges.
    split; [exact Hd|]. intros r Hr. apply Hrem in Hr. destruct Hr as [H1 H2].
    auto.
Qed.

(** The recovery on the three nodes with their two weak edges. *)
Lemma cycle_recovery_removes_weak_edges_witness :
  map removable (dependencies abc_with_edges) = [true; true; false]
  /\ map removable (dependencies (_resolve_cycles rt0 abc_with_edges)) = [false]
  /\ Forall2 shrinks (nodes abc_with_edges)
                     (nodes (_resolve_cycles rt0 abc_with_edges)).
Proof.
  split; [vm_compute; reflexivity|]. split; [vm_compute; reflexivity|].
  apply (cycle_recovery_removes_weak_edges rt0 abc_with_edges).
  intro l. apply Permutation_refl.
Defined.

End Recovery.

(** ** The links of a node *)

Lemma add_dependent_ok q n n' :
  add_dependent q n = Ok n' ->
  node_id n' = node_id n
  /\ prerequisite_nodes n' = prerequisite_nodes n
  /\ dependent_nodes n' = set_add N.eqb q (dependent_nodes n)
  /\ q <> node_id n
  /\ ~ In q (prerequisite_nodes n).
Proof.
  unfold add_dependent.
  destruct (N.eqb q (node_id n)) eqn:E1; [discriminate|].
  destruct (mem N.eqb q (prerequisite_nodes n)) eqn:E2; [discriminate|].
  intros [= <-]. simpl. repeat split.
  - now apply N.eqb_neq.
  - intro H. apply (mem_In N.eqb N.eqb_eq) in H. norm. congruence.
Qed.

Lemma add_prerequisite_guard q n n' :
  add_prerequisite q n = Ok n' -> ~ In q (dependent_nodes n).
Proof.
  unfold add_prerequisite.
  destruct (N.eqb q (node_id n)); [discriminate|].
  destruct (mem N.eqb q (dependent_nodes n)) eqn:E; [discriminate|].
  intros _ H. apply (mem_In N.eqb N.eqb_eq) in H. norm. congruence.
Qed.

(** The two methods that link a node keep its links consistent, and what
    one of them added the other one refuses: after [add_prerequisite] the
    same id is refused as a dependent, and after [add_dependent] as a
    prerequisite. *)
Theorem node_links_stay_consistent (q : UUID) (n n' : LearningNode) :
  links_consistent n ->
  add_prerequisite q n = Ok n' \/ add_dependent q n = Ok n' ->
  links_consistent n'
  /\ ((In q (prerequisite_nodes n')
       /\ exists message,
            add_dependent q n' = Raise (BusinessRuleViolation message))
      \/ (In q (dependent_nodes n')
          /\ exists message,
               add_prerequisite q n' = Raise (BusinessRuleViolation message))).
Proof.
  intros (C1 & C2 & C3) [H|H].
  - destruct (add_prerequisite_ok _ _ _ H) as (Hf & Hp & Hne).
    pose proof (add_prerequisite_guard _ _ _ H) as Hg.
    assert (Hid : node_id n' = node_id n)
      by (unfold node_frame in Hf; congruence).
    assert (Hd : dependent_nodes n' = dependent_nodes n)
      by (unfold node_frame in Hf; congruence).
    assert (Hq : In q (prerequisite_nodes n'))
      by (rewrite Hp; apply set_add_member; now left).
    split; [|left; split; [exact Hq|]].
    + unfold links_consistent. rewrite Hid, Hd, Hp. repeat split.
      * intro Hin. apply set_add_member in Hin. destruct Hin as [E|Hin]; auto.
      * exact C2.
      * intros x Hx. apply set_add_member in Hx. destruct Hx as [->|Hx]; auto.
    + unfold add_dependent. rewrite Hid.
      destruct (N.eqb q (node_id n)); [eauto|].
      apply (mem_In N.eqb N.eqb_eq) in Hq. norm. rewrite Hq. eauto.
  - destruct (add_dependent_ok _ _ _ H) as (Hid & Hp & Hd & Hne & Hg).
    assert (Hq : In q (dependent_nodes n'))
      by (rewrite Hd; apply set_add_member; now left).
    split; [|right; split; [exact Hq|]].
    + unfold links_consistent. rewrite Hid, Hd, Hp. repeat split.
      * exact C1.
      * intro Hin. apply set_add_member in Hin. destruct Hin as [E|Hin]; auto.
      * intros x Hx Hin. apply set_add_member in Hin.
        destruct Hin as [->|Hin]; [auto | exact (C3 x Hx Hin)].
    + unfold add_prerequisite. rewrite Hid.
      destruct (N.eqb q (node_id n)); [eauto|].
      apply (mem_In N.eqb N.eqb_eq) in Hq. norm. rewrite Hq. eauto.
Qed.

(** The node of repository a gets the node of b as a prerequisite. *)
Lemma node_links_stay_consistent_witness :
  exists n',
    add_prerequisite 102%N node_a = Ok n'
    /\ links_consistent n'
    /\ ((In 102%N (prerequisite_nodes n')
         /\ exists message,
              add_dependent 102%N n' = Raise (BusinessRuleViolation message))
        \/ (In 102%N (dependent_nodes n')
            /\ exists message,
                 add_prerequisite 102%N n' = Raise (BusinessRuleViolation message))).
Proof.
  eexists. split; [vm_compute; reflexivity|].
  eapply (node_links_stay_consistent 102%N node_a).
  - vm_compute. repeat split; intros H; try contradiction; intros [].
  - left. vm_compute. reflexivity.
Defined.

(** ** The distribution of skills *)

Lemma skill_distribution_from (v : string) (l : list LearningNode) :
  forall acc,
    dict_get String.eqb v
      (fold_left
         (fun distribution node =>
            match primary_skill (repository node) with
            | Some s =>
                dict_set String.eqb (SkillType_value (skill_type s))
                  (match dict_get String.eqb (SkillType_value (skill_type s))
                           distribution with
                   | Some c => c
                   | None => 0
                   end + 1)%Z
                  distribution
            | None => distribution
            end)
         l acc)
    = match filter (has_skill_value v) l with
      | [] => dict_get String.eqb v acc
      | x :: r =>
          Some (match dict_get String.eqb v acc with
                | Some c => c
                | None => 0
                end + Z.of_nat (List.length (x :: r)))%Z
      end.
Proof.
  induction l as [|n l IH]; intro acc; [reflexivity|].
  cbn [fold_left filter]. rewrite IH. unfold has_skill_value at 2.
  destruct (primary_skill (repository n)) as [s|]; [|reflexivity].
  rewrite (dict_get_set String.eqb String.eqb_eq).
  rewrite (String.eqb_sym v).
  destruct (String.eqb (SkillType_value (skill_type s)) v) eqn:E.
  - apply String.eqb_eq in E. rewrite E.
    destruct (filter (has_skill_value v) l) as [|x r].
    + apply (f_equal Some). cbn [List.length]. lia.
    + apply (f_equal Some). cbn [List.length]. lia.
  - reflexivity.
Qed.

(** [get_skill_distribution] counts: the dictionary holds a skill-type
    value exactly when a node has a repository of that skill type, and
    then with the number of such nodes. *)
Theorem skill_distribution_counts (p : LearningPath) (v : string) :
  dict_get String.eqb v (get_skill_distribution p)
  = match filter (has_skill_value v) (nodes p) with
    | [] => None
    | x :: r => Some (Z.of_nat (List.length (x :: r)))
    end.
Proof.
  unfold get_skill_distribution. rewrite skill_distribution_from.
  destruct (filter (has_skill_value v) (nodes p)); reflexivity.
Qed.

(** ** The cycle search reports cycles *)

Section ReportedCycle.
Variable rt : Runtime.
Hypothesis ids_perm : forall l, Permutation l (iter_ids rt l).
Variable ns : list LearningNode.

Lemma chain_suffix (a l : list UUID) : chain ns (a ++ l) -> chain ns l.
Proof.
  induction a as [|x a IH]; [auto|]. simpl.
  destruct (a ++ l) as [|y r] eqn:E.
  - intros _. destruct a; [simpl in E; subst; exact I | discriminate].
  - intros [_ H]. auto.
Qed.

Lemma chain_snoc (l : list UUID) (x y : UUID) :
  chain ns (l ++ [x]) -> requires ns x y -> chain ns ((l ++ [x]) ++ [y]).
Proof.
  intros H R. induction l as [|z l IH]; simpl in *; [auto|].
  destruct (l ++ [x]) as [|w r] eqn:E; [destruct l; discriminate|].
  simpl. destruct H as [H1 H2]. split; [exact H1|]. apply IH. exact H2.
Qed.

Lemma index_of_split (q : UUID) (l : list UUID) :
  In q l -> exists a b, l = a ++ q :: b /\ skipn (index_of q l) l = q :: b.
Proof.
  induction l as [|y l IH]; [contradiction|]. intro H. simpl.
  destruct (N.eqb y q) eqn:E.
  - apply N.eqb_eq in E. subst. exists [], l. auto.
  - destruct H as [->|H]; [rewrite N.eqb_refl in E; discriminate|].
    destruct (IH H) as (a & b & -> & Hs). exists (y :: a), b. auto.
Qed.

Lemma seen_again (path : list UUID) (nid q : UUID) :
  chain ns (path ++ [nid]) -> requires ns nid q -> In q (path ++ [nid]) ->
  is_cycle ns (skipn (index_of q (path ++ [nid])) (path ++ [nid]) ++ [q]).
Proof.
  intros Hc R Hin.
  destruct (index_of_split q _ Hin) as (a & b & E & ->).
  assert (Hlast : exists b', q :: b = b' ++ [nid]).
  { destruct (exists_last (l := q :: b)) as (b' & z & Eb); [discriminate|].
    exists b'. rewrite Eb. f_equal. f_equal.
    rewrite Eb, app_assoc in E. apply app_inj_tail in E. symmetry. tauto. }
  destruct Hlast as (b' & Eb).
  exists q, b. split; [reflexivity|].
  change (q :: b ++ [q]) with ((q :: b) ++ [q]). rewrite Eb.
  apply chain_snoc; [|exact R]. rewrite <- Eb.
  apply (chain_suffix a). now rewrite <- E.
Qed.

Lemma discard_in (x y : UUID) (s : list UUID) :
  In x (set_discard N.eqb y s) -> In x s /\ x <> y.
Proof.
  unfold set_discard. intro H. apply filter_In in H. destruct H as [H1 H2].
  split; [exact H1|]. apply negb_true_iff, N.eqb_neq in H2. congruence.
Qed.

Lemma left_stack (path : list UUID) (nid : UUID) (rec : list UUID) :
  (forall x, In x rec -> In x (path ++ [nid])) ->
  forall x, In x (set_discard N.eqb nid rec) -> In x path.
Proof.
  intros H x Hx. apply discard_in in Hx. destruct Hx as [H1 H2].
  apply H in H1. apply in_app_or in H1. destruct H1 as [H1|[H1|[]]]; [exact H1|].
  congruence.
Qed.

(** The search started with its stack among the ids of [path], a chain up
    to [nid]: what it reports is a cycle, and when it reports nothing its
    stack is among the ids of [path] again. *)
Lemma dfs_reports_cycles : forall fuel nid path st,
  chain ns (path ++ [nid]) ->
  (forall x, In x (snd st) -> In x path) ->
  match dfs rt ns fuel nid path st with
  | (Some c, _) => is_cycle ns c
  | (None, st') => forall x, In x (snd st') -> In x path
  end.
Proof.
  induction fuel as [|fuel IH]; intros nid path st Hc Hrec; [exact Hrec|].
  cbn [dfs]. cbv zeta.
  assert (Hadd : forall x, In x (set_add N.eqb nid (snd st)) -> In x (path ++ [nid])).
  { intros x Hx. apply set_add_member in Hx. apply in_or_app.
    destruct Hx as [->|Hx]; [right; now left | left; auto]. }
  destruct (_get_node_by_id nid ns) as [node|] eqn:Eg.
  - match goal with
    | |- context [@pair (list N) (list N) ?a ?b] =>
        set (s0 := @pair (list N) (list N) a b)
    end.
    assert (H0 : forall x, In x (snd s0) -> In x (path ++ [nid]))
      by (subst s0; exact Hadd).
    clearbody s0. revert s0 H0.
    assert (Hqs : forall q, In q (iter_ids rt (prerequisite_nodes node)) ->
                            requires ns nid q).
    { intros q Hq. exists node. split; [exact Eg|].
      exact (Permutation_in q (Permutation_sym (ids_perm _)) Hq). }
    revert Hqs.
    induction (iter_ids rt (prerequisite_nodes node)) as [|q qs IHq];
      intros Hqs s Hs.
    + simpl. now apply left_stack.
    + lazy beta iota fix.
      match goal with
      | |- context [if negb ?b then _ else _] => destruct b
      end; cbn [negb].
      * match goal with
        | |- context [if ?b then _ else _] => destruct b eqn:Er
        end.
        -- apply seen_again; [exact Hc | apply Hqs; now left |].
           apply Hs. now apply (mem_In N.eqb N.eqb_eq).
        -- apply IHq; [intros; apply Hqs; now right | exact Hs].
      * assert (Hc' : chain ns ((path ++ [nid]) ++ [q]))
          by (apply chain_snoc; [exact Hc | apply Hqs; now left]).
        pose proof (IH q (path ++ [nid]) s Hc' Hs) as Hd.
        destruct (dfs rt ns fuel q (path ++ [nid]) s) as [[c|] s'];
          [exact Hd|].
        apply IHq; [intros; apply Hqs; now right | exact Hd].
  - simpl. now apply left_stack.
Qed.

Lemma find_cycle_from_reports fuel : forall todo st,
  (forall x, ~ In x (snd st)) ->
  find_cycle_from rt ns fuel todo st = []
  \/ is_cycle ns (find_cycle_from rt ns fuel todo st).
Proof.
  induction todo as [|node todo IH]; intros st Hst; [now left|].
  cbn [find_cycle_from].
  match goal with
  | |- context [if negb ?b then _ else _] => destruct b
  end; cbn [negb]; [now apply IH|].
  pose proof (dfs_reports_cycles fuel (node_id node) [] st I) as Hd.
  destruct (dfs rt ns fuel (node_id node) [] st) as [[c|] s'].
  - right. apply Hd. intros x Hx. exact (Hst x Hx).
  - apply IH. intros x Hx. apply (Hd (fun y Hy => Hst y Hy) x Hx).
Qed.

End ReportedCycle.

(** What [_find_cycle] reports is a cycle: the list is empty, or it is a
    walk along prerequisites, each id naming a node that has the next id
    in its prerequisite set, which ends on the id it starts from. *)
Theorem find_cycle_reports_a_cycle (rt : Runtime) (p : LearningPath) :
  (forall l, Permutation l (iter_ids rt l)) ->
  _find_cycle rt p = [] \/ is_cycle (nodes p) (_find_cycle rt p).
Proof.
  intro Hperm. unfold _find_cycle.
  apply (find_cycle_from_reports rt Hperm). intros x [].
Qed.

(** The search on the path whose two nodes require each other. *)
Lemma find_cycle_reports_a_cycle_witness :
  _find_cycle rt0 cyclic_path = [101%N; 102%N; 101%N]
  /\ is_cycle (nodes cyclic_path) (_find_cycle rt0 cyclic_path).
Proof.
  split; [vm_compute; reflexivity|].
  destruct (find_cycle_reports_a_cycle rt0 cyclic_path) as [H|H];
    [intro l; apply Permutation_refl | vm_compute in H; discriminate | exact H].
Defined.

(** ** The cycle search misses no cycle *)

Lemma discard_member (x y : UUID) (s : list UUID) :
  In x (set_discard N.eqb y s) <-> In x s /\ x <> y.
Proof.
  unfold set_discard. rewrite filter_In, negb_true_iff, N.eqb_neq.
  split; intros [H1 H2]; split; auto.
Qed.

Lemma visited_In (x : UUID) (s : list UUID) : mem N.eqb x s = true <-> In x s.
Proof. apply (mem_In N.eqb N.eqb_eq). Qed.

Lemma unvisited_not_In (x : UUID) (s : list UUID) :
  mem N.eqb x s = false <-> ~ In x s.
Proof. apply (mem_false N.eqb N.eqb_eq). Qed.

Section FinishedSearch.
Variable rt : Runtime.
Hypothesis ids_perm : forall l, Permutation l (iter_ids rt l).
Variable ns : list LearningNode.

(** Entering [nid], not yet visited, leaves the finished ids as they are. *)
Lemma finished_enter (st : DfsState) (fin : list UUID) (nid : UUID) :
  finished ns st fin -> ~ In nid (fst st) ->
  finished ns (set_add N.eqb nid (fst st), set_add N.eqb nid (snd st)) fin.
Proof.
  intros [Hi Hs Hn Ho] Hv. split; simpl; [| |exact Hn|exact Ho].
  - intro x. rewrite Hi, !set_add_member. split.
    + intros [H1 H2]. split; [now right|]. intros [->|H]; tauto.
    + intros [[->|H1] H2]; [tauto|]. split; [exact H1|tauto].
  - intro x. rewrite !set_add_member. intros [->|H]; [now left|right; auto].
Qed.

(** Leaving [nid], on the stack, after all it requires was left. *)
Lemma finished_leave (s : DfsState) (f : list UUID) (nid : UUID) :
  finished ns s f -> In nid (snd s) ->
  (forall y, requires ns nid y -> In y f) ->
  finished ns (fst s, set_discard N.eqb nid (snd s)) (f ++ [nid]).
Proof.
  intros [Hi Hs Hn Ho] Hr Hq. split; simpl.
  - intro x. rewrite in_app_iff, Hi, discard_member. simpl. split.
    + intros [[H1 H2]|[<-|[]]]; [split; tauto|].
      split; [now apply Hs|]. tauto.
    + intros [H1 H2]. destruct (N.eq_dec x nid) as [->|Hne]; [right; now left|].
      left. split; [exact H1|]. tauto.
  - intros x Hx. apply discard_member in Hx. apply Hs. tauto.
  - apply NoDup_app; [exact Hn | repeat constructor; intros [] |].
    intros x Hx [<-|[]]. apply Hi in Hx. tauto.
  - intros a x b E y Hy.
    destruct (exists_last (l := x :: b)) as (b' & z & Eb); [discriminate|].
    rewrite Eb, app_assoc in E. apply app_inj_tail in E. destruct E as [E1 E2].
    subst z. destruct b' as [|x' b'].
    + simpl in Eb. injection Eb as -> _. rewrite app_nil_r in E1. subst f.
      now apply Hq.
    + simpl in Eb. injection Eb as <- _. exact (Ho a x b' E1 y Hy).
Qed.

(** A search that reports nothing has left [nid] and all it reached, and
    its stack is as it was. *)
Lemma dfs_finishes : forall fuel nid path st fin,
  finished ns st fin ->
  In nid (search_ids ns) -> mem N.eqb nid (fst st) = false ->
  (unvisited ns (fst st) <= fuel)%nat ->
  match dfs rt ns fuel nid path st with
  | (Some _, _) => True
  | (None, st') =>
      exists fin', finished ns st' fin' /\ In nid fin'
                   /\ forall x, In x (snd st') <-> In x (snd st)
  end.
Proof.
  induction fuel as [|fuel IH]; intros nid path st fin Hf Hin Hv Hfuel.
  { pose proof (unvisited_lt ns (fst st) nid Hin Hv). lia. }
  cbn [dfs]. cbv zeta.
  pose proof (unvisited_lt ns (fst st) nid Hin Hv) as Hlt.
  assert (Hnv : ~ In nid (fst st)) by now apply unvisited_not_In.
  assert (Hnr : ~ In nid (snd st))
    by (intro H; apply Hnv; now apply (fin_stack _ _ _ Hf)).
  pose proof (finished_enter st fin nid Hf Hnv) as H0.
  assert (Hback : forall r : list UUID,
            (forall x, In x r <-> x = nid \/ In x (snd st)) ->
            forall x, In x (set_discard N.eqb nid r) <-> In x (snd st)).
  { intros r Hr x. rewrite discard_member, Hr. split.
    - intros [[->|H] Hne]; [congruence | exact H].
    - intro H. split; [now right|]. intros ->. tauto. }
  destruct (_get_node_by_id nid ns) as [node|] eqn:Eg.
  - pose proof (get_node_in ns _ _ Eg) as Hnode.
    match goal with
    | |- context [@pair (list N) (list N) ?a ?b] =>
        set (s0 := @pair (list N) (list N) a b) in *
    end.
    assert (H1 : In nid (fst s0))
      by (subst s0; simpl; apply set_add_member; now left).
    assert (H2 : forall x, In x (snd s0) <-> x = nid \/ In x (snd st))
      by (subst s0; simpl; intro x; apply set_add_member).
    assert (H3 : (unvisited ns (fst s0) <= fuel)%nat)
      by (subst s0; simpl; lia).
    assert (H4 : forall y, In y (prerequisite_nodes node) ->
                 In y (iter_ids rt (prerequisite_nodes node)) \/ In y fin)
      by (intros y Hy; left; exact (Permutation_in y (ids_perm _) Hy)).
    assert (Hqs : forall q, In q (iter_ids rt (prerequisite_nodes node)) ->
                            In q (search_ids ns))
      by (intros q Hq; now apply (prerequisites_in_ids rt ids_perm ns node)).
    clearbody s0. revert s0 H0 H1 H2 H3 H4. generalize fin as f.
    intros f s0. revert s0 f. revert Hqs.
    induction (iter_ids rt (prerequisite_nodes node)) as [|q qs IHq];
      intros Hqs s f H0 H1 H2 H3 H4.
    + simpl. exists (f ++ [nid]). split; [|split].
      * apply finished_leave; [exact H0 | apply H2; now left |].
        intros y (node' & E' & Hy). rewrite Eg in E'. injection E' as <-.
        destruct (H4 y Hy) as [[]|H]. exact H.
      * apply in_or_app. right. now left.
      * now apply Hback.
    + lazy beta iota fix.
      match goal with
      | |- context [if negb ?b then _ else _] => destruct b eqn:Eq
      end; cbn [negb].
      * match goal with
        | |- context [if ?b then _ else _] => destruct b eqn:Er
        end; [exact I|].
        apply (IHq (fun x Hx => Hqs x (or_intror Hx)) s f H0 H1 H2 H3).
        intros y Hy. destruct (H4 y Hy) as [[<-|H]|H]; auto.
        right. apply (fin_ids _ _ _ H0). split.
        -- now apply visited_In.
        -- now apply unvisited_not_In.
      * pose proof (IH q (path ++ [nid]) s f H0 (Hqs q (or_introl eq_refl)) Eq H3)
          as Hd.
        pose proof (dfs_visited_grows rt ns fuel q (path ++ [nid]) s) as Hg.
        destruct (dfs rt ns fuel q (path ++ [nid]) s) as [[c|] s'];
          [exact I|].
        simpl in Hg. destruct Hd as (f' & Hf' & Hq' & Hrec).
        assert (Hgrow : forall x, In x (fst s) -> In x (fst s'))
          by (intros x Hx; apply visited_In, Hg, visited_In; exact Hx).
        apply (IHq (fun x Hx => Hqs x (or_intror Hx)) s' f' Hf').
        -- now apply Hgrow.
        -- intro x. rewrite Hrec. apply H2.
        -- eapply Nat.le_trans; [exact (unvisited_le ns (fst s) (fst s') Hg)|].
           exact H3.
        -- intros y Hy. destruct (H4 y Hy) as [[<-|H]|H]; auto.
           right. apply (fin_ids _ _ _ Hf'). apply (fin_ids _ _ _ H0) in H.
           split; [apply Hgrow; tauto|]. rewrite Hrec. tauto.
  - simpl. exists (fin ++ [nid]). split; [|split].
    + apply (finished_leave _ fin nid H0).
      * simpl. apply set_add_member. now left.
      * intros y (node' & E' & _). rewrite Eg in E'. discriminate.
    + apply in_or_app. right. now left.
    + apply Hback. intro x. apply set_add_member.
Qed.

(** The outer loop that returns the empty list has left every node it
    was given. *)
Lemma find_cycle_from_finishes fuel : forall todo st fin,
  finished ns st fin -> (forall x, ~ In x (snd st)) ->
  (forall n, In n todo -> In n ns) ->
  (unvisited ns (fst st) <= fuel)%nat ->
  find_cycle_from rt ns fuel todo st = [] ->
  exists st' fin', finished ns st' fin'
    /\ (forall x, ~ In x (snd st'))
    /\ (forall x, In x (fst st) -> In x (fst st'))
    /\ (forall n, In n todo -> In (node_id n) (fst st')).
Proof.
  induction todo as [|node todo IH]; intros st fin Hf Hst Hsub Hfuel.
  { intros _. exists st, fin.
    split; [exact Hf|]. split; [exact Hst|]. split; [auto|]. intros n []. }
  cbn [find_cycle_from].
  match goal with
  | |- context [if negb ?b then _ else _] => destruct b eqn:Ev
  end; cbn [negb].
  - intro E.
    destruct (IH st fin Hf Hst (fun n Hn => Hsub n (or_intror Hn)) Hfuel E)
      as (st' & fin' & H1 & H2 & H3 & H4).
    exists st', fin'.
    split; [exact H1|]. split; [exact H2|]. split; [exact H3|].
    intros n [<-|Hn]; [|now apply H4]. apply H3. now apply visited_In.
  - assert (Hin : In (node_id node) (search_ids ns)).
    { unfold search_ids. apply in_or_app. left. apply in_map, Hsub. now left. }
    pose proof (dfs_finishes fuel (node_id node) [] st fin Hf Hin Ev Hfuel) as Hd.
    pose proof (dfs_reports_cycles rt ids_perm ns fuel (node_id node) [] st I)
      as Hc.
    pose proof (dfs_visited_grows rt ns fuel (node_id node) [] st) as Hg.
    destruct (dfs rt ns fuel (node_id node) [] st) as [[c|] s'].
    + intros ->. destruct Hc as (x & c' & E & _); [|discriminate].
      intros x Hx. exact (Hst x Hx).
    + simpl in Hg. destruct Hd as (f' & Hf' & Hn' & Hrec). intro E.
      assert (Hgrow : forall x, In x (fst st) -> In x (fst s'))
        by (intros x Hx; apply visited_In, Hg, visited_In; exact Hx).
      assert (Hs' : forall x, ~ In x (snd s'))
        by (intros x Hx; apply Hrec in Hx; exact (Hst x Hx)).
      assert (Hfuel' : (unvisited ns (fst s') <= fuel)%nat).
      { eapply Nat.le_trans; [exact (unvisited_le ns (fst st) (fst s') Hg)|].
        exact Hfuel. }
      destruct (IH s' f' Hf' Hs' (fun n Hn => Hsub n (or_intror Hn)) Hfuel' E)
        as (st' & fin' & H1 & H2 & H3 & H4).
      exists st', fin'.
      split; [exact H1|]. split; [exact H2|]. split; [auto|].
      intros n [<-|Hn]; [|now apply H4]. apply H3.
      apply (fin_ids _ _ _ Hf') in Hn'. tauto.
Qed.

Lemma nodes_in_order_in (fin : list UUID) (n : LearningNode) :
  In n (nodes_in_order ns fin) -> In n ns /\ In (node_id n) fin.
Proof.
  unfold nodes_in_order. rewrite in_flat_map. intros (x & Hx & Hn).
  destruct (_get_node_by_id x ns) as [m|] eqn:E; [|contradiction].
  destruct Hn as [<-|[]]. apply get_node_found in E. destruct E as [E1 E2].
  split; [exact E1|]. now rewrite E2.
Qed.

Lemma nodes_in_order_named (fin : list UUID) (q : UUID) :
  In q fin -> In q (map node_id ns) -> In q (map node_id (nodes_in_order ns fin)).
Proof.
  intros Hq Hn. destruct (_get_node_by_id q ns) as [m|] eqn:E.
  - apply in_map_iff. exists m. split; [apply get_node_found in E; tauto|].
    unfold nodes_in_order. apply in_flat_map. exists q. split; [exact Hq|].
    rewrite E. now left.
  - exfalso. exact (get_node_none _ _ E Hn).
Qed.

Lemma nodes_in_order_once (fin : list UUID) :
  NoDup fin -> NoDup (nodes_in_order ns fin).
Proof.
  induction fin as [|x fin IH]; [constructor|]. intro Hn.
  inversion Hn as [|? ? Hx Hn']; subst.
  change (nodes_in_order ns (x :: fin))
    with ((match _get_node_by_id x ns with Some n => [n] | None => [] end)
          ++ nodes_in_order ns fin).
  destruct (_get_node_by_id x ns) as [m|] eqn:E; simpl; [|auto].
  constructor; [|auto]. intro H. apply nodes_in_order_in in H.
  apply get_node_found in E. destruct E as [_ E]. rewrite E in H. tauto.
Qed.

Lemma nodes_in_order_first (fin : list UUID) :
  prerequisites_closed ns = true ->
  (forall a x b, fin = a ++ x :: b -> forall y, requires ns x y -> In y a) ->
  prerequisites_first (nodes_in_order ns fin).
Proof.
  intro Hc. induction fin as [|x f IH] using rev_ind; intro Ho.
  { intros l1 n l2 E. destruct l1; discriminate. }
  unfold nodes_in_order. rewrite flat_map_app. simpl. rewrite app_nil_r.
  fold (nodes_in_order ns f).
  assert (IH' : prerequisites_first (nodes_in_order ns f)).
  { apply IH. intros a y b E. apply (Ho a y (b ++ [x])).
    rewrite E, <- app_assoc. reflexivity. }
  destruct (_get_node_by_id x ns) as [m|] eqn:E;
    [|rewrite app_nil_r; exact IH'].
  apply snoc_keeps_order; [|exact IH'].
  intros q Hq.
  assert (Hr : requires ns x q) by (exists m; auto).
  pose proof (Ho f x [] eq_refl q Hr) as Hf.
  apply nodes_in_order_named; [exact Hf|].
  apply get_node_found in E. destruct E as [E _].
  exact (proj1 (closed_spec ns) Hc m q E Hq).
Qed.

End FinishedSearch.

(** A search that finds no cycle has put the nodes in an order in which
    every node comes after its prerequisites. *)
Lemma acyclic_search_orders (rt : Runtime) (p : LearningPath) :
  (forall l, Permutation l (iter_ids rt l)) ->
  NoDup (map node_id (nodes p)) ->
  prerequisites_closed (nodes p) = true ->
  _find_cycle rt p = [] ->
  exists o, Permutation o (nodes p) /\ prerequisites_first o.
Proof.
  intros Hperm Hids Hc E. unfold _find_cycle in E.
  assert (Hu : (unvisited (nodes p) [] <= dfs_fuel (nodes p))%nat).
  { unfold unvisited, dfs_fuel, search_ids.
    rewrite filter_all by reflexivity. rewrite length_app, length_map. lia. }
  assert (H0 : finished (nodes p) ([], []) []).
  { split; simpl; [intro x; tauto | auto | constructor |].
    intros a x b Eb. destruct a; discriminate. }
  destruct (find_cycle_from_finishes rt Hperm (nodes p) _ (nodes p) ([], []) []
              H0 (fun x H => H) (fun n H => H) Hu E)
    as (st & fin & Hf & Hs & _ & Hall).
  exists (nodes_in_order (nodes p) fin). split.
  - apply NoDup_Permutation.
    + apply nodes_in_order_once. exact (fin_once _ _ _ Hf).
    + exact (NoDup_map_inv node_id _ Hids).
    + intro n. split; [intro H; apply nodes_in_order_in in H; tauto|].
      intro Hn. unfold nodes_in_order. apply in_flat_map.
      exists (node_id n). split.
      * apply (fin_ids _ _ _ Hf). split; [now apply Hall | apply Hs].
      * destruct (_get_node_by_id (node_id n) (nodes p)) as [m|] eqn:Eg.
        -- left. apply get_node_found in Eg. destruct Eg as [E1 E2].
           now apply (same_id_same_node (nodes p)).
        -- exfalso. apply (get_node_none _ _ Eg). now apply in_map.
  - apply nodes_in_order_first; [exact Hc | exact (fin_order _ _ _ Hf)].
Qed.

(** The cycle search misses no cycle: on a path with pairwise distinct
    node ids whose prerequisite ids all name nodes of the path, when
    [_find_cycle] returns the empty list the nodes can be put in an order
    in which every node comes after its prerequisites. *)
Theorem find_cycle_misses_no_cycle (rt : Runtime) (p : LearningPath) :
  (forall l, Permutation l (iter_ids rt l)) ->
  NoDup (map node_id (nodes p)) ->
  prerequisites_closed (nodes p) = true ->
  _find_cycle rt p = [] ->
  exists o, Permutation o (nodes p) /\ prerequisites_first o.
Proof. exact (acyclic_search_orders rt p). Qed.

(** The search on the three nodes with their edges. *)
Lemma find_cycle_misses_no_cycle_witness :
  exists o, Permutation o (nodes abc_with_edges) /\ prerequisites_first o.
Proof.
  apply (find_cycle_misses_no_cycle rt0 abc_with_edges).
  - intro l. apply Permutation_refl.
  - apply distinct_NoDup. vm_compute. reflexivity.
  - vm_compute. reflexivity.
  - vm_compute. reflexivity.
Defined.

(** The error of [_topological_sort] names a cycle: on a path with
    pairwise distinct node ids whose prerequisite ids all name nodes of
    the path, whatever the method raises is the circular-dependency error
    and the list it carries is a walk along prerequisites that ends on the
    id it starts from. *)
Theorem circular_dependency_error_names_a_cycle (rt : Runtime)
  (p : LearningPath) (e : Exc) :
  (forall l, Permutation l (iter_ids rt l)) ->
  NoDup (map node_id (nodes p)) ->
  prerequisites_closed (nodes p) = true ->
  _topological_sort rt p = Raise e ->
  exists c, e = CircularDependencyError c /\ is_cycle (nodes p) c.
Proof.
  intros Hperm Hids Hc E.
  destruct (closed_sort_outcomes rt p Hperm Hc) as [[l El]|Er];
    [rewrite El in E; discriminate|].
  rewrite Er in E. injection E as <-.
  exists (_find_cycle rt p). split; [reflexivity|].
  unfold _find_cycle at 1.
  destruct (find_cycle_from_reports rt Hperm (nodes p) (dfs_fuel (nodes p))
              (nodes p) ([], []) (fun x H => H)) as [H|H]; [|exact H].
  exfalso.
  destruct (acyclic_search_orders rt p Hperm Hids Hc H) as (o & Ho & Hfirst).
  destruct (orderable_is_sorted rt p o Hperm Hids Ho Hfirst) as [l El].
  rewrite El in Er. discriminate.
Qed.

(** The path whose two nodes require each other. *)
Lemma circular_dependency_error_names_a_cycle_witness :
  _topological_sort rt0 cyclic_path
  = Raise (CircularDependencyError [101%N; 102%N; 101%N])
  /\ exists c, CircularDependencyError [101%N; 102%N; 101%N]
               = CircularDependencyError c
               /\ is_cycle (nodes cyclic_path) c.
Proof.
  split; [vm_compute; reflexivity|].
  apply (circular_dependency_error_names_a_cycle rt0 cyclic_path).
  - intro l. apply Permutation_refl.
  - apply distinct_NoDup. vm_compute. reflexivity.
  - vm_compute. reflexivity.
  - vm_compute. reflexivity.
Defined.
(** ** What [apply] does with an override *)

Section AppliedOverride.
Import OverrideManagerService.

Lemma initial_lookup (flat : list NodeItem) (k : UUID) : forall acc,
  dict_get N.eqb k
    (fold_left (fun d kv => dict_set N.eqb (fst kv) (snd kv) d)
               (map (fun n => (ni_repository_id n, n)) flat) acc) = None
  <-> dict_get N.eqb k acc = None /\ ~ In k (map ni_repository_id flat).
Proof.
  induction flat as [|n flat IH]; intro acc; simpl; [tauto|].
  rewrite IH, (dict_get_set N.eqb N.eqb_eq).
  destruct (N.eqb k (ni_repository_id n)) eqn:E.
  - apply N.eqb_eq in E. split; [intros [H _]; discriminate|].
    intros [_ H]. exfalso. apply H. now left.
  - apply N.eqb_neq in E. split; intros [H1 H2]; (split; [exact H1|]).
    + intros [H|H]; [congruence | contradiction].
    + tauto.
Qed.

(** The loop over one override that forces a known phase on a repository
    of the list logs nothing. *)
Lemma forced_override_logs_nothing ms n ov target :
  In n (flat_map mg_nodes ms) ->
  ov_repository_id ov = ni_repository_id n ->
  override_type ov = MILESTONE ->
  fst (_parse_milestone (target_milestone ov)) = Some target ->
  snd (fold_left apply_one [ov]
         (dict_of N.eqb (map (fun n => (ni_repository_id n, n))
                             (flat_map mg_nodes ms)), [], [])) = [].
Proof.
  intros Hn Hid Hty Hp. cbn [fold_left]. unfold apply_one.
  destruct (dict_get N.eqb (ov_repository_id ov) _) as [node|] eqn:Eg.
  - rewrite Hty.
    assert (Hl : snd (_parse_milestone (target_milestone ov)) = []).
    { revert Hp. unfold _parse_milestone.
      destruct (target_milestone ov) as [[|c v]|]; try discriminate.
      destruct (MilestonePhase_of_value _); [reflexivity | discriminate]. }
    destruct (_parse_milestone (target_milestone ov)) as [[t|] logged];
      simpl in Hp, Hl; [|discriminate].
    now subst.
  - exfalso. apply (initial_lookup (flat_map mg_nodes ms) _ []) in Eg.
    destruct Eg as [_ Eg]. apply Eg. rewrite Hid. now apply in_map.
Qed.

(** The loop over one override whose repository is not in the list logs
    the miss. *)
Lemma unknown_override_logs_the_miss ms ov :
  mem N.eqb (ov_repository_id ov) (item_ids ms) = false ->
  snd (fold_left apply_one [ov]
         (dict_of N.eqb (map (fun n => (ni_repository_id n, n))
                             (flat_map mg_nodes ms)), [], []))
  = [TargetNotFound (ov_repository_id ov)].
Proof.
  intro Hmiss. cbn [fold_left]. unfold apply_one.
  assert (Eg : dict_get N.eqb (ov_repository_id ov)
                 (dict_of N.eqb (map (fun n => (ni_repository_id n, n))
                                     (flat_map mg_nodes ms))) = None).
  { apply (initial_lookup (flat_map mg_nodes ms) _ []). split; [reflexivity|].
    now apply (mem_false N.eqb N.eqb_eq). }
  rewrite Eg. reflexivity.
Qed.

Lemma apply_raises ms o os :
  apply ms (o :: os)
  = (Raise (ImportError "_MILESTONE_ORDER"),
     snd (fold_left apply_one (o :: os)
            (dict_of N.eqb (map (fun n => (ni_repository_id n, n))
                                (flat_map mg_nodes ms)), [], []))).
Proof.
  unfold apply, apply_with, import_MILESTONE_ORDER.
  now destruct (fold_left apply_one (o :: os) _) as [[m skip] log].
Qed.

(** With overrides pending [generate] returns no response. *)
Lemma generate_with_overrides_raises U rt request repositories o os :
  exists e log,
    PathGeneratorService.generate U rt request repositories (Some (o :: os))
    = (Raise e, log).
Proof.
  unfold PathGeneratorService.generate. rewrite generate_with_respond.
  destruct (PathGeneratorService.parse_ids _ _) as [us|e]; [|eauto].
  destruct (GraphBuilderService.build _ _ _ _ _ _ _ _ _) as [p|e]; [|eauto].
  unfold respond.
  destruct (TopologicalSorterService.sort rt p) as [[l|e] p']; [|eauto].
  cbv zeta.
  change (apply_with import_MILESTONE_ORDER) with apply.
  rewrite apply_raises. eauto.
Qed.

(** C7: on the override that forces a known phase on a repository of the
    list, [apply] logs nothing and raises the import error; it returns no
    phase list, whatever overrides follow. *)
Theorem forced_phase_override_raises
  (ms : list MilestoneGroup) (n : NodeItem) (ov : OverrideInstruction)
  (target : MilestonePhase) :
  In n (flat_map mg_nodes ms) ->
  ov_repository_id ov = ni_repository_id n ->
  override_type ov = MILESTONE ->
  fst (_parse_milestone (target_milestone ov)) = Some target ->
  apply ms [ov] = (Raise (ImportError "_MILESTONE_ORDER"), [])
  /\ forall os, fst (apply ms (ov :: os)) = Raise (ImportError "_MILESTONE_ORDER").
Proof.
  intros Hn Hid Hty Hp. split.
  - rewrite apply_raises.
    now rewrite (forced_override_logs_nothing ms n ov target Hn Hid Hty Hp).
  - intro os. now rewrite apply_raises.
Qed.

(** C8: on one override whose repository id matches no node, [apply] logs
    the miss and raises the import error, so it returns no phase list; and
    [generate] returns no response when any override is pending. *)
Theorem unknown_override_raises :
  (forall ms ov,
      mem N.eqb (ov_repository_id ov) (item_ids ms) = false ->
      apply ms [ov]
      = (Raise (ImportError "_MILESTONE_ORDER"),
         [TargetNotFound (ov_repository_id ov)]))
  /\ (forall U rt req repos o os,
         exists e log,
           PathGeneratorService.generate U rt req repos (Some (o :: os))
           = (Raise e, log)).
Proof.
  split.
  - intros ms ov Hmiss. rewrite apply_raises.
    now rewrite (unknown_override_logs_the_miss ms ov Hmiss).
  - intros. apply generate_with_overrides_raises.
Qed.

End AppliedOverride.

(** [r1] forced into the last phase: [apply] raises. *)
Lemma forced_phase_override_raises_witness :
  OverrideManagerService.apply s1_milestones [force_r1_specialized]
  = (Raise (ImportError "_MILESTONE_ORDER"), []).
Proof.
  apply (proj1 (forced_phase_override_raises s1_milestones s1_item_r1
                  force_r1_specialized SPECIALIZED_TOPICS
                  ltac:(vm_compute; auto) eq_refl eq_refl eq_refl)).
Defined.

(** The override of an unknown repository: [apply] logs the miss and
    raises, and so does [generate]. *)
Lemma unknown_override_raises_witness :
  OverrideManagerService.apply s1_milestones [skip_unknown]
  = (Raise (ImportError "_MILESTONE_ORDER"),
     [OverrideManagerService.TargetNotFound 99%N])
  /\ PathGeneratorService.generate no_uuid rt0 default_request s1_repos
       (Some [skip_unknown])
     = (Raise (ImportError "_MILESTONE_ORDER"),
        [OverrideManagerService.TargetNotFound 99%N]).
Proof.
  split; [|vm_compute; reflexivity].
  apply (proj1 unknown_override_raises s1_milestones skip_unknown).
  vm_compute. reflexivity.
Defined.

(** ** Every run is the counting run with its own identifiers *)

Section InRun.
Import MilestoneGrouperService.
Variable rt : Runtime.
Hypothesis rt_ok : runtime_ok rt.

Lemma drawn_inj x y : drawn rt x = drawn rt y -> x = y.
Proof.
  unfold drawn. intro H. apply (uuid4_fresh rt rt_ok) in H. now apply N2Nat.inj.
Qed.

Lemma drawn_counting k : uuid4 rt k = drawn rt (uuid4 counting k).
Proof. unfold drawn. simpl. now rewrite Nat2N.id. Qed.

Lemma fill_buckets_in_run l : forall i b,
  fill_buckets rt i (map (rename_node (drawn rt)) l)
    (map_values (map (item_in_run rt)) b)
  = map_values (map (item_in_run rt)) (fill_buckets counting i l b).
Proof.
  induction l as [|n l IH]; intros i b; simpl; [reflexivity|].
  rewrite <- IH. f_equal.
  rewrite <- (bucket_append_h (item_in_run rt)). reflexivity.
Qed.

Lemma group_in_run_eq l :
  group rt (map (rename_node (drawn rt)) l)
  = map (group_in_run rt) (group counting l).
Proof.
  unfold group.
  change (map (group_in_run rt)) with
    (map (fun m => {| phase := phase m;
                      mg_nodes := map (item_in_run rt) (mg_nodes m) |})).
  rewrite <- collect_h. f_equal.
  rewrite <- fill_buckets_in_run. reflexivity.
Qed.

Lemma erase_renamed (g : UUID -> UUID) (l : list LearningNode) :
  map erase_node (map (rename_node g) l) = map erase_node l.
Proof. rewrite map_map. reflexivity. Qed.

Lemma erase_path_renamed (g : UUID -> UUID) (p : LearningPath) :
  erase_path (rename_path g p) = erase_path p.
Proof.
  unfold erase_path, rename_path. simpl. now rewrite erase_renamed.
Qed.

Lemma statistics_renamed (g : UUID -> UUID) (p : LearningPath) considered :
  PathGeneratorService.get_learning_statistics (rename_path g p) considered
  = PathGeneratorService.get_learning_statistics p considered.
Proof.
  rewrite (statistics_erased (rename_path g p)), (statistics_erased p).
  now rewrite erase_path_renamed.
Qed.

Lemma apply_log_erased ms os :
  snd (OverrideManagerService.apply ms os)
  = snd (OverrideManagerService.apply (map erase_group ms) os).
Proof.
  unfold OverrideManagerService.apply.
  now rewrite (apply_with_erased OverrideManagerService.import_MILESTONE_ORDER ms os).
Qed.

Section Generated.
Variable UUID_of_str : string -> option UUID.

Lemma generate_in_run request repositories pending :
  outcome_in_run rt
    (PathGeneratorService.generate UUID_of_str counting request repositories pending)
    (PathGeneratorService.generate UUID_of_str rt request repositories pending).
Proof.
  unfold PathGeneratorService.generate. rewrite !generate_with_respond.
  destruct (PathGeneratorService.parse_ids _ _) as [ex|e];
    [|split; reflexivity].
  rewrite (build_plain rt rt_ok).
  rewrite (build_g (drawn rt) drawn_inj counting rt drawn_counting).
  change (plain counting) with counting.
  destruct (GraphBuilderService.build counting _ _ _ _ _ _ _ _) as [lp|e];
    [|split; reflexivity].
  simpl res_map. cbv iota.
  replace (match nodes (rename_path (drawn rt) lp) with
           | [] => snd (selection request repositories) ++ [NoRepositoriesAvailable]
           | _ :: _ => snd (selection request repositories)
           end)
    with (match nodes lp with
          | [] => snd (selection request repositories) ++ [NoRepositoriesAvailable]
          | _ :: _ => snd (selection request repositories)
          end)
    by (simpl; now destruct (nodes lp)).
  set (ws := match nodes lp with [] => _ | _ :: _ => _ end).
  destruct (sort_plain rt (rename_path (drawn rt) lp) rt_ok) as [Hs1 Hp1].
  destruct (sort_g (drawn rt) drawn_inj counting rt lp) as [Hs2 Hp2].
  change (plain counting) with counting in Hs2, Hp2.
  rewrite Hp2 in Hp1. clear Hp2.
  unfold respond.
  destruct (TopologicalSorterService.sort rt (rename_path (drawn rt) lp))
    as [[l|e] p] eqn:E1;
  destruct (TopologicalSorterService.sort (plain rt) (rename_path (drawn rt) lp))
    as [[l'|e'] p'] eqn:E2;
  destruct (TopologicalSorterService.sort counting lp) as [[l0|e0] p0] eqn:E0;
    simpl in Hs1, Hs2, Hp1; try contradiction.
  - subst l' l p. cbv zeta.
    assert (Hg : map erase_group (group rt (map (rename_node (drawn rt)) l0))
                 = map erase_group (group counting l0))
      by (apply group_observable, erase_renamed).
    destruct pending as [[|o os]|].
    + split; [reflexivity|]. simpl. unfold response_in_run. simpl.
      now rewrite group_in_run_eq, statistics_renamed.
    + pose proof (apply_log_erased (group rt (map (rename_node (drawn rt)) l0))
                    (o :: os)) as L1.
      pose proof (apply_log_erased (group counting l0) (o :: os)) as L0.
      rewrite Hg in L1. rewrite <- L0 in L1.
      unfold OverrideManagerService.apply in L1.
      destruct (apply_with_import_fails
                  (group rt (map (rename_node (drawn rt)) l0)) o os) as [lg1 A1].
      destruct (apply_with_import_fails (group counting l0) o os) as [lg0 A0].
      rewrite A1, A0 in L1. simpl in L1. rewrite A1, A0.
      split; [exact L1 | reflexivity].
    + split; [reflexivity|]. simpl. unfold response_in_run. simpl.
      now rewrite group_in_run_eq, statistics_renamed.
  - split; [reflexivity|]. simpl. congruence.
Qed.
End Generated.
End InRun.

(** C9, amended.  Two runs on equal inputs end alike.  Each logs what the
    run that draws the identifiers 0, 1, 2, ... logs, and each returns
    the response of that run with, in the path id, in the node id of every
    item and in its prerequisites, the k-th identifier replaced by the k-th
    the run itself draws, the prerequisites listed in the order in which
    the run meets the set; or each raises an exception of the class that
    run raises.  So the two responses have the same items in the same
    groups and are equal in every field, the statistics with the average
    complexity included, but for this renaming of the generated
    identifiers and the order inside a list of prerequisites. *)
Theorem generation_is_deterministic_up_to_generated_ids
  (UUID_of_str : string -> option UUID)
  (request : GenerateLearningPathRequest) (repositories : list Repository)
  (pending : option (list OverrideManagerService.OverrideInstruction))
  (rt1 rt2 : Runtime) :
  runtime_ok rt1 -> runtime_ok rt2 ->
  outcome_in_run rt1
    (PathGeneratorService.generate UUID_of_str counting request repositories pending)
    (PathGeneratorService.generate UUID_of_str rt1 request repositories pending)
  /\ outcome_in_run rt2
       (PathGeneratorService.generate UUID_of_str counting request repositories
          pending)
       (PathGeneratorService.generate UUID_of_str rt2 request repositories pending).
Proof.
  intros H1 H2. split; now apply generate_in_run.
Qed.

(** Two runs the theorem applies to: they draw different identifiers and
    walk their sets in opposite orders. *)
Lemma generation_is_deterministic_up_to_generated_ids_witness :
  outcome_in_run rt0
    (PathGeneratorService.generate no_uuid counting default_request site_repos None)
    (PathGeneratorService.generate no_uuid rt0 default_request site_repos None)
  /\ outcome_in_run rt_reversed
       (PathGeneratorService.generate no_uuid counting default_request site_repos
          None)
       (PathGeneratorService.generate no_uuid rt_reversed default_request
          site_repos None).
Proof.
  apply (generation_is_deterministic_up_to_generated_ids no_uuid default_request
           site_repos None rt0 rt_reversed); run_ok.
Defined.
